(* ===== verification/_CoqProject ===== *)
-Q . S2P
Prelude.v
Str.v
Model.v
UuidHex.v
Config.v
ConfigEnv.v
StoreSpec.v
Rows.v
MailSpec.v
MemoryStore.v
MemoryStoreLaws.v
MemoryMessages.v
MemoryClaims.v
MemoryInvariant.v
MemoryInbox.v
MailHistory.v
Sql.v
SqlLaws.v
SqlInvariant.v
SqlMessages.v
SqliteStore.v
PostgresStore.v
SqliteLaws.v
PostgresLaws.v
SqlClaims.v
SqlMail.v
SqlAtomic.v
SqlRoundtrip.v
SqlListing.v
SqlInbox.v
SqlInboxLaws.v
Working.v
SmtpCommands.v
SmtpIo.v
Regex.v
Otp.v
OtpLaws.v
Mime.v
Events.v
SmtpSession.v
SmtpSessionLaws.v
RateLimiter.v
Limits.v
CustomDomains.v
Dns.v
Attest.v
Cleanup.v
RevenueCat.v
Push.v
PushLaws.v
Api.v
ApiAddresses.v
ApiLaws.v
ApiClient.v
ApiDownloads.v
ApiMessages.v
Delivery.v
Conversation.v
Expiry.v
ApiPush.v
LiveEvents.v
ApiRouter.v
Pages.v
Tls.v
Boot.v
UnitTests.v
StoreConformance.v
SmtpDelivery.v
