(* ===== verification/Prelude.v ===== *)
(** * anony-mail: a verification library

    anony-mail is a disposable-mail service: an SMTP server that accepts mail for
    mailboxes that exist, a store with quotas and expiry, and an HTTP API through which
    mailboxes are created, read, extended, rotated and deleted. This library models the
    service's own logic as functions and proves the theorems that make it correct. Claims
    are numbered C1, C2, ... in the comments of their theorems.

    ** The parts and how they interact

    The SMTP receiver ([src/smtp]) admits a connection (rate limit, permits), reads
    commands, accepts recipients by asking the store, reads the DATA phase, converts the
    message ([src/mime.rs]) and saves one copy per recipient, publishing an event for each
    ([src/events.rs], with a one-time code found by [src/otp.rs]). The HTTP handlers
    ([src/api]) pass gates (client token, owner token, tier, quotas) and then make one
    change to the store. Custom domains ([src/custom_domains.rs]) are claimed through the
    API and verified against DNS. Both sides use the storage trait of [src/store/mod.rs],
    which an in-memory table, SQLite and PostgreSQL implement. A push worker
    ([src/push.rs]) receives the published events, notifies the subscriptions of the
    mailbox and prunes the dead ones; event streams ([src/api/sse.rs]) forward them.

    ** The files

    - [Prelude] (this file): machine integers, results, the state-and-error monad [M], the
      environment (clock, identifiers, randomness), sorting, tactics, shared lemmas.
    - [Str]: Rust strings and bytes: a string is its list of scalar values, with UTF-8
      encoding and the lossy decoding written out.
    - [Model], [Config]: [src/model.rs], [src/config.rs] (record, defaults, predicates).
      [ConfigEnv]: [Config::from_env]. [UuidHex]: identifiers as hexadecimal text, an
      instance of the class [UuidText] the SQLite backend is verified against.
    - [StoreSpec]: the trait as a class [Store] of operations, and [StoreLaws], the
      abstract view of a store and what its operations promise on that view; sequences of
      calls ([run_ops]). [MailSpec]: the class [MailLaws], the other half of the contract:
      an abstract inbox for each mailbox, and what every call does to it.
    - [MemoryStore]: [src/store/memory.rs], every operation, named [mem_] and the method.
      [MemoryStoreLaws] is the refinement proof; [MemoryMessages] the theory of quotas and
      listings; [MemoryClaims] the theorems about messages, removal, subscriptions and
      counters; [MemoryInvariant] the invariant of every sequence of calls; [MemoryInbox]
      the instance of [MailLaws]. [MailHistory]: any sequence of calls against [MailLaws].
    - [Rows]: the structs the two database drivers fill from a query, and their conversions
      into the types of [Model].
    - [Sql]: the relational model both databases share: tables with their keys, the
      statements, a round trip that may fail, transactions, and the methods whose
      statements are the same in both. [SqliteStore], [PostgresStore]: the methods of
      [src/store/sqlite.rs] and [src/store/postgres.rs], named [lite_] and [pg_] and the
      method. [SqlLaws], [SqliteLaws], [PostgresLaws] are the refinement proofs;
      [SqlInvariant] the integrity of the tables under every method; [SqlMessages] the
      theory of the two quota statements; [SqlClaims], [SqlMail], [SqlAtomic],
      [SqlRoundtrip] and [SqlListing] the theorems; [SqlInbox] and [SqlInboxLaws] the
      instances of [MailLaws] for both databases. [Working]: when each backend is in
      working order ([WorkingStore] of [MailSpec]).
    - [SmtpCommands]: [src/smtp/commands.rs]. [SmtpIo]: line reading, replies and the DATA
      phase of [src/smtp/session.rs] on a connection that delivers chunks, errors and
      stalls. [SmtpSession]: the rest of that file, the command loop against [Store];
      [SmtpSessionLaws] its theorems, for any store that satisfies [StoreLaws].
    - [RateLimiter]: [src/smtp/mod.rs]. [Mime], [Events]: the files of those names.
    - [Regex]: the syntax of the regular expressions the source writes, with their meaning
      as a relation and as the leftmost-first search. [Otp]: [src/otp.rs], its four
      expressions and the extractor; [OtpLaws] its theorems.
    - [Limits]: [src/api/limits.rs]. [CustomDomains]: [src/custom_domains.rs] against the
      trait [DomainDns]; [Dns]: its implementation over the hickory resolver.
    - [Api]: errors, owner and client tokens, gates ([src/api/mod.rs], [src/api/auth.rs],
      [src/entitlements.rs], [src/api/entitlements.rs]). [ApiAddresses]: the endpoints of
      [src/api/addresses.rs], [src/api/messages.rs] and [src/api/custom_domains.rs].
      [ApiLaws]: their theorems, for any store that satisfies [StoreLaws]. [ApiDownloads]:
      the download endpoints of [src/api/messages.rs] and their headers. [ApiMessages]: the
      message endpoints against [MailLaws]. [RevenueCat]: the purchase verifier of
      [src/entitlements.rs], its requests and its cache.
    - [Delivery]: the composition of the SMTP receiver and the message endpoints over any
      store with [MailLaws]. [Conversation]: the whole session of a conforming client.
      [Expiry]: the composition of the cleanup task and the message endpoints.
      [LiveEvents]: that of the receiver, the event bus and the streams.
    - [Push]: [src/push.rs], the worker and the two senders. [PushLaws]: the class
      [SubscriptionLaws], what a store promises of its subscriptions, with an instance for
      each backend, and the theorems on delivery. [ApiPush]: the endpoints of
      [src/api/push.rs] and the event stream of [src/api/sse.rs].
    - [ApiRouter]: the rest of [src/api/mod.rs] (routes and layers, CORS, probes, the
      rendering of errors) with the routes of [src/api/docs.rs] and [src/api/legal.rs].
      [Pages]: what those two files answer. [Tls]: [src/smtp/tls.rs]. [Boot]: [run] and
      [build_store] of [src/lib.rs], [main] and [SqliteStore::connect_with].
    - [Attest]: the challenges of [src/attest.rs]. [ApiClient]: the rest of that file and
      the endpoints of [src/api/client.rs]. [Cleanup]: [src/cleanup.rs].
    - [StoreConformance], [SmtpDelivery], [UnitTests]: the repository's own tests, that is
      [tests/store_conformance.rs] on all three stores, [tests/smtp_delivery.rs] on the
      session, and the unit tests of [src/], each evaluated on the models.

    Record fields carry the initials of their struct; a handler or method is a definition
    of the same name where that name is free, with its component as a prefix otherwise.

    ** What the theorems show

    - The session: the server is not an open relay, the catch-all is confined, every
      reachable transaction is well formed, every session ends, STARTTLS drops buffered
      plaintext, and DATA stores exactly what was sent, once per recipient.
    - From end to end, on every backend: that a conforming client is served and its mail
      read, what DATA puts into the inboxes, that the recipient then reads it through the
      API and follows it live, that a session does nothing but deliver, that the message
      endpoints answer the inbox and change only what they name, that mail comes only from
      a save for its address however the components interleave, and that expired mail is
      gone. The clients' theorems are proved against [MailLaws]; the three backends
      discharge it.
    - Reading: lines and messages do not depend on how the network cuts them; the DATA
      phase inverts dot-stuffing, terminates, and resumes after the terminator.
    - The in-memory store: it refines the interface; quotas hold and discard the oldest
      mail of that mailbox only; messages, raw forms and attachments read back; listings
      are newest first behind a cursor; removal cascades; any sequence of calls keeps the
      tables well formed.
    - The databases: both refine the same interface whichever round trips fail; any
      sequence of calls with any failures keeps their tables consistent and decodable; a
      save is all or nothing, keeps exactly what the quotas allow and reads back; the
      quota statements of PostgreSQL discard what the in-memory walk discards, and its
      listings are those of the in-memory store.
    - Notifications: targets are attached and removed only with the owner token and only
      with validated fields, and only those the request names; delivery prunes exactly the
      endpoints declared gone; the
      worker delivers every event received; a stream carries its own mailbox's events.
    - Configuration and start: what loads from the environment is well formed; a service
      that starts has the store, the routes behind their layers and the tasks its
      configuration asks for, and the router serves the documented operations exactly, each
      by its own handler.
    - Admission and limits: the sliding window, the report throttle, the permits, the
      event-stream slots and the daily quotas are exact over any history.
    - Custom domains: what can be claimed, that verified means recently proved, and what
      records the zone must answer.
    - One-time codes: a reported code stands in the mail the way one of the patterns says,
      with the boundaries that pattern has, and a plainly announced code is found.
    - The API: nobody changes a mailbox without its owner token; creation, extension and
      rotation do what they promise and nothing else; tiers cap devices and lifetimes;
      attachments are served safely whatever the sender named them or said they are.
    - Attestation: challenges are single-use and in time, counters only move forward, and
      an assertion earns at most one token.
    - Small components: command spelling, plus-tags, message conversion.

    ** Modelling choices

    - Errors are values of [result]; [?] is the bind of [M], and the state reached before
      an error is kept. Each store operation holds the lock throughout, so it is one
      transition. Interleavings are explicit sequences of transitions.
    - [Utc::now], [Instant::now], [Uuid::new_v4] and the random source are streams in
      [Env], where [Instant] and the wall clock are one stream, and a method that draws
      before it takes its lock draws before its transition; theorems that need fresh identifiers or a clock that does not run backwards
      say so. Times are nanoseconds. Additions of durations to a time are not bounded.
    - Integers keep their width where the code casts or saturates ([as_i32], [as_i64],
      [saturating_add_u64]).
    - Fuel: [read_data] gives its loop one turn more than the bytes and events left, which
      [read_data_total] proves is enough; the command loop takes fuel and
      [session_terminates] proves that enough exists from any state.
    - A [HashMap] is a [gmap]; where the source collects its values the order is that of
      [map_to_list].
    - A database is a record of tables ([gmap] from the primary key to the other columns).
      A statement is a function on it; foreign keys refuse or cascade as the migrations
      declare. Each round trip consumes one element of a stream of failures, and a failed
      transaction, its commit included, leaves the tables as they were. Methods run one
      after the other: isolation between connections is the database's. The two backends
      differ in the type of identifiers (text in SQLite, UUIDs in PostgreSQL), in the
      order in which clock and identifiers are drawn, and in the statements of
      [extend_mailbox], [add_subscription] and the listings. Instants are compared as
      numbers: PostgreSQL keeps whole microseconds, so its model is that of a server whose
      clock and durations are whole microseconds; the text SQLite keeps orders as the
      instants do and is not modelled.
    - The regex crate is the class [RegexEngine]: its tables of digits and word characters,
      of which only the ASCII part is fixed and that digits are word characters, and its search, which agrees with the
      documented leftmost-first one on expressions that always consume and capture. The
      bus is the sequence of events sent; what its channel promises a receiver is the
      relation [receives].
    - Third-party code is a parameter: the regex engine, the mail parser, the DNS
      resolver, the TLS handshake, free disk space, IP and socket address parsing,
      hashing, base64, JSON web tokens, App Attest and CBOR, header values, the text of
      identifiers, the push clients, the file system, sockets, database drivers, the
      HTTP router and its rate limiter, rustls and the purchase service. Where a theorem
      relies on such code, the class states what is documented.

    ** What is not modelled

    How the migrations run and the pragmas of the databases (the tables they declare are
    in [Sql]); how the router library dispatches a request and decodes and encodes bodies,
    with the layer that [src/lib.rs] wraps around the router to drop trailing slashes; the
    text of the embedded pages; the collection of stale state in the rate limiter of the API;
    logging. *)

From stdpp Require Export base tactics list gmap strings pretty sorting.


Declare Scope rust_scope.
Delimit Scope rust_scope with rust.
#[global] Open Scope Z_scope.

(** ** Machine integers *)

(** The bounds of the integer types of the source and the conversions it writes
    with [as]: a truncating cast keeps the low bits, a signed one reads them in
    two's complement. *)
Definition u8_max : Z := 255.
Definition u32_max : Z := 4294967295.
Definition i32_max : Z := 2147483647.
Definition i64_max : Z := 9223372036854775807.
Definition u64_max : Z := 18446744073709551615.

Definition wrap_unsigned (w x : Z) : Z := x mod 2 ^ w.
Definition wrap_signed (w x : Z) : Z :=
  let m := x mod 2 ^ w in if decide (m < 2 ^ (w - 1)) then m else m - 2 ^ w.

Definition as_i32 (x : Z) : Z := wrap_signed 32 x.
Definition as_i64 (x : Z) : Z := wrap_signed 64 x.
Definition as_u64 (x : Z) : Z := wrap_unsigned 64 x.

(** [u64::saturating_add], [usize::saturating_add] on a 64-bit target. *)
Definition saturating_add_u64 (a b : Z) : Z := Z.min (a + b) u64_max.

(** The length of a list as the [usize] the source computes with. *)
Notation "'len' l" := (Z.of_nat (length l)) (at level 10, l at level 9) : rust_scope.
#[global] Open Scope rust_scope.

(** ** Results, and state with errors *)

Inductive result (A E : Type) : Type :=
| Ok (a : A)
| Err (e : E).
Arguments Ok {_ _} _.
Arguments Err {_ _} _.

Definition is_Ok {A E} (r : result A E) : Prop := match r with Ok _ => True | Err _ => False end.

Definition map_err {A E E'} (f : E → E') (r : result A E) : result A E' :=
  match r with Ok a => Ok a | Err e => Err (f e) end.

Definition ok_or {A E} (o : option A) (e : E) : result A E :=
  match o with Some a => Ok a | None => Err e end.

(** [collect::<Result<Vec<_>, _>>()]: the first error, or all the values. *)
Fixpoint collect {A E} (l : list (result A E)) : result (list A) E :=
  match l with
  | [] => Ok []
  | Err e :: _ => Err e
  | Ok a :: l => match collect l with Ok l => Ok (a :: l) | Err e => Err e end
  end.

(** A computation over a world [W] that may stop early with an error: the state
    reached before the error is kept, as the mutations of the source are. *)
Definition M (W E A : Type) : Type := W → result A E * W.

#[global] Instance M_ret W E : MRet (M W E) := λ A a w, (Ok a, w).
#[global] Instance M_bind W E : MBind (M W E) := λ A B k m w,
  match m w with
  | (Ok a, w') => k a w'
  | (Err e, w') => (Err e, w')
  end.

Definition throw {W E A} (e : E) : M W E A := λ w, (Err e, w).
Definition gets {W E A} (f : W → A) : M W E A := λ w, (Ok (f w), w).
Definition modify {W E} (f : W → W) : M W E unit := λ w, (Ok tt, f w).
Definition of_result {W E A} (r : result A E) : M W E A := λ w, (r, w).

(** Run [m] and hand its outcome, error included, to the caller (the source
    matches on the [Result] of an awaited call instead of writing [?]). *)
Definition try {W E E' A} (m : M W E A) : M W E' (result A E) :=
  λ w, let '(r, w') := m w in (Ok r, w').

(** [?] with a conversion of the error ([From]). *)
Definition with_err {W E E' A} (f : E → E') (m : M W E A) : M W E' A :=
  λ w, let '(r, w') := m w in (map_err f r, w').

(** Run a computation over one part of the world. *)
Definition zoom {V W E A} (get : W → V) (set : V → W → W) (m : M V E A) : M W E A :=
  λ w, let '(r, v') := m (get w) in (r, set v' w).

(** ** The environment the process reads

    [Utc::now()], [Instant::now()], [Uuid::new_v4()] and the CSPRNG are inputs of
    the process. Each is a stream, one element consumed per call. Times and
    durations are in nanoseconds, a [Uuid] is its 128-bit value. *)
Abbreviation Time := Z (only parsing).
Abbreviation Uuid := Z (only parsing).

Record Env := mkEnv {
  e_clock : nat → Z;
  e_uuid : nat → Z;
  e_rand : nat → Z;
}.

Definition shift {A} (f : nat → A) : nat → A := λ n, f (S n).

Definition env_now (e : Env) : Z * Env :=
  (e_clock e 0%nat, mkEnv (shift (e_clock e)) (e_uuid e) (e_rand e)).
Definition env_new_v4 (e : Env) : Z * Env :=
  (e_uuid e 0%nat, mkEnv (e_clock e) (shift (e_uuid e)) (e_rand e)).
(** A random number below [k]. *)
Definition env_random (k : Z) (e : Env) : Z * Env :=
  (e_rand e 0%nat mod k, mkEnv (e_clock e) (e_uuid e) (shift (e_rand e))).
Fixpoint env_randoms (k : Z) (n : nat) (e : Env) : list Z * Env :=
  match n with
  | O => ([], e)
  | S n => let '(x, e) := env_random k e in
           let '(xs, e) := env_randoms k n e in (x :: xs, e)
  end.

Definition nanos_per_second : Z := 1000000000.
Definition seconds (n : Z) : Z := n * nanos_per_second.
Definition hours (n : Z) : Z := seconds (n * 3600).
Definition days (n : Z) : Z := hours (n * 24).

(** [Instant::duration_since]: zero when the other instant is later. *)
Definition duration_since (now earlier : Z) : Z := Z.max 0 (now - earlier).

(** ** Sorting

    [slice::sort_by] is a stable sort: equal elements keep their order. *)
Section sort_by.
Context {A : Type} (cmp : A → A → comparison).

Fixpoint insert_by (x : A) (l : list A) : list A :=
  match l with
  | [] => [x]
  | y :: l' => match cmp x y with
               | Gt => y :: insert_by x l'
               | _ => x :: l
               end
  end.

Definition sort_by (l : list A) : list A := foldr insert_by [] l.
End sort_by.

(** [Ordering::then]. *)
Definition ordering_then (a b : comparison) : comparison :=
  match a with Eq => b | _ => a end.

(** Lexicographic comparison of [(received_at, id)] pairs. *)
Definition cmp_key (a b : Z * Z) : comparison :=
  ordering_then (a.1 ?= b.1) (a.2 ?= b.2).
Definition key_lt (a b : Z * Z) : Prop := cmp_key a b = Lt.
#[global] Instance key_lt_dec : RelDecision key_lt.
Proof. intros a b. unfold key_lt. apply _. Defined.

(** [filter_map] and [find_map]. *)
Fixpoint filter_map {A B} (f : A → option B) (l : list A) : list B :=
  match l with
  | [] => []
  | x :: l => match f x with Some y => y :: filter_map f l | None => filter_map f l end
  end.
Fixpoint find_map {A B} (f : A → option B) (l : list A) : option B :=
  match l with
  | [] => None
  | x :: l => match f x with Some y => Some y | None => find_map f l end
  end.

(** [Iterator::find], [any], [all], [retain]/[filter] with a boolean predicate. *)
Fixpoint find {A} (p : A → bool) (l : list A) : option A :=
  match l with
  | [] => None
  | x :: l => if p x then Some x else find p l
  end.
Definition any {A} (p : A → bool) (l : list A) : bool := existsb p l.
Definition all {A} (p : A → bool) (l : list A) : bool := forallb p l.
Abbreviation retain := List.filter (only parsing).

(** [iter_mut().find(p)] followed by a mutation of the element found. *)
Fixpoint update_first {A} (p : A → bool) (f : A → A) (l : list A) : list A :=
  match l with
  | [] => []
  | x :: l => if p x then f x :: l else x :: update_first p f l
  end.

(** A timed trace in order: each event at or after [now] and the previous ones. *)
Fixpoint ordered_from {A} (now : Z) (l : list (A * Z)) : Prop :=
  match l with
  | [] => True
  | (_, t) :: l => now ≤ t ∧ ordered_from t l
  end.

(** ** Automation *)

Create HintDb rust.

(** Unfold the monad on a computation whose pieces are known. *)
Ltac runM :=
  unfold mbind, M_bind, mret, M_ret, throw, gets, modify, of_result, try, with_err,
    zoom in *; cbn beta iota zeta in *.

(** Turn boolean tests in the context and the goal into propositions. *)
Ltac boolify :=
  repeat match goal with
  | H : _ && _ = true |- _ => apply andb_prop in H as [? ?]
  | H : _ || _ = false |- _ => apply orb_false_elim in H as [? ?]
  | H : negb _ = true |- _ => apply negb_true_iff in H
  | H : negb _ = false |- _ => apply negb_false_iff in H
  | H : bool_decide _ = true |- _ => apply bool_decide_eq_true in H
  | H : bool_decide _ = false |- _ => apply bool_decide_eq_false in H
  | |- _ && _ = true => apply andb_true_intro; split
  | |- negb _ = true => apply negb_true_iff
  | |- bool_decide _ = true => apply bool_decide_eq_true
  | |- bool_decide _ = false => apply bool_decide_eq_false
  end.

(** Case split on the next scrutinee of the goal or of [H]. *)
Ltac split_match :=
  match goal with
  | |- context [match ?x with _ => _ end] => destruct x eqn:?
  end.
Ltac split_match_in H :=
  match type of H with
  | context [match ?x with _ => _ end] => destruct x eqn:?
  end.

(** ** Facts about the monad *)

Lemma bind_ok {W E A B} (m : M W E A) (k : A → M W E B) w a w' :
  m w = (Ok a, w') → (m ≫= k) w = k a w'.
Proof. intros H. unfold mbind, M_bind. by rewrite H. Qed.

Lemma bind_err {W E A B} (m : M W E A) (k : A → M W E B) w e w' :
  m w = (Err e, w') → (m ≫= k) w = (Err e, w').
Proof. intros H. unfold mbind, M_bind. by rewrite H. Qed.

(** A [bind] that succeeds went through both halves. *)
Lemma bind_inv {W E A B} (m : M W E A) (k : A → M W E B) w b w'' :
  (m ≫= k) w = (Ok b, w'') → ∃ a w', m w = (Ok a, w') ∧ k a w' = (Ok b, w'').
Proof.
  unfold mbind, M_bind. destruct (m w) as [[a|e] w'] eqn:Hm; [|done].
  intros H. by exists a, w'.
Qed.

(** A predicate on worlds kept by both halves is kept by their sequence. *)
Definition preserves {W E A} (P : W → Prop) (m : M W E A) : Prop :=
  ∀ w, P w → P (m w).2.

Lemma preserves_bind {W E A B} (P : W → Prop) (m : M W E A) (k : A → M W E B) :
  preserves P m → (∀ a, preserves P (k a)) → preserves P (m ≫= k).
Proof.
  intros Hm Hk w Hw. unfold mbind, M_bind. specialize (Hm w Hw).
  destruct (m w) as [[a|e] w']; cbn in *; [by apply Hk|done].
Qed.
Lemma preserves_ret {W E A} (P : W → Prop) (a : A) : preserves P (mret a : M W E A).
Proof. by intros w. Qed.
Lemma preserves_throw {W E A} (P : W → Prop) (e : E) : preserves P (throw e : M W E A).
Proof. by intros w. Qed.
Lemma preserves_try {W E E' A} (P : W → Prop) (m : M W E A) :
  preserves P m → preserves P (try m : M W E' _).
Proof. intros Hm w Hw. unfold try. specialize (Hm w Hw). by destruct (m w). Qed.
#[export] Hint Resolve preserves_bind preserves_ret preserves_throw preserves_try : rust.

(** ** Facts about orderings and sorting *)

Lemma cmp_key_eq a b : cmp_key a b = Eq ↔ a = b.
Proof.
  destruct a as [a1 a2], b as [b1 b2]. unfold cmp_key, ordering_then. cbn.
  destruct (Z.compare_spec a1 b1), (Z.compare_spec a2 b2); split; intros; simplify_eq; done || lia.
Qed.
Lemma cmp_key_lt a b : cmp_key a b = Lt ↔ a.1 < b.1 ∨ a.1 = b.1 ∧ a.2 < b.2.
Proof.
  unfold cmp_key, ordering_then.
  destruct (Z.compare_spec a.1 b.1), (Z.compare_spec a.2 b.2); split; intros; try done; lia.
Qed.
Lemma cmp_key_gt a b : cmp_key a b = Gt ↔ cmp_key b a = Lt.
Proof.
  rewrite cmp_key_lt. unfold cmp_key, ordering_then.
  destruct (Z.compare_spec a.1 b.1), (Z.compare_spec a.2 b.2); split; intros; try done; lia.
Qed.
Lemma cmp_key_not_gt a b : cmp_key a b ≠ Gt ↔ a = b ∨ key_lt a b.
Proof.
  unfold key_lt. rewrite <-cmp_key_eq. destruct (cmp_key a b); split; intros H; auto; try done; by destruct H.
Qed.
Lemma key_lt_irrefl a : ¬ key_lt a a.
Proof. unfold key_lt. rewrite cmp_key_lt. lia. Qed.
Lemma key_lt_trans a b c : key_lt a b → key_lt b c → key_lt a c.
Proof. unfold key_lt. rewrite !cmp_key_lt. lia. Qed.

Section sort_by_facts.
Context {A : Type} (cmp : A → A → comparison).
Hypothesis cmp_total : ∀ x y, cmp x y = Gt → cmp y x ≠ Gt.
Hypothesis cmp_trans : ∀ x y z, cmp x y ≠ Gt → cmp y z ≠ Gt → cmp x z ≠ Gt.

Lemma insert_by_Permutation x l : insert_by cmp x l ≡ₚ x :: l.
Proof.
  clear cmp_total cmp_trans.
  induction l as [|y l IH]; [done|]. cbn. destruct (cmp x y); [done..|].
  rewrite IH. apply Permutation_swap.
Qed.

Lemma sort_by_Permutation l : sort_by cmp l ≡ₚ l.
Proof.
  clear cmp_total cmp_trans.
  induction l as [|x l IH]; [done|]. unfold sort_by in *. cbn.
  by rewrite insert_by_Permutation, IH.
Qed.

Lemma insert_by_StronglySorted x l :
  StronglySorted (λ x y, cmp x y ≠ Gt) l →
  StronglySorted (λ x y, cmp x y ≠ Gt) (insert_by cmp x l).
Proof.
  induction 1 as [|y l Hl IH Hy]; cbn; [by repeat constructor|].
  destruct (cmp x y) eqn:Hxy.
  1, 2: constructor; [by constructor|]; constructor; [congruence|];
    eapply Forall_impl; [exact Hy|]; intros z Hz; eapply cmp_trans; [|exact Hz]; congruence.
  constructor; [done|]. rewrite insert_by_Permutation. constructor; [by apply cmp_total|done].
Qed.

Lemma sort_by_StronglySorted l : StronglySorted (λ x y, cmp x y ≠ Gt) (sort_by cmp l).
Proof.
  induction l as [|x l IH]; [constructor|]. unfold sort_by in *. cbn.
  by apply insert_by_StronglySorted.
Qed.
End sort_by_facts.

(** ** Facts about lists *)

Lemma find_Some {A} (p : A → bool) l x : find p l = Some x → x ∈ l ∧ p x = true.
Proof.
  induction l as [|y l IH]; cbn; [done|]. destruct (p y) eqn:Hp.
  - intros [= ->]. split; [left|done].
  - intros H. destruct (IH H). split; [by right|done].
Qed.
Lemma find_None {A} (p : A → bool) l : find p l = None ↔ ∀ x, x ∈ l → p x = false.
Proof.
  induction l as [|y l IH]; cbn.
  - split; [|done]. intros _ x H. by apply not_elem_of_nil in H.
  - destruct (p y) eqn:Hp.
    + split; [done|]. intros H. specialize (H y ltac:(left)). congruence.
    + rewrite IH. setoid_rewrite elem_of_cons. naive_solver.
Qed.
Lemma elem_of_retain {A} (p : A → bool) (l : list A) x :
  x ∈ retain p l ↔ x ∈ l ∧ p x = true.
Proof. rewrite !list_elem_of_In. apply filter_In. Qed.
Lemma retain_Permutation {A} (p : A → bool) (l k : list A) :
  l ≡ₚ k → retain p l ≡ₚ retain p k.
Proof.
  induction 1 as [|x l k _ IH|x y l|l k m _ IH1 _ IH2]; cbn; repeat case_match;
    auto using Permutation_swap, perm_skip; by etrans.
Qed.
Lemma retain_true {A} (p : A → bool) (l : list A) :
  (∀ x, x ∈ l → p x = true) → retain p l = l.
Proof.
  induction l as [|x l IH]; intros H; [done|]. cbn. rewrite (H x ltac:(left)). f_equal.
  apply IH. intros y Hy. apply H. by right.
Qed.
Lemma retain_app {A} (p : A → bool) (l k : list A) :
  retain p (l ++ k) = retain p l ++ retain p k.
Proof. apply List.filter_app. Qed.
Lemma retain_retain {A} (p q : A → bool) (l : list A) :
  retain p (retain q l) = retain (λ x, q x && p x) l.
Proof.
  induction l as [|x l IH]; [done|]. cbn. destruct (q x); cbn; [|done].
  destruct (p x); by rewrite IH.
Qed.
Lemma retain_length {A} (p : A → bool) (l : list A) : (length (retain p l) ≤ length l)%nat.
Proof. induction l as [|x l IH]; cbn; [lia|]. destruct (p x); cbn; lia. Qed.
Lemma update_first_length {A} (p : A → bool) f (l : list A) :
  length (update_first p f l) = length l.
Proof. induction l as [|x l IH]; cbn; [done|]. destruct (p x); cbn; by rewrite ?IH. Qed.

Lemma retain_map {A B} (f : A → B) (p : B → bool) l :
  retain p (map f l) = map f (retain (λ x, p (f x)) l).
Proof. induction l as [|x l IH]; cbn; [done|]. destruct (p (f x)); cbn; by rewrite IH. Qed.
Lemma retain_none {A} (p : A → bool) l : (∀ x, x ∈ l → p x = false) → retain p l = [].
Proof.
  intros H. destruct (retain p l) as [|x k] eqn:Hx; [done|].
  assert (x ∈ retain p l) as [Hin Hp]%elem_of_retain by (rewrite Hx; left).
  rewrite (H x Hin) in Hp. done.
Qed.
Lemma retain_ext {A} (p q : A → bool) l :
  (∀ x, x ∈ l → p x = q x) → retain p l = retain q l.
Proof.
  induction l as [|x l IH]; intros H; cbn; [done|]. rewrite (H x ltac:(left)), IH; [done|].
  intros y Hy. apply H. by right.
Qed.
Lemma retain_dropped_tail {A} (p : A → bool) n l :
  (∀ x, x ∈ drop n l → p x = false) → (length (retain p l) ≤ n)%nat.
Proof.
  intros H. rewrite <-(take_drop n l), retain_app, length_app, (retain_none p (drop n l)) by done.
  pose proof (retain_length p (take n l)). rewrite length_take in *. cbn. lia.
Qed.

Lemma StronglySorted_retain {A} (R : A → A → Prop) (p : A → bool) l :
  StronglySorted R l → StronglySorted R (retain p l).
Proof.
  induction 1 as [|x l Hl IH Hx]; cbn; [constructor|]. destruct (p x); [|done].
  constructor; [done|]. rewrite Forall_forall in *. intros y [Hy _]%elem_of_retain. auto.
Qed.
Lemma StronglySorted_take {A} (R : A → A → Prop) n l :
  StronglySorted R l → StronglySorted R (take n l).
Proof.
  intros H. revert n. induction H as [|x l Hl IH Hx]; intros [|n]; cbn; try constructor; auto.
  by apply Forall_take.
Qed.
Lemma StronglySorted_snoc {A} (R : A → A → Prop) l x :
  StronglySorted R l → Forall (λ y, R y x) l → StronglySorted R (l ++ [x]).
Proof.
  induction 1 as [|y l Hl IH Hy]; intros Hx; cbn; [by repeat constructor|].
  apply Forall_cons in Hx as [Hyx Hx]. constructor; [auto|]. apply Forall_app. split; [done|].
  by constructor.
Qed.
Lemma NoDup_map_inj {A B} (f : A → B) (l : list A) x y :
  NoDup (map f l) → x ∈ l → y ∈ l → f x = f y → x = y.
Proof.
  induction l as [|z l IH]; cbn; [intros _ H; by apply not_elem_of_nil in H|].
  intros [Hz Hl]%NoDup_cons Hx Hy Hf.
  assert (∀ u, u ∈ l → f u ∈ map f l) as Hin.
  { intros u Hu. apply list_elem_of_In, in_map. by apply list_elem_of_In. }
  apply elem_of_cons in Hx as [->|Hx], Hy as [->|Hy]; auto; exfalso; apply Hz.
  - rewrite Hf. auto.
  - rewrite <-Hf. auto.
Qed.
Lemma map_retain_NoDup {A B} (f : A → B) p (l : list A) :
  NoDup (map f l) → NoDup (map f (retain p l)).
Proof.
  induction l as [|x l IH]; cbn; [done|]. rewrite NoDup_cons. intros [Hx Hl].
  destruct (p x); [|auto]. cbn. constructor; [|auto]. intros Hin. apply Hx.
  apply list_elem_of_In, in_map_iff in Hin as (y & Hy & Hin). rewrite <-Hy.
  apply list_elem_of_In, in_map. apply filter_In in Hin as [??]. done.
Qed.
Lemma any_true {A} (p : A → bool) l : any p l = true ↔ ∃ x, x ∈ l ∧ p x = true.
Proof. unfold any. rewrite existsb_exists. by setoid_rewrite list_elem_of_In. Qed.
Lemma elem_of_filter_map {A B} (f : A → option B) l y :
  y ∈ filter_map f l → ∃ x, x ∈ l ∧ f x = Some y.
Proof.
  induction l as [|x l IH]; cbn; [by intros ?%not_elem_of_nil|]. destruct (f x) as [z|] eqn:Hx.
  - intros [->|Hy]%elem_of_cons; [exists x; by split; [left|]|].
    destruct (IH Hy) as (v & Hv & ?). exists v. by split; [right|].
  - intros Hy. destruct (IH Hy) as (v & Hv & ?). exists v. by split; [right|].
Qed.
Lemma all_app {A} (p : A → bool) l1 l2 : all p (l1 ++ l2) = all p l1 && all p l2.
Proof. apply forallb_app. Qed.
Lemma all_true {A} (p : A → bool) l : all p l = true ↔ ∀ x, x ∈ l → p x = true.
Proof. unfold all. rewrite forallb_forall. by setoid_rewrite list_elem_of_In. Qed.

(** ** Facts about casts *)

Lemma as_i32_id x : - 2 ^ 31 ≤ x < 2 ^ 31 → as_i32 x = x.
Proof.
  intros H. unfold as_i32, wrap_signed. case_decide as Hd.
  - destruct (decide (0 ≤ x)); [by rewrite Z.mod_small by lia|].
    rewrite <-(Z.mod_add x 1) in Hd by lia. rewrite Z.mod_small in Hd; lia.
  - destruct (decide (0 ≤ x)); [rewrite Z.mod_small in Hd by lia; lia|].
    rewrite <-(Z.mod_add x 1) by lia. rewrite Z.mod_small; lia.
Qed.
Lemma as_i64_id x : - 2 ^ 63 ≤ x < 2 ^ 63 → as_i64 x = x.
Proof.
  intros H. unfold as_i64, wrap_signed. case_decide as Hd.
  - destruct (decide (0 ≤ x)); [by rewrite Z.mod_small by lia|].
    rewrite <-(Z.mod_add x 1) in Hd by lia. rewrite Z.mod_small in Hd; lia.
  - destruct (decide (0 ≤ x)); [rewrite Z.mod_small in Hd by lia; lia|].
    rewrite <-(Z.mod_add x 1) by lia. rewrite Z.mod_small; lia.
Qed.
Lemma duration_since_lt now t w : 0 < w → duration_since now t < w ↔ now - t < w.
Proof. unfold duration_since. lia. Qed.

(** ** Facts about the environment *)

Lemma env_randoms_clock k n e : e_clock (env_randoms k n e).2 = e_clock e.
Proof.
  revert e. induction n as [|n IH]; intros e; [done|]. cbn -[env_random].
  destruct (env_random k e) as [x e1] eqn:He. injection He as _ <-.
  specialize (IH (mkEnv (e_clock e) (e_uuid e) (shift (e_rand e)))).
  by destruct (env_randoms k n _).
Qed.
Lemma env_randoms_range k n e :
  0 < k → length (env_randoms k n e).1 = n ∧ Forall (λ x, 0 ≤ x < k) (env_randoms k n e).1.
Proof.
  intros Hk. revert e. induction n as [|n IH]; intros e; [by split|]. cbn -[env_random].
  destruct (env_random k e) as [x e1] eqn:He. injection He as <- <-.
  specialize (IH (mkEnv (e_clock e) (e_uuid e) (shift (e_rand e)))) as [IH1 IH2].
  destruct (env_randoms k n _) as [xs e2]. cbn in *. split; [by rewrite IH1|].
  constructor; [|done]. by apply Z.mod_pos_bound.
Qed.
