(* ===== verification/Str.v ===== *)
(** * Str: Rust strings

    A [String] or [&str] is the list of its [char]s, each a Unicode scalar value; a
    [Vec<u8>] or [&[u8]] is a list of bytes. [str::len] counts UTF-8 bytes
    ([str_len]). An index a search returns is counted in [char]s here and in bytes in
    the source: every slice the source takes at such an index cuts the same [char]s.
    The file holds the standard-library operations the source uses, and the lemmas on
    them shared by the components. *)

From S2P Require Import Prelude.

Abbreviation str := (list Z) (only parsing).
Abbreviation bytes := (list Z) (only parsing).

(** A string literal of the source (ASCII only). *)
Definition lit (s : string) : str :=
  map (λ a, Z.of_N (Ascii.N_of_ascii a)) (String.list_ascii_of_string s).
#[global] Arguments lit : simpl never.

(** [format!("{}", n)] of an integer. *)
Definition fmt_int (n : Z) : str := lit (pretty n).

(** ** Characters *)

Definition in_range (lo hi c : Z) : bool := (lo <=? c) && (c <=? hi).

(** [char::is_whitespace]: the Unicode property [White_Space]. *)
Definition is_whitespace (c : Z) : bool :=
  in_range 9 13 c || (c =? 32) || (c =? 133) || (c =? 160) || (c =? 5760)
  || in_range 8192 8202 c || (c =? 8232) || (c =? 8233) || (c =? 8239) || (c =? 8287)
  || (c =? 12288).
(** [char::is_control]: the general category [Cc]. *)
Definition is_control (c : Z) : bool := in_range 0 31 c || in_range 127 159 c.
Definition is_ascii_lowercase (c : Z) : bool := in_range 97 122 c.
Definition is_ascii_uppercase (c : Z) : bool := in_range 65 90 c.
Definition is_ascii_digit (c : Z) : bool := in_range 48 57 c.
Definition is_ascii_alphabetic (c : Z) : bool := is_ascii_lowercase c || is_ascii_uppercase c.
Definition is_ascii_alphanumeric (c : Z) : bool := is_ascii_alphabetic c || is_ascii_digit c.
Definition is_ascii_char (c : Z) : bool := in_range 0 127 c.
Definition lower_char (c : Z) : Z := if is_ascii_uppercase c then c + 32 else c.
Definition upper_char (c : Z) : Z := if is_ascii_lowercase c then c - 32 else c.

(** ** Operations on [str] *)

Definition to_ascii_lowercase (s : str) : str := map lower_char s.
Definition to_ascii_uppercase (s : str) : str := map upper_char s.
Definition eq_ignore_ascii_case (a b : str) : bool :=
  bool_decide (to_ascii_lowercase a = to_ascii_lowercase b).
Definition is_ascii (s : str) : bool := all is_ascii_char s.

Fixpoint drop_while (p : Z → bool) (s : str) : str :=
  match s with
  | [] => []
  | c :: s' => if p c then drop_while p s' else s
  end.
Fixpoint take_while (p : Z → bool) (s : str) : str :=
  match s with
  | [] => []
  | c :: s' => if p c then c :: take_while p s' else []
  end.
Definition trim_start_by (p : Z → bool) (s : str) : str := drop_while p s.
Definition trim_end_by (p : Z → bool) (s : str) : str := rev (drop_while p (rev s)).
Definition trim_start : str → str := trim_start_by is_whitespace.
Definition trim_end : str → str := trim_end_by is_whitespace.
Definition trim (s : str) : str := trim_end (trim_start s).
Definition trim_end_matches (c : Z) : str → str := trim_end_by (Z.eqb c).

(** [str::find] with a predicate on characters, and with a string. *)
Fixpoint find_char (p : Z → bool) (s : str) : option nat :=
  match s with
  | [] => None
  | c :: s' => if p c then Some O else S <$> find_char p s'
  end.
Fixpoint starts_with (p s : str) : bool :=
  match p, s with
  | [], _ => true
  | _ :: _, [] => false
  | a :: p', b :: s' => (a =? b) && starts_with p' s'
  end.
Definition ends_with (p s : str) : bool := starts_with (rev p) (rev s).
Definition strip_prefix (p s : str) : option str :=
  if starts_with p s then Some (drop (length p) s) else None.
Fixpoint find_sub (p s : str) : option nat :=
  if starts_with p s then Some O
  else match s with [] => None | _ :: s' => S <$> find_sub p s' end.

(** [str::split_once] and [str::rsplit_once] on a character. *)
Definition split_once (p : Z → bool) (s : str) : option (str * str) :=
  match find_char p s with
  | Some i => Some (take i s, drop (S i) s)
  | None => None
  end.
Fixpoint rsplit_once (c : Z) (s : str) : option (str * str) :=
  match s with
  | [] => None
  | a :: s' =>
      match rsplit_once c s' with
      | Some (l, r) => Some (a :: l, r)
      | None => if a =? c then Some ([], s') else None
      end
  end.

(** [str::split] on a character: one piece more than there are separators. *)
Fixpoint split (c : Z) (s : str) : list str :=
  match s with
  | [] => [[]]
  | a :: s' =>
      if a =? c then [] :: split c s'
      else match split c s' with
           | p :: ps => (a :: p) :: ps
           | [] => [[a]]
           end
  end.

(** [splitn(2, char::is_whitespace)]: the first piece, and the second one if any. *)
Definition splitn2_whitespace (s : str) : str * option str :=
  match split_once is_whitespace s with
  | Some (a, b) => (a, Some b)
  | None => (s, None)
  end.
(** [split_whitespace().next()]. *)
Definition first_word (s : str) : option str :=
  match take_while (λ c, negb (is_whitespace c)) (drop_while is_whitespace s) with
  | [] => None
  | w => Some w
  end.

Fixpoint join (sep : str) (l : list str) : str :=
  match l with
  | [] => []
  | [s] => s
  | s :: l' => s ++ sep ++ join sep l'
  end.

(** A trimmed, non-empty string ([.map(str::trim).filter(|s| !s.is_empty())]). *)
Definition trimmed_nonempty (s : str) : option str :=
  match trim s with [] => None | t => Some t end.

(** ** UTF-8 *)

Definition utf8_encode_char (c : Z) : bytes :=
  if c <? 128 then [c]
  else if c <? 2048 then [192 + c / 64; 128 + c mod 64]
  else if c <? 65536 then [224 + c / 4096; 128 + (c / 64) mod 64; 128 + c mod 64]
  else [240 + c / 262144; 128 + (c / 4096) mod 64; 128 + (c / 64) mod 64; 128 + c mod 64].
Definition as_bytes (s : str) : bytes := concat (map utf8_encode_char s).
Definition str_len (s : str) : Z := len (as_bytes s).

(** [char::REPLACEMENT_CHARACTER]. *)
Definition replacement : Z := 65533.
Definition is_cont (b : Z) : bool := in_range 128 191 b.

(** [String::from_utf8_lossy]: every maximal invalid prefix of a sequence becomes one
    replacement character. *)
Fixpoint from_utf8_lossy (s : bytes) : str :=
  match s with
  | [] => []
  | a :: s1 =>
      if a <? 128 then a :: from_utf8_lossy s1
      else if in_range 194 223 a then
        match s1 with
        | b :: s2 =>
            if is_cont b then ((a - 192) * 64 + (b - 128)) :: from_utf8_lossy s2
            else replacement :: from_utf8_lossy s1
        | [] => [replacement]
        end
      else if in_range 224 239 a then
        match s1 with
        | b :: s2 =>
            if in_range (if a =? 224 then 160 else 128) (if a =? 237 then 159 else 191) b then
              match s2 with
              | c :: s3 =>
                  if is_cont c then
                    ((a - 224) * 4096 + (b - 128) * 64 + (c - 128)) :: from_utf8_lossy s3
                  else replacement :: from_utf8_lossy s2
              | [] => [replacement]
              end
            else replacement :: from_utf8_lossy s1
        | [] => [replacement]
        end
      else if in_range 240 244 a then
        match s1 with
        | b :: s2 =>
            if in_range (if a =? 240 then 144 else 128) (if a =? 244 then 143 else 191) b then
              match s2 with
              | c :: s3 =>
                  if is_cont c then
                    match s3 with
                    | d :: s4 =>
                        if is_cont d then
                          ((a - 240) * 262144 + (b - 128) * 4096 + (c - 128) * 64 + (d - 128))
                            :: from_utf8_lossy s4
                        else replacement :: from_utf8_lossy s3
                    | [] => [replacement]
                    end
                  else replacement :: from_utf8_lossy s2
              | [] => [replacement]
              end
            else replacement :: from_utf8_lossy s1
        | [] => [replacement]
        end
      else replacement :: from_utf8_lossy s1
  end.

(** A Unicode scalar value, and a string of them. *)
Definition is_char (c : Z) : bool := in_range 0 55295 c || in_range 57344 1114111 c.
Definition valid_str (s : str) : bool := all is_char s.

(** The order of text as bytes are compared; on ASCII text that is the order of the
    characters. *)
Fixpoint cmp_str (a b : str) : comparison :=
  match a, b with
  | [], [] => Eq
  | [], _ :: _ => Lt
  | _ :: _, [] => Gt
  | x :: a, y :: b => match x ?= y with Eq => cmp_str a b | c => c end
  end.

(** ** Lemmas *)

Lemma in_range_spec lo hi c : in_range lo hi c = true ↔ lo ≤ c ≤ hi.
Proof. unfold in_range. rewrite andb_true_iff, !Z.leb_le. done. Qed.
Lemma in_range_false lo hi c : in_range lo hi c = false ↔ ¬ (lo ≤ c ≤ hi).
Proof. rewrite <-in_range_spec. by rewrite not_true_iff_false. Qed.

(** Evaluate range tests on characters whose bounds [lia] knows. *)
Ltac range_case :=
  repeat match goal with
  | |- context [in_range ?a ?b ?c] =>
      lazymatch c with context [in_range] => fail | _ => idtac end;
      first [ rewrite (proj2 (in_range_spec a b c)) by lia
            | rewrite (proj2 (in_range_false a b c)) by lia
            | destruct (in_range a b c) eqn:?Hr;
              [apply in_range_spec in Hr | apply in_range_false in Hr] ]
  end.
Ltac ranges :=
  repeat match goal with
  | H : in_range _ _ _ = true |- _ => apply in_range_spec in H
  | H : in_range _ _ _ = false |- _ => apply in_range_false in H
  end.

Lemma lower_char_idemp c : lower_char (lower_char c) = lower_char c.
Proof. unfold lower_char, is_ascii_uppercase. range_case; lia. Qed.
Lemma to_ascii_lowercase_idemp s :
  to_ascii_lowercase (to_ascii_lowercase s) = to_ascii_lowercase s.
Proof.
  unfold to_ascii_lowercase. rewrite map_map. apply map_ext. apply lower_char_idemp.
Qed.
Lemma lower_char_id c : is_ascii_uppercase c = false → lower_char c = c.
Proof. unfold lower_char. by intros ->. Qed.
Lemma lower_char_other c d : is_ascii_alphabetic d = false → lower_char c = d ↔ c = d.
Proof.
  unfold lower_char, is_ascii_alphabetic, is_ascii_lowercase, is_ascii_uppercase.
  intros H. boolify. ranges. range_case; lia.
Qed.
Lemma upper_char_other c d : is_ascii_alphabetic d = false → upper_char c = d ↔ c = d.
Proof.
  unfold upper_char, is_ascii_alphabetic, is_ascii_lowercase, is_ascii_uppercase.
  intros H. boolify. ranges. range_case; lia.
Qed.
Lemma upper_lower_char c : upper_char (lower_char c) = upper_char c.
Proof. unfold upper_char, lower_char, is_ascii_uppercase, is_ascii_lowercase. range_case; lia. Qed.
Lemma to_ascii_lowercase_app a b :
  to_ascii_lowercase (a ++ b) = to_ascii_lowercase a ++ to_ascii_lowercase b.
Proof. apply map_app. Qed.
Lemma to_ascii_lowercase_length s : length (to_ascii_lowercase s) = length s.
Proof. apply length_map. Qed.
Lemma to_ascii_uppercase_lowercase s :
  to_ascii_uppercase (to_ascii_lowercase s) = to_ascii_uppercase s.
Proof.
  unfold to_ascii_uppercase, to_ascii_lowercase. rewrite map_map. apply map_ext.
  apply upper_lower_char.
Qed.
Lemma elem_of_lower_other c s :
  is_ascii_alphabetic c = false → c ∈ to_ascii_lowercase s ↔ c ∈ s.
Proof.
  intros Hc. unfold to_ascii_lowercase. rewrite list_elem_of_In, in_map_iff.
  setoid_rewrite (lower_char_other _ _ Hc). setoid_rewrite <-list_elem_of_In. naive_solver.
Qed.

(** *** Prefixes and suffixes *)

Lemma starts_with_spec p s : starts_with p s = true ↔ ∃ t, s = p ++ t.
Proof.
  revert s. induction p as [|a p IH]; intros [|b s]; cbn.
  - naive_solver.
  - naive_solver.
  - split; [done|]. by intros [t ?].
  - rewrite andb_true_iff, IH, Z.eqb_eq. naive_solver.
Qed.
Lemma starts_with_app p t : starts_with p (p ++ t) = true.
Proof. apply starts_with_spec. eauto. Qed.
Lemma ends_with_spec p s : ends_with p s = true ↔ ∃ t, s = t ++ p.
Proof.
  unfold ends_with. rewrite starts_with_spec. split.
  - intros [t Ht]. exists (rev t). by rewrite <-(rev_involutive s), Ht, rev_app_distr, rev_involutive.
  - intros [t ->]. exists (rev t). by rewrite rev_app_distr.
Qed.

(** *** Searching *)

Lemma find_char_spec p s i :
  find_char p s = Some i →
  ∃ c, s = take i s ++ c :: drop (S i) s ∧ p c = true ∧ Forall (λ c, p c = false) (take i s).
Proof.
  revert i. induction s as [|a s IH]; intros i; cbn; [done|]. destruct (p a) eqn:Ha.
  - intros [= <-]. exists a. by cbn.
  - destruct (find_char p s) as [j|] eqn:Hj; cbn; [|done]. intros [= <-].
    destruct (IH j eq_refl) as (c & Hs & Hc & Hf). exists c. cbn. split; [by f_equal|].
    split; [done|]. by constructor.
Qed.
Lemma find_char_None p s : find_char p s = None ↔ Forall (λ c, p c = false) s.
Proof.
  induction s as [|a s IH]; cbn; [by split; [constructor|]|]. rewrite Forall_cons.
  destruct (p a) eqn:Ha; [naive_solver|]. rewrite fmap_None, IH. naive_solver.
Qed.
Lemma find_char_app p s c t :
  Forall (λ c, p c = false) s → p c = true → find_char p (s ++ c :: t) = Some (length s).
Proof.
  induction 1 as [|a s Ha _ IH]; intros Hc; cbn; [by rewrite Hc|]. by rewrite Ha, IH.
Qed.
Lemma split_once_app p s c t :
  Forall (λ c, p c = false) s → p c = true → split_once p (s ++ c :: t) = Some (s, t).
Proof.
  intros Hs Hc. unfold split_once. rewrite find_char_app by done.
  rewrite take_app_length. do 2 f_equal. rewrite (cons_middle c), (assoc_L (++)).
  apply drop_app_length'. rewrite length_app. cbn. lia.
Qed.

Lemma rsplit_once_None c s : rsplit_once c s = None ↔ c ∉ s.
Proof.
  induction s as [|a s IH]; cbn; [split; [intros _; apply not_elem_of_nil|done]|].
  rewrite not_elem_of_cons, <-IH. destruct (rsplit_once c s) as [[l r]|]; [naive_solver|].
  destruct (Z.eqb_spec a c); naive_solver.
Qed.
Lemma rsplit_once_Some c s l r :
  rsplit_once c s = Some (l, r) ↔ s = l ++ c :: r ∧ c ∉ r.
Proof.
  revert l r. induction s as [|a s IH]; intros l r; cbn.
  - split; [done|]. intros [H _]. by destruct l.
  - destruct (rsplit_once c s) as [[l' r']|] eqn:Hs.
    + destruct (proj1 (IH l' r') eq_refl) as [-> Hr']. split.
      * intros [= <- <-]. done.
      * intros [Heq Hr]. destruct l as [|b l]; cbn in Heq; simplify_eq.
        -- exfalso. apply Hr. rewrite elem_of_app. right. left.
        -- assert (Some (l', r') = Some (l, r)) as [= <- <-]; [|done]. by apply IH.
    + apply rsplit_once_None in Hs. destruct (Z.eqb_spec a c) as [->|Hne].
      * split; [by intros [= <- <-]|]. intros [Heq Hr].
        destruct l as [|b l]; cbn in Heq; simplify_eq; [done|].
        exfalso. apply Hs. rewrite elem_of_app. right. left.
      * split; [done|]. intros [Heq Hr]. destruct l as [|b l]; cbn in Heq; simplify_eq.
        exfalso. apply Hs. rewrite elem_of_app. right. left.
Qed.
Lemma rsplit_once_app c l r : c ∉ r → rsplit_once c (l ++ c :: r) = Some (l, r).
Proof. intros. by apply rsplit_once_Some. Qed.

Lemma split_not_nil c s : split c s ≠ [].
Proof. destruct s as [|a s]; cbn; [done|]. destruct (a =? c); [done|]. by destruct (split c s). Qed.
Lemma join_split c s : join [c] (split c s) = s.
Proof.
  induction s as [|a s IH]; [done|]. cbn. destruct (Z.eqb_spec a c) as [->|Hne].
  - destruct (split c s) as [|p ps] eqn:Hs; [by apply split_not_nil in Hs|].
    cbn in IH |- *. by rewrite IH.
  - destruct (split c s) as [|p ps] eqn:Hs; [by apply split_not_nil in Hs|].
    destruct ps; cbn in IH |- *; by rewrite <-IH.
Qed.
Lemma split_pieces c s : Forall (λ p, c ∉ p) (split c s).
Proof.
  induction s as [|a s IH]; cbn; [repeat constructor; apply not_elem_of_nil|].
  destruct (Z.eqb_spec a c) as [->|Hne].
  - constructor; [apply not_elem_of_nil|done].
  - destruct (split c s) as [|p ps]; [repeat constructor; set_solver|].
    apply Forall_cons in IH as [Hp Hps]. constructor; [set_solver|done].
Qed.

(** *** Trimming *)

Lemma drop_while_head p s c t : drop_while p s = c :: t → p c = false.
Proof.
  induction s as [|a s IH]; cbn; [done|]. destruct (p a) eqn:Ha; [done|]. by intros [= <- _].
Qed.
Lemma drop_while_id p s : (∀ c t, s = c :: t → p c = false) → drop_while p s = s.
Proof. destruct s as [|c s]; cbn; [done|]. intros H. by rewrite (H c s eq_refl). Qed.
Lemma drop_while_suffix p s : ∃ t, s = t ++ drop_while p s ∧ Forall (λ c, p c = true) t.
Proof.
  induction s as [|a s IH]; cbn; [by exists []|]. destruct (p a) eqn:Ha.
  - destruct IH as (t & Hs & Ht). exists (a :: t). split; [cbn; congruence|by constructor].
  - by exists [].
Qed.
Lemma trim_end_by_prefix p s :
  ∃ t, s = trim_end_by p s ++ t ∧ Forall (λ c, p c = true) t.
Proof.
  unfold trim_end_by. destruct (drop_while_suffix p (rev s)) as (t & Hs & Ht).
  exists (rev t). split; [|by apply Forall_rev].
  rewrite <-(rev_involutive s) at 1. by rewrite Hs, rev_app_distr at 1.
Qed.
Lemma trim_end_by_last p s : ∀ t c, trim_end_by p s = t ++ [c] → p c = false.
Proof.
  intros t c H. unfold trim_end_by in H. apply (f_equal (@rev Z)) in H.
  rewrite rev_involutive, rev_app_distr in H. by apply drop_while_head in H.
Qed.
Lemma trim_end_by_id p s : (∀ t c, s = t ++ [c] → p c = false) → trim_end_by p s = s.
Proof.
  intros H. unfold trim_end_by. rewrite drop_while_id; [apply rev_involutive|].
  intros c t Hr. apply (H (rev t) c). by rewrite <-(rev_involutive s), Hr.
Qed.
Lemma trim_end_by_elem p s c : c ∈ trim_end_by p s → c ∈ s.
Proof. destruct (trim_end_by_prefix p s) as (t & Hs & _). rewrite Hs at 2. set_solver. Qed.
Lemma trim_elem s c : c ∈ trim s → c ∈ s.
Proof.
  intros H%trim_end_by_elem. destruct (drop_while_suffix is_whitespace s) as (t & Hs & _).
  rewrite Hs. unfold trim_start, trim_start_by in H. set_solver.
Qed.
Lemma drop_while_trim_end p q s :
  (∀ c t, s = c :: t → p c = false) → drop_while p (trim_end_by q s) = trim_end_by q s.
Proof.
  intros H. apply drop_while_id. intros c t Ht.
  destruct (trim_end_by_prefix q s) as (u & Hs & _). rewrite Ht in Hs. by eapply H.
Qed.
Lemma trim_idemp s : trim (trim s) = trim s.
Proof.
  unfold trim, trim_start, trim_end, trim_start_by.
  rewrite drop_while_trim_end by (intros ??; apply drop_while_head).
  apply trim_end_by_id. apply trim_end_by_last.
Qed.
(** A string with no white space at its ends is its own trim. *)
Definition trimmed (s : str) : Prop := trim s = s.
Lemma trimmed_intro s :
  (∀ c t, s = c :: t → is_whitespace c = false) →
  (∀ t c, s = t ++ [c] → is_whitespace c = false) → trimmed s.
Proof.
  intros Hh Ht. unfold trimmed, trim, trim_start, trim_start_by.
  rewrite (drop_while_id _ s) by done. by apply trim_end_by_id.
Qed.
Lemma trimmed_no_whitespace s : Forall (λ c, is_whitespace c = false) s → trimmed s.
Proof.
  intros H. apply trimmed_intro; intros; subst; rewrite ?Forall_app, ?Forall_cons in H; naive_solver.
Qed.
Lemma trim_start_trimmed s : trimmed s → trim_start s = s.
Proof.
  unfold trimmed, trim, trim_start, trim_start_by, trim_end. intros H.
  apply drop_while_id. intros c t Hs.
  destruct (drop_while is_whitespace s) as [|c' t'] eqn:Hd.
  - cbn in H. subst. done.
  - destruct (trim_end_by_prefix is_whitespace (c' :: t')) as (u & Hu & _).
    rewrite H, Hs in Hu. cbn in Hu. injection Hu as <- _. exact (drop_while_head _ _ _ _ Hd).
Qed.

(** *** UTF-8 round trip *)

(** [lia] on goals with division and remainder by constants. *)
Ltac lia_div := Z.to_euclidean_division_equations; lia.

(** Rewrite with the truth value of a test that follows from the context. *)
Ltac test_true t := assert (t = true) as -> by (unfold is_cont, in_range; lia).
Ltac test_false t := assert (t = false) as -> by (unfold is_cont, in_range; lia).

Lemma lossy_1 a s : 0 ≤ a < 128 → from_utf8_lossy (a :: s) = a :: from_utf8_lossy s.
Proof. intros. cbn [from_utf8_lossy]. by test_true (a <? 128). Qed.
Lemma lossy_2 a b s :
  194 ≤ a ≤ 223 → 128 ≤ b ≤ 191 →
  from_utf8_lossy (a :: b :: s) = ((a - 192) * 64 + (b - 128)) :: from_utf8_lossy s.
Proof.
  intros. cbn [from_utf8_lossy]. test_false (a <? 128). test_true (in_range 194 223 a).
  by test_true (is_cont b).
Qed.
Lemma lossy_3 a b c s :
  224 ≤ a ≤ 239 → (if a =? 224 then 160 else 128) ≤ b ≤ (if a =? 237 then 159 else 191) →
  128 ≤ c ≤ 191 →
  from_utf8_lossy (a :: b :: c :: s) =
    ((a - 224) * 4096 + (b - 128) * 64 + (c - 128)) :: from_utf8_lossy s.
Proof.
  intros ? Hb ?. cbn [from_utf8_lossy]. test_false (a <? 128). test_false (in_range 194 223 a).
  test_true (in_range 224 239 a). apply in_range_spec in Hb as ->. by test_true (is_cont c).
Qed.
Lemma lossy_4 a b c d s :
  240 ≤ a ≤ 244 → (if a =? 240 then 144 else 128) ≤ b ≤ (if a =? 244 then 143 else 191) →
  128 ≤ c ≤ 191 → 128 ≤ d ≤ 191 →
  from_utf8_lossy (a :: b :: c :: d :: s) =
    ((a - 240) * 262144 + (b - 128) * 4096 + (c - 128) * 64 + (d - 128)) :: from_utf8_lossy s.
Proof.
  intros ? Hb ? ?. cbn [from_utf8_lossy]. test_false (a <? 128). test_false (in_range 194 223 a).
  test_false (in_range 224 239 a). test_true (in_range 240 244 a).
  apply in_range_spec in Hb as ->. test_true (is_cont c). by test_true (is_cont d).
Qed.

Lemma from_utf8_lossy_char c s :
  is_char c = true → from_utf8_lossy (utf8_encode_char c ++ s) = c :: from_utf8_lossy s.
Proof.
  intros Hc. assert (0 ≤ c ≤ 55295 ∨ 57344 ≤ c ≤ 1114111) as Hr.
  { unfold is_char in Hc. apply orb_true_iff in Hc as [H|H]; ranges; lia. }
  clear Hc. unfold utf8_encode_char.
  destruct (Z.ltb_spec c 128); [|destruct (Z.ltb_spec c 2048); [|destruct (Z.ltb_spec c 65536)]];
    cbn [app].
  - by rewrite lossy_1 by lia.
  - rewrite lossy_2 by lia_div. f_equal. lia_div.
  - rewrite lossy_3 by (repeat case_match; lia_div). f_equal. lia_div.
  - rewrite lossy_4 by (repeat case_match; lia_div). f_equal. lia_div.
Qed.

Lemma from_utf8_lossy_as_bytes s : valid_str s = true → from_utf8_lossy (as_bytes s) = s.
Proof.
  unfold valid_str, as_bytes. induction s as [|c s IH]; cbn; [done|]. intros [Hc Hs]%andb_prop.
  by rewrite from_utf8_lossy_char, IH.
Qed.

(** An ASCII string is its own encoding. *)
Lemma as_bytes_ascii s : is_ascii s = true → as_bytes s = s.
Proof.
  unfold is_ascii, as_bytes. induction s as [|c s IH]; cbn; [done|]. intros [Hc Hs]%andb_prop.
  unfold is_ascii_char in Hc. ranges. unfold utf8_encode_char.
  destruct (Z.ltb_spec c 128); [|lia]. cbn. f_equal. by apply IH.
Qed.
Lemma is_ascii_valid s : is_ascii s = true → valid_str s = true.
Proof.
  unfold is_ascii, valid_str. rewrite !all_true. intros H c Hc. specialize (H c Hc).
  unfold is_ascii_char in H. ranges. unfold is_char. apply orb_true_iff. left.
  apply in_range_spec. lia.
Qed.
Lemma str_len_ascii s : is_ascii s = true → str_len s = len s.
Proof. intros H. unfold str_len. by rewrite as_bytes_ascii. Qed.
Lemma length_utf8_encode_char c : (1 ≤ length (utf8_encode_char c) ≤ 4)%nat.
Proof. unfold utf8_encode_char. repeat case_match; cbn; lia. Qed.
Lemma length_as_bytes s : (length s ≤ length (as_bytes s))%nat.
Proof.
  unfold as_bytes. induction s as [|c s IH]; cbn; [lia|]. rewrite length_app.
  pose proof (length_utf8_encode_char c). lia.
Qed.

Lemma cmp_str_eq a b : cmp_str a b = Eq ↔ a = b.
Proof.
  revert b. induction a as [|x a IH]; intros [|y b]; cbn; try (split; congruence).
  destruct (Z.compare_spec x y) as [->| |]; [rewrite IH; split; congruence| |]; split; intros; simplify_eq; lia || done.
Qed.
Lemma cmp_str_antisym a b : cmp_str b a = CompOpp (cmp_str a b).
Proof.
  revert b. induction a as [|x a IH]; intros [|y b]; cbn; try done.
  rewrite (Z.compare_antisym x y). destruct (x ?= y); cbn; auto.
Qed.
Lemma cmp_str_trans a b c : cmp_str a b = Lt → cmp_str b c = Lt → cmp_str a c = Lt.
Proof.
  revert b c. induction a as [|x a IH]; intros [|y b] [|z c]; cbn; try done.
  destruct (Z.compare_spec x y), (Z.compare_spec y z), (Z.compare_spec x z);
    subst; try lia; try done; eauto.
Qed.
