(* ===== verification/Model.v ===== *)
(** * Model: the data of the service ([src/model.rs])

    One record per struct and one inductive type per enum, fields prefixed with the
    initials of their struct. Timestamps ([DateTime<Utc>]) are nanoseconds, [Uuid]s
    their 128-bit value, [i32] and [i64] fields integers. *)

From S2P Require Import Prelude Str.

Record Mailbox := mkMailbox {
  mb_address : str;
  mb_domain : str;
  mb_created_at : Time;
  mb_expires_at : Time;
  mb_owner_token_hash : option str;
  mb_creator_device_hash : option str;
}.

Record MessageSummary := mkMessageSummary {
  ms_id : Uuid;
  ms_mail_from : str;
  ms_subject : option str;
  ms_received_at : Time;
  ms_has_attachments : bool;
  ms_seen : bool;
}.

Record AttachmentMeta := mkAttachmentMeta {
  am_id : Uuid;
  am_filename : option str;
  am_content_type : str;
  am_size : Z;
}.

Record StoredMessage := mkStoredMessage {
  sm_id : Uuid;
  sm_mailbox_address : str;
  sm_mail_from : str;
  sm_subject : option str;
  sm_message_date : option Time;
  sm_text_body : option str;
  sm_html_body : option str;
  sm_raw_size : Z;
  sm_received_at : Time;
  sm_seen : bool;
  sm_attachments : list AttachmentMeta;
}.

Record Attachment := mkAttachment {
  at_filename : option str;
  at_content_type : str;
  at_content : bytes;
}.

Record NewAttachment := mkNewAttachment {
  na_filename : option str;
  na_content_type : str;
  na_content : bytes;
}.

Record NewMessage := mkNewMessage {
  nm_mail_from : str;
  nm_subject : option str;
  nm_message_date : option Time;
  nm_text_body : option str;
  nm_html_body : option str;
  nm_raw_size : Z;
  nm_raw_content : option bytes;
  nm_attachments : list NewAttachment;
}.

Inductive SubscriptionKind := WebPush | Apns.

Definition SubscriptionKind_as_str (k : SubscriptionKind) : str :=
  match k with WebPush => lit "webpush" | Apns => lit "apns" end.

Definition SubscriptionKind_from_str (s : str) : result SubscriptionKind str :=
  if bool_decide (s = lit "webpush") then Ok WebPush
  else if bool_decide (s = lit "apns") then Ok Apns
  else Err (lit "unknown subscription kind: " ++ s).

Inductive CustomDomainStatus := Pending | Verified | Failed.

Definition CustomDomainStatus_as_str (s : CustomDomainStatus) : str :=
  match s with
  | Pending => lit "pending"
  | Verified => lit "verified"
  | Failed => lit "failed"
  end.

Definition CustomDomainStatus_from_str (s : str) : result CustomDomainStatus str :=
  if bool_decide (s = lit "pending") then Ok Pending
  else if bool_decide (s = lit "verified") then Ok Verified
  else if bool_decide (s = lit "failed") then Ok Failed
  else Err (lit "unknown custom domain status: " ++ s).

Record CustomDomain := mkCustomDomain {
  cd_domain : str;
  cd_status : CustomDomainStatus;
  cd_claim_token_hash : str;
  cd_txt_token : str;
  cd_created_at : Time;
  cd_verified_at : option Time;
  cd_last_checked_at : option Time;
}.

Record AttestedDevice := mkAttestedDevice {
  ad_key_id : str;
  ad_public_key : bytes;
  ad_counter : Z;
  ad_created_at : Time;
  ad_last_seen_at : Time;
}.

Record PushSubscription := mkPushSubscription {
  ps_id : Uuid;
  ps_mailbox_address : str;
  ps_kind : SubscriptionKind;
  ps_endpoint : str;
  ps_p256dh : str;
  ps_auth : str;
  ps_created_at : Time;
}.

(** The text form of an identifier, of the [uuid] crate: hexadecimal digits and hyphens,
    read back by [Uuid::parse_str]. *)
Class UuidText := {
  uuid_to_string : Uuid → str;
  uuid_parse_str : str → option Uuid;
  uuid_to_string_chars u :
    all (λ c, is_ascii_digit c || in_range 97 102 c || (c =? 45)) (uuid_to_string u) = true;
  uuid_parse_to_string u : 0 ≤ u < 2 ^ 128 → uuid_parse_str (uuid_to_string u) = Some u;
}.

#[export] Instance SubscriptionKind_eq_dec : EqDecision SubscriptionKind.
Proof. solve_decision. Defined.
#[export] Instance CustomDomainStatus_eq_dec : EqDecision CustomDomainStatus.
Proof. solve_decision. Defined.

(** Printing then parsing gives the value back, and only the printed names parse. *)
Lemma SubscriptionKind_from_as k : SubscriptionKind_from_str (SubscriptionKind_as_str k) = Ok k.
Proof. by destruct k. Qed.
Lemma SubscriptionKind_as_from s k :
  SubscriptionKind_from_str s = Ok k → SubscriptionKind_as_str k = s.
Proof. unfold SubscriptionKind_from_str. repeat case_bool_decide; by intros [= <-]. Qed.
Lemma CustomDomainStatus_from_as s :
  CustomDomainStatus_from_str (CustomDomainStatus_as_str s) = Ok s.
Proof. by destruct s. Qed.
Lemma CustomDomainStatus_as_from t s :
  CustomDomainStatus_from_str t = Ok s → CustomDomainStatus_as_str s = t.
Proof. unfold CustomDomainStatus_from_str. repeat case_bool_decide; by intros [= <-]. Qed.
