(* ===== verification/UuidHex.v ===== *)
(** * UuidHex: a text form of identifiers, for examples

    32 hexadecimal digits, the simple form of the [uuid] crate: an instance of [UuidText]
    on which theorems about texts of identifiers can be run. *)

From S2P Require Import Prelude Str Model.


Definition nibble (x : Z) : Z := if x <? 10 then 48 + x else 87 + x.
Definition unnibble (c : Z) : option Z :=
  if is_ascii_digit c then Some (c - 48) else if in_range 97 102 c then Some (c - 87) else None.
Fixpoint hex_text (n : nat) (u : Z) : str :=
  match n with O => [] | S n => hex_text n (u / 16) ++ [nibble (u mod 16)] end.
Definition hex_value (s : str) : option Z :=
  foldl (λ acc c, a ← acc; x ← unnibble c; Some (16 * a + x)) (Some 0) s.

Lemma hex_value_text n u : hex_value (hex_text n u) = Some (u mod 16 ^ Z.of_nat n).
Proof.
  revert u. induction n as [|n IH]; intros u.
  - cbn. by rewrite Z.mod_1_r.
  - cbn [hex_text]. unfold hex_value in *. rewrite foldl_app, IH. cbn.
    pose proof (Z.mod_pos_bound u 16). assert (unnibble (nibble (u mod 16)) = Some (u mod 16)) as ->.
    { unfold unnibble, nibble, is_ascii_digit, in_range. destruct (Z.ltb_spec (u mod 16) 10);
        repeat case_match; f_equal; lia. }
    cbn. f_equal. rewrite Nat2Z.inj_succ, Z.pow_succ_r, Z.rem_mul_r by lia. lia.
Qed.
Lemma hex_text_chars n u :
  all (λ c, is_ascii_digit c || in_range 97 102 c || (c =? 45)) (hex_text n u) = true.
Proof.
  revert u. induction n as [|n IH]; intros u; [done|]. unfold all in *. cbn [hex_text].
  rewrite forallb_app, IH. cbn. pose proof (Z.mod_pos_bound u 16).
  unfold nibble, is_ascii_digit, in_range. destruct (Z.ltb_spec (u mod 16) 10); lia.
Qed.
Lemma hex_text_parse u : 0 ≤ u < 2 ^ 128 → hex_value (hex_text 32 u) = Some u.
Proof. intros Hu. rewrite hex_value_text. f_equal. apply Z.mod_small. exact Hu. Qed.

Definition hex_UuidText : UuidText := {|
  uuid_to_string := hex_text 32;
  uuid_parse_str := hex_value;
  uuid_to_string_chars := hex_text_chars 32;
  uuid_parse_to_string := hex_text_parse;
|}.
