(* ===== verification/Config.v ===== *)
(** * Config: runtime configuration ([src/config.rs])

    The configuration record with its defaults, the queries the other components make
    of it, and the list parser of its environment variables. [Tier] is the enum of
    [src/entitlements.rs], [MailboxQuotas] the struct of [src/store/mod.rs]; both are
    here because the configuration hands them out. *)

From S2P Require Import Prelude Str Model.

Inductive Tier := Free | Pro.

Record MailboxQuotas := mkMailboxQuotas {
  max_messages : Z;
  max_bytes : Z;
}.
Definition UNLIMITED : MailboxQuotas := mkMailboxQuotas 0 0.

#[export] Instance Tier_eq_dec : EqDecision Tier.
Proof. solve_decision. Defined.
#[export] Instance MailboxQuotas_eq_dec : EqDecision MailboxQuotas.
Proof. solve_decision. Defined.

Definition DEFAULT_SQLITE_URL : str := lit "sqlite://data/anony-mail.db".

Definition BUILTIN_RESERVED_LOCAL_PARTS : list str :=
  [ lit "postmaster"; lit "abuse"; lit "hostmaster"; lit "webmaster"; lit "noc";
    lit "security"; lit "info"; lit "marketing"; lit "sales"; lit "support";
    lit "admin"; lit "administrator"; lit "ssladmin"; lit "ssladministrator";
    lit "sysadmin"; lit "root"; lit "mailer-daemon"; lit "noreply"; lit "no-reply";
    lit "daemon" ].

Inductive DbBackend := Sqlite | Postgres.

Record TierPolicy := mkTierPolicy {
  active_mailboxes : Z;
  max_lifetime_seconds : Z;
  custom_local_parts : bool;
  domain_count : Z;
  custom_domains : bool;
}.

(** An IPv4 or IPv6 address as its octets, and a socket address. *)
Abbreviation IpAddr := (list Z) (only parsing).
Abbreviation SocketAddr := (list Z * Z)%type (only parsing).

Record TlsConfig := mkTlsConfig { cert_path : str; key_path : str }.

(** Durations are nanoseconds; the other numeric fields the integers of the source. *)
Record Config := mkConfig {
  smtp_bind_addr : SocketAddr;
  api_bind_addr : SocketAddr;
  domains : list str;
  database_url : str;
  db_max_connections : Z;
  default_ttl : Z;
  max_message_size : Z;
  max_recipients : Z;
  max_connections : Z;
  smtp_session_timeout : Z;
  per_ip_connections_per_min : Z;
  cleanup_interval : Z;
  cors_allowed_origins : list str;
  smtp_hostname : str;
  tls : option TlsConfig;
  reserved_local_parts : gset str;
  api_rate_limit_per_second : Z;
  api_rate_limit_burst : Z;
  create_rate_limit_per_minute : Z;
  create_rate_limit_burst : Z;
  api_request_timeout : Z;
  api_trust_proxy_headers : bool;
  api_docs_enabled : bool;
  legal_pages_enabled : bool;
  sse_max_concurrent : Z;
  sse_max_per_ip : Z;
  max_addresses_per_ip_per_day : Z;
  max_messages_per_mailbox : Z;
  max_mailbox_bytes : Z;
  min_free_disk_bytes : Z;
  vapid_public_key : option str;
  vapid_private_key : option str;
  vapid_subject : str;
  max_subscriptions_per_mailbox : Z;
  apns_team_id : option str;
  apns_key_id : option str;
  apns_private_key : option str;
  apns_topic : option str;
  apns_sandbox : bool;
  catch_all_enabled : bool;
  custom_domains_enabled : bool;
  max_custom_domains_per_ip_per_day : Z;
  custom_domain_verify_throttle : Z;
  store_raw_message : bool;
  entitlements_enforced : bool;
  token_signing_key : option bytes;
  revenuecat_secret_key : option str;
  revenuecat_entitlement_id : str;
  client_attestation_required : bool;
  app_attest_team_id : option str;
  app_attest_bundle_id : option str;
  app_attest_root_pem : option bytes;
  free_tier : TierPolicy;
  pro_tier : TierPolicy;
}.

Definition builtin_reserved_local_parts : gset str := list_to_set BUILTIN_RESERVED_LOCAL_PARTS.

Definition Config_default : Config := {|
  smtp_bind_addr := ([0; 0; 0; 0], 25);
  api_bind_addr := ([0; 0; 0; 0], 8080);
  domains := [lit "example.com"];
  database_url := DEFAULT_SQLITE_URL;
  db_max_connections := 0;
  default_ttl := seconds 3600;
  max_message_size := 26214400;
  max_recipients := 10;
  max_connections := 1024;
  smtp_session_timeout := seconds 60;
  per_ip_connections_per_min := 60;
  cleanup_interval := seconds 300;
  cors_allowed_origins := [lit "*"];
  smtp_hostname := lit "example.com";
  tls := None;
  reserved_local_parts := builtin_reserved_local_parts;
  api_rate_limit_per_second := 20;
  api_rate_limit_burst := 50;
  create_rate_limit_per_minute := 30;
  create_rate_limit_burst := 10;
  api_request_timeout := seconds 30;
  api_trust_proxy_headers := false;
  api_docs_enabled := true;
  legal_pages_enabled := false;
  sse_max_concurrent := 512;
  sse_max_per_ip := 8;
  max_addresses_per_ip_per_day := 200;
  max_messages_per_mailbox := 50;
  max_mailbox_bytes := 41943040;
  min_free_disk_bytes := 268435456;
  vapid_public_key := None;
  vapid_private_key := None;
  vapid_subject := lit "mailto:postmaster@example.com";
  max_subscriptions_per_mailbox := 5;
  apns_team_id := None;
  apns_key_id := None;
  apns_private_key := None;
  apns_topic := None;
  apns_sandbox := false;
  catch_all_enabled := false;
  custom_domains_enabled := true;
  max_custom_domains_per_ip_per_day := 5;
  custom_domain_verify_throttle := seconds 10;
  store_raw_message := false;
  entitlements_enforced := false;
  token_signing_key := None;
  revenuecat_secret_key := None;
  revenuecat_entitlement_id := lit "Anony Mail Pro";
  client_attestation_required := false;
  app_attest_team_id := None;
  app_attest_bundle_id := None;
  app_attest_root_pem := None;
  free_tier := {| active_mailboxes := 5; max_lifetime_seconds := 86400;
                  custom_local_parts := false; domain_count := 1; custom_domains := false |};
  pro_tier := {| active_mailboxes := 50; max_lifetime_seconds := 0;
                 custom_local_parts := true; domain_count := 0; custom_domains := true |};
|}.

(** A configuration with the optional features switched: the catch-all, the enforcement of
    entitlements, required attestation, the signing key, and an App Attest identity. *)
Definition Config_with (catch_all enforced attestation : bool) (key : option bytes) (team : str)
    (c : Config) : Config := {|
  smtp_bind_addr := smtp_bind_addr c; api_bind_addr := api_bind_addr c; domains := domains c;
  database_url := database_url c; db_max_connections := db_max_connections c;
  default_ttl := default_ttl c; max_message_size := max_message_size c;
  max_recipients := max_recipients c; max_connections := max_connections c;
  smtp_session_timeout := smtp_session_timeout c;
  per_ip_connections_per_min := per_ip_connections_per_min c;
  cleanup_interval := cleanup_interval c; cors_allowed_origins := cors_allowed_origins c;
  smtp_hostname := smtp_hostname c; tls := tls c; reserved_local_parts := reserved_local_parts c;
  api_rate_limit_per_second := api_rate_limit_per_second c;
  api_rate_limit_burst := api_rate_limit_burst c;
  create_rate_limit_per_minute := create_rate_limit_per_minute c;
  create_rate_limit_burst := create_rate_limit_burst c;
  api_request_timeout := api_request_timeout c;
  api_trust_proxy_headers := api_trust_proxy_headers c; api_docs_enabled := api_docs_enabled c;
  legal_pages_enabled := legal_pages_enabled c; sse_max_concurrent := sse_max_concurrent c;
  sse_max_per_ip := sse_max_per_ip c;
  max_addresses_per_ip_per_day := max_addresses_per_ip_per_day c;
  max_messages_per_mailbox := max_messages_per_mailbox c;
  max_mailbox_bytes := max_mailbox_bytes c; min_free_disk_bytes := min_free_disk_bytes c;
  vapid_public_key := vapid_public_key c; vapid_private_key := vapid_private_key c;
  vapid_subject := vapid_subject c;
  max_subscriptions_per_mailbox := max_subscriptions_per_mailbox c;
  apns_team_id := apns_team_id c; apns_key_id := apns_key_id c;
  apns_private_key := apns_private_key c; apns_topic := apns_topic c;
  apns_sandbox := apns_sandbox c; catch_all_enabled := catch_all;
  custom_domains_enabled := custom_domains_enabled c;
  max_custom_domains_per_ip_per_day := max_custom_domains_per_ip_per_day c;
  custom_domain_verify_throttle := custom_domain_verify_throttle c;
  store_raw_message := store_raw_message c; entitlements_enforced := enforced;
  token_signing_key := key; revenuecat_secret_key := revenuecat_secret_key c;
  revenuecat_entitlement_id := revenuecat_entitlement_id c;
  client_attestation_required := attestation; app_attest_team_id := Some team;
  app_attest_bundle_id := Some team; app_attest_root_pem := app_attest_root_pem c;
  free_tier := free_tier c; pro_tier := pro_tier c;
|}.

(** A configuration with another mail host name. *)
Definition Config_with_hostname (host : str) (c : Config) : Config := {|
  smtp_bind_addr := smtp_bind_addr c; api_bind_addr := api_bind_addr c; domains := domains c;
  database_url := database_url c; db_max_connections := db_max_connections c;
  default_ttl := default_ttl c; max_message_size := max_message_size c;
  max_recipients := max_recipients c; max_connections := max_connections c;
  smtp_session_timeout := smtp_session_timeout c;
  per_ip_connections_per_min := per_ip_connections_per_min c;
  cleanup_interval := cleanup_interval c; cors_allowed_origins := cors_allowed_origins c;
  smtp_hostname := host; tls := tls c; reserved_local_parts := reserved_local_parts c;
  api_rate_limit_per_second := api_rate_limit_per_second c;
  api_rate_limit_burst := api_rate_limit_burst c;
  create_rate_limit_per_minute := create_rate_limit_per_minute c;
  create_rate_limit_burst := create_rate_limit_burst c;
  api_request_timeout := api_request_timeout c;
  api_trust_proxy_headers := api_trust_proxy_headers c; api_docs_enabled := api_docs_enabled c;
  legal_pages_enabled := legal_pages_enabled c; sse_max_concurrent := sse_max_concurrent c;
  sse_max_per_ip := sse_max_per_ip c;
  max_addresses_per_ip_per_day := max_addresses_per_ip_per_day c;
  max_messages_per_mailbox := max_messages_per_mailbox c;
  max_mailbox_bytes := max_mailbox_bytes c; min_free_disk_bytes := min_free_disk_bytes c;
  vapid_public_key := vapid_public_key c; vapid_private_key := vapid_private_key c;
  vapid_subject := vapid_subject c;
  max_subscriptions_per_mailbox := max_subscriptions_per_mailbox c;
  apns_team_id := apns_team_id c; apns_key_id := apns_key_id c;
  apns_private_key := apns_private_key c; apns_topic := apns_topic c;
  apns_sandbox := apns_sandbox c; catch_all_enabled := catch_all_enabled c;
  custom_domains_enabled := custom_domains_enabled c;
  max_custom_domains_per_ip_per_day := max_custom_domains_per_ip_per_day c;
  custom_domain_verify_throttle := custom_domain_verify_throttle c;
  store_raw_message := store_raw_message c; entitlements_enforced := entitlements_enforced c;
  token_signing_key := token_signing_key c; revenuecat_secret_key := revenuecat_secret_key c;
  revenuecat_entitlement_id := revenuecat_entitlement_id c;
  client_attestation_required := client_attestation_required c;
  app_attest_team_id := app_attest_team_id c; app_attest_bundle_id := app_attest_bundle_id c;
  app_attest_root_pem := app_attest_root_pem c; free_tier := free_tier c; pro_tier := pro_tier c;
|}.

(** ** Queries *)

Definition push_configured (c : Config) : bool :=
  bool_decide (is_Some (vapid_public_key c)) && bool_decide (is_Some (vapid_private_key c)).

Definition apns_configured (c : Config) : bool :=
  bool_decide (is_Some (apns_team_id c)) && bool_decide (is_Some (apns_key_id c))
  && bool_decide (is_Some (apns_private_key c)) && bool_decide (is_Some (apns_topic c)).

Definition any_push_configured (c : Config) : bool := push_configured c || apns_configured c.

Definition entitlements_supported (c : Config) : bool :=
  bool_decide (is_Some (token_signing_key c)).

Definition app_attest_configured (c : Config) : bool :=
  bool_decide (is_Some (app_attest_team_id c)) && bool_decide (is_Some (app_attest_bundle_id c)).

Definition app_attest_app_id (c : Config) : option str :=
  match app_attest_team_id c, app_attest_bundle_id c with
  | Some team, Some bundle => Some (team ++ lit "." ++ bundle)
  | _, _ => None
  end.

Definition tier_policy (c : Config) (t : Tier) : TierPolicy :=
  match t with Free => free_tier c | Pro => pro_tier c end.

(** [Duration::seconds(default_ttl.as_secs() as i64)], as every caller computes it: whole
    seconds, cast to a signed number. *)
Definition mailbox_ttl (c : Config) : Z := seconds (as_i64 (default_ttl c / nanos_per_second)).

Definition db_backend (c : Config) : DbBackend :=
  let url := trim (database_url c) in
  if starts_with (lit "postgres://") url || starts_with (lit "postgresql://") url
  then Postgres else Sqlite.

Definition accepts_domain (c : Config) (domain : str) : bool :=
  let domain := to_ascii_lowercase domain in
  any (λ d, bool_decide (d = domain)) (domains c).

Definition cors_allow_any (c : Config) : bool :=
  any (λ o, bool_decide (o = lit "*")) (cors_allowed_origins c).

Definition is_reserved_local_part (c : Config) (local : str) : bool :=
  bool_decide (local ∈ reserved_local_parts c).

Definition mailbox_quotas (c : Config) : MailboxQuotas :=
  {| max_messages := max_messages_per_mailbox c; max_bytes := max_mailbox_bytes c |}.

Definition sqlite_path (c : Config) : option str :=
  match db_backend c with
  | Postgres => None
  | Sqlite =>
      let raw := trim (database_url c) in
      let without_scheme :=
        default raw (match strip_prefix (lit "sqlite://") raw with
                     | Some s => Some s
                     | None => strip_prefix (lit "sqlite:") raw
                     end) in
      (* ['?'] *)
      Some (default without_scheme (head (split 63 without_scheme)))
  end.

(** A comma-separated list: trimmed, blanks dropped. *)
Definition parse_list (raw : str) : list str :=
  retain (λ s, negb (bool_decide (s = []))) (map trim (split 44 raw)).

(** ** Lemmas *)

Lemma accepts_domain_spec c d : accepts_domain c d = true ↔ to_ascii_lowercase d ∈ domains c.
Proof.
  unfold accepts_domain. rewrite any_true. split.
  - intros (x & Hx & H). boolify. by subst.
  - intros H. exists (to_ascii_lowercase d). split; [done|]. by boolify.
Qed.

(** Domain matching ignores the case of the query. *)
Lemma accepts_domain_lower c d : accepts_domain c (to_ascii_lowercase d) = accepts_domain c d.
Proof. unfold accepts_domain. by rewrite to_ascii_lowercase_idemp. Qed.

Lemma parse_list_trimmed raw : Forall (λ s, trimmed s ∧ s ≠ []) (parse_list raw).
Proof.
  apply Forall_forall. unfold parse_list. intros s [Hs Hne]%elem_of_retain. boolify.
  apply list_elem_of_In, in_map_iff in Hs as (t & <- & _). split; [apply trim_idemp|done].
Qed.

(** A configuration that serves SQLite has a path for its file. *)
Lemma sqlite_path_backend c : is_Some (sqlite_path c) ↔ db_backend c = Sqlite.
Proof. unfold sqlite_path. destruct (db_backend c); cbn; split; try done; by intros []. Qed.
