(* ===== verification/ConfigEnv.v ===== *)
(** * ConfigEnv: loading the configuration from the environment ([src/config.rs])

    [Config::from_env] with its helpers. The environment is a function from the name of a
    variable to its value ([std::env::var(..).ok()]), files are functions from a path to
    their contents; base64 and the parser of socket addresses are parameters. The blocks of
    [from_env] that check several variables together are definitions of their own. *)

From S2P Require Import Prelude Str Model Config.

Inductive ConfigError :=
| Bail (m : str)
| InvalidValue (key raw : str)
| Reading (key path : str)
| NotBase64 (key : str)
| NotPem.

(** [<uN as FromStr>::from_str]: an optional plus sign, at least one digit, in range. *)
Fixpoint parse_digits (max acc : Z) (s : str) : option Z :=
  match s with
  | [] => Some acc
  | c :: s =>
      if is_ascii_digit c then
        let acc := 10 * acc + (c - 48) in
        if bool_decide (max < acc) then None else parse_digits max acc s
      else None
  end.
Definition parse_uint (max : Z) (s : str) : option Z :=
  match s with
  | [] => None
  | 43 :: [] => None
  | 43 :: s => parse_digits max 0 s
  | s => parse_digits max 0 s
  end.
Definition u32_max_value : Z := 2 ^ 32 - 1.
Definition parse_u32 : str → option Z := parse_uint u32_max_value.
Definition parse_u64 : str → option Z := parse_uint u64_max.
(** [usize] on a 64-bit platform. *)
Definition parse_usize : str → option Z := parse_uint u64_max.
Definition parse_bool (s : str) : option bool :=
  if bool_decide (s = lit "true") then Some true
  else if bool_decide (s = lit "false") then Some false else None.

(** [String::from_utf8]. *)
Definition from_utf8 (b : bytes) : option str :=
  let s := from_utf8_lossy b in if bool_decide (as_bytes s = b) then Some s else None.

Section from_env.
(** [std::env::var(key).ok()]. *)
Variable var : str → option str.
(** [std::fs::read_to_string(path).ok()] and [std::fs::read(path).ok()]. *)
Variable read_to_string : str → option str.
Variable read_file : str → option bytes.
(** [base64::engine::general_purpose::STANDARD.decode]. *)
Variable base64_decode : str → option bytes.
(** [<SocketAddr as FromStr>::from_str]. *)
Variable parse_socket_addr : str → option SocketAddr.

Abbreviation CfgM A := (M unit ConfigError A).

Definition env_or (key default : str) : str :=
  match var key with Some s => s | None => default end.

Definition non_empty_env (key : str) : option str := var key ≫= trimmed_nonempty.

(** [.filter(|s| !s.trim().is_empty())] and [.filter(|s| !s.is_empty())]. *)
Definition non_blank_env (key : str) : option str :=
  match var key with
  | Some s => if bool_decide (trim s = []) then None else Some s
  | None => None
  end.
Definition set_env (key : str) : option str :=
  match var key with Some [] => None | o => o end.

Definition parse_env {T} (parse : str → option T) (key : str) (default : T) : CfgM T :=
  match var key with
  | Some raw =>
      if bool_decide (trim raw = []) then mret default
      else match parse (trim raw) with
           | Some t => mret t
           | None => throw (InvalidValue key raw)
           end
  | None => mret default
  end.
(** [Duration::from_secs(parse_env(key, default.as_secs())?)]. *)
Definition parse_seconds (key : str) (default : Z) : CfgM Z :=
  n ← parse_env parse_u64 key (default / nanos_per_second); mret (seconds n).

Definition bail_if (b : bool) (m : str) : CfgM unit := if b then throw (Bail m) else mret tt.

Definition env_tls : CfgM (option TlsConfig) :=
  match set_env (lit "TLS_CERT_PATH"), set_env (lit "TLS_KEY_PATH") with
  | Some cert, Some key => mret (Some (mkTlsConfig cert key))
  | None, None => mret None
  | _, _ => throw (Bail (lit "TLS_CERT_PATH and TLS_KEY_PATH must both be set, or both be unset"))
  end.

Definition env_reserved : gset str :=
  builtin_reserved_local_parts
  ∪ list_to_set (map to_ascii_lowercase (parse_list (env_or (lit "RESERVED_LOCAL_PARTS") []))).

Definition env_vapid : CfgM (option str * option str) :=
  let public := non_empty_env (lit "VAPID_PUBLIC_KEY") in
  let private := non_empty_env (lit "VAPID_PRIVATE_KEY") in
  bail_if (xorb (bool_decide (is_Some public)) (bool_decide (is_Some private)))
    (lit "VAPID_PUBLIC_KEY and VAPID_PRIVATE_KEY must both be set, or both be unset");;
  mret (public, private).

Definition env_apns_key : CfgM (option str) :=
  match non_empty_env (lit "APNS_KEY_PATH"), non_empty_env (lit "APNS_KEY_BASE64") with
  | Some _, Some _ => throw (Bail (lit "set only one of APNS_KEY_PATH and APNS_KEY_BASE64"))
  | Some path, None =>
      match read_to_string path with
      | Some pem => mret (Some pem)
      | None => throw (Reading (lit "APNS_KEY_PATH") path)
      end
  | None, Some b64 =>
      let compact := retain (λ c, negb (is_whitespace c)) b64 in
      match base64_decode compact with
      | None => throw (NotBase64 (lit "APNS_KEY_BASE64"))
      | Some bytes => match from_utf8 bytes with Some pem => mret (Some pem) | None => throw NotPem end
      end
  | None, None => mret None
  end.

(** Team, key identifier, key and topic: all or none. *)
Definition env_apns : CfgM (option str * option str * option str * option str) :=
  let team := non_empty_env (lit "APNS_TEAM_ID") in
  let key_id := non_empty_env (lit "APNS_KEY_ID") in
  let topic := non_empty_env (lit "APNS_TOPIC") in
  key ← env_apns_key;
  let parts := [bool_decide (is_Some team); bool_decide (is_Some key_id);
                bool_decide (is_Some key); bool_decide (is_Some topic)] in
  bail_if (any (λ set, set) parts && negb (all (λ set, set) parts))
    (lit "APNs requires APNS_TEAM_ID, APNS_KEY_ID, APNS_TOPIC, and a key (APNS_KEY_PATH or APNS_KEY_BASE64) together");;
  mret (team, key_id, key, topic).

Definition env_signing_key : CfgM (option bytes) :=
  match non_empty_env (lit "TOKEN_SIGNING_KEY") with
  | None => mret None
  | Some b64 =>
      match base64_decode b64 with
      | None => throw (NotBase64 (lit "TOKEN_SIGNING_KEY"))
      | Some bytes =>
          bail_if (bool_decide (len bytes < 32))
            (lit "TOKEN_SIGNING_KEY must decode to at least 32 bytes (got " ++ fmt_int (len bytes) ++ lit ")");;
          mret (Some bytes)
      end
  end.

(** Catch-all, custom domains, their daily quota and throttle, raw messages. *)
Definition env_custom_domains : CfgM (bool * bool * Z * Z * bool) :=
  let base := Config_default in
  catch_all ← parse_env parse_bool (lit "CATCH_ALL_ENABLED") (catch_all_enabled base);
  cds ← parse_env parse_bool (lit "CUSTOM_DOMAINS_ENABLED") (custom_domains_enabled base);
  cds_day ← parse_env parse_u32 (lit "MAX_CUSTOM_DOMAINS_PER_IP_PER_DAY")
              (max_custom_domains_per_ip_per_day base);
  throttle ← parse_seconds (lit "CUSTOM_DOMAIN_VERIFY_THROTTLE_SECONDS")
               (custom_domain_verify_throttle base);
  raw ← parse_env parse_bool (lit "STORE_RAW_MESSAGE") (store_raw_message base);
  mret (catch_all, cds, cds_day, throttle, raw).

(** Enforced tiers, the signing key, the key and the entitlement of the purchase service. *)
Definition env_entitlements : CfgM (bool * option bytes * option str * str) :=
  let base := Config_default in
  enforced ← parse_env parse_bool (lit "ENTITLEMENTS_ENFORCED") (entitlements_enforced base);
  key ← env_signing_key;
  let rc_key := non_empty_env (lit "REVENUECAT_SECRET_KEY") in
  let rc_id := default (revenuecat_entitlement_id base) (non_empty_env (lit "REVENUECAT_ENTITLEMENT_ID")) in
  bail_if (enforced && negb (bool_decide (is_Some key)))
    (lit "ENTITLEMENTS_ENFORCED=true requires TOKEN_SIGNING_KEY (base64, >=32 bytes)");;
  bail_if (bool_decide (is_Some rc_key) && negb (bool_decide (is_Some key)))
    (lit "REVENUECAT_SECRET_KEY requires TOKEN_SIGNING_KEY to mint client tokens");;
  mret (enforced, key, rc_key, rc_id).

(** Whether attestation is required, the team and the bundle. *)
Definition env_app_attest (signing_key : option bytes) : CfgM (bool * option str * option str) :=
  required ← parse_env parse_bool (lit "CLIENT_ATTESTATION_REQUIRED")
               (client_attestation_required Config_default);
  let team := non_empty_env (lit "APP_ATTEST_TEAM_ID") in
  let bundle := non_empty_env (lit "APP_ATTEST_BUNDLE_ID") in
  bail_if (xorb (bool_decide (is_Some team)) (bool_decide (is_Some bundle)))
    (lit "APP_ATTEST_TEAM_ID and APP_ATTEST_BUNDLE_ID must both be set, or both be unset");;
  bail_if (bool_decide (is_Some team) && negb (bool_decide (is_Some signing_key)))
    (lit "APP_ATTEST_* requires TOKEN_SIGNING_KEY to mint client tokens");;
  bail_if (required && negb (bool_decide (is_Some team)))
    (lit "CLIENT_ATTESTATION_REQUIRED=true requires APP_ATTEST_TEAM_ID and APP_ATTEST_BUNDLE_ID (and TOKEN_SIGNING_KEY)");;
  mret (required, team, bundle).

Definition env_root_pem : CfgM (option bytes) :=
  match non_empty_env (lit "APP_ATTEST_ROOT_CA_PATH") with
  | None => mret None
  | Some path =>
      match read_file path with
      | Some pem => mret (Some pem)
      | None => throw (Reading (lit "APP_ATTEST_ROOT_CA_PATH") path)
      end
  end.

Definition env_free_tier : CfgM TierPolicy :=
  let base := free_tier Config_default in
  mailboxes ← parse_env parse_u32 (lit "FREE_ACTIVE_MAILBOXES") (active_mailboxes base);
  lifetime ← parse_env parse_u64 (lit "FREE_MAX_LIFETIME_SECONDS") (max_lifetime_seconds base);
  local ← parse_env parse_bool (lit "FREE_CUSTOM_LOCAL_PARTS") (custom_local_parts base);
  count ← parse_env parse_u32 (lit "FREE_DOMAIN_COUNT") (domain_count base);
  custom ← parse_env parse_bool (lit "FREE_CUSTOM_DOMAINS") (custom_domains base);
  mret (mkTierPolicy mailboxes lifetime local count custom).

Definition env_pro_tier : CfgM TierPolicy :=
  let base := pro_tier Config_default in
  mailboxes ← parse_env parse_u32 (lit "PRO_ACTIVE_MAILBOXES") (active_mailboxes base);
  lifetime ← parse_env parse_u64 (lit "PRO_MAX_LIFETIME_SECONDS") (max_lifetime_seconds base);
  mret (mkTierPolicy mailboxes lifetime (custom_local_parts base) (domain_count base)
          (custom_domains base)).

Definition from_env : CfgM Config :=
  let base := Config_default in
  let doms := map to_ascii_lowercase (parse_list (env_or (lit "DOMAINS") [])) in
  bail_if (bool_decide (doms = []))
    (lit "DOMAINS must be set to a comma-separated list of accepted domains");;
  let first := default [] (head doms) in
  let url := default (database_url base) (non_blank_env (lit "DATABASE_URL")) in
  db_max ← parse_env parse_u32 (lit "DB_MAX_CONNECTIONS") (db_max_connections base);
  smtp_addr ← parse_env parse_socket_addr (lit "SMTP_BIND_ADDR") (smtp_bind_addr base);
  api_addr ← parse_env parse_socket_addr (lit "API_BIND_ADDR") (api_bind_addr base);
  ttl ← parse_seconds (lit "DEFAULT_TTL_SECONDS") (default_ttl base);
  msg_size ← parse_env parse_usize (lit "MAX_MESSAGE_SIZE_BYTES") (max_message_size base);
  recipients ← parse_env parse_usize (lit "MAX_RECIPIENTS") (max_recipients base);
  connections ← parse_env parse_usize (lit "MAX_CONNECTIONS") (max_connections base);
  session ← parse_seconds (lit "SMTP_SESSION_TIMEOUT_SECONDS") (smtp_session_timeout base);
  per_ip ← parse_env parse_usize (lit "SMTP_PER_IP_CONNECTIONS_PER_MIN")
             (per_ip_connections_per_min base);
  cleanup ← parse_seconds (lit "CLEANUP_INTERVAL_SECONDS") (cleanup_interval base);
  let cors := parse_list (env_or (lit "CORS_ALLOWED_ORIGINS") (lit "*")) in
  let hostname := default first (non_blank_env (lit "SMTP_HOSTNAME")) in
  tls_config ← env_tls;
  rate ← parse_env parse_u64 (lit "API_RATE_LIMIT_PER_SECOND") (api_rate_limit_per_second base);
  burst ← parse_env parse_u32 (lit "API_RATE_LIMIT_BURST") (api_rate_limit_burst base);
  create_rate ← parse_env parse_u64 (lit "API_CREATE_RATE_LIMIT_PER_MINUTE")
                  (create_rate_limit_per_minute base);
  create_burst ← parse_env parse_u32 (lit "API_CREATE_RATE_LIMIT_BURST") (create_rate_limit_burst base);
  timeout ← parse_seconds (lit "API_REQUEST_TIMEOUT_SECONDS") (api_request_timeout base);
  proxy ← parse_env parse_bool (lit "API_TRUST_PROXY_HEADERS") (api_trust_proxy_headers base);
  docs ← parse_env parse_bool (lit "API_DOCS_ENABLED") (api_docs_enabled base);
  legal ← parse_env parse_bool (lit "LEGAL_PAGES_ENABLED") (legal_pages_enabled base);
  sse ← parse_env parse_usize (lit "SSE_MAX_CONCURRENT") (sse_max_concurrent base);
  sse_ip ← parse_env parse_usize (lit "SSE_MAX_PER_IP") (sse_max_per_ip base);
  per_day ← parse_env parse_u32 (lit "MAX_ADDRESSES_PER_IP_PER_DAY") (max_addresses_per_ip_per_day base);
  msgs ← parse_env parse_u32 (lit "MAX_MESSAGES_PER_MAILBOX") (max_messages_per_mailbox base);
  mbytes ← parse_env parse_u64 (lit "MAX_MAILBOX_BYTES") (max_mailbox_bytes base);
  disk ← parse_env parse_u64 (lit "MIN_FREE_DISK_BYTES") (min_free_disk_bytes base);
  vapid ← env_vapid;
  let subject := default (lit "mailto:postmaster@" ++ first) (non_empty_env (lit "VAPID_SUBJECT")) in
  subs ← parse_env parse_u32 (lit "MAX_SUBSCRIPTIONS_PER_MAILBOX") (max_subscriptions_per_mailbox base);
  apns ← env_apns;
  sandbox ← parse_env parse_bool (lit "APNS_SANDBOX") (apns_sandbox base);
  cd ← env_custom_domains;
  let '(catch_all, cds, cds_day, throttle, raw) := cd in
  ent ← env_entitlements;
  let '(enforced, key, rc_key, rc_id) := ent in
  attest ← env_app_attest key;
  root_pem ← env_root_pem;
  free ← env_free_tier;
  pro ← env_pro_tier;
  mret {|
    smtp_bind_addr := smtp_addr; api_bind_addr := api_addr; domains := doms; database_url := url;
    db_max_connections := db_max; default_ttl := ttl; max_message_size := msg_size;
    max_recipients := recipients; max_connections := connections; smtp_session_timeout := session;
    per_ip_connections_per_min := per_ip; cleanup_interval := cleanup; cors_allowed_origins := cors;
    smtp_hostname := hostname; tls := tls_config; reserved_local_parts := env_reserved;
    api_rate_limit_per_second := rate; api_rate_limit_burst := burst;
    create_rate_limit_per_minute := create_rate; create_rate_limit_burst := create_burst;
    api_request_timeout := timeout; api_trust_proxy_headers := proxy; api_docs_enabled := docs;
    legal_pages_enabled := legal; sse_max_concurrent := sse; sse_max_per_ip := sse_ip;
    max_addresses_per_ip_per_day := per_day; max_messages_per_mailbox := msgs;
    max_mailbox_bytes := mbytes; min_free_disk_bytes := disk; vapid_public_key := vapid.1;
    vapid_private_key := vapid.2; vapid_subject := subject; max_subscriptions_per_mailbox := subs;
    apns_team_id := apns.1.1.1; apns_key_id := apns.1.1.2; apns_private_key := apns.1.2;
    apns_topic := apns.2; apns_sandbox := sandbox; catch_all_enabled := catch_all;
    custom_domains_enabled := cds; max_custom_domains_per_ip_per_day := cds_day;
    custom_domain_verify_throttle := throttle; store_raw_message := raw;
    entitlements_enforced := enforced; token_signing_key := key; revenuecat_secret_key := rc_key;
    revenuecat_entitlement_id := rc_id; client_attestation_required := attest.1.1;
    app_attest_team_id := attest.1.2; app_attest_bundle_id := attest.2;
    app_attest_root_pem := root_pem; free_tier := free; pro_tier := pro |}.
End from_env.

(** ** What loading guarantees *)

(** A configuration the rest of the program can rely on. *)
Record config_wf (c : Config) : Prop := {
  cw_domains : domains c ≠ [] ∧ Forall (λ d, d ≠ [] ∧ to_ascii_lowercase d = d) (domains c);
  cw_hostname : smtp_hostname c ≠ [];
  cw_reserved : builtin_reserved_local_parts ⊆ reserved_local_parts c;
  cw_quotas : 0 ≤ max_messages (mailbox_quotas c) < 2 ^ 32 ∧ 0 ≤ max_bytes (mailbox_quotas c) < 2 ^ 64;
  cw_times : 0 ≤ default_ttl c ∧ 0 ≤ smtp_session_timeout c ∧ 0 ≤ cleanup_interval c;
  cw_push : is_Some (vapid_public_key c) ↔ is_Some (vapid_private_key c);
  cw_apns : apns_configured c = true ∨
    apns_team_id c = None ∧ apns_key_id c = None ∧ apns_private_key c = None ∧ apns_topic c = None;
  cw_key k : token_signing_key c = Some k → 32 ≤ len k;
  cw_enforced : entitlements_enforced c = true ∨ is_Some (revenuecat_secret_key c) ∨
    is_Some (app_attest_team_id c) → is_Some (token_signing_key c);
  cw_attest : is_Some (app_attest_team_id c) ↔ is_Some (app_attest_bundle_id c);
  cw_required : client_attestation_required c = true →
    app_attest_configured c = true ∧ is_Some (token_signing_key c);
}.

Lemma parse_digits_range max acc s n :
  0 ≤ acc ≤ max → parse_digits max acc s = Some n → 0 ≤ n ≤ max.
Proof.
  revert acc. induction s as [|c s IH]; intros acc Hacc; cbn; [by intros [= <-]|].
  destruct (is_ascii_digit c) eqn:Hc; [|done]. case_bool_decide; [done|]. apply IH.
  unfold is_ascii_digit in Hc. apply in_range_spec in Hc. lia.
Qed.
Lemma parse_uint_range max s n : 0 ≤ max → parse_uint max s = Some n → 0 ≤ n ≤ max.
Proof.
  intros Hmax. unfold parse_uint. intros Hp.
  repeat (case_match; try done); by eapply parse_digits_range; [|exact Hp].
Qed.

Section guarantees.
Variable var : str → option str.

Lemma parse_env_inv {T} (P : T → Prop) (parse : str → option T) key d w t w' :
  parse_env var parse key d w = (Ok t, w') → P d → (∀ s t, parse s = Some t → P t) → P t.
Proof.
  unfold parse_env. intros Hr Hd Hp. destruct (var key) as [raw|]; [|by injection Hr as <- _].
  case_bool_decide; [by injection Hr as <- _|].
  destruct (parse (trim raw)) eqn:Hs; [|done]. injection Hr as <- _. eauto.
Qed.
Lemma parse_env_uint max key d w t w' :
  0 ≤ max → 0 ≤ d ≤ max → parse_env var (parse_uint max) key d w = (Ok t, w') → 0 ≤ t ≤ max.
Proof.
  intros Hmax Hd Hr. apply (parse_env_inv (λ t, 0 ≤ t ≤ max)) in Hr; [done|done|].
  intros s n. by apply parse_uint_range.
Qed.
Lemma parse_seconds_nonneg key d w t w' : 0 ≤ d → parse_seconds var key d w = (Ok t, w') → 0 ≤ t.
Proof.
  intros Hd (n & w1 & Hn & Hr)%bind_inv. injection Hr as <- _.
  apply (parse_env_inv (λ n, 0 ≤ n)) in Hn; [unfold seconds, nanos_per_second; lia| |].
  - unfold nanos_per_second. apply Z.div_pos; lia.
  - intros s k Hk%parse_uint_range; [lia|]. vm_compute. discriminate.
Qed.
Lemma bail_if_inv b m w r : bail_if b m w = (Ok tt, r) → b = false.
Proof. by destruct b. Qed.

Lemma env_vapid_inv w v w' : env_vapid var w = (Ok v, w') → is_Some v.1 ↔ is_Some v.2.
Proof.
  intros ([] & w1 & Hb%bail_if_inv & Hr)%bind_inv. injection Hr as <- _. cbn in *.
  apply xorb_eq in Hb. rewrite <-(bool_decide_eq_true (is_Some _)), Hb. apply bool_decide_eq_true.
Qed.
Lemma env_apns_inv read b64 w v w' :
  env_apns var read b64 w = (Ok v, w') →
  let '(team, key_id, key, topic) := v in
  (is_Some team ∧ is_Some key_id ∧ is_Some key ∧ is_Some topic) ∨
  (team = None ∧ key_id = None ∧ key = None ∧ topic = None).
Proof.
  intros (key & w1 & _ & ([] & w2 & Hb%bail_if_inv & Hr)%bind_inv)%bind_inv. injection Hr as <- _. cbn in Hb.
  destruct (non_empty_env var (lit "APNS_TEAM_ID")), (non_empty_env var (lit "APNS_KEY_ID")), key,
    (non_empty_env var (lit "APNS_TOPIC")); cbn in Hb; try done; [left|right]; split_and!; (done || by eexists).
Qed.
Lemma env_signing_key_inv b64 w k w' :
  env_signing_key var b64 w = (Ok (Some k), w') → 32 ≤ len k.
Proof.
  unfold env_signing_key. destruct (non_empty_env _ _); [|done]. destruct (b64 _) as [bs|]; [|done].
  intros ([] & w1 & Hb%bail_if_inv & Hr)%bind_inv. injection Hr as <- _. apply bool_decide_eq_false in Hb. lia.
Qed.
Lemma env_entitlements_inv b64 w v w' :
  env_entitlements var b64 w = (Ok v, w') →
  let '(enforced, key, rc_key, _) := v in
  (∀ k, key = Some k → 32 ≤ len k) ∧ (enforced = true ∨ is_Some rc_key → is_Some key).
Proof.
  intros (enforced & w1 & _ & (key & w2 & Hkey & ([] & w3 & H1%bail_if_inv &
    ([] & w4 & H2%bail_if_inv & Hr)%bind_inv)%bind_inv)%bind_inv)%bind_inv.
  injection Hr as <- _. cbn zeta. split.
  - intros k ->. by apply env_signing_key_inv in Hkey.
  - destruct key as [k|]; [by eexists|]. cbn in H1, H2. rewrite andb_true_r in H1, H2.
    apply bool_decide_eq_false in H2. intros [He|Hr]; [congruence|done].
Qed.
Lemma env_app_attest_inv key w v w' :
  env_app_attest var key w = (Ok v, w') →
  (is_Some v.1.2 ↔ is_Some v.2) ∧ (is_Some v.1.2 → is_Some key) ∧ (v.1.1 = true → is_Some v.1.2).
Proof.
  intros (req & w1 & _ & ([] & w2 & H1%bail_if_inv & ([] & w3 & H2%bail_if_inv &
    ([] & w4 & H3%bail_if_inv & Hr)%bind_inv)%bind_inv)%bind_inv)%bind_inv.
  injection Hr as <- _. cbn. destruct (non_empty_env var (lit "APP_ATTEST_TEAM_ID")),
    (non_empty_env var (lit "APP_ATTEST_BUNDLE_ID")), key, req; cbn in *; try done;
    split_and!; intros; try done; by eexists.
Qed.

Lemma env_domains doms :
  doms = map to_ascii_lowercase (parse_list (env_or var (lit "DOMAINS") [])) →
  Forall (λ d, d ≠ [] ∧ to_ascii_lowercase d = d) doms.
Proof.
  intros ->. pose proof (parse_list_trimmed (env_or var (lit "DOMAINS") [])) as Hl.
  apply Forall_map. eapply Forall_impl; [exact Hl|]. cbn. intros d [_ Hd].
  split; [|apply to_ascii_lowercase_idemp]. intros Hn. apply Hd. by destruct d.
Qed.
End guarantees.

(** The next step of a load that succeeded. *)
Ltac next H x Hx :=
  let w := fresh "w" in
  let H' := fresh in
  apply bind_inv in H as (x & w & Hx & H'); cbn zeta in H'; rename H' into H.
Ltac skip H := let x := fresh in let Hx := fresh in next H x Hx; clear Hx.

(** C31: a configuration the server starts with is well formed. At least one domain is served,
    all in lower case; the built-in reserved names stay reserved; the numbers fit their
    types; the settings that only work together are set together (the VAPID keys, the four
    APNs settings, the App Attest identity); tokens are signed with at least 32 bytes, and
    whatever needs to mint or check them (enforced tiers, purchases, attestation) comes
    with a signing key. Without domains the load fails. *)
Theorem from_env_wf var read_str read b64 addr :
  (∀ c w w', from_env var read_str read b64 addr w = (Ok c, w') → config_wf c) ∧
  (parse_list (env_or var (lit "DOMAINS") []) = [] →
   ∀ w, (from_env var read_str read b64 addr w).1
        = Err (Bail (lit "DOMAINS must be set to a comma-separated list of accepted domains"))).
Proof.
  split; [|intros Hd w; unfold from_env; by rewrite Hd].
  intros c w0 w' H. unfold from_env in H. cbn zeta in H.
  pose proof (env_domains var _ eq_refl) as Hdoms.
  set (doms := map to_ascii_lowercase (parse_list (env_or var (lit "DOMAINS") []))) in *.
  next H u Hd. destruct u. apply bail_if_inv, bool_decide_eq_false in Hd.
  do 3 skip H. next H ttl Httl. do 3 skip H. next H session Hsession. skip H. next H cleanup Hcleanup.
  do 12 skip H. next H msgs Hmsgs. next H mbytes Hmbytes. skip H. next H vapid Hvapid. skip H.
  next H apns Hapns. skip H. next H cd Hcd. clear Hcd. destruct cd as [[[[? ?] ?] ?] ?].
  next H ent Hent. apply env_entitlements_inv in Hent. destruct ent as [[[enforced key] rc_key] rc_id].
  destruct Hent as [Hkey Hent]. next H attest Hattest. do 3 skip H. injection H as <- _.
  apply parse_env_uint in Hmsgs; [|vm_compute; (discriminate || (split; discriminate))..].
  apply parse_env_uint in Hmbytes; [|vm_compute; (discriminate || (split; discriminate))..].
  apply parse_seconds_nonneg in Httl; [|vm_compute; discriminate].
  apply parse_seconds_nonneg in Hsession; [|vm_compute; discriminate].
  apply parse_seconds_nonneg in Hcleanup; [|vm_compute; discriminate].
  apply env_vapid_inv in Hvapid. apply env_apns_inv in Hapns. apply env_app_attest_inv in Hattest as (A1 & A2 & A3).
  unfold u32_max_value, u64_max in *. destruct apns as [[[team key_id] akey] topic].
  split; cbn [domains smtp_hostname reserved_local_parts mailbox_quotas max_messages max_bytes
    max_messages_per_mailbox max_mailbox_bytes default_ttl smtp_session_timeout cleanup_interval
    vapid_public_key vapid_private_key apns_team_id apns_key_id apns_private_key apns_topic
    token_signing_key entitlements_enforced revenuecat_secret_key app_attest_team_id
    app_attest_bundle_id client_attestation_required fst snd].
  - done.
  - unfold non_blank_env. destruct doms as [|d l]; [done|]. apply Forall_cons in Hdoms as [[Hne _] _].
    destruct (var _) as [h|]; [|done]. destruct (bool_decide (trim h = [])) eqn:Hh; [exact Hne|].
    apply bool_decide_eq_false in Hh. cbn. by intros ->.
  - apply union_subseteq_l.
  - lia.
  - done.
  - done.
  - unfold apns_configured. cbn [apns_team_id apns_key_id apns_private_key apns_topic]. destruct Hapns as [(? & ? & ? & ?)|?]; [left|by right].
    by rewrite !bool_decide_true.
  - exact Hkey.
  - intros [He|[Hr|Ht]]; auto.
  - done.
  - intros Hreq. unfold app_attest_configured. cbn [app_attest_team_id app_attest_bundle_id]. apply A3 in Hreq as Ht.
    rewrite !bool_decide_true by (done || by apply A1). split; [done|by apply A2].
Qed.

(** Two domains in mixed case, a signing key, a cap and enforced tiers. *)
Definition demo_var (key : str) : option str :=
  if bool_decide (key = lit "DOMAINS") then Some (lit " Example.COM ,b.org,")
  else if bool_decide (key = lit "ENTITLEMENTS_ENFORCED") then Some (lit "true")
  else if bool_decide (key = lit "TOKEN_SIGNING_KEY") then Some (lit "key")
  else if bool_decide (key = lit "MAX_MESSAGES_PER_MAILBOX") then Some (lit " +7 ") else None.
Definition demo_load : result Config ConfigError * unit :=
  from_env demo_var (λ _, None) (λ _, None) (λ _, Some (repeat 7 32)) (λ _, None) tt.
Lemma demo_load_ok :
  match demo_load.1 with
  | Ok c => bool_decide (domains c = [lit "example.com"; lit "b.org"]) && (max_messages_per_mailbox c =? 7)
  | Err _ => false
  end = true.
Proof. vm_compute. reflexivity. Qed.

Lemma from_env_wf_witness :
  ∃ c w', demo_load = (Ok c, w') ∧ domains c = [lit "example.com"; lit "b.org"] ∧ config_wf c.
Proof.
  pose proof demo_load_ok as Hok.
  pose proof (proj1 (from_env_wf demo_var (λ _, None) (λ _, None) (λ _, Some (repeat 7 32)) (λ _, None))) as Hwf.
  specialize (λ c w', Hwf c tt w'). fold demo_load in Hwf. destruct demo_load as [[c|] w']; [|done].
  cbn [fst] in Hok. apply andb_prop in Hok as [Hd _]. apply bool_decide_eq_true in Hd.
  exists c, w'. split; [done|]. split; [done|]. by apply (Hwf c w').
Defined.
