(* ===== verification/StoreSpec.v ===== *)
(** * StoreSpec: the storage interface ([src/store/mod.rs])

    The trait [Store] is the class [Store S] of operations on a state [S]; an
    operation runs on the state together with the environment it reads the clock and
    fresh identifiers from. [StoreLaws] is what the trait's documentation promises to
    the SMTP receiver and to the HTTP handlers: it is stated on an abstract view of
    the state (mailboxes, custom domains, attested devices), so the clients are
    verified against it and every backend discharges it once. *)

From S2P Require Import Prelude Str Model Config.

(** [anyhow::Error] as the callers can tell errors apart: the two typed markers, an
    [sqlx::Error] (of which only [is_unique_violation] is asked), and anything else. *)
Inductive anyhow :=
| UniqueViolation (msg : str)
| SubscriptionLimit (n : Z)
| Sqlx (unique : bool)
| Anyhow (msg : str).

(** [crate::api::is_unique_violation]. *)
Definition is_unique_violation (e : anyhow) : bool :=
  match e with
  | UniqueViolation _ => true
  | Sqlx unique => unique
  | _ => false
  end.

Abbreviation SM S A := (M (S * Env) anyhow A) (only parsing).

Definition utc_now {S E} : M (S * Env) E Time :=
  λ '(s, e), let '(t, e') := env_now e in (Ok t, (s, e')).
Definition new_v4 {S E} : M (S * Env) E Uuid :=
  λ '(s, e), let '(u, e') := env_new_v4 e in (Ok u, (s, e')).
Definition get_st {S E} : M (S * Env) E S := λ w, (Ok w.1, w).
Definition put_st {S E} (s : S) : M (S * Env) E unit := λ w, (Ok tt, (s, w.2)).

Class Store (S : Type) := {
  create_mailbox (address domain : str) (expires_at : Time)
    (owner_token_hash creator_device_hash : option str) : SM S Mailbox;
  get_mailbox (address : str) : SM S (option Mailbox);
  mailbox_is_active (address : str) (now : Time) : SM S bool;
  extend_mailbox (address : str) (new_expires_at : Time) : SM S (option Mailbox);
  delete_mailbox (address : str) : SM S bool;
  rotate_owner_token (address new_hash : str) : SM S bool;
  save_message (address : str) (message : NewMessage) : SM S StoredMessage;
  list_messages (address : str) (limit : Z) (since : option Uuid) : SM S (list MessageSummary);
  get_message (address : str) (id : Uuid) : SM S (option StoredMessage);
  get_raw_message (address : str) (id : Uuid) : SM S (option bytes);
  get_attachment (address : str) (message_id attachment_id : Uuid) : SM S (option Attachment);
  delete_message (address : str) (id : Uuid) : SM S bool;
  mark_seen (address : str) (id : Uuid) : SM S bool;
  delete_all_messages (address : str) : SM S Z;
  purge_expired (now : Time) : SM S Z;
  add_subscription (address : str) (kind : SubscriptionKind) (endpoint p256dh auth : str)
    (max_per_mailbox : Z) : SM S PushSubscription;
  list_subscriptions (address : str) : SM S (list PushSubscription);
  delete_subscription (address endpoint : str) : SM S bool;
  create_custom_domain (domain claim_token_hash txt_token : str) : SM S CustomDomain;
  get_custom_domain (domain : str) : SM S (option CustomDomain);
  delete_custom_domain (domain : str) : SM S bool;
  custom_domain_is_verified (domain : str) : SM S bool;
  record_custom_domain_check (domain : str) (status : CustomDomainStatus)
    (verified_at : option Time) (checked_at : Time) : SM S bool;
  list_custom_domains_to_recheck (cutoff : Time) : SM S (list CustomDomain);
  upsert_attested_device (key_id : str) (public_key : bytes) (now : Time) : SM S AttestedDevice;
  get_attested_device (key_id : str) : SM S (option AttestedDevice);
  advance_attested_device_counter (key_id : str) (counter : Z) (seen_at : Time) : SM S bool;
  prune_attested_devices (idle_before : Time) : SM S Z;
  count_active_mailboxes_by_device (creator_device_hash : str) (now : Time) : SM S Z;
  run_maintenance : SM S unit;
  ping : SM S unit;
}.

(** An identifier is a 128-bit value, and an environment draws such values. *)
Definition uuid_range (u : Uuid) : Prop := 0 ≤ u < 2 ^ 128.
Definition uuids (e : Env) : Prop := ∀ n, uuid_range (e_uuid e n).

(** ** Sequences of calls *)

(** The calls that change a store, as data. *)
Inductive op :=
| OpCreateMailbox (address domain : str) (expires_at : Time) (owner device : option str)
| OpExtend (address : str) (t : Time)
| OpDeleteMailbox (address : str)
| OpRotate (address hash : str)
| OpSave (address : str) (m : NewMessage)
| OpDeleteMessage (address : str) (id : Uuid)
| OpMarkSeen (address : str) (id : Uuid)
| OpDeleteAll (address : str)
| OpPurge (now : Time)
| OpSubscribe (address : str) (kind : SubscriptionKind) (endpoint p256dh auth : str) (n : Z)
| OpUnsubscribe (address endpoint : str)
| OpCreateDomain (domain hash token : str)
| OpDeleteDomain (domain : str)
| OpRecordCheck (domain : str) (st : CustomDomainStatus) (v : option Time) (t : Time)
| OpUpsertDevice (key : str) (pk : bytes) (now : Time)
| OpAdvance (key : str) (n : Z) (t : Time)
| OpPrune (t : Time).

(** Run a call and discard its answer; an error leaves what the call left. *)
Definition call {S A} (m : SM S A) (w : S * Env) : S * Env := (m w).2.

Definition run_op {S} `{Store S} (o : op) : S * Env → S * Env :=
  match o with
  | OpCreateMailbox a d x h k => call (create_mailbox a d x h k)
  | OpExtend a t => call (extend_mailbox a t)
  | OpDeleteMailbox a => call (delete_mailbox a)
  | OpRotate a h => call (rotate_owner_token a h)
  | OpSave a m => call (save_message a m)
  | OpDeleteMessage a i => call (delete_message a i)
  | OpMarkSeen a i => call (mark_seen a i)
  | OpDeleteAll a => call (delete_all_messages a)
  | OpPurge t => call (purge_expired t)
  | OpSubscribe a k ep p au n => call (add_subscription a k ep p au n)
  | OpUnsubscribe a ep => call (delete_subscription a ep)
  | OpCreateDomain d h t => call (create_custom_domain d h t)
  | OpDeleteDomain d => call (delete_custom_domain d)
  | OpRecordCheck d st v t => call (record_custom_domain_check d st v t)
  | OpUpsertDevice k pk t => call (upsert_attested_device k pk t)
  | OpAdvance k n t => call (advance_attested_device_counter k n t)
  | OpPrune t => call (prune_attested_devices t)
  end.

Definition run_ops {S} `{Store S} (l : list op) (w : S * Env) : S * Env :=
  foldl (λ w o, run_op o w) w l.

Lemma run_ops_preserves {S} `{Store S} (P : S * Env → Prop) l w :
  (∀ o w, P w → P (run_op o w)) → P w → P (run_ops l w).
Proof.
  intros Hop. revert w. unfold run_ops. induction l as [|o l IH]; intros w Hw; cbn; auto.
Qed.

(** ** The abstract view of a store *)

Record AbsStore := mkAbsStore {
  ab_mailboxes : gmap str Mailbox;
  ab_domains : gmap str CustomDomain;
  ab_devices : gmap str AttestedDevice;
}.

Definition set_mailboxes (f : gmap str Mailbox → gmap str Mailbox) (v : AbsStore) : AbsStore :=
  mkAbsStore (f (ab_mailboxes v)) (ab_domains v) (ab_devices v).
Definition set_domains (f : gmap str CustomDomain → gmap str CustomDomain) (v : AbsStore) :=
  mkAbsStore (ab_mailboxes v) (f (ab_domains v)) (ab_devices v).
Definition set_devices (f : gmap str AttestedDevice → gmap str AttestedDevice) (v : AbsStore) :=
  mkAbsStore (ab_mailboxes v) (ab_domains v) (f (ab_devices v)).

(** Receiving mail: the mailbox exists and has not expired. *)
Definition active (v : AbsStore) (address : str) (now : Time) : bool :=
  match ab_mailboxes v !! address with
  | Some m => now <? mb_expires_at m
  | None => false
  end.
Definition domain_verified (v : AbsStore) (domain : str) : bool :=
  match ab_domains v !! domain with
  | Some d => bool_decide (cd_status d = Verified)
  | None => false
  end.
Definition with_expiry (t : Time) (m : Mailbox) : Mailbox :=
  mkMailbox (mb_address m) (mb_domain m) (mb_created_at m) t (mb_owner_token_hash m)
    (mb_creator_device_hash m).
Definition with_owner_hash (h : option str) (m : Mailbox) : Mailbox :=
  mkMailbox (mb_address m) (mb_domain m) (mb_created_at m) (mb_expires_at m) h
    (mb_creator_device_hash m).
Definition with_check (s : CustomDomainStatus) (v : option Time) (t : Time) (d : CustomDomain) :=
  mkCustomDomain (cd_domain d) s (cd_claim_token_hash d) (cd_txt_token d) (cd_created_at d) v
    (Some t).
Definition with_counter (n : Z) (t : Time) (d : AttestedDevice) : AttestedDevice :=
  mkAttestedDevice (ad_key_id d) (ad_public_key d) n (ad_created_at d) t.
Definition with_last_seen (t : Time) (d : AttestedDevice) : AttestedDevice :=
  mkAttestedDevice (ad_key_id d) (ad_public_key d) (ad_counter d) (ad_created_at d) t.

(** Mailboxes are filed under their own address. *)
Definition keyed (v : AbsStore) : Prop :=
  ∀ a m, ab_mailboxes v !! a = Some m → mb_address m = a.

(** An operation that answers [f] of the view and leaves it and the environment alone;
    it may also fail (a database error), and then it changed nothing either. *)
Definition reads {S A} (view : S → AbsStore) (m : SM S A) (f : AbsStore → A) : Prop :=
  ∀ s e, view (m (s, e)).2.1 = view s ∧ (m (s, e)).2.2 = e ∧
         (∀ a, (m (s, e)).1 = Ok a → a = f (view s)).

(** An operation that leaves the view alone. *)
Definition silent {S A} (view : S → AbsStore) (m : SM S A) : Prop :=
  ∀ s e, view (m (s, e)).2.1 = view s.

(** An operation that, when it succeeds, answers [f] of the view and moves it to [g]; when
    it fails it may still have taken effect (the update went through and reading the row
    back failed), wholly or not at all. *)
Definition updates {S A} (view : S → AbsStore) (m : SM S A)
    (f : AbsStore → A) (g : AbsStore → AbsStore) : Prop :=
  ∀ s e, match m (s, e) with
         | (Ok a, (s', _)) => a = f (view s) ∧ view s' = g (view s)
         | (Err _, (s', _)) => view s' = view s ∨ view s' = g (view s)
         end.

Class StoreLaws (S : Type) {ops : Store S} := {
  view : S → AbsStore;
  law_create_mailbox a d x h k s e :
    match create_mailbox a d x h k (s, e) with
    | (Ok mb, (s', _)) =>
        ab_mailboxes (view s) !! a = None ∧
        (∃ t, mb = mkMailbox a d t x h k) ∧
        view s' = set_mailboxes (insert a mb) (view s)
    | (Err er, (s', _)) =>
        view s' = view s ∧
        (is_unique_violation er = true → is_Some (ab_mailboxes (view s) !! a))
    end;
  law_get_mailbox a : reads view (get_mailbox a) (λ v, ab_mailboxes v !! a);
  law_mailbox_is_active a now : reads view (mailbox_is_active a now) (λ v, active v a now);
  law_extend_mailbox a t :
    updates view (extend_mailbox a t)
      (λ v, with_expiry t <$> ab_mailboxes v !! a) (set_mailboxes (alter (with_expiry t) a));
  law_delete_mailbox a :
    updates view (delete_mailbox a)
      (λ v, bool_decide (is_Some (ab_mailboxes v !! a))) (set_mailboxes (delete a));
  law_rotate_owner_token a h :
    updates view (rotate_owner_token a h)
      (λ v, bool_decide (is_Some (ab_mailboxes v !! a)))
      (set_mailboxes (alter (with_owner_hash (Some h)) a));
  law_save_message a m : silent view (save_message a m);
  law_list_messages a n c : silent view (list_messages a n c);
  law_get_message a i : silent view (get_message a i);
  law_get_raw_message a i : silent view (get_raw_message a i);
  law_get_attachment a i j : silent view (get_attachment a i j);
  law_delete_message a i : silent view (delete_message a i);
  law_mark_seen a i : silent view (mark_seen a i);
  law_delete_all_messages a : silent view (delete_all_messages a);
  law_purge_expired now s e :
    keyed (view s) →
    match purge_expired now (s, e) with
    | (Ok n, (s', _)) =>
        view s' = set_mailboxes (filter (λ p, now < mb_expires_at p.2)) (view s) ∧
        n = Z.of_nat (size (ab_mailboxes (view s))) - Z.of_nat (size (ab_mailboxes (view s')))
    | (Err _, (s', _)) => view s' = view s
    end;
  law_add_subscription a k ep p au n : silent view (add_subscription a k ep p au n);
  law_list_subscriptions a : silent view (list_subscriptions a);
  law_delete_subscription a ep : silent view (delete_subscription a ep);
  law_create_custom_domain d h t s e :
    match create_custom_domain d h t (s, e) with
    | (Ok cd, (s', _)) =>
        ab_domains (view s) !! d = None ∧
        (∃ t', cd = mkCustomDomain d Pending h t t' None None) ∧
        view s' = set_domains (insert d cd) (view s)
    | (Err er, (s', _)) =>
        view s' = view s ∧
        (is_unique_violation er = true → is_Some (ab_domains (view s) !! d))
    end;
  law_get_custom_domain d : reads view (get_custom_domain d) (λ v, ab_domains v !! d);
  law_delete_custom_domain d :
    updates view (delete_custom_domain d)
      (λ v, bool_decide (is_Some (ab_domains v !! d))) (set_domains (delete d));
  law_custom_domain_is_verified d :
    reads view (custom_domain_is_verified d) (λ v, domain_verified v d);
  law_record_custom_domain_check d st v t :
    updates view (record_custom_domain_check d st v t)
      (λ v, bool_decide (is_Some (ab_domains v !! d))) (set_domains (alter (with_check st v t) d));
  law_list_custom_domains_to_recheck c : silent view (list_custom_domains_to_recheck c);
  law_upsert_attested_device k pk now :
    updates view (upsert_attested_device k pk now)
      (λ v, match ab_devices v !! k with
            | Some d => with_last_seen now d
            | None => mkAttestedDevice k pk 0 now now
            end)
      (λ v, set_devices (insert k
              match ab_devices v !! k with
              | Some d => with_last_seen now d
              | None => mkAttestedDevice k pk 0 now now
              end) v);
  law_get_attested_device k : reads view (get_attested_device k) (λ v, ab_devices v !! k);
  law_advance k n t :
    updates view (advance_attested_device_counter k n t)
      (λ v, match ab_devices v !! k with Some d => ad_counter d <? n | None => false end)
      (λ v, match ab_devices v !! k with
            | Some d => if ad_counter d <? n
                        then set_devices (insert k (with_counter n t d)) v else v
            | None => v
            end);
  law_prune t :
    updates view (prune_attested_devices t)
      (λ v, Z.of_nat (size (ab_devices v))
            - Z.of_nat (size (filter (λ p, t ≤ ad_last_seen_at p.2) (ab_devices v))))
      (set_devices (filter (λ p, t ≤ ad_last_seen_at p.2)));
  law_count_active h now :
    reads view (count_active_mailboxes_by_device h now)
      (λ v, Z.of_nat (size (filter (λ p, mb_creator_device_hash p.2 = Some h ∧
                                          now < mb_expires_at p.2) (ab_mailboxes v))));
  law_run_maintenance : silent view run_maintenance;
  law_ping : silent view ping;
}.

(** ** Using the laws *)

Section laws.
Context {S : Type} `{SL : StoreLaws S}.

Lemma reads_ok {A} (m : SM S A) f s e a w :
  reads view m f → m (s, e) = (Ok a, w) → a = f (view s) ∧ view w.1 = view s.
Proof. intros H Hm. destruct (H s e) as (H1 & _ & H2). rewrite Hm in *. cbn in *. auto. Qed.

Lemma reads_run {A} (m : SM S A) f st :
  reads view m f →
  view (m st).2.1 = view st.1 ∧ (m st).2.2 = st.2 ∧ ∀ a, (m st).1 = Ok a → a = f (view st.1).
Proof. intros H. destruct st. apply H. Qed.

Lemma reads_silent {A} (m : SM S A) f : reads view m f → silent view m.
Proof. intros H s e. by destruct (H s e). Qed.

Lemma updates_ok {A} (m : SM S A) f g s e a w :
  updates view m f g → m (s, e) = (Ok a, w) → a = f (view s) ∧ view w.1 = g (view s).
Proof. intros H Hm. specialize (H s e). rewrite Hm in H. by destruct w. Qed.

Lemma updates_err {A} (m : SM S A) f g s e er w :
  updates view m f g → m (s, e) = (Err er, w) → view w.1 = view s ∨ view w.1 = g (view s).
Proof. intros H Hm. specialize (H s e). rewrite Hm in H. by destruct w. Qed.

(** A mailbox just created is active until it expires. *)
Lemma created_active a d x h k s e mb w now :
  create_mailbox a d x h k (s, e) = (Ok mb, w) → active (view w.1) a now = (now <? x).
Proof.
  intros H. pose proof (law_create_mailbox a d x h k s e) as L. rewrite H in L.
  destruct w as [s' e']. destruct L as (_ & [t ->] & Hv). cbn. rewrite Hv.
  unfold active, set_mailboxes. cbn. by rewrite lookup_insert_eq.
Qed.
End laws.
