(* ===== verification/Rows.v ===== *)
(** * Rows: what a query answers (the row types of [src/store/sqlite.rs], [src/store/postgres.rs])

    The structs the drivers fill from a [SELECT] or a [RETURNING], column by column, and
    their conversions into the types of the model. The structs of the two backends differ
    only in the type of identifiers: text in SQLite, which has to be parsed, and UUIDs in
    PostgreSQL. *)

From S2P Require Import Prelude Str Model Config StoreSpec.

Definition lift_str {A} (r : result A str) : result A anyhow := map_err Anyhow r.

(** ** Mailboxes and devices *)

Record MailboxRow := mkMailboxRow {
  mbr_address : str;
  mbr_domain : str;
  mbr_created_at : Time;
  mbr_expires_at : Time;
  mbr_owner_token_hash : option str;
  mbr_creator_device_hash : option str;
}.

Definition Mailbox_from (r : MailboxRow) : Mailbox := {|
  mb_address := mbr_address r;
  mb_domain := mbr_domain r;
  mb_created_at := mbr_created_at r;
  mb_expires_at := mbr_expires_at r;
  mb_owner_token_hash := mbr_owner_token_hash r;
  mb_creator_device_hash := mbr_creator_device_hash r;
|}.

Record AttestedDeviceRow := mkAttestedDeviceRow {
  adr_key_id : str;
  adr_public_key : bytes;
  adr_counter : Z;
  adr_created_at : Time;
  adr_last_seen_at : Time;
}.

Definition AttestedDevice_from (r : AttestedDeviceRow) : AttestedDevice := {|
  ad_key_id := adr_key_id r;
  ad_public_key := adr_public_key r;
  ad_counter := adr_counter r;
  ad_created_at := adr_created_at r;
  ad_last_seen_at := adr_last_seen_at r;
|}.

(** ** Rows with identifiers *)

Section rows.
Context {I : Type}.

Record SummaryRow := mkSummaryRow {
  sur_id : I;
  sur_mail_from : str;
  sur_subject : option str;
  sur_received_at : Time;
  sur_has_attachments : bool;
  sur_seen : bool;
}.

Record MessageRow := mkMessageRow {
  mer_id : I;
  mer_mailbox_address : str;
  mer_mail_from : str;
  mer_subject : option str;
  mer_message_date : option Time;
  mer_text_body : option str;
  mer_html_body : option str;
  mer_raw_size : Z;
  mer_received_at : Time;
  mer_seen : bool;
}.

Record AttachmentMetaRow := mkAttachmentMetaRow {
  amr_id : I;
  amr_filename : option str;
  amr_content_type : str;
  amr_size : Z;
}.

Record PushSubscriptionRow := mkPushSubscriptionRow {
  psr_id : I;
  psr_mailbox_address : str;
  psr_kind : str;
  psr_endpoint : str;
  psr_p256dh : str;
  psr_auth : str;
  psr_created_at : Time;
}.
End rows.
Arguments SummaryRow : clear implicits.
Arguments MessageRow : clear implicits.
Arguments AttachmentMetaRow : clear implicits.
Arguments PushSubscriptionRow : clear implicits.

(** ** Custom domains *)

Record CustomDomainRow := mkCustomDomainRow {
  cdr_domain : str;
  cdr_claim_token_hash : str;
  cdr_txt_token : str;
  cdr_status : str;
  cdr_created_at : Time;
  cdr_verified_at : option Time;
  cdr_last_checked_at : option Time;
}.

Definition CustomDomain_try_from (r : CustomDomainRow) : result CustomDomain anyhow :=
  match lift_str (CustomDomainStatus_from_str (cdr_status r)) with
  | Ok status =>
      Ok {| cd_domain := cdr_domain r;
            cd_status := status;
            cd_claim_token_hash := cdr_claim_token_hash r;
            cd_txt_token := cdr_txt_token r;
            cd_created_at := cdr_created_at r;
            cd_verified_at := cdr_verified_at r;
            cd_last_checked_at := cdr_last_checked_at r |}
  | Err e => Err e
  end.

(** ** The text of SQLite *)

Section sqlite.
Context `{UuidText}.

Definition parse_uuid (s : str) : result Uuid anyhow :=
  ok_or (uuid_parse_str s) (Anyhow (lit "invalid uuid stored in database: " ++ s)).

Definition lite_summary (r : SummaryRow str) : result MessageSummary anyhow :=
  match parse_uuid (sur_id r) with
  | Ok id => Ok {| ms_id := id; ms_mail_from := sur_mail_from r; ms_subject := sur_subject r;
                   ms_received_at := sur_received_at r;
                   ms_has_attachments := sur_has_attachments r; ms_seen := sur_seen r |}
  | Err e => Err e
  end.

Definition lite_attachment_meta (r : AttachmentMetaRow str) : result AttachmentMeta anyhow :=
  match parse_uuid (amr_id r) with
  | Ok id => Ok {| am_id := id; am_filename := amr_filename r;
                   am_content_type := amr_content_type r; am_size := amr_size r |}
  | Err e => Err e
  end.

Definition PushSubscription_try_from (r : PushSubscriptionRow str) : result PushSubscription anyhow :=
  match parse_uuid (psr_id r) with
  | Err e => Err e
  | Ok id =>
      match lift_str (SubscriptionKind_from_str (psr_kind r)) with
      | Err e => Err e
      | Ok kind =>
          Ok {| ps_id := id; ps_mailbox_address := psr_mailbox_address r; ps_kind := kind;
                ps_endpoint := psr_endpoint r; ps_p256dh := psr_p256dh r; ps_auth := psr_auth r;
                ps_created_at := psr_created_at r |}
      end
  end.
End sqlite.

(** ** PostgreSQL

    The structs of [postgres.rs] have the fields of those above; identifiers are UUIDs and
    need no parsing. *)

Definition pg_MailboxRow : Type := MailboxRow.
Definition pg_AttestedDeviceRow : Type := AttestedDeviceRow.
Definition pg_SummaryRow : Type := SummaryRow Uuid.
Definition pg_MessageRow : Type := MessageRow Uuid.
Definition pg_AttachmentMetaRow : Type := AttachmentMetaRow Uuid.
Definition pg_PushSubscriptionRow : Type := PushSubscriptionRow Uuid.
Definition pg_CustomDomainRow : Type := CustomDomainRow.

Definition pg_Mailbox_from (r : pg_MailboxRow) : Mailbox := {|
  mb_address := mbr_address r;
  mb_domain := mbr_domain r;
  mb_created_at := mbr_created_at r;
  mb_expires_at := mbr_expires_at r;
  mb_owner_token_hash := mbr_owner_token_hash r;
  mb_creator_device_hash := mbr_creator_device_hash r;
|}.

Definition pg_AttestedDevice_from (r : pg_AttestedDeviceRow) : AttestedDevice := {|
  ad_key_id := adr_key_id r;
  ad_public_key := adr_public_key r;
  ad_counter := adr_counter r;
  ad_created_at := adr_created_at r;
  ad_last_seen_at := adr_last_seen_at r;
|}.

Definition pg_summary (r : pg_SummaryRow) : MessageSummary := {|
  ms_id := sur_id r;
  ms_mail_from := sur_mail_from r;
  ms_subject := sur_subject r;
  ms_received_at := sur_received_at r;
  ms_has_attachments := sur_has_attachments r;
  ms_seen := sur_seen r;
|}.

Definition AttachmentMeta_from (r : pg_AttachmentMetaRow) : AttachmentMeta := {|
  am_id := amr_id r;
  am_filename := amr_filename r;
  am_content_type := amr_content_type r;
  am_size := amr_size r;
|}.

Definition pg_PushSubscription_try_from (r : pg_PushSubscriptionRow) : result PushSubscription anyhow :=
  match lift_str (SubscriptionKind_from_str (psr_kind r)) with
  | Err e => Err e
  | Ok kind =>
      Ok {| ps_id := psr_id r; ps_mailbox_address := psr_mailbox_address r; ps_kind := kind;
            ps_endpoint := psr_endpoint r; ps_p256dh := psr_p256dh r; ps_auth := psr_auth r;
            ps_created_at := psr_created_at r |}
  end.

Definition pg_CustomDomain_try_from (r : pg_CustomDomainRow) : result CustomDomain anyhow :=
  match lift_str (CustomDomainStatus_from_str (cdr_status r)) with
  | Ok status =>
      Ok {| cd_domain := cdr_domain r;
            cd_status := status;
            cd_claim_token_hash := cdr_claim_token_hash r;
            cd_txt_token := cdr_txt_token r;
            cd_created_at := cdr_created_at r;
            cd_verified_at := cdr_verified_at r;
            cd_last_checked_at := cdr_last_checked_at r |}
  | Err e => Err e
  end.
