(* ===== verification/MailSpec.v ===== *)
(** * MailSpec: what a store promises about mail

    The half of the contract of [src/store/mod.rs] that [StoreLaws] leaves out: the
    content of the mailboxes. [MailLaws] is stated on an abstract inbox, the list of the
    messages of a mailbox, newest first, each with its raw form and attachments; the three
    backends discharge it, the SMTP receiver and the message endpoints are verified
    against it. *)

From S2P Require Import Prelude Str Model Config StoreSpec.

(** A message of a mailbox; [ml_files] are its attachments in no particular order. *)
Record Mail := mkMail {
  ml_id : Uuid;
  ml_from : str;
  ml_subject : option str;
  ml_date : option Time;
  ml_text : option str;
  ml_html : option str;
  ml_size : Z;
  ml_received : Time;
  ml_seen : bool;
  ml_raw : option bytes;
  ml_files : list (AttachmentMeta * bytes);
}.

Definition mail_summary (m : Mail) : MessageSummary :=
  mkMessageSummary (ml_id m) (ml_from m) (ml_subject m) (ml_received m)
    (negb (bool_decide (ml_files m = []))) (ml_seen m).

Definition see (m : Mail) : Mail :=
  mkMail (ml_id m) (ml_from m) (ml_subject m) (ml_date m) (ml_text m) (ml_html m) (ml_size m)
    (ml_received m) true (ml_raw m) (ml_files m).
Definition has_id (i : Uuid) (m : Mail) : bool := bool_decide (ml_id m = i).

(** [st] is the answer that shows message [m] of mailbox [a]. *)
Definition shows (a : str) (m : Mail) (st : StoredMessage) : Prop :=
  st = mkStoredMessage (ml_id m) a (ml_from m) (ml_subject m) (ml_date m) (ml_text m) (ml_html m)
         (ml_size m) (ml_received m) (ml_seen m) (sm_attachments st) ∧
  sm_attachments st ≡ₚ map fst (ml_files m).

(** The attachment of a message under an identifier. *)
Definition file_in (j : Uuid) (m : Mail) : option Attachment :=
  (λ f, mkAttachment (am_filename f.1) (am_content_type f.1) f.2)
    <$> find (λ f, bool_decide (am_id f.1 = j)) (ml_files m).

(** ** Pages *)

(** What comes before the message of an identifier. *)
Fixpoint until (i : Uuid) (l : list Mail) : option (list Mail) :=
  match l with
  | [] => None
  | m :: l => if has_id i m then Some [] else cons m <$> until i l
  end.
(** The messages newer than the cursor; all of them when it names none of the mailbox. *)
Definition newer (since : option Uuid) (l : list Mail) : list Mail :=
  default l (since ≫= λ i, until i l).
(** A limit of 0 is no limit. *)
Definition mail_page (limit : Z) (since : option Uuid) (l : list Mail) : list Mail :=
  if bool_decide (0 < limit) then take (Z.to_nat limit) (newer since l) else newer since l.

(** ** Saving *)

(** [n] carries the content of [m], unread. *)
Definition carries (m : NewMessage) (n : Mail) : Prop :=
  (ml_from n, ml_subject n, ml_date n, ml_text n, ml_html n, ml_size n, ml_raw n, ml_seen n)
  = (nm_mail_from m, nm_subject m, nm_message_date m, nm_text_body m, nm_html_body m, nm_raw_size m,
     nm_raw_content m, false) ∧
  map (λ f, (am_filename f.1, am_content_type f.1, f.2)) (ml_files n)
  ≡ₚ map (λ x, (na_filename x, na_content_type x, na_content x)) (nm_attachments m).

Section quotas.
(** What a size counts against the byte cap, and the caps. *)
Context (weigh : Z → Z) (q : MailboxQuotas).

(** The byte cap, newest first: a message stays while the sizes down to it, those of the
    messages that do not stay included, add up to no more than [max]; [new] always stays.
    Sums are compared as [u64] values. *)
Fixpoint within_bytes (max acc : Z) (new : Uuid) (l : list Mail) : list Mail :=
  match l with
  | [] => []
  | m :: l =>
      let acc := acc + weigh (ml_size m) in
      (if (Z.min u64_max acc <=? max) || has_id new m then [m] else []) ++ within_bytes max acc new l
  end.

(** What both caps leave of an inbox that [new] came into; a cap of 0 is no cap. *)
Definition quota_kept (new : Uuid) (l : list Mail) : list Mail :=
  let l := if bool_decide (0 < max_messages q) then take (Z.to_nat (max_messages q)) l else l in
  if bool_decide (0 < max_bytes q) then within_bytes (max_bytes q) 0 new l else l.

(** Inbox [l] became [l'] when message [n] came: [n] stands before what is older and behind
    what is newer, and of that list exactly what the caps allow is kept. *)
Definition received (n : Mail) (l l' : list Mail) : Prop :=
  ∃ l1 l2, l = l1 ++ l2 ∧ Forall (λ x, ml_received n ≤ ml_received x) l1 ∧
    Forall (λ x, ml_received x ≤ ml_received n) l2 ∧ l' = quota_kept (ml_id n) (l1 ++ n :: l2).

Lemma within_bytes_sublist max acc new l : within_bytes max acc new l `sublist_of` l.
Proof.
  revert acc. induction l as [|m l IH]; intros acc; [done|]. cbn -[u64_max]. case_match; cbn; by constructor.
Qed.
Lemma quota_kept_sublist new l : quota_kept new l `sublist_of` l.
Proof.
  unfold quota_kept. repeat case_bool_decide; try done.
  - etrans; [apply within_bytes_sublist|apply sublist_take].
  - apply within_bytes_sublist.
  - apply sublist_take.
Qed.
(** The new message stays at the head when it is the newest. *)
Lemma quota_kept_head n l : ∃ k, quota_kept (ml_id n) (n :: l) = n :: k ∧ k `sublist_of` l.
Proof.
  assert (∃ k, quota_kept (ml_id n) (n :: l) = n :: k) as [k Hk].
  { unfold quota_kept. assert (∃ k, (if bool_decide (0 < max_messages q)
      then take (Z.to_nat (max_messages q)) (n :: l) else n :: l) = n :: k) as [k ->].
    { case_bool_decide; [|eauto]. destruct (Z.to_nat (max_messages q)) eqn:Hn; [lia|]. cbn. eauto. }
    case_bool_decide; [|eauto]. cbn -[u64_max]. unfold has_id.
    rewrite (bool_decide_true (ml_id n = ml_id n)), orb_true_r by done. cbn. eauto. }
  exists k. split; [done|]. apply (sublist_app_inv_l [n]). cbn. rewrite <-Hk. apply quota_kept_sublist.
Qed.

(** Nothing appears but [n], and nothing is duplicated or reordered. *)
Lemma received_sublist n l l' : received n l l' → ∃ k, l' `sublist_of` k ∧ k ≡ₚ n :: l.
Proof.
  intros (l1 & l2 & -> & _ & _ & ->). eexists. split; [apply quota_kept_sublist|]. by rewrite Permutation_middle.
Qed.
(** A message newer than all of the inbox is kept, at the head. *)
Lemma received_newest n l l' :
  received n l l' → Forall (λ x, ml_received x < ml_received n) l → ∃ k, l' = n :: k ∧ k `sublist_of` l.
Proof.
  intros (l1 & l2 & -> & H1 & _ & ->) Hl. destruct l1 as [|x l1]; [apply quota_kept_head|].
  apply Forall_cons in H1 as [H1 _]. apply Forall_cons in Hl as [Hl _]. lia.
Qed.
End quotas.

(** The process read its clock [n] times. *)
Definition later (e e' : Env) (n : nat) : Prop := ∀ k, e_clock e' k = e_clock e (n + k)%nat.

(** The calls that may change an inbox. *)
Definition moves_mail (o : op) : bool :=
  match o with
  | OpDeleteMailbox _ | OpSave _ _ | OpDeleteMessage _ _ | OpMarkSeen _ _ | OpDeleteAll _
  | OpPurge _ => true
  | _ => false
  end.

Section shapes.
Context {S : Type} (inbox : S → str → list Mail) (caps : S → MailboxQuotas) (ok : S * Env → Prop).

(** A query: it changes nothing, and answers [R]. *)
Definition mail_reads {A} (m : SM S A) (R : (str → list Mail) → A → Prop) : Prop :=
  ∀ w, ok w → ok (m w).2 ∧ (m w).2.2 = w.2 ∧ (∀ a, inbox (m w).2.1 a = inbox w.1 a) ∧
    caps (m w).2.1 = caps w.1 ∧ ∀ x, (m w).1 = Ok x → R (inbox w.1) x.

(** An update of mailbox [a]: it answers [f] of the inbox and takes it to [g]; an error
    changes nothing. *)
Definition mail_updates {A} (m : SM S A) (a : str) (f : list Mail → A) (g : list Mail → list Mail)
    : Prop :=
  ∀ w, ok w → (m w).2.2 = w.2 ∧
    (∀ b, inbox (m w).2.1 b
          = match (m w).1 with
            | Ok _ => if bool_decide (b = a) then g (inbox w.1 a) else inbox w.1 b
            | Err _ => inbox w.1 b
            end) ∧
    ∀ x, (m w).1 = Ok x → x = f (inbox w.1 a).
End shapes.

Definition expired_at (v : AbsStore) (now : Time) (a : str) : bool :=
  match ab_mailboxes v !! a with Some mb => mb_expires_at mb <=? now | None => false end.

Class MailLaws (S : Type) {ops : Store S} {SL : StoreLaws S} := {
  mail : S → str → list Mail;
  mail_wf : S * Env → Prop;
  (** The caps of the store, which no call changes, and what a size counts against them:
      itself, unless it is negative. *)
  mail_caps : S → MailboxQuotas;
  mail_weight : Z → Z;
  law_mail_caps o w : mail_caps (run_op o w).1 = mail_caps w.1;
  law_mail_weight z : 0 ≤ z → mail_weight z = z;
  (** The identifiers the backend tells apart: all those of 128 bits, at least. *)
  mail_id : Uuid → Prop;
  law_mail_id u : uuid_range u → mail_id u;
  law_mail_nodup w a : mail_wf w → NoDup (map ml_id (mail w.1 a));
  law_mail_ids w a : mail_wf w → Forall (λ m, mail_id (ml_id m)) (mail w.1 a);
  law_mail_sorted w a : mail_wf w → StronglySorted (λ x y, ml_received y ≤ ml_received x) (mail w.1 a);
  law_mail_files w a :
    mail_wf w → Forall (λ m, NoDup (map (λ f, am_id f.1) (ml_files m)) ∧
                             Forall (λ f, mail_id (am_id f.1)) (ml_files m)) (mail w.1 a);
  law_mail_keyed w : mail_wf w → keyed (view w.1);
  law_mail_op o w : mail_wf w → mail_wf (run_op o w);
  law_mail_frame o w a : mail_wf w → moves_mail o = false → mail (run_op o w).1 a = mail w.1 a;
  law_mail_clock s e e' n : mail_wf (s, e) → later e e' n → e_uuid e' = e_uuid e → mail_wf (s, e');
  law_mail_get_mailbox a : mail_reads mail mail_caps mail_wf (get_mailbox a) (λ _ _, True);
  law_mail_is_active a t : mail_reads mail mail_caps mail_wf (mailbox_is_active a t) (λ _ _, True);
  law_mail_is_verified d : mail_reads mail mail_caps mail_wf (custom_domain_is_verified d) (λ _ _, True);
  law_mail_maintenance : mail_reads mail mail_caps mail_wf run_maintenance (λ _ _, True);
  law_mail_save a m w :
    mail_wf w →
    match save_message a m w with
    | (Ok st, w') =>
        ∃ n i k, shows a n st ∧ carries m n ∧ ml_received n = e_clock w.2 i ∧ (i < k)%nat ∧
          later w.2 w'.2 k ∧ (ml_id n ∉ map ml_id (mail w.1 a)) ∧
          received mail_weight (mail_caps w.1) n (mail w.1 a) (mail w'.1 a) ∧
          ∀ b, b ≠ a → mail w'.1 b = mail w.1 b
    | (Err _, w') => (∃ k, later w.2 w'.2 k) ∧ ∀ b, mail w'.1 b = mail w.1 b
    end;
  law_mail_list a limit since :
    0 ≤ limit → (∀ i, since = Some i → mail_id i) →
    mail_reads mail mail_caps mail_wf (list_messages a limit since)
      (λ box l, l = map mail_summary (mail_page limit since (box a)));
  law_mail_get a i :
    mail_id i →
    mail_reads mail mail_caps mail_wf (get_message a i)
      (λ box o, match find (has_id i) (box a), o with
                | Some m, Some st => shows a m st
                | None, None => True
                | _, _ => False
                end);
  law_mail_raw a i :
    mail_id i →
    mail_reads mail mail_caps mail_wf (get_raw_message a i) (λ box o, o = find (has_id i) (box a) ≫= ml_raw);
  law_mail_attachment a i j :
    mail_id i → mail_id j →
    mail_reads mail mail_caps mail_wf (get_attachment a i j)
      (λ box o, o = find (has_id i) (box a) ≫= file_in j);
  law_mail_seen a i :
    mail_id i →
    mail_updates mail mail_wf (mark_seen a i) a (any (has_id i))
      (map (λ m, if has_id i m then see m else m));
  law_mail_delete a i :
    mail_id i →
    mail_updates mail mail_wf (delete_message a i) a (any (has_id i))
      (retain (λ m, negb (has_id i m)));
  law_mail_delete_all a :
    mail_updates mail mail_wf (delete_all_messages a) a (λ l, len l) (λ _, []);
  law_mail_delete_mailbox a w :
    mail_wf w →
    ∀ b, mail (delete_mailbox a w).2.1 b
         = match (delete_mailbox a w).1 with
           | Ok _ => if bool_decide (b = a) then [] else mail w.1 b
           | Err _ => mail w.1 b
           end;
  law_mail_purge now w :
    mail_wf w →
    ∀ a, mail (purge_expired now w).2.1 a
         = match (purge_expired now w).1 with
           | Ok _ => if expired_at (view w.1) now a then [] else mail w.1 a
           | Err _ => mail w.1 a
           end;
}.

(** A store in working order. [works k st]: no call on [st] fails for the store's own
    reasons, and the next [k] identifiers drawn are new to it. The calls of the SMTP
    receiver then succeed; a save draws one identifier for the message and one for each
    attachment. *)
Class WorkingStore (S : Type) {ops : Store S} {SL : StoreLaws S} := {
  works : nat → S * Env → Prop;
  works_is_active k a t w :
    works k w → is_Ok (mailbox_is_active a t w).1 ∧ works k (mailbox_is_active a t w).2;
  works_is_verified k d w :
    works k w → is_Ok (custom_domain_is_verified d w).1 ∧ works k (custom_domain_is_verified d w).2;
  works_save k a m w :
    works (length (nm_attachments m) + Datatypes.S k) w → is_Some (ab_mailboxes (view w.1) !! a) →
    is_Ok (save_message a m w).1 ∧ works k (save_message a m w).2;
  works_clock k s e e' n : works k (s, e) → later e e' n → e_uuid e' = e_uuid e → works k (s, e');
}.

(** ** Pages of a sorted inbox *)

Lemma has_id_true i m : has_id i m = true ↔ ml_id m = i.
Proof. apply bool_decide_eq_true. Qed.

Lemma until_None i l : until i l = None ↔ any (has_id i) l = false.
Proof.
  induction l as [|m l IH]; [done|]. cbn. destruct (has_id i m); [done|]. cbn. rewrite <-IH.
  by destruct (until i l).
Qed.
Lemma until_split {A} (g : A → Mail) l x k :
  NoDup (map (λ y, ml_id (g y)) (l ++ x :: k)) →
  until (ml_id (g x)) (map g (l ++ x :: k)) = Some (map g l).
Proof.
  induction l as [|y l IH]; cbn.
  - intros _. unfold has_id. by rewrite bool_decide_true.
  - intros [Hy Hl]%NoDup_cons. rewrite (IH Hl). unfold has_id. rewrite bool_decide_false; [done|].
    intros Heq. apply Hy. rewrite Heq. apply list_elem_of_fmap. exists x. split; [done|].
    apply elem_of_app. right. left.
Qed.

(** A cursor filter [p] that accepts exactly what precedes the cursor's message in the
    order of the list cuts the list there. *)
Lemma newer_retain {A} (g : A → Mail) (R : A → A → Prop) (p : A → bool) (l : list A) x :
  NoDup (map (λ y, ml_id (g y)) l) → StronglySorted R l → x ∈ l →
  (∀ y, R y x → p y = true) → (∀ y, y = x ∨ R x y → p y = false) →
  newer (Some (ml_id (g x))) (map g l) = map g (retain p l).
Proof.
  intros Hnd Hs Hx Hp1 Hp2. apply list_elem_of_split in Hx as (l1 & l2 & ->).
  unfold newer. cbn [mbind option_bind]. rewrite until_split by done. cbn. f_equal.
  rewrite retain_app, (retain_true p l1), (retain_none p (x :: l2)), app_nil_r; [done|..].
  - intros y Hy. apply Hp2. apply StronglySorted_app_1_r in Hs.
    apply elem_of_cons in Hy as [->|Hy]; [by left|right]. inversion Hs as [|? ? _ Hf]; subst.
    rewrite Forall_forall in Hf. auto.
  - intros y Hy. apply Hp1. apply (StronglySorted_app_1_elem_of _ _ _ _ _ Hs Hy). by left.
Qed.

Lemma find_map_g {A} (g : A → Mail) i (l : list A) :
  g <$> (find (λ x, has_id i (g x)) l) = find (has_id i) (map g l).
Proof. induction l as [|x l IH]; cbn; [done|]. by destruct (has_id i (g x)). Qed.

(** ** What is kept of a list *)

Lemma sublist_retain {A} (p : A → bool) (l : list A) : retain p l `sublist_of` l.
Proof. induction l as [|x l IH]; cbn; [done|]. destruct (p x); by constructor. Qed.
Lemma sublist_map {A B} (f : A → B) (l k : list A) :
  l `sublist_of` k → map f l `sublist_of` map f k.
Proof. induction 1; cbn; by constructor. Qed.

(** ** Metadata made for new attachments *)

Definition describes (meta : AttachmentMeta) (x : NewAttachment) : Prop :=
  am_filename meta = na_filename x ∧ am_content_type meta = na_content_type x.
Lemma zip_describes metas l :
  Forall2 describes metas l →
  map (λ f : AttachmentMeta * bytes, (am_filename f.1, am_content_type f.1, f.2)) (zip metas (map na_content l))
  = map (λ x, (na_filename x, na_content_type x, na_content x)) l.
Proof. induction 1 as [|meta x metas l [H1 H2] _ IH]; cbn; [done|]. by rewrite H1, H2, IH. Qed.

Lemma any_find {A} (p : A → bool) (l : list A) : any p l = bool_decide (is_Some (find p l)).
Proof.
  apply eq_true_iff_eq. rewrite any_true, bool_decide_eq_true. split.
  - intros (x & Hx & Hp). destruct (find p l) as [y|] eqn:Hy; [by eexists|].
    rewrite find_None in Hy. rewrite Hy in Hp; done.
  - intros [x [Hx Hp]%find_Some]. eauto.
Qed.
Lemma map_id_on {A} (f : A → A) (l : list A) : (∀ x, x ∈ l → f x = x) → map f l = l.
Proof.
  intros Hf. etrans; [|apply map_id]. apply map_ext_in. intros x Hx%list_elem_of_In. auto.
Qed.
