(* ===== verification/MemoryStore.v ===== *)
(** * MemoryStore: the in-memory backend ([src/store/memory.rs])

    The state is the [Inner] behind the mutex together with the quotas; a [HashMap] is
    a [gmap], a [Vec] a list. Every operation takes the lock once, so it is one
    transition. The order in which a [HashMap] is iterated is unspecified: where the
    source collects [values()], the order here is that of [map_to_list]. *)

From S2P Require Import Prelude Str Model Config StoreSpec.

Record Entry := mkEntry {
  message : StoredMessage;
  contents : list (Uuid * bytes);
  raw : option bytes;
}.

Record MemoryStore := mkMemoryStore {
  quotas : MailboxQuotas;
  mailboxes : gmap str Mailbox;
  messages : list Entry;
  subscriptions : list PushSubscription;
  custom_domains_tbl : gmap str CustomDomain;
  attested_devices : gmap str AttestedDevice;
}.

Definition new : MemoryStore := mkMemoryStore UNLIMITED ∅ [] [] ∅ ∅.
Definition with_quotas (q : MailboxQuotas) (s : MemoryStore) : MemoryStore :=
  mkMemoryStore q (mailboxes s) (messages s) (subscriptions s) (custom_domains_tbl s)
    (attested_devices s).

Definition set_mb (m : gmap str Mailbox) (s : MemoryStore) : MemoryStore :=
  mkMemoryStore (quotas s) m (messages s) (subscriptions s) (custom_domains_tbl s)
    (attested_devices s).
Definition set_msgs (m : list Entry) (s : MemoryStore) : MemoryStore :=
  mkMemoryStore (quotas s) (mailboxes s) m (subscriptions s) (custom_domains_tbl s)
    (attested_devices s).
Definition set_subs (l : list PushSubscription) (s : MemoryStore) : MemoryStore :=
  mkMemoryStore (quotas s) (mailboxes s) (messages s) l (custom_domains_tbl s)
    (attested_devices s).
Definition set_cds (m : gmap str CustomDomain) (s : MemoryStore) : MemoryStore :=
  mkMemoryStore (quotas s) (mailboxes s) (messages s) (subscriptions s) m
    (attested_devices s).
Definition set_ads (m : gmap str AttestedDevice) (s : MemoryStore) : MemoryStore :=
  mkMemoryStore (quotas s) (mailboxes s) (messages s) (subscriptions s)
    (custom_domains_tbl s) m.

Definition in_mailbox (address : str) (e : Entry) : bool :=
  bool_decide (sm_mailbox_address (message e) = address).
Definition is_message (address : str) (id : Uuid) (e : Entry) : bool :=
  in_mailbox address e && bool_decide (sm_id (message e) = id).

(** The listing order: newest first by [(received_at, id)]. *)
Definition entry_key (e : Entry) : Z * Z :=
  (sm_received_at (message e), sm_id (message e)).
Definition newest_first_cmp (a b : Z * Z * Z) : comparison := cmp_key b.1 a.1.

(** The byte cap: walk newest first with a running total, mark everything past the
    budget except the message just saved. *)
Fixpoint over_budget (max_bytes running new_id : Z) (l : list (Z * Z * Z)) : list Uuid :=
  match l with
  | [] => []
  | ((_, id), size) :: l' =>
      let running := saturating_add_u64 running size in
      (if bool_decide (max_bytes < running) && negb (bool_decide (id = new_id))
       then [id] else [])
      ++ over_budget max_bytes running new_id l'
  end.

Definition newest_first (s : MemoryStore) (address : str) : list (Z * Z * Z) :=
  sort_by newest_first_cmp
    (map (λ e, (entry_key e, Z.max 0 (sm_raw_size (message e))))
       (retain (in_mailbox address) (messages s))).

Definition quota_drop (q : MailboxQuotas) (new_id : Uuid) (l : list (Z * Z * Z)) : list Uuid :=
  (if bool_decide (0 < max_messages q)
   then map (λ x, x.1.2) (drop (Z.to_nat (max_messages q)) l) else [])
  ++ (if bool_decide (0 < max_bytes q) then over_budget (max_bytes q) 0 new_id l else []).

Definition enforce_quotas (s : MemoryStore) (address : str) (new_id : Uuid) (q : MailboxQuotas)
    : MemoryStore :=
  if bool_decide (q = UNLIMITED) then s
  else
    let dropped := quota_drop q new_id (newest_first s address) in
    if bool_decide (dropped = []) then s
    else set_msgs (retain (λ e, negb (bool_decide (sm_id (message e) ∈ dropped))) (messages s)) s.

(** ** Mailboxes *)

Definition mem_create_mailbox (address domain : str) (expires_at : Time)
    (owner_token_hash creator_device_hash : option str) : SM MemoryStore Mailbox :=
  s ← get_st;
  match mailboxes s !! address with
  | Some _ => throw (UniqueViolation (lit "mailbox already exists: " ++ address))
  | None =>
      now ← utc_now;
      let mailbox :=
        mkMailbox address domain now expires_at owner_token_hash creator_device_hash in
      put_st (set_mb (<[address := mailbox]> (mailboxes s)) s);;
      mret mailbox
  end.

Definition mem_get_mailbox (address : str) : SM MemoryStore (option Mailbox) :=
  s ← get_st; mret (mailboxes s !! address).

Definition mem_mailbox_is_active (address : str) (now : Time) : SM MemoryStore bool :=
  s ← get_st;
  mret (match mailboxes s !! address with
        | Some m => bool_decide (mb_expires_at m > now)
        | None => false
        end).

Definition mem_extend_mailbox (address : str) (new_expires_at : Time)
    : SM MemoryStore (option Mailbox) :=
  s ← get_st;
  match mailboxes s !! address with
  | Some mb =>
      let mb := with_expiry new_expires_at mb in
      put_st (set_mb (<[address := mb]> (mailboxes s)) s);;
      mret (Some mb)
  | None => mret None
  end.

Definition mem_delete_mailbox (address : str) : SM MemoryStore bool :=
  s ← get_st;
  let existed := bool_decide (is_Some (mailboxes s !! address)) in
  let s := set_mb (delete address (mailboxes s)) s in
  let s := set_msgs (retain (λ e, negb (in_mailbox address e)) (messages s)) s in
  let s := set_subs
    (retain (λ p, negb (bool_decide (ps_mailbox_address p = address))) (subscriptions s)) s in
  put_st s;;
  mret existed.

Definition mem_rotate_owner_token (address new_hash : str) : SM MemoryStore bool :=
  s ← get_st;
  match mailboxes s !! address with
  | Some mb =>
      put_st (set_mb (<[address := with_owner_hash (Some new_hash) mb]> (mailboxes s)) s);;
      mret true
  | None => mret false
  end.

(** ** Messages *)

Fixpoint store_attachments (l : list NewAttachment)
    : SM MemoryStore (list AttachmentMeta * list (Uuid * bytes)) :=
  match l with
  | [] => mret ([], [])
  | att :: l =>
      aid ← new_v4;
      let size := as_i32 (len (na_content att)) in
      rest ← store_attachments l;
      mret (mkAttachmentMeta aid (na_filename att) (na_content_type att) size :: rest.1,
            (aid, na_content att) :: rest.2)
  end.

Definition mem_save_message (address : str) (m : NewMessage) : SM MemoryStore StoredMessage :=
  mc ← store_attachments (nm_attachments m);
  id ← new_v4;
  received_at ← utc_now;
  let stored := {|
    sm_id := id;
    sm_mailbox_address := address;
    sm_mail_from := nm_mail_from m;
    sm_subject := nm_subject m;
    sm_message_date := nm_message_date m;
    sm_text_body := nm_text_body m;
    sm_html_body := nm_html_body m;
    sm_raw_size := nm_raw_size m;
    sm_received_at := received_at;
    sm_seen := false;
    sm_attachments := mc.1 |} in
  s ← get_st;
  let s := set_msgs (messages s ++ [mkEntry stored mc.2 (nm_raw_content m)]) s in
  put_st (enforce_quotas s address id (quotas s));;
  mret stored.

Definition summary (e : Entry) : MessageSummary := {|
  ms_id := sm_id (message e);
  ms_mail_from := sm_mail_from (message e);
  ms_subject := sm_subject (message e);
  ms_received_at := sm_received_at (message e);
  ms_has_attachments := negb (bool_decide (sm_attachments (message e) = []));
  ms_seen := sm_seen (message e);
|}.
Definition summary_key (m : MessageSummary) : Z * Z := (ms_received_at m, ms_id m).
Definition summary_cmp (a b : MessageSummary) : comparison :=
  ordering_then (ms_received_at b ?= ms_received_at a) (ms_id b ?= ms_id a).

Definition list_anchor (s : MemoryStore) (address : str) (since : option Uuid) : option (Z * Z) :=
  match since with
  | None => None
  | Some id => entry_key <$> find (is_message address id) (messages s)
  end.
Definition newer_than (anchor : option (Z * Z)) (e : Entry) : bool :=
  match anchor with
  | None => true
  | Some a => bool_decide (key_lt a (entry_key e))
  end.

Definition mem_list_messages (address : str) (limit : Z) (since : option Uuid)
    : SM MemoryStore (list MessageSummary) :=
  s ← get_st;
  let anchor := list_anchor s address since in
  let summaries :=
    map summary (retain (newer_than anchor) (retain (in_mailbox address) (messages s))) in
  let summaries := sort_by summary_cmp summaries in
  mret (if bool_decide (0 < limit) then take (Z.to_nat limit) summaries else summaries).

Definition mem_get_message (address : str) (id : Uuid) : SM MemoryStore (option StoredMessage) :=
  s ← get_st; mret (message <$> find (is_message address id) (messages s)).

Definition mem_get_raw_message (address : str) (id : Uuid) : SM MemoryStore (option bytes) :=
  s ← get_st; mret (find (is_message address id) (messages s) ≫= raw).

Definition mem_get_attachment (address : str) (message_id attachment_id : Uuid)
    : SM MemoryStore (option Attachment) :=
  s ← get_st;
  match find (is_message address message_id) (messages s) with
  | None => mret None
  | Some entry =>
      match find (λ a, bool_decide (am_id a = attachment_id))
              (sm_attachments (message entry)) with
      | None => mret None
      | Some meta =>
          match find (λ c, bool_decide (c.1 = attachment_id)) (contents entry) with
          | None => mret None
          | Some c => mret (Some (mkAttachment (am_filename meta) (am_content_type meta) c.2))
          end
      end
  end.

Definition mem_delete_message (address : str) (id : Uuid) : SM MemoryStore bool :=
  s ← get_st;
  let before := length (messages s) in
  let msgs := retain (λ e, negb (is_message address id e)) (messages s) in
  put_st (set_msgs msgs s);;
  mret (negb (bool_decide (length msgs = before))).

Definition mark_entry_seen (e : Entry) : Entry :=
  let m := message e in
  mkEntry (mkStoredMessage (sm_id m) (sm_mailbox_address m) (sm_mail_from m) (sm_subject m)
             (sm_message_date m) (sm_text_body m) (sm_html_body m) (sm_raw_size m)
             (sm_received_at m) true (sm_attachments m))
    (contents e) (raw e).

Definition mem_mark_seen (address : str) (id : Uuid) : SM MemoryStore bool :=
  s ← get_st;
  match find (is_message address id) (messages s) with
  | Some _ =>
      put_st (set_msgs (update_first (is_message address id) mark_entry_seen (messages s)) s);;
      mret true
  | None => mret false
  end.

Definition mem_delete_all_messages (address : str) : SM MemoryStore Z :=
  s ← get_st;
  let msgs := retain (λ e, negb (in_mailbox address e)) (messages s) in
  put_st (set_msgs msgs s);;
  mret (len (messages s) - len msgs).

Definition mem_purge_expired (now : Time) : SM MemoryStore Z :=
  s ← get_st;
  let expired :=
    map mb_address (retain (λ m, bool_decide (mb_expires_at m ≤ now))
                      (map snd (map_to_list (mailboxes s)))) in
  let s := set_mb (foldl (λ m addr, delete addr m) (mailboxes s) expired) s in
  let s := set_msgs
    (retain (λ e, negb (bool_decide (sm_mailbox_address (message e) ∈ expired))) (messages s)) s in
  let s := set_subs
    (retain (λ p, negb (bool_decide (ps_mailbox_address p ∈ expired))) (subscriptions s)) s in
  put_st s;;
  mret (len expired).

(** ** Push subscriptions *)

Definition is_subscription (address endpoint : str) (p : PushSubscription) : bool :=
  bool_decide (ps_mailbox_address p = address) && bool_decide (ps_endpoint p = endpoint).
Definition refresh_subscription (kind : SubscriptionKind) (p256dh auth : str)
    (p : PushSubscription) : PushSubscription :=
  mkPushSubscription (ps_id p) (ps_mailbox_address p) kind (ps_endpoint p) p256dh auth
    (ps_created_at p).

Definition mem_add_subscription (address : str) (kind : SubscriptionKind)
    (endpoint p256dh auth : str) (max_per_mailbox : Z) : SM MemoryStore PushSubscription :=
  s ← get_st;
  match find (is_subscription address endpoint) (subscriptions s) with
  | Some existing =>
      put_st (set_subs (update_first (is_subscription address endpoint)
                          (refresh_subscription kind p256dh auth) (subscriptions s)) s);;
      mret (refresh_subscription kind p256dh auth existing)
  | None =>
      let count := len (retain (λ p, bool_decide (ps_mailbox_address p = address))
                          (subscriptions s)) in
      if bool_decide (0 < max_per_mailbox) && bool_decide (max_per_mailbox ≤ count)
      then throw (SubscriptionLimit max_per_mailbox)
      else
        id ← new_v4;
        now ← utc_now;
        let sub := mkPushSubscription id address kind endpoint p256dh auth now in
        put_st (set_subs (subscriptions s ++ [sub]) s);;
        mret sub
  end.

Definition mem_list_subscriptions (address : str) : SM MemoryStore (list PushSubscription) :=
  s ← get_st;
  mret (retain (λ p, bool_decide (ps_mailbox_address p = address)) (subscriptions s)).

Definition mem_delete_subscription (address endpoint : str) : SM MemoryStore bool :=
  s ← get_st;
  let before := length (subscriptions s) in
  let subs := retain (λ p, negb (is_subscription address endpoint p)) (subscriptions s) in
  put_st (set_subs subs s);;
  mret (negb (bool_decide (length subs = before))).

(** ** Custom domains *)

Definition mem_create_custom_domain (domain claim_token_hash txt_token : str)
    : SM MemoryStore CustomDomain :=
  s ← get_st;
  match custom_domains_tbl s !! domain with
  | Some _ => throw (UniqueViolation (lit "domain already claimed: " ++ domain))
  | None =>
      now ← utc_now;
      let record := mkCustomDomain domain Pending claim_token_hash txt_token now None None in
      put_st (set_cds (<[domain := record]> (custom_domains_tbl s)) s);;
      mret record
  end.

Definition mem_get_custom_domain (domain : str) : SM MemoryStore (option CustomDomain) :=
  s ← get_st; mret (custom_domains_tbl s !! domain).

Definition mem_delete_custom_domain (domain : str) : SM MemoryStore bool :=
  s ← get_st;
  put_st (set_cds (delete domain (custom_domains_tbl s)) s);;
  mret (bool_decide (is_Some (custom_domains_tbl s !! domain))).

Definition mem_custom_domain_is_verified (domain : str) : SM MemoryStore bool :=
  s ← get_st;
  mret (match custom_domains_tbl s !! domain with
        | Some d => bool_decide (cd_status d = Verified)
        | None => false
        end).

Definition mem_record_custom_domain_check (domain : str) (status : CustomDomainStatus)
    (verified_at : option Time) (checked_at : Time) : SM MemoryStore bool :=
  s ← get_st;
  match custom_domains_tbl s !! domain with
  | Some d =>
      put_st (set_cds (<[domain := with_check status verified_at checked_at d]>
                         (custom_domains_tbl s)) s);;
      mret true
  | None => mret false
  end.

Definition recheck_due (cutoff : Time) (d : CustomDomain) : bool :=
  match cd_status d with Verified | Failed => true | Pending => false end
  && match cd_last_checked_at d with None => true | Some t => bool_decide (t ≤ cutoff) end.

Definition mem_list_custom_domains_to_recheck (cutoff : Time)
    : SM MemoryStore (list CustomDomain) :=
  s ← get_st;
  mret (retain (recheck_due cutoff) (map snd (map_to_list (custom_domains_tbl s)))).

(** ** Attested devices *)

Definition mem_upsert_attested_device (key_id : str) (public_key : bytes) (now : Time)
    : SM MemoryStore AttestedDevice :=
  s ← get_st;
  let device :=
    match attested_devices s !! key_id with
    | Some d => with_last_seen now d
    | None => mkAttestedDevice key_id public_key 0 now now
    end in
  put_st (set_ads (<[key_id := device]> (attested_devices s)) s);;
  mret device.

Definition mem_get_attested_device (key_id : str) : SM MemoryStore (option AttestedDevice) :=
  s ← get_st; mret (attested_devices s !! key_id).

Definition mem_advance_attested_device_counter (key_id : str) (counter : Z) (seen_at : Time)
    : SM MemoryStore bool :=
  s ← get_st;
  match attested_devices s !! key_id with
  | Some d =>
      if bool_decide (counter > ad_counter d) then
        put_st (set_ads (<[key_id := with_counter counter seen_at d]> (attested_devices s)) s);;
        mret true
      else mret false
  | None => mret false
  end.

Definition mem_prune_attested_devices (idle_before : Time) : SM MemoryStore Z :=
  s ← get_st;
  let devices := filter (λ p, idle_before ≤ ad_last_seen_at p.2) (attested_devices s) in
  put_st (set_ads devices s);;
  mret (Z.of_nat (size (attested_devices s)) - Z.of_nat (size devices)).

Definition mem_count_active_mailboxes_by_device (creator_device_hash : str) (now : Time)
    : SM MemoryStore Z :=
  s ← get_st;
  mret (len (retain (λ m, bool_decide (mb_creator_device_hash m = Some creator_device_hash)
                          && bool_decide (mb_expires_at m > now))
               (map snd (map_to_list (mailboxes s))))).

#[export] Instance MemoryStore_Store : Store MemoryStore := {|
  create_mailbox := mem_create_mailbox;
  get_mailbox := mem_get_mailbox;
  mailbox_is_active := mem_mailbox_is_active;
  extend_mailbox := mem_extend_mailbox;
  delete_mailbox := mem_delete_mailbox;
  rotate_owner_token := mem_rotate_owner_token;
  save_message := mem_save_message;
  list_messages := mem_list_messages;
  get_message := mem_get_message;
  get_raw_message := mem_get_raw_message;
  get_attachment := mem_get_attachment;
  delete_message := mem_delete_message;
  mark_seen := mem_mark_seen;
  delete_all_messages := mem_delete_all_messages;
  purge_expired := mem_purge_expired;
  add_subscription := mem_add_subscription;
  list_subscriptions := mem_list_subscriptions;
  delete_subscription := mem_delete_subscription;
  create_custom_domain := mem_create_custom_domain;
  get_custom_domain := mem_get_custom_domain;
  delete_custom_domain := mem_delete_custom_domain;
  custom_domain_is_verified := mem_custom_domain_is_verified;
  record_custom_domain_check := mem_record_custom_domain_check;
  list_custom_domains_to_recheck := mem_list_custom_domains_to_recheck;
  upsert_attested_device := mem_upsert_attested_device;
  get_attested_device := mem_get_attested_device;
  advance_attested_device_counter := mem_advance_attested_device_counter;
  prune_attested_devices := mem_prune_attested_devices;
  count_active_mailboxes_by_device := mem_count_active_mailboxes_by_device;
  run_maintenance := mret tt;
  ping := mret tt;
|}.
