(* ===== verification/MemoryStoreLaws.v ===== *)
(** * MemoryStoreLaws: the in-memory backend keeps the promises of the interface

    The view of a memory store is its three keyed tables; each operation is checked
    against its law of [StoreSpec.StoreLaws], and the instance is what the clients of
    the interface are run with. *)

From S2P Require Import Prelude Str Model Config StoreSpec MemoryStore.

Definition mem_view (s : MemoryStore) : AbsStore :=
  mkAbsStore (mailboxes s) (custom_domains_tbl s) (attested_devices s).

(** Run an operation of the memory store down to its result. *)
Ltac run_mem :=
  unfold mbind, M_bind, mret, M_ret, throw, get_st, put_st, utc_now, new_v4, env_now,
    env_new_v4 in *; cbn in *.

Lemma store_attachments_state l s e :
  ∃ r e', store_attachments l (s, e) = (Ok r, (s, e')).
Proof.
  revert e. induction l as [|a l IH]; intros e; [by run_mem; eauto|].
  cbn [store_attachments]. run_mem.
  edestruct IH as (r & e' & ->). eauto.
Qed.

Lemma enforce_quotas_view s a i q : mem_view (enforce_quotas s a i q) = mem_view s.
Proof. unfold enforce_quotas. by repeat case_bool_decide. Qed.

Lemma mem_save_message_silent a m : silent mem_view (mem_save_message a m).
Proof.
  intros s e. unfold mem_save_message. run_mem.
  destruct (store_attachments_state (nm_attachments m) s e) as (r & e' & ->). cbn.
  by rewrite enforce_quotas_view.
Qed.

Lemma foldl_delete_lookup (l : list str) (m : gmap str Mailbox) a :
  foldl (λ m addr, delete addr m) m l !! a = if decide (a ∈ l) then None else m !! a.
Proof.
  revert m. induction l as [|b l IH]; intros m; cbn; [done|].
  rewrite IH, lookup_delete. repeat case_decide; set_solver.
Qed.

Definition expired_addresses (s : MemoryStore) (now : Time) : list str :=
  map mb_address (retain (λ m, bool_decide (mb_expires_at m ≤ now))
                    (map snd (map_to_list (mailboxes s)))).

Lemma elem_of_expired s now a :
  keyed (mem_view s) →
  a ∈ expired_addresses s now ↔
    ∃ m, mailboxes s !! a = Some m ∧ mb_expires_at m ≤ now.
Proof.
  intros Hk. unfold expired_addresses. rewrite list_elem_of_In, in_map_iff.
  setoid_rewrite <-list_elem_of_In. setoid_rewrite elem_of_retain.
  setoid_rewrite list_elem_of_In. setoid_rewrite in_map_iff.
  setoid_rewrite <-list_elem_of_In. split.
  - intros (m & Ha & ([k m'] & Hm & Hin) & Hx). cbn in *. subst.
    apply elem_of_map_to_list in Hin. boolify. rewrite (Hk _ _ Hin). eauto.
  - intros (m & Ha & Hx). exists m. rewrite (Hk _ _ Ha). split; [done|]. split; [|by boolify].
    exists (a, m). split; [done|]. by apply elem_of_map_to_list.
Qed.

Lemma purge_mailboxes s now :
  keyed (mem_view s) →
  foldl (λ m addr, delete addr m) (mailboxes s) (expired_addresses s now)
  = filter (λ p, now < mb_expires_at p.2) (mailboxes s).
Proof.
  intros Hk. apply map_eq. intros a. rewrite foldl_delete_lookup.
  case_decide as Ha.
  - apply elem_of_expired in Ha as (m & Hm & Hx); [|done]. symmetry.
    apply map_lookup_filter_None. right. intros m' Hm'. cbn. simplify_eq. lia.
  - destruct (mailboxes s !! a) as [m|] eqn:Hm.
    + symmetry. apply map_lookup_filter_Some. split; [done|]. cbn.
      destruct (decide (now < mb_expires_at m)); [done|]. exfalso. apply Ha.
      apply elem_of_expired; [done|]. exists m. split; [done|lia].
    + symmetry. apply map_lookup_filter_None. by left.
Qed.

Lemma length_retain_filter {K V} `{Countable K} (P : K * V → Prop) `{∀ x, Decision (P x)}
    (p : V → bool) (m : gmap K V) :
  (∀ k v, P (k, v) ↔ p v = true) →
  length (retain p (map snd (map_to_list m))) = size (filter P m).
Proof.
  intros HP. induction m as [|k v m Hk Hfirst IH] using map_first_key_ind.
  - by rewrite map_to_list_empty, map_filter_empty, map_size_empty.
  - rewrite map_to_list_insert_first_key by done. cbn.
    destruct (p v) eqn:Hp.
    + rewrite map_filter_insert_True by (by apply HP). cbn. rewrite IH.
      rewrite map_size_insert_None; [done|]. apply map_lookup_filter_None. by left.
    + rewrite map_filter_insert_False by (rewrite HP; congruence).
      by rewrite delete_id by done.
Qed.

Lemma size_filter_split {K V} `{Countable K} (P : K * V → Prop) `{∀ x, Decision (P x)}
    (m : gmap K V) :
  size m = (size (filter P m) + size (filter (λ x, ¬ P x) m))%nat.
Proof.
  rewrite <-map_size_disj_union by apply map_disjoint_filter_complement.
  by rewrite map_filter_union_complement.
Qed.

(** ** The laws *)

Lemma mem_law_create_mailbox a d x h k s e :
  match mem_create_mailbox a d x h k (s, e) with
  | (Ok mb, (s', _)) =>
      mailboxes s !! a = None ∧ (∃ t, mb = mkMailbox a d t x h k) ∧
      mem_view s' = set_mailboxes (insert a mb) (mem_view s)
  | (Err er, (s', _)) =>
      mem_view s' = mem_view s ∧
      (is_unique_violation er = true → is_Some (mailboxes s !! a))
  end.
Proof.
  unfold mem_create_mailbox. run_mem.
  destruct (mailboxes s !! a) eqn:Ha; cbn; [split; eauto|]. split; [done|]. by eauto.
Qed.

Lemma mem_law_purge now s e :
  keyed (mem_view s) →
  match mem_purge_expired now (s, e) with
  | (Ok n, (s', _)) =>
      mem_view s' = set_mailboxes (filter (λ p, now < mb_expires_at p.2)) (mem_view s) ∧
      n = Z.of_nat (size (mailboxes s)) - Z.of_nat (size (mailboxes s'))
  | (Err _, (s', _)) => mem_view s' = mem_view s
  end.
Proof.
  intros Hk. unfold mem_purge_expired. run_mem. fold (expired_addresses s now).
  rewrite purge_mailboxes by done. split; [done|].
  unfold expired_addresses. rewrite length_map.
  rewrite (length_retain_filter (λ p, ¬ now < mb_expires_at p.2)).
  - rewrite (size_filter_split (λ p, now < mb_expires_at p.2) (mailboxes s)). lia.
  - intros k v. cbn. rewrite bool_decide_eq_true. lia.
Qed.

Lemma mem_law_create_custom_domain d h t s e :
  match mem_create_custom_domain d h t (s, e) with
  | (Ok cd, (s', _)) =>
      custom_domains_tbl s !! d = None ∧ (∃ t', cd = mkCustomDomain d Pending h t t' None None) ∧
      mem_view s' = set_domains (insert d cd) (mem_view s)
  | (Err er, (s', _)) =>
      mem_view s' = mem_view s ∧
      (is_unique_violation er = true → is_Some (custom_domains_tbl s !! d))
  end.
Proof.
  unfold mem_create_custom_domain. run_mem.
  destruct (custom_domains_tbl s !! d) eqn:Ha; cbn; [split; eauto|]. split; [done|]. by eauto.
Qed.

(** An in-place change of a table entry is [alter]. *)
Lemma alter_Some {V} (f : V → V) (k : str) (m : gmap str V) v :
  m !! k = Some v → alter f k m = <[k := f v]> m.
Proof.
  intros H. apply map_eq. intros j. rewrite lookup_alter, lookup_insert.
  case_decide; [subst; by rewrite H|done].
Qed.
Lemma alter_None {V} (f : V → V) (k : str) (m : gmap str V) :
  m !! k = None → alter f k m = m.
Proof.
  intros H. apply map_eq. intros j. rewrite lookup_alter.
  case_decide; [subst; by rewrite H|done].
Qed.

(** Split on the entry an operation looks up. *)
Ltac mem_lookup :=
  match goal with
  | |- context [match ?t !! ?k with _ => _ end] => destruct (t !! k) eqn:?Hk
  end.

Lemma mem_law_extend a t :
  updates mem_view (mem_extend_mailbox a t)
    (λ v, with_expiry t <$> ab_mailboxes v !! a) (set_mailboxes (alter (with_expiry t) a)).
Proof.
  intros s e. unfold mem_extend_mailbox. run_mem. mem_lookup; cbn; rewrite ?Hk;
    (split; [done|]); unfold mem_view, set_mailboxes; cbn.
  - by rewrite (alter_Some _ _ _ _ Hk).
  - by rewrite alter_None.
Qed.
Lemma mem_law_delete a :
  updates mem_view (mem_delete_mailbox a)
    (λ v, bool_decide (is_Some (ab_mailboxes v !! a))) (set_mailboxes (delete a)).
Proof. intros s e. done. Qed.
Lemma mem_law_rotate a h :
  updates mem_view (mem_rotate_owner_token a h)
    (λ v, bool_decide (is_Some (ab_mailboxes v !! a)))
    (set_mailboxes (alter (with_owner_hash (Some h)) a)).
Proof.
  intros s e. unfold mem_rotate_owner_token. run_mem. mem_lookup; cbn; rewrite ?Hk;
    (split; [done|]); unfold mem_view, set_mailboxes; cbn.
  - by rewrite (alter_Some _ _ _ _ Hk).
  - by rewrite alter_None.
Qed.
Lemma mem_law_record d st vt t :
  updates mem_view (mem_record_custom_domain_check d st vt t)
    (λ v, bool_decide (is_Some (ab_domains v !! d))) (set_domains (alter (with_check st vt t) d)).
Proof.
  intros s e. unfold mem_record_custom_domain_check. run_mem. mem_lookup; cbn; rewrite ?Hk;
    (split; [done|]); unfold mem_view, set_domains; cbn.
  - by rewrite (alter_Some _ _ _ _ Hk).
  - by rewrite alter_None.
Qed.
Lemma mem_law_advance k n t :
  updates mem_view (mem_advance_attested_device_counter k n t)
    (λ v, match ab_devices v !! k with Some d => ad_counter d <? n | None => false end)
    (λ v, match ab_devices v !! k with
          | Some d => if ad_counter d <? n
                      then set_devices (insert k (with_counter n t d)) v else v
          | None => v
          end).
Proof.
  intros s e. unfold mem_advance_attested_device_counter. run_mem. mem_lookup; cbn; rewrite ?Hk.
  - case_bool_decide; cbn; destruct (Z.ltb_spec (ad_counter a) n); try lia; done.
  - done.
Qed.
Lemma mem_law_active a now :
  reads mem_view (mem_mailbox_is_active a now) (λ v, active v a now).
Proof.
  intros s e. unfold mem_mailbox_is_active, active. run_mem. split_and!; [done..|].
  intros b [= <-]. destruct (mailboxes s !! a); [|done].
  case_bool_decide; destruct (Z.ltb_spec now (mb_expires_at m)); lia || done.
Qed.
Lemma mem_law_count h now :
  reads mem_view (mem_count_active_mailboxes_by_device h now)
    (λ v, Z.of_nat (size (filter (λ p, mb_creator_device_hash p.2 = Some h ∧
                                        now < mb_expires_at p.2) (ab_mailboxes v)))).
Proof.
  intros s e. unfold mem_count_active_mailboxes_by_device. run_mem. split_and!; [done..|].
  intros b [= <-]. f_equal. apply length_retain_filter.
  intros k v. cbn. rewrite andb_true_iff, !bool_decide_eq_true. naive_solver lia.
Qed.

#[export, refine] Instance MemoryStore_Laws : StoreLaws MemoryStore := {|
  view := mem_view;
  law_create_mailbox := mem_law_create_mailbox;
  law_mailbox_is_active := mem_law_active;
  law_extend_mailbox := mem_law_extend;
  law_delete_mailbox := mem_law_delete;
  law_rotate_owner_token := mem_law_rotate;
  law_save_message := mem_save_message_silent;
  law_purge_expired := mem_law_purge;
  law_create_custom_domain := mem_law_create_custom_domain;
  law_record_custom_domain_check := mem_law_record;
  law_advance := mem_law_advance;
  law_count_active := mem_law_count;
  law_get_mailbox := _;
  law_list_messages := _;
  law_get_message := _;
  law_get_raw_message := _;
  law_get_attachment := _;
  law_delete_message := _;
  law_mark_seen := _;
  law_delete_all_messages := _;
  law_add_subscription := _;
  law_list_subscriptions := _;
  law_delete_subscription := _;
  law_get_custom_domain := _;
  law_delete_custom_domain := _;
  law_custom_domain_is_verified := _;
  law_list_custom_domains_to_recheck := _;
  law_upsert_attested_device := _;
  law_get_attested_device := _;
  law_prune := _;
  law_run_maintenance := _;
  law_ping := _;
|}.
Proof.
  all: try (intros; intros ? ?; done).
  - intros a s e. cbn. unfold mem_get_mailbox. run_mem. split_and!; [done..|]. by intros ? [= <-].
  - intros a i j s e. cbn. unfold mem_get_attachment. run_mem. by repeat case_match.
  - intros a i s e. cbn. unfold mem_mark_seen. run_mem. by repeat case_match.
  - intros a k ep p au n s e. cbn. unfold mem_add_subscription. run_mem. by repeat case_match.
  - intros d s e. cbn. unfold mem_get_custom_domain. run_mem. split_and!; [done..|]. by intros ? [= <-].
  - intros d s e. cbn. unfold mem_custom_domain_is_verified. run_mem. split_and!; [done..|].
    by intros ? [= <-].
  - intros k s e. cbn. unfold mem_get_attested_device. run_mem. split_and!; [done..|]. by intros ? [= <-].
Defined.
