(* ===== verification/MemoryMessages.v ===== *)
(** * MemoryMessages: quotas, listings and the invariant of the in-memory backend

    What [save_message] and [list_messages] of [src/store/memory.rs] guarantee about
    the content of a mailbox, and the well-formedness invariant every operation
    keeps. *)

From S2P Require Import Prelude Str Model Config StoreSpec MemoryStore MemoryStoreLaws.

Definition inbox (s : MemoryStore) (address : str) : list Entry :=
  retain (in_mailbox address) (messages s).
Definition ids (l : list Entry) : list Uuid := map (λ e, sm_id (message e)) l.
Definition entry_size (e : Entry) : Z := Z.max 0 (sm_raw_size (message e)).
Definition total_size (l : list Entry) : Z := foldr (λ e n, entry_size e + n) 0 l.

(** The sized keys the quotas are computed on. *)
Definition sized (e : Entry) : Z * Z * Z := (entry_key e, entry_size e).
Definition total (l : list (Z * Z * Z)) : Z := foldr (λ x n, x.2 + n) 0 l.
Definition kept (dropped : list Uuid) (x : Z * Z * Z) : bool :=
  negb (bool_decide (x.1.2 ∈ dropped)).

(** ** What one save does to the message table *)

Definition push (s : MemoryStore) (en : Entry) : MemoryStore :=
  set_msgs (messages s ++ [en]) s.

Lemma save_message_run a m s e st s' e' :
  mem_save_message a m (s, e) = (Ok st, (s', e')) →
  sm_mailbox_address st = a ∧ sm_raw_size st = nm_raw_size m ∧ sm_seen st = false ∧
  ∃ cs, map am_id (sm_attachments st) = map fst cs ∧ map snd cs = map na_content (nm_attachments m) ∧
    s' = enforce_quotas (push s (mkEntry st cs (nm_raw_content m))) a (sm_id st) (quotas s).
Proof.
  assert (∀ l s e r w, store_attachments l (s, e) = (Ok r, w) →
    map am_id r.1 = map fst r.2 ∧ map snd r.2 = map na_content l) as Hatt.
  { induction l as [|x l IH]; intros t f r w; cbn [store_attachments]; run_mem;
      [by intros [= <- <-]|].
    edestruct (store_attachments_state l t) as (r' & f' & Hr). rewrite Hr.
    intros [= <- <-]. cbn. destruct (IH _ _ _ _ Hr) as [-> ->]. done. }
  unfold mem_save_message. run_mem.
  destruct (store_attachments_state (nm_attachments m) s e) as (r & e1 & Hr). rewrite Hr.
  cbn. intros [= <- <- <-]. cbn. repeat split; try done.
  exists r.2. destruct (Hatt _ _ _ _ _ Hr). done.
Qed.

Lemma quota_drop_unlimited i l : quota_drop UNLIMITED i l = [].
Proof. done. Qed.

Lemma enforce_messages s a i q :
  messages (enforce_quotas s a i q)
  = retain (λ e, kept (quota_drop q i (newest_first s a)) (sized e)) (messages s).
Proof.
  unfold enforce_quotas. case_bool_decide as Hq.
  - subst q. rewrite quota_drop_unlimited. symmetry. by apply retain_true.
  - case_bool_decide as Hd; [|done]. rewrite Hd. symmetry. by apply retain_true.
Qed.

Lemma enforce_inbox s a i q b :
  inbox (enforce_quotas s a i q) b
  = retain (λ e, kept (quota_drop q i (newest_first s a)) (sized e)) (inbox s b).
Proof.
  unfold inbox. rewrite enforce_messages, !retain_retain. apply filter_ext.
  intros e. apply andb_comm.
Qed.

Lemma newest_first_Permutation s a : newest_first s a ≡ₚ map sized (inbox s a).
Proof. apply sort_by_Permutation. Qed.

Lemma newest_first_sorted s a :
  StronglySorted (λ x y, newest_first_cmp x y ≠ Gt) (newest_first s a).
Proof.
  apply sort_by_StronglySorted; unfold newest_first_cmp.
  - intros x y H. rewrite cmp_key_gt in H. congruence.
  - intros x y z. rewrite !cmp_key_not_gt. intros [->|H1] [->|H2]; auto.
    right. by eapply key_lt_trans.
Qed.

Lemma kept_inbox_length s a i q :
  length (inbox (enforce_quotas s a i q) a)
  = length (retain (kept (quota_drop q i (newest_first s a))) (newest_first s a)).
Proof.
  rewrite enforce_inbox. etrans; [|apply Permutation_length, retain_Permutation; symmetry;
    apply newest_first_Permutation]. by rewrite retain_map, length_map.
Qed.

Lemma total_Permutation l k : l ≡ₚ k → total l = total k.
Proof. unfold total. induction 1; cbn in *; lia. Qed.
Lemma total_map_sized l : total (map sized l) = total_size l.
Proof. unfold total, total_size. induction l as [|e l IH]; cbn; [done|]. by rewrite IH. Qed.
Lemma kept_inbox_total s a i q :
  total_size (inbox (enforce_quotas s a i q) a)
  = total (retain (kept (quota_drop q i (newest_first s a))) (newest_first s a)).
Proof.
  rewrite enforce_inbox, <-total_map_sized, <-retain_map.
  apply total_Permutation, retain_Permutation. symmetry. apply newest_first_Permutation.
Qed.

(** ** The message cap *)

Lemma enforce_count s a i q :
  0 < max_messages q → len (inbox (enforce_quotas s a i q) a) ≤ max_messages q.
Proof.
  intros Hq. rewrite kept_inbox_length.
  enough (length (retain (kept (quota_drop q i (newest_first s a))) (newest_first s a))
          ≤ Z.to_nat (max_messages q))%nat by lia.
  apply retain_dropped_tail. intros x Hx. unfold kept. apply negb_false_iff. boolify.
  unfold quota_drop. rewrite bool_decide_true by done. apply elem_of_app. left.
  apply list_elem_of_In, (in_map (λ x, x.1.2)). by apply list_elem_of_In.
Qed.

(** ** The byte cap *)

Lemma over_budget_full max r i l :
  Forall (λ x, 0 ≤ x.2) l → max < r → r ≤ u64_max → Forall (λ x, x.1.2 ≠ i) l →
  ∀ x, x ∈ l → x.1.2 ∈ over_budget max r i l.
Proof.
  intros Hs. revert r. induction Hs as [|[[t id] z] l Hz Hs IH]; intros r Hr Hu Hi x Hx;
    [by apply not_elem_of_nil in Hx|]. cbn in *.
  apply Forall_cons in Hi as [Hid Hi]. cbn in Hid.
  assert (max < saturating_add_u64 r z) by (unfold saturating_add_u64; lia).
  rewrite bool_decide_true, bool_decide_false by done. cbn.
  apply elem_of_cons in Hx as [->|Hx]; [by left|]. right. apply IH; try done.
  unfold saturating_add_u64. lia.
Qed.

Lemma over_budget_elem max r i l x : x ∈ over_budget max r i l → x ∈ map (λ y, y.1.2) l ∧ x ≠ i.
Proof.
  revert r. induction l as [|[[t id] z] l IH]; intros r; cbn.
  - intros H. by apply not_elem_of_nil in H.
  - rewrite elem_of_app. intros [H|H].
    + destruct (_ && _) eqn:Hb; [|by apply not_elem_of_nil in H]. boolify.
      apply list_elem_of_singleton in H as ->. split; [left|done].
    + destruct (IH _ H). split; [by right|done].
Qed.

(** The older messages that survive fit in what is left of the budget. *)
Lemma over_budget_total max r i l :
  max < u64_max → 0 ≤ r ≤ max → Forall (λ x, 0 ≤ x.2) l → Forall (λ x, x.1.2 ≠ i) l →
  NoDup (map (λ x, x.1.2) l) →
  r + total (retain (kept (over_budget max r i l)) l) ≤ max.
Proof.
  intros Hm Hr Hs. revert r Hr.
  induction Hs as [|[[t id] z] l Hz Hs IH]; intros r Hr Hi Hnd; [cbn; lia|].
  cbn [map] in Hnd. cbn in Hz. apply Forall_cons in Hi as [Hid Hi]. cbn in Hid.
  apply NoDup_cons in Hnd as [Hn Hnd]. cbn in Hn.
  cbn [over_budget]. set (r' := saturating_add_u64 r z). case_bool_decide as Hover.
  - assert (r' ≤ u64_max) by (unfold r', saturating_add_u64; lia).
    rewrite bool_decide_false by done. cbn [andb negb app].
    rewrite retain_none; [cbn; lia|]. intros x Hx. unfold kept. apply negb_false_iff. boolify.
    apply elem_of_cons in Hx as [->|Hx]; [by left|]. right. by apply over_budget_full.
  - assert (r' = r + z) as Hr' by (unfold r', saturating_add_u64 in *; lia).
    cbn [andb app]. cbn [List.filter].
    assert (kept (over_budget max r' i l) (t, id, z) = true) as ->.
    { unfold kept. boolify. cbn. intros H%over_budget_elem. naive_solver. }
    specialize (IH r' ltac:(lia) Hi Hnd). unfold total in *. cbn. lia.
Qed.

(** ** The quotas cut the listing

    [cuts p l k]: the predicate accepts the first [k] elements of [l] and no other. *)
Definition cuts {A} (p : A → bool) (l : list A) (k : nat) : Prop :=
  (∀ x, x ∈ take k l → p x = true) ∧ (∀ x, x ∈ drop k l → p x = false).

Lemma cuts_retain {A} (p : A → bool) l k : cuts p l k → retain p l = take k l.
Proof.
  intros [Ht Hd]. rewrite <-(take_drop k l) at 1.
  by rewrite retain_app, retain_true, retain_none, app_nil_r.
Qed.
Lemma elem_of_take_le {A} (l : list A) x i j : (i ≤ j)%nat → x ∈ take i l → x ∈ take j l.
Proof.
  intros Hij Hx. apply (subseteq_take i (take j l)). by rewrite take_take, Nat.min_l.
Qed.
Lemma cuts_and {A} (p q : A → bool) l j k :
  cuts p l j → cuts q l k → cuts (λ x, p x && q x) l (j `min` k).
Proof.
  intros [Hp1 Hp2] [Hq1 Hq2]. destruct (Nat.min_spec j k) as [[? ->]|[? ->]].
  all: split; intros x Hx; apply andb_true_iff || apply andb_false_iff.
  - split; [auto|]. apply Hq1. apply (elem_of_take_le _ _ j); [lia|done].
  - left. auto.
  - split; [|auto]. apply Hp1. apply (elem_of_take_le _ _ k); [lia|done].
  - right. auto.
Qed.

Lemma cuts_ext {A} (p q : A → bool) l k : (∀ x, p x = q x) → cuts p l k → cuts q l k.
Proof. intros H [Ht Hd]. split; intros x Hx; rewrite <-H; auto. Qed.
Lemma kept_app d1 d2 x : kept (d1 ++ d2) x = kept d1 x && kept d2 x.
Proof.
  unfold kept. rewrite <-negb_orb. f_equal. apply eq_true_iff_eq.
  rewrite orb_true_iff, !bool_decide_eq_true. apply elem_of_app.
Qed.

Lemma cuts_count n l :
  NoDup (map (λ x, x.1.2) l) → cuts (kept (map (λ x : Z * Z * Z, x.1.2) (drop n l))) l n.
Proof.
  intros Hnd. rewrite <-(take_drop n l), map_app in Hnd. apply NoDup_app in Hnd as (_ & Hnd & _).
  split; intros x Hx; unfold kept.
  - boolify. intros H. apply (Hnd x.1.2); [|done].
    apply list_elem_of_In, (in_map (λ x, x.1.2)). by apply list_elem_of_In.
  - apply negb_false_iff. boolify.
    apply list_elem_of_In, (in_map (λ x, x.1.2)). by apply list_elem_of_In.
Qed.

Lemma cuts_bytes max r i l :
  0 ≤ r ≤ u64_max → Forall (λ x, 0 ≤ x.2) l → Forall (λ x, x.1.2 ≠ i) l →
  NoDup (map (λ x, x.1.2) l) → ∃ k, cuts (kept (over_budget max r i l)) l k.
Proof.
  intros Hr Hs. revert r Hr.
  induction Hs as [|[[t id] z] l Hz Hs IH]; intros r Hr Hi Hnd.
  { exists O. split; intros x Hx; by apply not_elem_of_nil in Hx. }
  cbn [map] in Hnd. cbn in Hz. apply Forall_cons in Hi as [Hid Hi]. cbn in Hid.
  apply NoDup_cons in Hnd as [Hn Hnd]. cbn in Hn.
  cbn [over_budget]. set (r' := saturating_add_u64 r z).
  assert (0 ≤ r' ≤ u64_max) by (unfold r', saturating_add_u64, u64_max in *; lia).
  case_bool_decide as Hover.
  - exists O. rewrite bool_decide_false by done. cbn [andb negb app].
    split; intros x Hx; [by apply not_elem_of_nil in Hx|].
    unfold kept. apply negb_false_iff. boolify.
    apply elem_of_cons in Hx as [->|Hx]; [by left|]. right. apply over_budget_full; try done; lia.
  - cbn [andb app]. destruct (IH r' ltac:(lia) Hi Hnd) as (k & Hk1 & Hk2). exists (S k).
    split; intros x Hx; [|by apply Hk2]. apply elem_of_cons in Hx as [->|Hx]; [|by apply Hk1].
    unfold kept. boolify. cbn. intros H'%over_budget_elem. naive_solver.
Qed.

(** With the new message at the head, the quotas keep it and a prefix of the rest. *)
Lemma quota_cuts q i t z l :
  Forall (λ x, 0 ≤ x.2) ((t, i, z) :: l) → NoDup (map (λ x, x.1.2) ((t, i, z) :: l)) →
  ∃ k, cuts (kept (quota_drop q i ((t, i, z) :: l))) ((t, i, z) :: l) (S k).
Proof.
  intros Hs Hnd. set (L := (t, i, z) :: l) in *.
  assert (∃ k, cuts (kept (if bool_decide (0 < max_messages q)
    then map (λ x, x.1.2) (drop (Z.to_nat (max_messages q)) L) else [])) L (S k)) as [j Hj].
  { case_bool_decide as Hq.
    - exists (pred (Z.to_nat (max_messages q))).
      rewrite Nat.succ_pred by lia. by apply cuts_count.
    - exists (length l). split; intros x Hx; [done|].
      rewrite drop_ge in Hx by (cbn; lia). by apply not_elem_of_nil in Hx. }
  assert (∃ k, cuts (kept (if bool_decide (0 < max_bytes q)
    then over_budget (max_bytes q) 0 i L else [])) L (S k)) as [k Hk].
  { destruct (bool_decide (0 < max_bytes q)).
    - unfold L in *. cbn [over_budget]. rewrite (bool_decide_true (i = i)) by done.
      rewrite andb_false_r. cbn [app]. apply Forall_cons in Hs as [Hz Hs]. cbn in Hz.
      cbn [map] in Hnd. apply NoDup_cons in Hnd as [Hi Hnd]. cbn in Hi.
      destruct (cuts_bytes (max_bytes q) (saturating_add_u64 0 z) i l) as (k & Hk1 & Hk2);
        try done.
      { unfold saturating_add_u64, u64_max. lia. }
      { apply Forall_forall. intros x Hx Heq. apply Hi. rewrite <-Heq.
        apply list_elem_of_In, (in_map (λ x, x.1.2)). by apply list_elem_of_In. }
      exists k. split; intros x Hx; [|by apply Hk2]. apply elem_of_cons in Hx as [->|Hx]; [|auto].
      unfold kept. boolify. intros H%over_budget_elem. naive_solver.
    - exists (length l). split; intros x Hx; [done|].
      rewrite drop_ge in Hx by (cbn; lia). by apply not_elem_of_nil in Hx. }
  exists (j `min` k)%nat. pose proof (cuts_and _ _ _ _ _ Hj Hk) as H.
  rewrite <-Nat.succ_min_distr in H. unfold quota_drop. fold L.
  revert H. apply cuts_ext. intros x. symmetry. apply kept_app.
Qed.

(** ** Listings are unique *)


Lemma sorted_keys_unique (l k : list (Z * Z * Z)) :
  StronglySorted (λ x y, newest_first_cmp x y ≠ Gt) l →
  StronglySorted (λ x y, newest_first_cmp x y ≠ Gt) k →
  l ≡ₚ k → NoDup (map (λ x, x.1.2) l) → l = k.
Proof.
  intros Hl Hk Hp Hnd.
  eapply (StronglySorted_unique_strong (λ x y, newest_first_cmp x y ≠ Gt)); [|done..].
  intros x y Hx Hy H1 H2. rewrite <-Hp in Hy. unfold newest_first_cmp in *.
  rewrite !cmp_key_not_gt in *. apply (NoDup_map_inj _ _ _ _ Hnd Hx Hy).
  destruct H1 as [H1|H1]; [by rewrite H1|]. destruct H2 as [H2|H2]; [by rewrite H2|].
  exfalso. eapply key_lt_irrefl, key_lt_trans; eassumption.
Qed.

Lemma map_sized_ids l : map (λ x, x.1.2) (map sized l) = ids l.
Proof. unfold ids. by rewrite map_map. Qed.
Lemma newest_first_ids s a : map (λ x, x.1.2) (newest_first s a) ≡ₚ ids (inbox s a).
Proof. by rewrite newest_first_Permutation, map_sized_ids. Qed.
Lemma ids_retain p l : NoDup (ids l) → NoDup (ids (retain p l)).
Proof.
  induction l as [|e l IH]; cbn; [done|]. rewrite NoDup_cons. intros [He Hl].
  destruct (p e); [|auto]. cbn. constructor; [|auto]. intros Hin. apply He.
  apply list_elem_of_In, in_map_iff in Hin as (x & Hx & Hin). rewrite <-Hx.
  apply list_elem_of_In, in_map_iff. exists x. split; [done|].
  apply list_elem_of_In in Hin. apply elem_of_retain in Hin as [Hin _]. by apply list_elem_of_In.
Qed.
Lemma newest_first_sizes s a : Forall (λ x, 0 ≤ x.2) (newest_first s a).
Proof.
  rewrite newest_first_Permutation. apply Forall_forall. intros x Hx.
  apply list_elem_of_In, in_map_iff in Hx as (e & <- & _). cbn. unfold entry_size. lia.
Qed.

(** Saving message [st] into [a]: its identifier is new, and it is newer than what the
    mailbox holds (the clock did not step back). *)
Definition fresh (s : MemoryStore) (st : StoredMessage) : Prop :=
  NoDup (sm_id st :: ids (messages s)).
Definition newest (s : MemoryStore) (st : StoredMessage) : Prop :=
  Forall (λ e, key_lt (entry_key e) (sm_received_at st, sm_id st))
    (inbox s (sm_mailbox_address st)).

Lemma push_inbox s en a :
  inbox (push s en) a = inbox s a ++ (if in_mailbox a en then [en] else []).
Proof. unfold inbox, push. cbn. rewrite retain_app. cbn. by destruct (in_mailbox a en). Qed.

Lemma push_newest_first s en a :
  in_mailbox a en = true → fresh s (message en) → newest s (message en) →
  newest_first (push s en) a = sized en :: newest_first s a.
Proof.
  intros Ha Hf Hn. pose proof Ha as Ha'. unfold in_mailbox in Ha'. boolify. subst a.
  unfold fresh in Hf. apply NoDup_cons in Hf as [Hfid Hnd].
  assert (newest_first (push s en) (sm_mailbox_address (message en))
          ≡ₚ sized en :: newest_first s (sm_mailbox_address (message en))) as Hp.
  { rewrite newest_first_Permutation, push_inbox, Ha, map_app. cbn.
    by rewrite newest_first_Permutation, <-Permutation_cons_append. }
  apply sorted_keys_unique; [apply newest_first_sorted| |done|].
  - constructor; [apply newest_first_sorted|]. rewrite newest_first_Permutation.
    apply Forall_forall. intros x Hx. apply list_elem_of_In, in_map_iff in Hx as (e & <- & He).
    unfold newest_first_cmp. rewrite cmp_key_not_gt. right.
    unfold newest in Hn. rewrite Forall_forall in Hn. apply Hn. by apply list_elem_of_In.
  - rewrite Hp. cbn. constructor.
    + rewrite newest_first_ids. intros Hin. apply Hfid.
      apply list_elem_of_In, in_map_iff in Hin as (e & He & Hin). cbn in He.
      apply list_elem_of_In, in_map_iff. exists e. split; [done|].
      apply list_elem_of_In. apply list_elem_of_In in Hin. by apply elem_of_retain in Hin as [??].
    + rewrite newest_first_ids. by apply ids_retain.
Qed.

Lemma enforce_newest_first s a i q :
  NoDup (ids (inbox s a)) →
  newest_first (enforce_quotas s a i q) a
  = retain (kept (quota_drop q i (newest_first s a))) (newest_first s a).
Proof.
  intros Hnd. apply sorted_keys_unique.
  - apply newest_first_sorted.
  - apply StronglySorted_retain, newest_first_sorted.
  - rewrite newest_first_Permutation, enforce_inbox.
    rewrite <-retain_map. apply retain_Permutation. symmetry. apply newest_first_Permutation.
  - rewrite newest_first_ids, enforce_inbox. by apply ids_retain.
Qed.

(** After a save the mailbox holds the new message followed by a prefix of its previous
    newest-first listing. *)
Lemma save_drop_oldest a m s e st s' e' :
  mem_save_message a m (s, e) = (Ok st, (s', e')) → fresh s st → newest s st →
  ∃ k en, message en = st ∧ newest_first s' a = sized en :: take k (newest_first s a).
Proof.
  intros Hsave Hf Hn. apply save_message_run in Hsave as (Ha & _ & _ & cs & _ & _ & ->).
  set (en := mkEntry st cs (nm_raw_content m)).
  assert (in_mailbox a en = true) as Hin by (unfold in_mailbox; by boolify).
  assert (newest_first (push s en) a = sized en :: newest_first s a) as HL
    by by apply push_newest_first.
  assert (NoDup (ids (inbox (push s en) a))) as Hnd.
  { apply ids_retain. unfold push, ids. cbn. rewrite map_app. cbn.
    rewrite <-Permutation_cons_append. done. }
  rewrite enforce_newest_first by done. rewrite HL.
  pose proof (newest_first_ids (push s en) a) as Hids. rewrite HL in Hids.
  destruct (quota_cuts (quotas s) (sm_id st) (sm_received_at st) (entry_size en)
              (newest_first s a)) as [k Hk].
  - change (sm_received_at st, sm_id st, entry_size en) with (sized en). rewrite <-HL.
    apply newest_first_sizes.
  - change (sm_received_at st, sm_id st, entry_size en) with (sized en). by rewrite Hids.
  - exists k, en. split; [done|]. by apply cuts_retain in Hk.
Qed.
