(* ===== verification/MemoryClaims.v ===== *)
(** * MemoryClaims: the guarantees of the in-memory backend

    Quotas, retention of the newest mail, isolation of mailboxes, listings, the
    round trip of a message through the store, cascades, subscriptions, and the
    refinement of the storage interface by [src/store/memory.rs]. *)

From S2P Require Import Prelude Str Model Config.
From S2P Require Import StoreSpec MemoryStore MemoryStoreLaws MemoryMessages.

(** ** A small store to run things on: one mailbox with a cap of two messages and 100
    bytes, already holding two messages. *)
Definition demo_env : Env :=
  mkEnv (λ n, 1000 + Z.of_nat n) (λ n, 10 + Z.of_nat n) (λ n, 7 * Z.of_nat n).
Definition demo_address : str := lit "a@x.io".
Definition demo_msg (size : Z) : NewMessage :=
  mkNewMessage (lit "s@y.io") None None None None size (Some [1; 2])
    [mkNewAttachment None (lit "text/plain") [7; 8; 9]].
Definition demo_start : MemoryStore * Env := (with_quotas (mkMailboxQuotas 2 100) new, demo_env).
Definition demo_world : MemoryStore * Env :=
  (mem_save_message demo_address (demo_msg 40)
     (mem_save_message demo_address (demo_msg 30) demo_start).2).2.

(** ** Shared lemmas *)

Lemma save_fresh_push s st cs r :
  fresh s st → NoDup (ids (messages (push s (mkEntry st cs r)))).
Proof.
  intros Hf. unfold push, ids. cbn. rewrite map_app. cbn. by rewrite <-Permutation_cons_append.
Qed.

(** The entry written by a save is in the table afterwards, and every other entry comes
    from the table before it. *)
Lemma save_entry a m s e st s' e' :
  mem_save_message a m (s, e) = (Ok st, (s', e')) → fresh s st → newest s st →
  ∃ cs, map am_id (sm_attachments st) = map fst cs ∧
        map snd cs = map na_content (nm_attachments m) ∧
        mkEntry st cs (nm_raw_content m) ∈ messages s' ∧ NoDup (ids (messages s')).
Proof.
  intros Hsave Hf Hn. pose proof Hsave as Hrun.
  apply save_message_run in Hrun as (Ha & _ & _ & cs & Hc1 & Hc2 & Hs').
  exists cs. split; [done|]. split; [done|].
  destruct (save_drop_oldest _ _ _ _ _ _ _ Hsave Hf Hn) as (k & en & Hen & HL).
  assert (NoDup (ids (messages s'))) as Hnd.
  { rewrite Hs', enforce_messages. by apply ids_retain, save_fresh_push. }
  split; [|done].
  assert (∃ x, x ∈ inbox s' a ∧ sm_id (message x) = sm_id st) as (x & Hx & Hid).
  { assert (sized en ∈ newest_first s' a) as Hin by (rewrite HL; left).
    rewrite newest_first_Permutation in Hin.
    apply list_elem_of_In, in_map_iff in Hin as (x & Hsz & Hx). exists x.
    split; [by apply list_elem_of_In|].
    injection Hsz as _ Hi _. by rewrite Hi, Hen. }
  apply elem_of_retain in Hx as [Hx _].
  assert (x ∈ messages (push s (mkEntry st cs (nm_raw_content m)))) as Hx'.
  { rewrite Hs', enforce_messages in Hx. by apply elem_of_retain in Hx as [??]. }
  enough (x = mkEntry st cs (nm_raw_content m)) as <- by done.
  eapply (NoDup_map_inj (λ e, sm_id (message e))); [by apply save_fresh_push|done| |done].
  apply elem_of_app. right. left.
Qed.

Lemma find_unique (l : list Entry) en a :
  NoDup (ids l) → en ∈ l → sm_mailbox_address (message en) = a →
  find (is_message a (sm_id (message en))) l = Some en.
Proof.
  intros Hnd Hin Ha. destruct (find _ l) as [x|] eqn:Hx.
  - apply find_Some in Hx as [Hx Hp]. unfold is_message, in_mailbox in Hp. boolify.
    f_equal. by eapply (NoDup_map_inj (λ e, sm_id (message e))).
  - exfalso. rewrite find_None in Hx. specialize (Hx en Hin).
    unfold is_message, in_mailbox in Hx. rewrite !bool_decide_true in Hx by done. done.
Qed.

Lemma summary_cmp_key x y : summary_cmp x y = cmp_key (summary_key y) (summary_key x).
Proof. done. Qed.

Lemma total_retain p l : Forall (λ x, 0 ≤ x.2) l → 0 ≤ total (retain p l) ≤ total l.
Proof.
  unfold total. induction 1 as [|x l Hx Hl IH]; cbn; [lia|]. destruct (p x); cbn; lia.
Qed.

(** What the byte cap leaves of a listing that starts with the new message. *)
Lemma quota_bytes q i t z l :
  0 < max_bytes q < u64_max →
  Forall (λ x, 0 ≤ x.2) ((t, i, z) :: l) → NoDup (map (λ x, x.1.2) ((t, i, z) :: l)) →
  let kept_l := retain (kept (quota_drop q i ((t, i, z) :: l))) ((t, i, z) :: l) in
  total kept_l ≤ max_bytes q ∨ max_bytes q < z ∧ kept_l = [(t, i, z)].
Proof.
  intros Hq Hs Hnd. cbn zeta. destruct (quota_cuts q i t z l Hs Hnd) as [k Hk%cuts_retain].
  pose proof Hs as [Hz Hl]%Forall_cons. cbn in Hz. pose proof Hnd as [Hi Hnd']%NoDup_cons.
  assert (Forall (λ x, x.1.2 ≠ i) l) as Hne.
  { apply Forall_forall. intros x Hx Heq. apply Hi. cbn. rewrite <-Heq.
    apply list_elem_of_In, (in_map (λ x, x.1.2)). by apply list_elem_of_In. }
  set (L := (t, i, z) :: l) in *. set (r := saturating_add_u64 0 z).
  assert (∀ x, kept (quota_drop q i L) x = true → kept (over_budget (max_bytes q) r i l) x = true)
    as Hsub.
  { intros x. unfold quota_drop. rewrite kept_app. intros [_ H]%andb_prop.
    rewrite (bool_decide_true (0 < max_bytes q)) in H by lia. unfold L in H. cbn [over_budget] in H.
    rewrite (bool_decide_true (i = i)), andb_false_r in H by done. done. }
  destruct (decide (max_bytes q < r)) as [Hr|Hr].
  - right. split; [unfold r, saturating_add_u64 in Hr; lia|]. rewrite Hk. unfold L. cbn [take].
    f_equal. destruct (take k l) as [|x l'] eqn:Hx; [done|]. exfalso.
    assert (x ∈ take k l) as Hin by (rewrite Hx; left).
    assert (x ∈ retain (kept (quota_drop q i L)) L) as [_ Hkx%Hsub]%elem_of_retain.
    { rewrite Hk. right. done. }
    unfold kept in Hkx. boolify. apply Hkx. apply over_budget_full; try done.
    + unfold r, saturating_add_u64. lia.
    + eapply (subseteq_take k). done.
  - left. assert (r = z) as Hrz by (unfold r, saturating_add_u64 in *; lia).
    pose proof (over_budget_total (max_bytes q) r i l ltac:(lia) ltac:(lia) Hl Hne Hnd') as Ht.
    assert (retain (kept (quota_drop q i L)) L
      = retain (kept (quota_drop q i L)) ((t, i, z) :: retain (kept (over_budget (max_bytes q) r i l)) l))
      as ->.
    { unfold L at 2. cbn [List.filter]. rewrite retain_retain.
      rewrite (retain_ext (λ x, kept (over_budget (max_bytes q) r i l) x && kept (quota_drop q i L) x)
                 (kept (quota_drop q i L))); [done|].
      intros x _. destruct (kept (quota_drop q i L) x) eqn:Hx; [by rewrite Hsub|apply andb_false_r]. }
    etrans; [apply total_retain|unfold total in *; cbn; lia]. constructor; [done|].
    apply Forall_forall. intros x [Hx _]%elem_of_retain. rewrite Forall_forall in Hl. auto.
Qed.

(** ** Saving *)

(** Once a mailbox has a message cap, no save leaves it with more messages than the
    cap, whatever it held before and whatever the clock says. *)
Theorem save_respects_count a m s e st s' e' :
  0 < max_messages (quotas s) →
  mem_save_message a m (s, e) = (Ok st, (s', e')) →
  len (inbox s' a) ≤ max_messages (quotas s').
Proof.
  intros Hq Hsave. apply save_message_run in Hsave as (_ & _ & _ & cs & _ & _ & ->).
  replace (quotas (enforce_quotas _ _ _ _)) with (quotas s); [by apply enforce_count|].
  unfold enforce_quotas. by repeat case_bool_decide.
Qed.

(** Once a mailbox has a byte cap, a save leaves it within the cap, or with the new
    message alone when that one message is larger than the cap. *)
Theorem save_respects_bytes a m s e st s' e' :
  0 < max_bytes (quotas s) < u64_max →
  mem_save_message a m (s, e) = (Ok st, (s', e')) → fresh s st → newest s st →
  total_size (inbox s' a) ≤ max_bytes (quotas s) ∨
  max_bytes (quotas s) < nm_raw_size m ∧ ids (inbox s' a) = [sm_id st].
Proof.
  intros Hq Hsave Hf Hn.
  apply save_message_run in Hsave as (Ha & Hr & _ & cs & _ & _ & ->).
  set (en := mkEntry st cs (nm_raw_content m)).
  assert (NoDup (ids (inbox (push s en) a))) as Hnd by by apply ids_retain, save_fresh_push.
  assert (newest_first (push s en) a = sized en :: newest_first s a) as HL.
  { apply push_newest_first; try done. unfold in_mailbox. by boolify. }
  pose proof (newest_first_sizes (push s en) a) as Hs.
  pose proof (newest_first_ids (push s en) a) as Hids.
  pose proof (newest_first_ids (enforce_quotas (push s en) a (sm_id st) (quotas s)) a) as Hids'.
  rewrite enforce_newest_first in Hids' by done.
  rewrite kept_inbox_total. rewrite HL in *.
  destruct (quota_bytes (quotas s) (sm_id st) (sm_received_at st) (entry_size en)
              (newest_first s a) Hq Hs) as [H|[H1 H2]].
  - by rewrite <-Hids in Hnd.
  - left. exact H.
  - right. unfold entry_size in H1. cbn in H1. rewrite Hr in H1. split; [lia|].
    change (sm_received_at st, sm_id st, entry_size en) with (sized en) in H2.
    rewrite H2 in Hids'. cbn in Hids'. symmetry in Hids'. by apply Permutation_singleton_r in Hids'.
Qed.

(** A save never loses the message it reports as stored, as long as the clock does
    not run backwards: the mailbox then holds that message followed by the newest part
    of what it held, so the quotas only ever discard the oldest mail. *)
Theorem save_drops_only_oldest a m s e st s' e' :
  mem_save_message a m (s, e) = (Ok st, (s', e')) → fresh s st → newest s st →
  ∃ k, map (λ x, x.1) (newest_first s' a)
       = (sm_received_at st, sm_id st) :: take k (map (λ x, x.1) (newest_first s a)).
Proof.
  intros Hsave Hf Hn. destruct (save_drop_oldest _ _ _ _ _ _ _ Hsave Hf Hn) as (k & en & <- & HL).
  exists k. rewrite HL. cbn. f_equal. rewrite <-firstn_map. done.
Qed.

(** The quotas of one mailbox name no message of another. *)
Lemma save_other_inbox a b m s e st s' e' :
  mem_save_message a m (s, e) = (Ok st, (s', e')) → fresh s st → a ≠ b →
  inbox s' b = inbox s b.
Proof.
  intros Hsave Hf Hab. apply save_message_run in Hsave as (Ha & _ & _ & cs & _ & _ & ->).
  set (en := mkEntry st cs (nm_raw_content m)). pose proof (save_fresh_push s st cs (nm_raw_content m) Hf).
  assert (inbox (push s en) b = inbox s b) as Hb.
  { rewrite push_inbox. replace (in_mailbox b en) with false; [apply app_nil_r|].
    symmetry. unfold in_mailbox. apply bool_decide_eq_false. cbn. congruence. }
  rewrite enforce_inbox, Hb. apply retain_true. intros x Hx. unfold kept. boolify. intros Hin.
  assert (∃ y, y ∈ inbox (push s en) a ∧ sm_id (message y) = sm_id (message x)) as (y & Hy & Hid).
  { assert (x.(message).(sm_id) ∈ map (λ x, x.1.2) (newest_first (push s en) a)) as Hin'.
    { unfold quota_drop in Hin. apply elem_of_app in Hin as [Hin|Hin].
      - case_bool_decide; [|by apply not_elem_of_nil in Hin].
        rewrite <-(take_drop (Z.to_nat (max_messages (quotas s))) (newest_first (push s en) a)).
        rewrite map_app. apply elem_of_app. by right.
      - case_bool_decide; [|by apply not_elem_of_nil in Hin]. by apply over_budget_elem in Hin as [??]. }
    rewrite newest_first_ids in Hin'. apply list_elem_of_In, in_map_iff in Hin' as (y & Hy & Hin').
    exists y. split; [by apply list_elem_of_In|done]. }
  apply elem_of_retain in Hy as [Hy Hya]. rewrite <-Hb in Hx. apply elem_of_retain in Hx as [Hx Hxb].
  assert (y = x) as -> by by eapply (NoDup_map_inj (λ e, sm_id (message e))).
  unfold in_mailbox in *. boolify. congruence.
Qed.

(** Saving into one mailbox leaves the content of every other mailbox as it was, in
    the same order, however much its quotas discard. *)
Theorem save_isolated a b m s e st s' e' :
  mem_save_message a m (s, e) = (Ok st, (s', e')) → fresh s st → a ≠ b →
  inbox s' b = inbox s b.
Proof. apply save_other_inbox. Qed.

(** What was saved can be read back: the message itself, its raw form, and every
    attachment with its content, under the identifiers the save answered. *)
Theorem save_get_roundtrip a m s e st s' e' e'' :
  mem_save_message a m (s, e) = (Ok st, (s', e')) → fresh s st → newest s st →
  NoDup (map am_id (sm_attachments st)) →
  mem_get_message a (sm_id st) (s', e'') = (Ok (Some st), (s', e'')) ∧
  mem_get_raw_message a (sm_id st) (s', e'') = (Ok (nm_raw_content m), (s', e'')) ∧
  ∀ i meta att, sm_attachments st !! i = Some meta → nm_attachments m !! i = Some att →
    mem_get_attachment a (sm_id st) (am_id meta) (s', e'')
    = (Ok (Some (mkAttachment (am_filename meta) (am_content_type meta) (na_content att))), (s', e'')).
Proof.
  intros Hsave Hf Hn Hnd. pose proof Hsave as (Ha & _)%save_message_run.
  destruct (save_entry _ _ _ _ _ _ _ Hsave Hf Hn) as (cs & Hc1 & Hc2 & Hin & Hids).
  assert (find (is_message a (sm_id st)) (messages s') = Some (mkEntry st cs (nm_raw_content m)))
    as Hfind by by apply (find_unique _ (mkEntry st cs (nm_raw_content m))).
  unfold mem_get_message, mem_get_raw_message, mem_get_attachment. run_mem. rewrite Hfind. cbn.
  split; [done|]. split; [done|]. intros i meta att Hmeta Hatt.
  assert (∀ A (k : A → Uuid) (l : list A) x, NoDup (map k l) → x ∈ l →
    find (λ y, bool_decide (k y = k x)) l = Some x) as Hfk.
  { intros A k l x Hl Hx. destruct (find _ l) as [y|] eqn:Hy.
    - apply find_Some in Hy as [Hy Hp]. boolify. f_equal. by eapply (NoDup_map_inj k).
    - rewrite find_None in Hy. specialize (Hy x Hx). boolify. done. }
  rewrite (Hfk _ am_id) by (done || by eapply list_elem_of_lookup_2).
  assert (∃ c, cs !! i = Some c ∧ c.1 = am_id meta ∧ c.2 = na_content att) as (c & Hc & Hcid & Hcc).
  { assert (map fst cs !! i = Some (am_id meta)) as H1.
    { rewrite <-Hc1, list_lookup_fmap, Hmeta. done. }
    assert (map snd cs !! i = Some (na_content att)) as H2.
    { rewrite Hc2, list_lookup_fmap, Hatt. done. }
    rewrite list_lookup_fmap in H1. rewrite list_lookup_fmap in H2.
    destruct (cs !! i) as [c|] eqn:Hc; [|done].
    cbn in *. exists c. naive_solver. }
  rewrite <-Hcid, (Hfk _ fst); [by rewrite Hcc|by rewrite <-Hc1|by eapply list_elem_of_lookup_2].
Qed.

(** ** Listing *)

(** A listing is the newest-first sequence of exactly the mailbox's messages that
    are newer than the cursor (all of them without a cursor, or with one that names no
    message of the mailbox), each once, cut to the first [limit] when a limit is set. *)
Theorem list_messages_newest_first a limit since s e :
  NoDup (ids (messages s)) →
  ∃ full, mem_list_messages a limit since (s, e)
          = (Ok (if bool_decide (0 < limit) then take (Z.to_nat limit) full else full), (s, e)) ∧
    StronglySorted (λ x y, key_lt (summary_key y) (summary_key x)) full ∧
    ∀ x, x ∈ full ↔ ∃ en, en ∈ inbox s a ∧ newer_than (list_anchor s a since) en = true ∧
                          x = summary en.
Proof.
  intros Hnd. set (L := map summary (retain (newer_than (list_anchor s a since)) (inbox s a))).
  exists (sort_by summary_cmp L). split; [done|]. split.
  - assert (StronglySorted (λ x y, summary_cmp x y ≠ Gt) (sort_by summary_cmp L)) as HS.
    { apply sort_by_StronglySorted; intros *; rewrite !summary_cmp_key.
      - intros H. rewrite cmp_key_gt in H. congruence.
      - rewrite !cmp_key_not_gt. intros [->|H1] [->|H2]; auto. right. by eapply key_lt_trans. }
    assert (NoDup (map ms_id (sort_by summary_cmp L))) as HN.
    { rewrite sort_by_Permutation. unfold L. rewrite map_map. by apply ids_retain, ids_retain. }
    induction HS as [|x l Hl IH Hx]; [constructor|]. cbn in HN. apply NoDup_cons in HN as [Hn HN].
    constructor; [auto|]. rewrite Forall_forall in *. intros y Hy. specialize (Hx y Hy).
    rewrite summary_cmp_key, cmp_key_not_gt in Hx. destruct Hx as [[= _ Hx]|Hx]; [|done].
    exfalso. apply Hn. rewrite <-Hx. apply list_elem_of_In, in_map. by apply list_elem_of_In.
  - intros x. rewrite sort_by_Permutation. unfold L. rewrite list_elem_of_In, in_map_iff.
    split; [intros (en & <- & Hen)|intros (en & H1 & H2 & ->)].
    + apply list_elem_of_In, elem_of_retain in Hen as [H1 H2]. by exists en.
    + exists en. split; [done|]. by apply list_elem_of_In, elem_of_retain.
Qed.

(** ** Removing *)

(** Filter by owner, then read one owner. *)
Lemma retain_owner {A} (owner : A → str) (keep : str → bool) b (l : list A) :
  retain (λ x, bool_decide (owner x = b)) (retain (λ x, keep (owner x)) l)
  = if keep b then retain (λ x, bool_decide (owner x = b)) l else [].
Proof.
  induction l as [|x l IH]; cbn; [by destruct (keep b)|].
  destruct (keep (owner x)) eqn:Hk; cbn; rewrite IH; destruct (keep b) eqn:Hb; try done;
    case_bool_decide; congruence.
Qed.

Definition gone_at (s : MemoryStore) (now : Time) (b : str) : bool :=
  match mailboxes s !! b with Some m => bool_decide (mb_expires_at m ≤ now) | None => false end.

Lemma gone_at_expired s now b :
  keyed (mem_view s) → bool_decide (b ∈ expired_addresses s now) = gone_at s now b.
Proof.
  intros Hk. unfold gone_at. apply eq_true_iff_eq. rewrite bool_decide_eq_true, elem_of_expired by done.
  destruct (mailboxes s !! b) as [m|]; [|naive_solver]. rewrite bool_decide_eq_true. naive_solver.
Qed.

(** Deleting a mailbox, and purging the expired ones, also removes their messages and
    push subscriptions, and touches nothing that belongs to another mailbox. *)
Theorem removal_cascades s e a now b :
  keyed (mem_view s) →
  let s1 := (mem_delete_mailbox a (s, e)).2.1 in
  let s2 := (mem_purge_expired now (s, e)).2.1 in
  let subs_of t := retain (λ p, bool_decide (ps_mailbox_address p = b)) (subscriptions t) in
  (inbox s1 b = if bool_decide (a = b) then [] else inbox s b) ∧
  (subs_of s1 = if bool_decide (a = b) then [] else subs_of s) ∧
  (mailboxes s1 !! b = if bool_decide (a = b) then None else mailboxes s !! b) ∧
  (inbox s2 b = if gone_at s now b then [] else inbox s b) ∧
  (subs_of s2 = if gone_at s now b then [] else subs_of s) ∧
  (mailboxes s2 !! b = if gone_at s now b then None else mailboxes s !! b).
Proof.
  intros Hk. cbn zeta. unfold mem_delete_mailbox, mem_purge_expired. run_mem.
  unfold inbox, in_mailbox. cbn.
  fold (expired_addresses s now).
  pose (other := λ o : str, negb (bool_decide (o = a))).
  pose (alive := λ o : str, negb (bool_decide (o ∈ expired_addresses s now))).
  repeat split.
  - etrans; [apply (retain_owner (λ e, sm_mailbox_address (message e)) other)|]. unfold other.
    repeat case_bool_decide; cbn; congruence.
  - etrans; [apply (retain_owner ps_mailbox_address other)|]. unfold other.
    repeat case_bool_decide; cbn; congruence.
  - rewrite lookup_delete. case_decide; case_bool_decide; congruence.
  - etrans; [apply (retain_owner (λ e, sm_mailbox_address (message e)) alive)|]. unfold alive.
    cbn beta. rewrite gone_at_expired by done. by destruct (gone_at s now b).
  - etrans; [apply (retain_owner ps_mailbox_address alive)|]. unfold alive.
    cbn beta. rewrite gone_at_expired by done. by destruct (gone_at s now b).
  - rewrite foldl_delete_lookup, <-gone_at_expired by done. case_decide; case_bool_decide; done.
Qed.

(** ** Push subscriptions *)

Definition subs_count (s : MemoryStore) (a : str) : Z :=
  len (retain (λ p, bool_decide (ps_mailbox_address p = a)) (subscriptions s)).

Lemma update_first_count a ep kind p au (l : list PushSubscription) b :
  length (retain (λ x, bool_decide (ps_mailbox_address x = b))
    (update_first (is_subscription a ep) (refresh_subscription kind p au) l))
  = length (retain (λ x, bool_decide (ps_mailbox_address x = b)) l).
Proof.
  induction l as [|x l IH]; cbn; [done|]. destruct (is_subscription a ep x); cbn;
    destruct (bool_decide _); cbn; by rewrite ?IH.
Qed.

(** Registering a push endpoint either refreshes the one already registered (same
    identifier, no growth), or adds one subscription while the mailbox is below its cap,
    or is refused with the cap and changes nothing: a mailbox within its cap stays
    within it. *)
Theorem add_subscription_capped a k ep p au n s e :
  0 < n → subs_count s a ≤ n →
  let r := mem_add_subscription a k ep p au n (s, e) in
  let s' := r.2.1 in
  subs_count s' a ≤ n ∧
  match r.1 with
  | Ok sub =>
      ps_mailbox_address sub = a ∧ ps_endpoint sub = ep ∧ ps_kind sub = k ∧
      match find (is_subscription a ep) (subscriptions s) with
      | Some old => ps_id sub = ps_id old ∧ subs_count s' a = subs_count s a
      | None => subs_count s' a = subs_count s a + 1
      end
  | Err er => er = SubscriptionLimit n ∧ s' = s ∧ subs_count s a = n ∧
              find (is_subscription a ep) (subscriptions s) = None
  end.
Proof.
  intros Hn Hc. unfold mem_add_subscription. run_mem.
  destruct (find (is_subscription a ep) (subscriptions s)) as [old|] eqn:Hf; cbn.
  - unfold subs_count in *. cbn. rewrite update_first_count.
    apply find_Some in Hf as [_ Hf]. unfold is_subscription in Hf. boolify. done.
  - fold (subs_count s a). rewrite bool_decide_true by done. cbn.
    case_bool_decide as Hb; cbn; [repeat split; (done || lia)|].
    assert (∀ sub, ps_mailbox_address sub = a →
      subs_count (set_subs (subscriptions s ++ [sub]) s) a = subs_count s a + 1) as Hadd.
    { intros sub Hs. unfold subs_count. cbn. rewrite retain_app, length_app. cbn.
      rewrite bool_decide_true by done. cbn. lia. }
    rewrite Hadd by done. repeat split; lia.
Qed.

(** ** The interface *)

(** C7: the in-memory backend implements the storage interface: through the view of its
    mailbox, domain and device tables, each of its operations answers and moves the
    state as the laws of the interface say. *)
Theorem memory_refines_store :
  ∃ L : StoreLaws MemoryStore, ∀ s, view s = mem_view s.
Proof. by exists MemoryStore_Laws. Qed.

(** An attestation counter only moves forward. An assertion is accepted exactly when
    the device is known and its counter is greater than the recorded one, so the same
    assertion presented again, at any later time, is refused and changes nothing. *)
Theorem counter_replay_rejected key n t1 t2 s e s1 e1 :
  mem_advance_attested_device_counter key n t1 (s, e) = (Ok true, (s1, e1)) →
  (∃ d, attested_devices s !! key = Some d ∧ ad_counter d < n ∧
        attested_devices s1 = <[key := with_counter n t1 d]> (attested_devices s)) ∧
  ∀ n' e2, n' ≤ n →
    mem_advance_attested_device_counter key n' t2 (s1, e2) = (Ok false, (s1, e2)).
Proof.
  unfold mem_advance_attested_device_counter. run_mem.
  destruct (attested_devices s !! key) as [d|] eqn:Hd; [|done].
  case_bool_decide as Hc; [|done]. cbn. intros [= <- <-]. cbn. split; [exists d; split_and!; [done|lia|done]|].
  intros n' e2 Hn. rewrite lookup_insert_eq, bool_decide_false by (cbn; lia). done.
Qed.

(** The message cap alone does not spare the message just saved: when the clock reads
    earlier than for the mail already stored, the new message is the oldest and is
    discarded although the save reports success. *)
Theorem save_count_cap_drops_new :
  ∃ a m s e st s' e', mem_save_message a m (s, e) = (Ok st, (s', e')) ∧
    quotas s = mkMailboxQuotas 1 0 ∧ fresh s st ∧
    mem_get_message a (sm_id st) (s', e') = (Ok None, (s', e')).
Proof.
  pose (w := (mem_save_message demo_address (demo_msg 1)
               (with_quotas (mkMailboxQuotas 1 0) new, demo_env)).2).
  exists demo_address, (demo_msg 1), w.1, (mkEnv (λ _, 1) (e_uuid w.2) (e_rand w.2)).
  do 3 eexists. split; [vm_compute; reflexivity|]. split; [reflexivity|]. split.
  - unfold fresh. apply (bool_decide_unpack _). vm_compute. exact I.
  - vm_compute. reflexivity.
Qed.

(** ** Witnesses *)

Lemma save_respects_count_witness :
  ∃ st s' e', mem_save_message demo_address (demo_msg 10) demo_world = (Ok st, (s', e')) ∧
    len (inbox s' demo_address) ≤ max_messages (quotas s').
Proof.
  do 3 eexists. split; [vm_compute; reflexivity|].
  eapply (save_respects_count demo_address (demo_msg 10) demo_world.1 demo_world.2);
    vm_compute; reflexivity.
Defined.

Lemma save_respects_bytes_witness :
  ∃ st s' e', mem_save_message demo_address (demo_msg 50) demo_world = (Ok st, (s', e')) ∧
    (total_size (inbox s' demo_address) ≤ 100 ∨ 100 < 50 ∧ ids (inbox s' demo_address) = [sm_id st]).
Proof.
  do 3 eexists. split; [vm_compute; reflexivity|].
  eapply (save_respects_bytes demo_address (demo_msg 50) demo_world.1 demo_world.2).
  - split; reflexivity.
  - vm_compute. reflexivity.
  - unfold fresh. apply (bool_decide_unpack _). vm_compute. exact I.
  - unfold newest. apply (bool_decide_unpack _). vm_compute. exact I.
Defined.

Lemma save_drops_only_oldest_witness :
  ∃ st s' e', mem_save_message demo_address (demo_msg 50) demo_world = (Ok st, (s', e')) ∧
    ∃ k, map (λ x, x.1) (newest_first s' demo_address)
       = (sm_received_at st, sm_id st)
         :: take k (map (λ x, x.1) (newest_first demo_world.1 demo_address)).
Proof.
  do 3 eexists. split; [vm_compute; reflexivity|].
  eapply (save_drops_only_oldest demo_address (demo_msg 50) demo_world.1 demo_world.2).
  - vm_compute. reflexivity.
  - unfold fresh. apply (bool_decide_unpack _). vm_compute. exact I.
  - unfold newest. apply (bool_decide_unpack _). vm_compute. exact I.
Defined.

Lemma save_isolated_witness :
  ∃ st s' e', mem_save_message (lit "b@x.io") (demo_msg 500) demo_world = (Ok st, (s', e')) ∧
    inbox s' demo_address = inbox demo_world.1 demo_address.
Proof.
  do 3 eexists. split; [vm_compute; reflexivity|].
  eapply (save_isolated (lit "b@x.io") demo_address (demo_msg 500) demo_world.1 demo_world.2).
  - vm_compute. reflexivity.
  - unfold fresh. apply (bool_decide_unpack _). vm_compute. exact I.
  - by apply (bool_decide_unpack _).
Defined.

Lemma save_get_roundtrip_witness :
  ∃ st s' e', mem_save_message demo_address (demo_msg 50) demo_world = (Ok st, (s', e')) ∧
    mem_get_message demo_address (sm_id st) (s', e') = (Ok (Some st), (s', e')).
Proof.
  do 3 eexists. split; [vm_compute; reflexivity|].
  eapply (save_get_roundtrip demo_address (demo_msg 50) demo_world.1 demo_world.2).
  - vm_compute. reflexivity.
  - unfold fresh. apply (bool_decide_unpack _). vm_compute. exact I.
  - unfold newest. apply (bool_decide_unpack _). vm_compute. exact I.
  - apply (bool_decide_unpack _). vm_compute. exact I.
Defined.

Lemma list_messages_newest_first_witness :
  ∃ full, mem_list_messages demo_address 1 None demo_world = (Ok (take 1 full), demo_world) ∧
    StronglySorted (λ x y, key_lt (summary_key y) (summary_key x)) full.
Proof.
  destruct (list_messages_newest_first demo_address 1 None demo_world.1 demo_world.2)
    as (full & H1 & H2 & _).
  - apply (bool_decide_unpack _). vm_compute. exact I.
  - exists full. split; [exact H1|exact H2].
Defined.

Lemma removal_cascades_witness :
  inbox (mem_delete_mailbox demo_address demo_world).2.1 demo_address = [].
Proof.
  apply (removal_cascades demo_world.1 demo_world.2 demo_address 0 demo_address).
  intros a m H. vm_compute in H. discriminate.
Defined.

Lemma add_subscription_capped_witness :
  subs_count (mem_add_subscription demo_address WebPush (lit "https://p") [] [] 1 demo_world).2.1
    demo_address ≤ 1.
Proof.
  refine (proj1 (add_subscription_capped demo_address WebPush (lit "https://p") [] [] 1
           demo_world.1 demo_world.2 _ _)); [reflexivity|].
  apply (bool_decide_unpack _). vm_compute. exact I.
Defined.

Lemma counter_replay_rejected_witness :
  let w := (mem_upsert_attested_device (lit "k") [1] 5 demo_world).2 in
  let w1 := (mem_advance_attested_device_counter (lit "k") 3 6 w).2 in
  mem_advance_attested_device_counter (lit "k") 3 7 w1 = (Ok false, w1).
Proof.
  pose (w := (mem_upsert_attested_device (lit "k") [1] 5 demo_world).2).
  pose (w1 := (mem_advance_attested_device_counter (lit "k") 3 6 w).2).
  apply (counter_replay_rejected (lit "k") 3 6 7 w.1 w.2 w1.1 w1.2); [reflexivity|reflexivity].
Defined.
