(* ===== verification/MemoryInvariant.v ===== *)
(** * MemoryInvariant: well-formedness of the in-memory backend

    The invariant that every sequence of calls of the interface keeps: tables are keyed by their own records, message identifiers
    are unique, attachment metadata and contents agree, an endpoint is registered once
    per mailbox, device counters are never negative. *)

From S2P Require Import Prelude Str Model Config.
From S2P Require Import StoreSpec MemoryStore MemoryStoreLaws MemoryMessages MemoryClaims.

Definition sub_key (p : PushSubscription) : str * str := (ps_mailbox_address p, ps_endpoint p).
Definition entry_wf (e : Entry) : Prop :=
  map am_id (sm_attachments (message e)) = map fst (contents e).

Record wf (s : MemoryStore) : Prop := {
  wf_mailboxes a m : mailboxes s !! a = Some m → mb_address m = a;
  wf_domains d r : custom_domains_tbl s !! d = Some r → cd_domain r = d;
  wf_devices k r : attested_devices s !! k = Some r → ad_key_id r = k ∧ 0 ≤ ad_counter r;
  wf_ids : NoDup (ids (messages s));
  wf_contents : Forall entry_wf (messages s);
  wf_subs : NoDup (map sub_key (subscriptions s));
}.

(** The identifiers still to be drawn are distinct and none is in use: version 4 UUIDs
    do not collide. *)
Definition fresh_env (s : MemoryStore) (e : Env) : Prop :=
  (∀ i j, e_uuid e i = e_uuid e j → i = j) ∧ ∀ i, e_uuid e i ∉ ids (messages s).
Definition WF (w : MemoryStore * Env) : Prop := wf w.1 ∧ fresh_env w.1 w.2.

(** ** Lemmas *)

Lemma update_first_map {A B} (f : A → B) p g (l : list A) :
  (∀ x, f (g x) = f x) → map f (update_first p g l) = map f l.
Proof. intros H. induction l as [|x l IH]; cbn; [done|]. destruct (p x); cbn; congruence. Qed.
Lemma update_first_Forall {A} (P : A → Prop) p g (l : list A) :
  (∀ x, P x → P (g x)) → Forall P l → Forall P (update_first p g l).
Proof. intros H. induction 1; cbn; [constructor|]. case_match; constructor; auto. Qed.

(** Dropping messages keeps everything about them. *)
Lemma WF_retain p s e :
  WF (s, e) → WF (set_msgs (retain p (messages s)) s, e).
Proof.
  intros [[H1 H2 H3 H4 H5 H6] [H7 H8]]. split; [split; cbn; auto|split; cbn; auto].
  - by apply ids_retain.
  - rewrite Forall_forall in *. intros x [Hx _]%elem_of_retain. auto.
  - intros i Hi. apply (H8 i). unfold ids in *.
    apply list_elem_of_In, in_map_iff in Hi as (x & Hx & [Hin _]%filter_In).
    apply list_elem_of_In, in_map_iff. by exists x.
Qed.
Lemma WF_subs_retain p s e :
  WF (s, e) → WF (set_subs (retain p (subscriptions s)) s, e).
Proof.
  intros [[H1 H2 H3 H4 H5 H6] H7]. split; [split; cbn; auto|done]. by apply map_retain_NoDup.
Qed.
Lemma WF_mb_insert a m s e :
  WF (s, e) → mb_address m = a → WF (set_mb (<[a := m]> (mailboxes s)) s, e).
Proof.
  intros [[H1 H2 H3 H4 H5 H6] H7] Ha. split; [split; cbn; auto|done].
  intros b r. rewrite lookup_insert_Some. naive_solver.
Qed.
Lemma WF_mb_sub m s e :
  WF (s, e) → m ⊆ mailboxes s → WF (set_mb m s, e).
Proof.
  intros [[H1 H2 H3 H4 H5 H6] H7] Hm. split; [split; cbn; auto|done].
  intros b r Hb. apply H1. by eapply lookup_weaken.
Qed.
Lemma WF_cd_insert d r s e :
  WF (s, e) → cd_domain r = d → WF (set_cds (<[d := r]> (custom_domains_tbl s)) s, e).
Proof.
  intros [[H1 H2 H3 H4 H5 H6] H7] Ha. split; [split; cbn; auto|done].
  intros b r'. rewrite lookup_insert_Some. naive_solver.
Qed.
Lemma WF_ad_insert k r s e :
  WF (s, e) → ad_key_id r = k → 0 ≤ ad_counter r →
  WF (set_ads (<[k := r]> (attested_devices s)) s, e).
Proof.
  intros [[H1 H2 H3 H4 H5 H6] H7] Ha Hc. split; [split; cbn; auto|done].
  intros b r'. rewrite lookup_insert_Some. naive_solver.
Qed.

(** Drawing identifiers leaves the rest of the stream fresh. *)
Lemma store_attachments_env l s e r w :
  store_attachments l (s, e) = (Ok r, w) →
  w.1 = s ∧ ∀ n, e_uuid w.2 n = e_uuid e (length l + n)%nat.
Proof.
  revert e r w. induction l as [|x l IH]; intros e r w; cbn [store_attachments]; run_mem.
  - by intros [= <- <-].
  - edestruct (store_attachments_state l s) as (r' & f' & Hr). rewrite Hr. intros [= <- <-].
    destruct (IH _ _ _ Hr) as [_ He]. cbn in *. split; [done|]. intros n. by rewrite He.
Qed.

Lemma save_message_total a m s e : ∃ st w, mem_save_message a m (s, e) = (Ok st, w).
Proof.
  unfold mem_save_message. run_mem.
  destruct (store_attachments_state (nm_attachments m) s e) as (r & f & ->). cbn. eauto.
Qed.

Lemma save_message_env a m s e st s' e' :
  mem_save_message a m (s, e) = (Ok st, (s', e')) →
  sm_id st = e_uuid e (length (nm_attachments m)) ∧
  ∀ n, e_uuid e' n = e_uuid e (S (length (nm_attachments m)) + n)%nat.
Proof.
  unfold mem_save_message. run_mem.
  destruct (store_attachments_state (nm_attachments m) s e) as (r & f & Hr). rewrite Hr. cbn.
  intros [= <- <- <-]. apply store_attachments_env in Hr as [_ Hr]. cbn in *. unfold shift.
  split; [rewrite Hr; f_equal; lia|]. intros n. rewrite Hr. f_equal. lia.
Qed.

Lemma WF_enforce s e a i q : WF (s, e) → WF (enforce_quotas s a i q, e).
Proof. intros H. unfold enforce_quotas. repeat case_bool_decide; auto using WF_retain. Qed.

Lemma WF_save a m w : WF w → WF (call (mem_save_message a m) w).
Proof.
  destruct w as [s e]. intros [[H1 H2 H3 H4 H5 H6] [H7 H8]]. cbn in H7, H8.
  destruct (save_message_total a m s e) as (st & [s' e'] & Hs). unfold call. rewrite Hs.
  pose proof Hs as [Hid He']%save_message_env.
  apply save_message_run in Hs as (_ & _ & _ & cs & Hc & _ & ->).
  apply WF_enforce. split; split; cbn; auto.
  - apply save_fresh_push. constructor; [|done]. rewrite Hid. auto.
  - apply Forall_app. split; [done|]. by constructor.
  - intros i j. rewrite !He'. intros Hij%H7. lia.
  - intros i. unfold ids, push. cbn. rewrite map_app, elem_of_app, He'. intros [Hi|Hi].
    + by apply H8 in Hi.
    + apply list_elem_of_singleton in Hi. cbn in Hi. rewrite Hid in Hi. apply H7 in Hi. lia.
Qed.

Lemma WF_mark a i s e :
  WF (s, e) → WF (set_msgs (update_first (is_message a i) mark_entry_seen (messages s)) s, e).
Proof.
  intros [[H1 H2 H3 H4 H5 H6] [H7 H8]].
  assert (ids (update_first (is_message a i) mark_entry_seen (messages s)) = ids (messages s))
    as Hids by by apply update_first_map.
  unfold ids in *. split; split; cbn; unfold ids; rewrite ?Hids; auto. by apply update_first_Forall.
Qed.

(** A new subscription is pushed only after its key was not found. *)
Lemma WF_subscribe a k ep p au n w :
  WF w → WF (call (mem_add_subscription a k ep p au n) w).
Proof.
  destruct w as [s e]. intros [[H1 H2 H3 H4 H5 H6] [H7 H8]]. cbn in *.
  unfold call, mem_add_subscription. run_mem.
  destruct (find _ (subscriptions s)) as [x|] eqn:Hf; cbn.
  - split; split; cbn; auto. by rewrite update_first_map.
  - case_match; cbn; [by split; split|]. split; split; cbn; auto.
    + rewrite map_app. cbn. rewrite <-Permutation_cons_append. constructor; [|done].
      intros Hin. apply list_elem_of_In, in_map_iff in Hin as (x & Hx & Hin).
      rewrite find_None in Hf. apply list_elem_of_In, Hf in Hin.
      injection Hx as Hx1 Hx2. unfold is_subscription in Hin.
      rewrite !bool_decide_true in Hin by done. done.
    + intros i j Hij%H7. lia.
    + intros i. apply (H8 (S i)).
Qed.

Lemma foldl_delete_subseteq (l : list str) (m : gmap str Mailbox) :
  foldl (λ m addr, delete addr m) m l ⊆ m.
Proof.
  revert m. induction l as [|a l IH]; intros m; cbn; [done|]. etrans; [apply IH|apply delete_subseteq].
Qed.

Lemma WF_run_op o w : WF w → WF (run_op o w).
Proof.
  intros Hw. pose proof Hw as [[H1 H2 H3 H4 H5 H6] [H7 H8]].
  destruct w as [s e], o; try by apply WF_save || by apply WF_subscribe.
  all: cbn; unfold call, mem_create_mailbox, mem_extend_mailbox, mem_delete_mailbox, mem_rotate_owner_token,
    mem_delete_message, mem_mark_seen, mem_delete_all_messages, mem_purge_expired,
    mem_delete_subscription, mem_create_custom_domain, mem_delete_custom_domain,
    mem_record_custom_domain_check, mem_upsert_attested_device,
    mem_advance_attested_device_counter, mem_prune_attested_devices; run_mem.
  - case_match; cbn; [done|]. by apply WF_mb_insert.
  - case_match eqn:Hm; cbn; [|done]. apply WF_mb_insert; [done|]. by apply (H1 _ _ Hm).
  - exact (WF_subs_retain _ _ _ (WF_retain _ _ _ (WF_mb_sub _ _ _ Hw (delete_subseteq _ _)))).
  - case_match eqn:Hm; cbn; [|done]. apply WF_mb_insert; [done|]. by apply (H1 _ _ Hm).
  - by apply WF_retain.
  - case_match; cbn; [|done]. by apply WF_mark.
  - by apply WF_retain.
  - exact (WF_subs_retain _ _ _ (WF_retain _ _ _ (WF_mb_sub _ _ _ Hw (foldl_delete_subseteq _ _)))).
  - by apply WF_subs_retain.
  - case_match; cbn; [done|]. by apply WF_cd_insert.
  - split; [split; cbn; auto|done]. intros b r [_ Hr]%lookup_delete_Some. auto.
  - case_match eqn:Hm; cbn; [|done]. apply WF_cd_insert; [done|]. by apply (H2 _ _ Hm).
  - case_match eqn:Hm; apply WF_ad_insert; cbn; try done; by apply (H3 _ _ Hm).
  - case_match eqn:Hm; cbn; [|done]. destruct (H3 _ _ Hm). case_bool_decide; cbn; [|done].
    apply WF_ad_insert; cbn; [done..|lia].
  - split; [split; cbn; auto|done]. intros b r [Hr _]%map_lookup_filter_Some. auto.
Qed.

(** C6: starting from an empty store, whatever sequence of calls is made, with whatever
    arguments, every table stays keyed by its own records, no two messages share an
    identifier, the attachment table of each message agrees with its stored contents,
    no endpoint is registered twice for a mailbox and no device counter is negative. *)
Theorem reachable_wf q e l :
  (∀ i j, e_uuid e i = e_uuid e j → i = j) →
  wf (run_ops l (with_quotas q new, e)).1.
Proof.
  intros He. assert (WF (with_quotas q new, e)) as H0.
  { split; split; cbn; try done; try constructor. intros i Hi. by apply not_elem_of_nil in Hi. }
  apply (run_ops_preserves WF); auto using WF_run_op.
Qed.

Lemma reachable_wf_witness :
  wf (run_ops [OpCreateMailbox demo_address (lit "x.io") 99 None None;
               OpSave demo_address (demo_msg 3); OpSave demo_address (demo_msg 4);
               OpSubscribe demo_address Apns (lit "tok") [] [] 2; OpPurge 100]
        (with_quotas (mkMailboxQuotas 1 0) new, demo_env)).1.
Proof. apply reachable_wf. intros i j. cbn. lia. Defined.
