(* ===== verification/MemoryInbox.v ===== *)
(** * MemoryInbox: the in-memory backend keeps the promises about mail

    The instance of [MailLaws] for [src/store/memory.rs]: the inbox of a mailbox is its
    entries, sorted newest first. *)

From S2P Require Import Prelude Str Model Config StoreSpec MailSpec MemoryStore.
From S2P Require Import MemoryStoreLaws MemoryMessages MemoryClaims MemoryInvariant.

(** ** Sorted entries *)

Definition entry_cmp (x y : Entry) : comparison := cmp_key (entry_key y) (entry_key x).
Definition mail_of (e : Entry) : Mail :=
  let m := message e in
  mkMail (sm_id m) (sm_mail_from m) (sm_subject m) (sm_message_date m) (sm_text_body m)
    (sm_html_body m) (sm_raw_size m) (sm_received_at m) (sm_seen m) (raw e)
    (zip (sm_attachments m) (map snd (contents e))).
Definition sorted_inbox (s : MemoryStore) (a : str) : list Entry := sort_by entry_cmp (inbox s a).
Definition mem_mail (s : MemoryStore) (a : str) : list Mail := map mail_of (sorted_inbox s a).
#[local] Arguments mem_mail : simpl never.

(** Identifiers are distinct, also those of the attachments of a message. *)
Definition entry_ok (e : Entry) : Prop := NoDup (map am_id (sm_attachments (message e))).
Definition mem_mail_wf (w : MemoryStore * Env) : Prop := WF w ∧ Forall entry_ok (messages w.1).

Abbreviation entries_sorted := (StronglySorted (λ x y, entry_cmp x y ≠ Gt)).

Lemma entry_cmp_total x y : entry_cmp x y = Gt → entry_cmp y x ≠ Gt.
Proof. unfold entry_cmp. rewrite cmp_key_gt. congruence. Qed.
Lemma entry_cmp_trans x y z : entry_cmp x y ≠ Gt → entry_cmp y z ≠ Gt → entry_cmp x z ≠ Gt.
Proof.
  unfold entry_cmp. rewrite !cmp_key_not_gt. intros [->|H1] [->|H2]; auto.
  right. by eapply key_lt_trans.
Qed.
Lemma sort_entries_sorted l : entries_sorted (sort_by entry_cmp l).
Proof. apply sort_by_StronglySorted; [apply entry_cmp_total|apply entry_cmp_trans]. Qed.
Lemma entries_unique l k :
  NoDup (ids l) → entries_sorted l → entries_sorted k → l ≡ₚ k → l = k.
Proof.
  intros Hnd Hl Hk Hp. apply (StronglySorted_unique_strong (λ x y, entry_cmp x y ≠ Gt)); [|done..].
  intros x y Hx Hy Hxy Hyx. rewrite <-Hp in Hy. apply (NoDup_map_inj _ _ _ _ Hnd Hx Hy).
  unfold entry_cmp in *. rewrite cmp_key_not_gt in *. destruct Hxy as [[= _ ?]|Hxy]; [done|].
  destruct Hyx as [[= _ ?]|Hyx]; [done|]. destruct (key_lt_irrefl (entry_key x)).
  by eapply key_lt_trans.
Qed.

Lemma entry_cmp_received x y : entry_cmp x y ≠ Gt → ml_received (mail_of y) ≤ ml_received (mail_of x).
Proof.
  unfold entry_cmp. rewrite cmp_key_not_gt. intros [[= Ht _]|Hlt]; [cbn; lia|].
  unfold key_lt in Hlt. rewrite cmp_key_lt in Hlt. cbn in *. lia.
Qed.
Lemma StronglySorted_drop_middle {A} (R : A → A → Prop) l x k :
  StronglySorted R (l ++ x :: k) → StronglySorted R (l ++ k).
Proof.
  induction l as [|y l IH]; cbn; inversion 1 as [|? ? Hs Hf]; subst; [done|]. constructor; [auto|].
  apply Forall_app in Hf as [Hl [_ Hk]%Forall_cons]. by apply Forall_app.
Qed.
Lemma sort_retain p l :
  NoDup (ids l) → sort_by entry_cmp (retain p l) = retain p (sort_by entry_cmp l).
Proof.
  intros Hnd. apply entries_unique.
  - unfold ids. rewrite sort_by_Permutation. by apply ids_retain.
  - apply sort_entries_sorted.
  - apply StronglySorted_retain, sort_entries_sorted.
  - rewrite sort_by_Permutation. apply retain_Permutation. by rewrite sort_by_Permutation.
Qed.
Lemma insert_map {A B} (f : A → B) (c : A → A → comparison) (c' : B → B → comparison) x l :
  (∀ x y, c' (f x) (f y) = c x y) → insert_by c' (f x) (map f l) = map f (insert_by c x l).
Proof. intros Hc. induction l as [|y l IH]; cbn; [done|]. rewrite Hc. destruct (c x y); cbn; congruence. Qed.
Lemma sort_map {A B} (f : A → B) (c : A → A → comparison) (c' : B → B → comparison) l :
  (∀ x y, c' (f x) (f y) = c x y) → sort_by c' (map f l) = map f (sort_by c l).
Proof. intros Hc. induction l as [|x l IH]; cbn; [done|]. fold (sort_by c' (map f l)). by rewrite IH, (insert_map f c). Qed.

Section inboxes.
Implicit Types s : MemoryStore.

Lemma inbox_ids s a : NoDup (ids (messages s)) → NoDup (ids (inbox s a)).
Proof. apply ids_retain. Qed.
Lemma mem_mail_ids s a : map ml_id (mem_mail s a) ≡ₚ ids (inbox s a).
Proof.
  unfold mem_mail, ids, sorted_inbox. rewrite map_map. cbn. by rewrite sort_by_Permutation.
Qed.
Lemma elem_of_mem_mail s a m :
  m ∈ mem_mail s a ↔ ∃ e, m = mail_of e ∧ e ∈ messages s ∧ sm_mailbox_address (message e) = a.
Proof.
  unfold mem_mail. rewrite list_elem_of_fmap. setoid_rewrite sort_by_Permutation. unfold inbox.
  setoid_rewrite elem_of_retain. unfold in_mailbox. by setoid_rewrite bool_decide_eq_true.
Qed.

(** Dropping entries of the table. *)
Lemma mem_mail_retain s a p q :
  NoDup (ids (messages s)) → (∀ e, e ∈ inbox s a → p e = q (mail_of e)) →
  mem_mail (set_msgs (retain p (messages s)) s) a = retain q (mem_mail s a).
Proof.
  intros Hnd Hpq. unfold mem_mail. rewrite retain_map. f_equal. unfold sorted_inbox.
  assert (inbox (set_msgs (retain p (messages s)) s) a = retain p (inbox s a)) as ->.
  { unfold inbox. cbn. rewrite !retain_retain. apply filter_ext. intros e. apply andb_comm. }
  rewrite sort_retain by by apply inbox_ids. apply retain_ext. intros e He. apply Hpq.
  by rewrite sort_by_Permutation in He.
Qed.

(** Changing one message in place. *)
Lemma update_first_unique (f : Entry → Entry) p l :
  NoDup (ids l) → (∀ x y, p x = true → p y = true → sm_id (message x) = sm_id (message y)) →
  update_first p f l = map (λ x, if p x then f x else x) l.
Proof.
  intros Hnd Hp. induction l as [|x l IH]; cbn; [done|]. cbn in Hnd. apply NoDup_cons in Hnd as [Hx Hl].
  destruct (p x) eqn:Hpx; [|by rewrite IH]. f_equal. clear IH. symmetry. etrans; [|apply map_id].
  apply map_ext_in. intros y Hy. destruct (p y) eqn:Hpy; [|done]. exfalso. apply Hx.
  rewrite (Hp x y) by done. apply list_elem_of_In, (in_map (λ e, sm_id (message e))), Hy.
Qed.
End inboxes.

(** ** The laws *)

Section laws.
Implicit Types w : MemoryStore * Env.

Lemma wf_messages w : mem_mail_wf w → NoDup (ids (messages w.1)).
Proof. by intros ([[_ _ _ Hids _ _] _] & _). Qed.
Lemma wf_entries w : mem_mail_wf w → Forall entry_wf (messages w.1).
Proof. by intros ([[_ _ _ _ Hc _] _] & _). Qed.

Lemma zip_fst_metas (e : Entry) :
  entry_wf e → map fst (ml_files (mail_of e)) = sm_attachments (message e).
Proof.
  unfold entry_wf, mail_of. cbn. intros He. apply (f_equal length) in He. rewrite !length_map in He.
  apply fst_zip. rewrite length_map. lia.
Qed.

Lemma mail_of_shows a e :
  sm_mailbox_address (message e) = a → entry_wf e → shows a (mail_of e) (message e).
Proof.
  intros <- He. split; [|by rewrite zip_fst_metas]. by destruct e as [[] ? ?].
Qed.

(** Every message found in the table under [a] is found in the inbox, and conversely. *)
Lemma find_mem_mail w a i :
  mem_mail_wf w →
  find (has_id i) (mem_mail w.1 a) = mail_of <$> find (is_message a i) (messages w.1).
Proof.
  intros Hw. apply wf_messages in Hw as Hnd. destruct (find (is_message a i) _) as [e|] eqn:Hf; cbn.
  - apply find_Some in Hf as [Hin Hm]. unfold is_message, in_mailbox in Hm. boolify.
    assert (mail_of e ∈ mem_mail w.1 a) as He by (apply elem_of_mem_mail; eauto).
    destruct (find (has_id i) (mem_mail w.1 a)) as [m|] eqn:Hm.
    + apply find_Some in Hm as [Hm Hi%has_id_true]. f_equal. apply elem_of_mem_mail in Hm as (e' & -> & He' & _).
      f_equal. apply (NoDup_map_inj (λ e, sm_id (message e)) (messages w.1)); [done..|]. cbn in Hi. congruence.
    + rewrite find_None in Hm. specialize (Hm _ He). unfold has_id in Hm. boolify. cbn in Hm. congruence.
  - apply find_None. intros m (e & -> & Hin & Ha)%elem_of_mem_mail. rewrite find_None in Hf.
    specialize (Hf e Hin). unfold is_message, in_mailbox, has_id in *. rewrite bool_decide_true in Hf by done.
    done.
Qed.

Lemma entries_strict l :
  NoDup (ids l) → entries_sorted l → StronglySorted (λ x y, key_lt (entry_key y) (entry_key x)) l.
Proof.
  intros Hnd Hs. induction Hs as [|x l Hs IH Hx]; [constructor|]. cbn in Hnd.
  apply NoDup_cons in Hnd as [Hi Hl]. constructor; [auto|]. rewrite Forall_forall in *. intros y Hy.
  specialize (Hx y Hy). unfold entry_cmp in Hx. rewrite cmp_key_not_gt in Hx.
  destruct Hx as [Heq|?]; [|done]. exfalso. apply Hi. apply (f_equal snd) in Heq. cbn in Heq.
  rewrite <-Heq. apply list_elem_of_fmap. eauto.
Qed.
Lemma sorted_inbox_strict s a :
  NoDup (ids (messages s)) →
  StronglySorted (λ x y, key_lt (entry_key y) (entry_key x)) (sorted_inbox s a).
Proof.
  intros Hnd. apply entries_strict; [|apply sort_entries_sorted]. unfold ids, sorted_inbox.
  rewrite sort_by_Permutation. by apply inbox_ids.
Qed.
Lemma elem_of_sorted_inbox s a e :
  e ∈ sorted_inbox s a ↔ e ∈ messages s ∧ sm_mailbox_address (message e) = a.
Proof.
  unfold sorted_inbox. rewrite sort_by_Permutation. unfold inbox. rewrite elem_of_retain.
  unfold in_mailbox. by rewrite bool_decide_eq_true.
Qed.

(** The cursor of the listing. *)
Lemma newer_mem_mail w a since :
  mem_mail_wf w →
  map mail_of (retain (newer_than (list_anchor w.1 a since)) (sorted_inbox w.1 a))
  = newer since (mem_mail w.1 a).
Proof.
  intros Hw. apply wf_messages in Hw as Hnd. destruct since as [i|].
  2: { unfold newer. cbn. by rewrite retain_true. }
  cbn [list_anchor]. pose proof (find_mem_mail w a i Hw) as Hf.
  destruct (find (is_message a i) (messages w.1)) as [x|] eqn:Hx; cbn [fmap option_fmap option_map] in *.
  - apply find_Some in Hx as [Hin Hm]. unfold is_message, in_mailbox in Hm. boolify. subst i a.
    symmetry. apply (newer_retain mail_of (λ x y, key_lt (entry_key y) (entry_key x))).
    + unfold sorted_inbox. rewrite sort_by_Permutation. by apply inbox_ids.
    + by apply sorted_inbox_strict.
    + by apply elem_of_sorted_inbox.
    + intros y Hy. cbn. by apply bool_decide_eq_true.
    + intros y Hy. cbn. apply bool_decide_eq_false. intros Hlt. destruct Hy as [->|Hy].
      * by eapply key_lt_irrefl.
      * eapply key_lt_irrefl, key_lt_trans; eassumption.
  - unfold newer. cbn [mbind option_bind]. assert (until i (mem_mail w.1 a) = None) as ->.
    { apply until_None, not_true_iff_false. rewrite any_true. rewrite find_None in Hf.
      intros (m & Hm & Hi). rewrite Hf in Hi; done. }
    cbn. by rewrite retain_true.
Qed.

Lemma list_page w a limit since :
  mem_mail_wf w → 0 ≤ limit →
  (mem_list_messages a limit since w).1 = Ok (map mail_summary (mail_page limit since (mem_mail w.1 a))).
Proof.
  intros Hw Hl. apply wf_messages in Hw as Hnd. destruct w as [s e]. unfold mem_list_messages. run_mem.
  f_equal. fold (inbox s a). rewrite (sort_map summary entry_cmp) by done.
  rewrite sort_retain by by apply inbox_ids. fold (sorted_inbox s a).
  set (l := retain _ (sorted_inbox s a)).
  assert (map summary l = map mail_summary (newer since (mem_mail s a))) as Hm.
  { rewrite <-(newer_mem_mail (s, e)) by done. cbn. fold l. rewrite map_map. apply map_ext_in.
    intros x [Hx _]%list_elem_of_In%elem_of_retain. apply elem_of_sorted_inbox in Hx as [Hx _].
    pose proof (wf_entries _ Hw) as He. rewrite Forall_forall in He. specialize (He x Hx).
    pose proof (zip_fst_metas x He) as Hz. unfold summary, mail_summary. f_equal. f_equal.
    apply bool_decide_ext. rewrite <-Hz. cbn. by destruct (zip _ _). }
  unfold mail_page. case_bool_decide; rewrite Hm; [|done]. apply firstn_map.
Qed.

(** ** Calls keep the invariant *)

(** A call that is not about mail leaves the message table alone. *)
Lemma mem_op_frame o w :
  moves_mail o = false → messages (run_op o w).1 = messages w.1.
Proof.
  destruct w as [s e]. destruct o; intros Ho; try discriminate Ho; clear Ho.
  all: cbn; unfold call, mem_create_mailbox, mem_extend_mailbox, mem_rotate_owner_token,
    mem_add_subscription, mem_delete_subscription, mem_create_custom_domain,
    mem_delete_custom_domain, mem_record_custom_domain_check, mem_upsert_attested_device,
    mem_advance_attested_device_counter, mem_prune_attested_devices; run_mem.
  all: by repeat case_match.
Qed.

(** No call touches the quotas. *)
Lemma mem_op_quotas o w : quotas (run_op o w).1 = quotas w.1.
Proof.
  destruct w as [s e]. destruct o.
  all: cbn [run_op]; unfold call; try (destruct (save_message_total address m s e) as (st & [s' e'] & Hs);
    cbn; rewrite Hs; apply save_message_run in Hs as (_ & _ & _ & cs & _ & _ & ->); unfold enforce_quotas;
    by repeat case_bool_decide).
  all: cbn; unfold mem_create_mailbox, mem_extend_mailbox, mem_rotate_owner_token,
    mem_add_subscription, mem_delete_subscription, mem_create_custom_domain,
    mem_delete_custom_domain, mem_record_custom_domain_check, mem_upsert_attested_device,
    mem_advance_attested_device_counter, mem_prune_attested_devices, mem_delete_mailbox, mem_delete_message,
    mem_mark_seen, mem_delete_all_messages, mem_purge_expired; run_mem; by repeat case_match.
Qed.

Lemma store_attachments_ids l s e r w :
  store_attachments l (s, e) = (Ok r, w) → map am_id r.1 = map (e_uuid e) (seq 0 (length l)).
Proof.
  revert e r w. induction l as [|x l IH]; intros e r w; cbn [store_attachments]; run_mem.
  - by intros [= <- <-].
  - edestruct (store_attachments_state l s) as (r' & f' & Hr). rewrite Hr. intros [= <- <-].
    cbn. f_equal. rewrite (IH _ _ _ Hr), <-seq_shift, map_map. done.
Qed.
Lemma store_attachments_clock l s e r w :
  store_attachments l (s, e) = (Ok r, w) → e_clock w.2 = e_clock e.
Proof.
  revert e r w. induction l as [|x l IH]; intros e r w; cbn [store_attachments]; run_mem.
  - by intros [= <- <-].
  - edestruct (store_attachments_state l s) as (r' & f' & Hr). rewrite Hr. intros [= <- <-].
    by rewrite (IH _ _ _ Hr).
Qed.

Lemma store_attachments_describe l s e r w :
  store_attachments l (s, e) = (Ok r, w) → Forall2 describes r.1 l.
Proof.
  revert e r w. induction l as [|x l IH]; intros e r w; cbn [store_attachments]; run_mem.
  - intros [= <- <-]. constructor.
  - edestruct (store_attachments_state l s) as (r' & f' & Hr). rewrite Hr. intros [= <- <-].
    constructor; [done|]. by eapply IH.
Qed.

(** Everything a save does. *)
Lemma mem_save_spec a m s e :
  mem_mail_wf (s, e) →
  ∃ st cs s' e', mem_save_message a m (s, e) = (Ok st, (s', e')) ∧
    let en := mkEntry st cs (nm_raw_content m) in
    sm_mailbox_address st = a ∧ entry_ok en ∧ entry_wf en ∧ fresh s st ∧ carries m (mail_of en) ∧
    s' = enforce_quotas (push s en) a (sm_id st) (quotas s) ∧
    sm_received_at st = e_clock e 0%nat ∧ later e e' 1.
Proof.
  intros ([Hw [Hinj Hfresh]] & Hok). cbn in Hinj, Hfresh.
  destruct (save_message_total a m s e) as (st & [s' e'] & Hs).
  pose proof Hs as (Ha & Hsz & Hseen & cs & Hc1 & Hc2 & Hs')%save_message_run.
  pose proof Hs as [Hid He']%save_message_env.
  exists st, cs, s', e'. split; [done|].
  assert (sm_received_at st = e_clock e 0%nat ∧ later e e' 1 ∧
          map am_id (sm_attachments st) = map (e_uuid e) (seq 0 (length (nm_attachments m))) ∧
          Forall2 describes (sm_attachments st) (nm_attachments m) ∧
          st = mkStoredMessage (sm_id st) a (nm_mail_from m) (nm_subject m) (nm_message_date m)
                 (nm_text_body m) (nm_html_body m) (nm_raw_size m) (sm_received_at st) false
                 (sm_attachments st))
    as (Hrec & Hlat & Hatt & Hdesc & Hst).
  { clear - Hs. revert Hs. unfold mem_save_message. run_mem.
    destruct (store_attachments_state (nm_attachments m) s e) as (r & f & Hr). rewrite Hr. cbn.
    intros [= <- <- <-]. cbn. pose proof (store_attachments_clock _ _ _ _ _ Hr) as Hcl. cbn in Hcl.
    rewrite (store_attachments_ids _ _ _ _ _ Hr). split_and!; [by rewrite Hcl| |done| |done].
    - intros k. cbn. unfold shift. by rewrite Hcl.
    - by eapply store_attachments_describe. }
  cbn zeta. split_and!; try done.
  - unfold entry_ok. cbn. rewrite Hatt. apply NoDup_fmap_2; [|apply NoDup_seq].
    intros i j. apply Hinj.
  - unfold fresh. constructor; [rewrite Hid; apply Hfresh|]. apply Hw.
  - split; [by rewrite Hst|]. cbn. by rewrite Hc2, zip_describes.
Qed.

Lemma mem_mail_wf_op o w : mem_mail_wf w → mem_mail_wf (run_op o w).
Proof.
  intros Hw. split; [by apply WF_run_op; destruct Hw|]. destruct (moves_mail o) eqn:Ho.
  2: { rewrite (mem_op_frame o w Ho). by destruct Hw. }
  destruct w as [s e]. pose proof Hw as (_ & Hok). cbn in Hok.
  assert (∀ p, Forall entry_ok (retain p (messages s))) as Hret.
  { intros p. rewrite Forall_forall in *. intros x [Hx _]%elem_of_retain. auto. }
  destruct o; try discriminate Ho; cbn; unfold call, mem_delete_mailbox, mem_delete_message,
    mem_mark_seen, mem_delete_all_messages, mem_purge_expired; run_mem; auto.
  - destruct (mem_save_spec address m s e Hw)
      as (st & cs & s' & e' & -> & _ & Hen & _ & _ & _ & -> & _ & _). cbn.
    rewrite enforce_messages, Forall_forall. intros x [Hx _]%elem_of_retain.
    apply elem_of_app in Hx as [Hx| ->%list_elem_of_singleton]; [|done].
    rewrite Forall_forall in Hok. auto.
  - case_match; cbn; [|done]. apply update_first_Forall; [|done]. by intros [[] ? ?].
Qed.

(** ** Saving *)

Lemma inbox_messages s s' a : messages s' = messages s → mem_mail s' a = mem_mail s a.
Proof. unfold mem_mail, sorted_inbox, inbox. by intros ->. Qed.

Lemma mem_mail_inbox s s' a : inbox s' a = inbox s a → mem_mail s' a = mem_mail s a.
Proof. unfold mem_mail, sorted_inbox. by intros ->. Qed.

(** The two caps on mail: what they leave is what [quota_drop] does not name. *)
Definition mail_sized (m : Mail) : Z * Z * Z := (ml_received m, ml_id m, Z.max 0 (ml_size m)).

Lemma sized_ids (l : list Mail) : map (λ x, x.1.2) (map mail_sized l) = map ml_id l.
Proof. by rewrite map_map. Qed.
Lemma walk_within_bytes max new acc l k :
  NoDup (map ml_id (l ++ k)) → 0 ≤ acc →
  retain (λ m, kept (over_budget max (Z.min u64_max acc) new (map mail_sized (l ++ k))) (mail_sized m)) l
  = within_bytes (Z.max 0) max acc new l.
Proof.
  revert acc. induction l as [|x l IH]; intros acc; [done|].
  intros [Hx Hl]%NoDup_cons Hacc. cbn [app map over_budget within_bytes].
  unfold mail_sized at 2. cbn -[u64_max].
  set (acc' := acc + Z.max 0 (ml_size x)). assert (0 ≤ acc') as Hacc' by lia.
  assert (saturating_add_u64 (Z.min u64_max acc) (Z.max 0 (ml_size x)) = Z.min u64_max acc') as ->
    by (unfold saturating_add_u64; lia).
  rewrite <-(IH acc' Hl Hacc').
  assert (ml_id x ∉ over_budget max (Z.min u64_max acc') new (map mail_sized (l ++ k))) as Hno.
  { intros [Ho _]%over_budget_elem. by rewrite sized_ids in Ho. }
  assert ((Z.min u64_max acc' <=? max) || has_id new x
    = negb (bool_decide (max < Z.min u64_max acc') && negb (bool_decide (ml_id x = new)))) as ->.
  { unfold has_id. destruct (bool_decide (ml_id x = new)), (Z.leb_spec (Z.min u64_max acc') max);
      case_bool_decide; (done || lia). }
  destruct (bool_decide (max < _) && _); unfold kept at 1; cbn [mail_sized fst snd negb app].
  - rewrite bool_decide_true by left. cbn. apply retain_ext. intros y Hy. unfold kept. f_equal.
    apply bool_decide_ext. rewrite elem_of_cons. split; [|by right]. intros [Heq|?]; [|done].
    exfalso. apply Hx. cbn in Heq. rewrite <-Heq. apply list_elem_of_fmap. exists y.
    split; [done|]. apply elem_of_app. by left.
  - by rewrite bool_decide_false.
Qed.
Lemma quota_kept_drop q new l :
  NoDup (map ml_id l) →
  retain (λ m, kept (quota_drop q new (map mail_sized l)) (mail_sized m)) l = quota_kept (Z.max 0) q new l.
Proof.
  intros Hnd. unfold quota_drop, quota_kept. set (n := Z.to_nat (max_messages q)).
  set (k := if bool_decide (0 < max_messages q) then n else length l).
  assert ((if bool_decide (0 < max_messages q) then take n l else l) = take k l) as ->.
  { unfold k. case_bool_decide; [done|]. by rewrite take_ge. }
  rewrite (retain_ext _ (λ m, kept (map (λ x, x.1.2) (drop k (map mail_sized l))) (mail_sized m)
    && kept (if bool_decide (0 < max_bytes q)
    then over_budget (max_bytes q) 0 new (map mail_sized l) else []) (mail_sized m))).
  2: { intros m _. rewrite kept_app. f_equal. f_equal. unfold k. case_bool_decide; [done|].
       by rewrite drop_ge by by rewrite length_map. }
  rewrite <-retain_retain.
  assert (retain (λ m, kept (map (λ x, x.1.2) (drop k (map mail_sized l))) (mail_sized m)) l = take k l) as ->.
  { rewrite <-(cuts_retain (λ m, kept (map (λ x, x.1.2) (drop k (map mail_sized l))) (mail_sized m)) l k); [done|].
    destruct (cuts_count k (map mail_sized l)) as [H1 H2]; [by rewrite sized_ids|].
    split; intros x Hx; [apply H1; rewrite <-fmap_take|apply H2; rewrite <-fmap_drop];
      apply list_elem_of_fmap; eauto. }
  case_bool_decide; [|by apply retain_true].
  rewrite <-(walk_within_bytes (max_bytes q) new 0 (take k l) (drop k l)) by (rewrite ?take_drop; done || lia).
  by rewrite take_drop.
Qed.

(** The inbox after a save: the entries the quotas keep of the sorted inbox and the new. *)
Lemma mem_saved_mail s en q :
  let a := sm_mailbox_address (message en) in
  fresh s (message en) →
  received (Z.max 0) q (mail_of en) (mem_mail s a)
    (mem_mail (enforce_quotas (push s en) a (sm_id (message en)) q) a).
Proof.
  intros a Hf.
  assert (in_mailbox a en = true) as Hin by by apply bool_decide_eq_true.
  assert (inbox (push s en) a = inbox s a ++ [en]) as Hpush by by rewrite push_inbox, Hin.
  assert (NoDup (ids (messages (push s en)))) as Hnd.
  { unfold push, ids. cbn. rewrite map_app. cbn. by rewrite <-Permutation_cons_append. }
  assert (NoDup (map ml_id (mem_mail (push s en) a))) as Hids.
  { rewrite mem_mail_ids. by apply inbox_ids. }
  assert (newest_first (push s en) a = map mail_sized (mem_mail (push s en) a)) as Hnf.
  { unfold newest_first, mem_mail, sorted_inbox. rewrite map_map. by apply (sort_map sized entry_cmp). }
  assert (mem_mail (enforce_quotas (push s en) a (sm_id (message en)) q) a
    = quota_kept (Z.max 0) q (sm_id (message en)) (mem_mail (push s en) a)) as Heq.
  { rewrite <-quota_kept_drop, <-Hnf by done. unfold mem_mail at 1, sorted_inbox.
    rewrite enforce_inbox, sort_retain by by apply inbox_ids.
    unfold mem_mail, sorted_inbox. by rewrite retain_map. }
  assert (en ∈ sorted_inbox (push s en) a) as (l1 & l2 & Hl)%list_elem_of_split.
  { unfold sorted_inbox. rewrite sort_by_Permutation, Hpush. apply elem_of_app. right. left. }
  pose proof (sort_entries_sorted (inbox (push s en) a)) as Hs. fold (sorted_inbox (push s en) a) in Hs.
  rewrite Hl in Hs. exists (map mail_of l1), (map mail_of l2).
  assert (sorted_inbox s a = l1 ++ l2) as Hold.
  { apply entries_unique.
    - unfold ids, sorted_inbox. rewrite sort_by_Permutation. apply inbox_ids. by apply NoDup_cons in Hf as [_ ?].
    - apply sort_entries_sorted.
    - by eapply StronglySorted_drop_middle.
    - apply (Permutation_cons_inv (a := en)). rewrite Permutation_middle, <-Hl. unfold sorted_inbox.
      rewrite !sort_by_Permutation, Hpush. by rewrite Permutation_app_comm. }
  split_and!.
  - unfold mem_mail. by rewrite Hold, map_app.
  - apply Forall_map, Forall_forall. intros x Hx.
    assert (entry_cmp x en ≠ Gt) as Hc by (eapply (StronglySorted_app_1_elem_of _ _ _ _ _ Hs Hx); left).
    by apply entry_cmp_received in Hc.
  - apply StronglySorted_app_1_r in Hs. inversion Hs as [|? ? _ Hc]; subst.
    apply Forall_map. eapply Forall_impl; [exact Hc|]. intros x Hx. by apply entry_cmp_received in Hx.
  - rewrite Heq. unfold mem_mail. rewrite Hl, map_app. done.
Qed.

Lemma mem_mail_save a m w :
  mem_mail_wf w →
  match mem_save_message a m w with
  | (Ok st, w') =>
      ∃ n i k, shows a n st ∧ carries m n ∧ ml_received n = e_clock w.2 i ∧ (i < k)%nat ∧
        later w.2 w'.2 k ∧ (ml_id n ∉ map ml_id (mem_mail w.1 a)) ∧
        received (Z.max 0) (quotas w.1) n (mem_mail w.1 a) (mem_mail w'.1 a) ∧
        ∀ b, b ≠ a → mem_mail w'.1 b = mem_mail w.1 b
  | (Err _, w') => (∃ k, later w.2 w'.2 k) ∧ ∀ b, mem_mail w'.1 b = mem_mail w.1 b
  end.
Proof.
  destruct w as [s e]. intros Hw.
  destruct (mem_save_spec a m s e Hw)
    as (st & cs & s' & e' & Hs & Ha & _ & Hwf & Hf & Hc & Hs' & Ht & Hl). rewrite Hs.
  set (en := mkEntry st cs (nm_raw_content m)) in *. exists (mail_of en), 0%nat, 1%nat.
  split_and!; try done; [by apply mail_of_shows|lia|..].
  - unfold fresh in Hf. apply NoDup_cons in Hf as [Hf _]. cbn. intros Hin. apply Hf.
    rewrite mem_mail_ids in Hin. apply list_elem_of_fmap in Hin as (x & -> & [Hx _]%elem_of_retain).
    apply list_elem_of_fmap. eauto.
  - subst s' a. by apply (mem_saved_mail s en (quotas s)).
  - intros b Hb. apply mem_mail_inbox. by eapply save_other_inbox.
Qed.

(** ** Updates *)

Lemma mem_mail_seen a i : mail_updates mem_mail mem_mail_wf (mem_mark_seen a i) a (any (has_id i))
  (map (λ m, if has_id i m then see m else m)).
Proof.
  intros [s e] Hw. apply wf_messages in Hw as Hnd. cbn in Hnd.
  pose proof (find_mem_mail (s, e) a i Hw) as Hf. unfold mem_mark_seen. run_mem.
  assert (∀ b, mem_mail (set_msgs (update_first (is_message a i) mark_entry_seen (messages s)) s) b
    = if bool_decide (b = a) then map (λ m, if has_id i m then see m else m) (mem_mail s a) else mem_mail s b)
    as Hm.
  { intros b. rewrite update_first_unique; [|done|].
    2: { unfold is_message. intros x y Hx Hy. boolify. congruence. }
    set (g := λ x, if is_message a i x then mark_entry_seen x else x).
    assert (∀ x, in_mailbox b (g x) = in_mailbox b x ∧ entry_key (g x) = entry_key x) as Hg.
    { intros x. unfold g. by destruct (is_message a i x). }
    unfold mem_mail, sorted_inbox, inbox. cbn [messages set_msgs]. rewrite retain_map.
    rewrite (filter_ext (λ x, in_mailbox b (g x)) (in_mailbox b)) by (intros x; apply Hg).
    rewrite (sort_map g entry_cmp).
    2: { intros x y. unfold entry_cmp. by rewrite (proj2 (Hg x)), (proj2 (Hg y)). }
    rewrite map_map. case_bool_decide as Hb.
    - subst b. rewrite map_map. apply map_ext_in. intros x Hx%list_elem_of_In.
      rewrite sort_by_Permutation, elem_of_retain in Hx. destruct Hx as [_ Hx]. unfold g, is_message.
      rewrite Hx. unfold has_id. cbn. by case_bool_decide.
    - apply map_ext_in. intros x Hx%list_elem_of_In. rewrite sort_by_Permutation, elem_of_retain in Hx.
      destruct Hx as [_ Hx]. unfold g, is_message, in_mailbox in *. boolify.
      by rewrite (bool_decide_false (sm_mailbox_address (message x) = a)) by congruence. }
  rewrite any_find, Hf. destruct (find (is_message a i) (messages s)) as [x|] eqn:Hx; cbn in *.
  - split; [done|]. split; [exact Hm|]. intros ? [= <-]. done.
  - split; [done|]. split; [|by intros ? [= <-]]. intros b. case_bool_decide as Hb; [|done]. subst b.
    symmetry. apply map_id_on. intros y Hy. rewrite find_None in Hf. by rewrite (Hf y Hy).
Qed.

(** Removing the entries of mailbox [a] that satisfy [p]. *)
Lemma mem_mail_drop s a p q b :
  NoDup (ids (messages s)) → (∀ e, p e = in_mailbox a e && q (mail_of e)) →
  mem_mail (set_msgs (retain (λ e, negb (p e)) (messages s)) s) b
  = if bool_decide (b = a) then retain (λ m, negb (q m)) (mem_mail s a) else mem_mail s b.
Proof.
  intros Hnd Hp. case_bool_decide as Hb.
  - subst b. apply mem_mail_retain; [done|]. intros e [_ He]%elem_of_retain. by rewrite Hp, He.
  - rewrite <-(retain_true (λ _, true) (mem_mail s b)) by done. apply mem_mail_retain; [done|].
    intros e [_ He]%elem_of_retain. rewrite Hp. unfold in_mailbox in *. boolify.
    by rewrite bool_decide_false by congruence.
Qed.

Lemma retain_shorter {A} (p : A → bool) (l : list A) :
  negb (bool_decide (length (retain (λ x, negb (p x)) l) = length l)) = any p l.
Proof.
  unfold any. induction l as [|x l IH]; [done|]. cbn. destruct (p x); cbn.
  - pose proof (retain_length (λ x, negb (p x)) l). by rewrite bool_decide_false by lia.
  - rewrite <-IH. f_equal. apply bool_decide_ext. lia.
Qed.

Lemma mem_mail_delete a i : mail_updates mem_mail mem_mail_wf (mem_delete_message a i) a (any (has_id i))
  (retain (λ m, negb (has_id i m))).
Proof.
  intros [s e] Hw. apply wf_messages in Hw as Hnd. unfold mem_delete_message. run_mem.
  split; [done|]. split.
  - intros b. by apply (mem_mail_drop s a (is_message a i) (has_id i)).
  - intros x [= <-]. rewrite retain_shorter, !any_find, (find_mem_mail (s, e)) by done. cbn.
    by destruct (find _ (messages s)).
Qed.

Lemma mem_mail_delete_all a :
  mail_updates mem_mail mem_mail_wf (mem_delete_all_messages a) a (λ l, len l) (λ _, []).
Proof.
  intros [s e] Hw. apply wf_messages in Hw as Hnd. unfold mem_delete_all_messages. run_mem.
  split; [done|]. split.
  - intros b. etrans; [apply (mem_mail_drop s a (in_mailbox a) (λ _, true)); [done|]|].
    { intros x. by rewrite andb_true_r. }
    case_bool_decide; [|done]. by apply retain_none.
  - intros x [= <-]. unfold mem_mail, sorted_inbox, inbox.
    rewrite length_map, (Permutation_length (sort_by_Permutation _ _)).
    clear Hw Hnd. induction (messages s) as [|y l IH]; cbn; [done|]. destruct (in_mailbox a y); cbn; lia.
Qed.

(** Removing whole mailboxes. *)
Lemma mem_mail_owner s s' (keep : str → bool) a :
  messages s' = retain (λ e, keep (sm_mailbox_address (message e))) (messages s) →
  mem_mail s' a = if keep a then mem_mail s a else [].
Proof.
  intros Hs'. unfold mem_mail, sorted_inbox, inbox. rewrite Hs'.
  unfold in_mailbox. rewrite (retain_owner (λ e, sm_mailbox_address (message e)) keep).
  by destruct (keep a).
Qed.

Lemma mem_mail_delete_mailbox a w b :
  mem_mail (mem_delete_mailbox a w).2.1 b
  = match (mem_delete_mailbox a w).1 with
    | Ok _ => if bool_decide (b = a) then [] else mem_mail w.1 b
    | Err _ => mem_mail w.1 b
    end.
Proof.
  destruct w as [s e]. unfold mem_delete_mailbox. run_mem.
  etrans; [by apply (mem_mail_owner s _ (λ o, negb (bool_decide (o = a))))|].
  by case_bool_decide.
Qed.

Lemma mem_mail_purge now w a :
  mem_mail_wf w →
  mem_mail (mem_purge_expired now w).2.1 a
  = match (mem_purge_expired now w).1 with
    | Ok _ => if expired_at (mem_view w.1) now a then [] else mem_mail w.1 a
    | Err _ => mem_mail w.1 a
    end.
Proof.
  destruct w as [s e]. intros ([Hwf _] & _). unfold mem_purge_expired. run_mem.
  fold (expired_addresses s now).
  etrans; [by apply (mem_mail_owner s _ (λ o, negb (bool_decide (o ∈ expired_addresses s now))))|].
  cbn beta. rewrite gone_at_expired by exact (wf_mailboxes _ Hwf). unfold gone_at, expired_at. cbn.
  destruct (mailboxes s !! a) as [mb|]; cbn; [|done]. destruct (Z.leb_spec (mb_expires_at mb) now);
    case_bool_decide; (done || lia).
Qed.
End laws.

(** ** Queries *)

Lemma mem_mail_reads {A} (m : SM MemoryStore A) (R : (str → list Mail) → A → Prop) :
  (∀ w, (m w).2 = w) → (∀ w x, mem_mail_wf w → (m w).1 = Ok x → R (mem_mail w.1) x) →
  mail_reads mem_mail quotas mem_mail_wf m R.
Proof. intros Hm HR w Hw. rewrite Hm. split_and!; eauto. Qed.

Lemma find_zip (l : list AttachmentMeta) (k : list (Uuid * bytes)) j :
  map am_id l = map fst k →
  match find (λ a, bool_decide (am_id a = j)) l with
  | None => None
  | Some meta => match find (λ c, bool_decide (c.1 = j)) k with
                 | None => None
                 | Some c => Some (mkAttachment (am_filename meta) (am_content_type meta) c.2)
                 end
  end = (λ f, mkAttachment (am_filename f.1) (am_content_type f.1) f.2)
          <$> find (λ f, bool_decide (am_id f.1 = j)) (zip l (map snd k)).
Proof.
  revert k. induction l as [|x l IH]; intros [|[i c] k]; try done. cbn. intros [= Hx Hl].
  subst i. case_bool_decide; [done|]. by apply IH.
Qed.

Lemma mem_get_attachment_file a i j w :
  mem_mail_wf w → (mem_get_attachment a i j w).1 = Ok (find (has_id i) (mem_mail w.1 a) ≫= file_in j).
Proof.
  intros Hw. rewrite (find_mem_mail w) by done. destruct w as [s e]. unfold mem_get_attachment. run_mem.
  destruct (find (is_message a i) (messages s)) as [x|] eqn:Hx; cbn; [|done].
  apply find_Some in Hx as [Hx _]. pose proof (wf_entries _ Hw) as He. rewrite Forall_forall in He.
  specialize (He x Hx). unfold file_in. cbn. rewrite <-find_zip by done. by repeat case_match.
Qed.

#[export, refine] Instance MemoryStore_Mail : MailLaws MemoryStore := {|
  mail := mem_mail;
  mail_wf := mem_mail_wf;
  mail_caps := quotas;
  mail_weight := Z.max 0;
  mail_id _ := True;
  law_mail_caps := mem_op_quotas;
  law_mail_weight z := Z.max_r 0 z;
  law_mail_id _ _ := Logic.I;
  law_mail_op := mem_mail_wf_op;
  law_mail_save := mem_mail_save;
  law_mail_seen a i _ := mem_mail_seen a i;
  law_mail_delete a i _ := mem_mail_delete a i;
  law_mail_delete_all := mem_mail_delete_all;
  law_mail_delete_mailbox a w _ := mem_mail_delete_mailbox a w;
  law_mail_purge now w Hw a := mem_mail_purge now w a Hw;
|}.
Proof.
  - intros w a Hw. rewrite mem_mail_ids. by apply inbox_ids, wf_messages.
  - intros w a _. by apply Forall_true.
  - intros w a Hw. apply wf_messages in Hw. unfold mem_mail.
    pose proof (sorted_inbox_strict w.1 a Hw) as Hs. induction Hs as [|x l _ IH Hx]; cbn; [constructor|].
    constructor; [done|]. apply Forall_map. eapply Forall_impl; [exact Hx|]. intros y Hy.
    unfold key_lt in Hy. rewrite cmp_key_lt in Hy. cbn in *. lia.
  - intros w a Hw. pose proof (wf_entries _ Hw) as He. destruct Hw as (_ & Hok).
    rewrite Forall_forall in He, Hok. apply Forall_forall. intros m (e & -> & Hin & _)%elem_of_mem_mail.
    split; [|by apply Forall_true]. rewrite <-(map_map fst am_id), zip_fst_metas by auto. by apply Hok.
  - intros w [[Hw _] _]. exact (wf_mailboxes _ Hw).
  - intros o w a _ Ho. apply inbox_messages. by apply mem_op_frame.
  - intros s e e' n ([? [? ?]] & ?) _ He. cbn in *. unfold mem_mail_wf, WF, fresh_env. cbn. by rewrite He.
  - intros a. by apply mem_mail_reads.
  - intros a t. apply mem_mail_reads; [by intros []|done].
  - intros d. apply mem_mail_reads; [by intros []|done].
  - apply mem_mail_reads; [by intros []|done].
  - intros a limit since Hl _. apply mem_mail_reads; [done|]. intros w x Hw Hx.
    change (list_messages a limit since) with (mem_list_messages a limit since) in Hx.
    rewrite (list_page w a limit since Hw Hl) in Hx. by injection Hx as <-.
  - intros a i _. apply mem_mail_reads; [by intros []|]. intros [s e] x Hw [= <-]. cbn.
    rewrite (find_mem_mail (s, e)) by done. cbn.
    destruct (find (is_message a i) (messages s)) as [y|] eqn:Hy; cbn; [|done].
    apply find_Some in Hy as [Hy Hm]. unfold is_message, in_mailbox in Hm. boolify.
    apply mail_of_shows; [done|]. pose proof (wf_entries _ Hw) as He. rewrite Forall_forall in He. auto.
  - intros a i _. apply mem_mail_reads; [by intros []|]. intros [s e] x Hw [= <-]. cbn.
    rewrite (find_mem_mail (s, e)) by done. cbn. by destruct (find _ _).
  - intros a i j _ _. change (get_attachment a i j) with (mem_get_attachment a i j).
    apply mem_mail_reads; [intros []; unfold mem_get_attachment; run_mem; by repeat case_match|].
    intros w x Hw Hx. rewrite (mem_get_attachment_file a i j w Hw) in Hx. by injection Hx as <-.
Defined.

(** An empty store whose environment draws distinct identifiers. *)
Lemma mem_mail_wf_new q e :
  (∀ i j, e_uuid e i = e_uuid e j → i = j) → mem_mail_wf (with_quotas q new, e).
Proof.
  intros He. split; [|constructor]. split; split; cbn; try done; try constructor.
  intros i Hi. by apply not_elem_of_nil in Hi.
Qed.
