(* ===== verification/MailHistory.v ===== *)
(** * MailHistory: where the mail of an inbox comes from

    Every component changes the store through the calls of its interface, each of them one
    transition: whatever sessions, requests and tasks run at the same time, what the store
    sees is one sequence of calls. *)

From S2P Require Import Prelude Str Model UuidHex Config StoreSpec MailSpec MemoryStore MemoryStoreLaws.
From S2P Require Import MemoryClaims MemoryInbox.

Section history.
Context {S : Type} `{ML : MailLaws S}.

(** The identifiers a call names are identifiers. *)
Definition op_ids (o : op) : Prop :=
  match o with OpDeleteMessage _ i | OpMarkSeen _ i => uuid_range i | _ => True end.

(** The same message, read or not. *)
Definition same_message (m n : Mail) : Prop := see m = see n.
#[global] Instance same_message_equivalence : Equivalence same_message.
Proof. split; repeat intro; unfold same_message in *; congruence. Qed.

Lemma see_same m : same_message (see m) m.
Proof. done. Qed.

(** Message [n] was in the inbox before, or call [o] brought it. *)
Definition comes_from (o : op) (a : str) (before : list Mail) (n : Mail) : Prop :=
  (∃ n0, n0 ∈ before ∧ same_message n n0) ∨ ∃ m, o = OpSave a m ∧ carries m n.

Lemma from_before o a l n : n ∈ l → comes_from o a l n.
Proof. intros Hn. left. by exists n. Qed.
#[local] Hint Resolve from_before : rust.

(** An update of one inbox that keeps or alters messages brings none. *)
Lemma updates_bring_none {A} (m : SM S A) b f g o w a n :
  mail_updates mail mail_wf m b f g → mail_wf w →
  (∀ l x, x ∈ g l → ∃ y, y ∈ l ∧ same_message x y) →
  n ∈ mail (m w).2.1 a → comes_from o a (mail w.1 a) n.
Proof.
  intros Hm Hw Hg. destruct (Hm w Hw) as (_ & -> & _). destruct (m w).1; [|apply from_before].
  case_bool_decide as Hab; [subst|apply from_before]. intros Hn. left. by apply Hg.
Qed.

Lemma save_brings b m w a n :
  mail_wf w → n ∈ mail (save_message b m w).2.1 a → comes_from (OpSave b m) a (mail w.1 a) n.
Proof.
  intros Hw. pose proof (law_mail_save b m w Hw) as Hs.
  destruct (save_message b m w) as [[st|er] w'] eqn:Hsv; cbn.
  - destruct Hs as (n' & i & k & _ & Hc & _ & _ & _ & _ & (l & Hl & Hp)%received_sublist & Ho).
    destruct (decide (a = b)) as [->|Hne]; [|rewrite Ho by done; apply from_before].
    intros Hn. eapply elem_of_submseteq in Hn; [|by apply sublist_submseteq].
    rewrite Hp in Hn. apply elem_of_cons in Hn as [->|Hn]; [right; eauto|by apply from_before].
  - destruct Hs as [_ ->]. apply from_before.
Qed.

Lemma op_brings o w a n :
  mail_wf w → op_ids o → n ∈ mail (run_op o w).1 a → comes_from o a (mail w.1 a) n.
Proof.
  intros Hw Hi. destruct (moves_mail o) eqn:Ho.
  2: { rewrite law_mail_frame by done. apply from_before. }
  destruct o; try discriminate Ho; cbn [run_op]; unfold call; cbn in Hi.
  - rewrite law_mail_delete_mailbox by done. destruct (delete_mailbox _ w).1; [|apply from_before].
    case_bool_decide; [by intros ?%not_elem_of_nil|apply from_before].
  - by apply save_brings.
  - eapply updates_bring_none; [by apply law_mail_delete, law_mail_id|done|].
    intros l x [Hx _]%elem_of_retain. by exists x.
  - eapply updates_bring_none; [by apply law_mail_seen, law_mail_id|done|].
    intros l x (y & -> & Hy)%list_elem_of_fmap. exists y. split; [done|]. by destruct (has_id id y).
  - eapply updates_bring_none; [apply law_mail_delete_all|done|]. by intros l x ?%not_elem_of_nil.
  - rewrite law_mail_purge by done. destruct (purge_expired now w).1; [|apply from_before].
    destruct (expired_at _ _ _); [by intros ?%not_elem_of_nil|apply from_before].
Qed.

(** C15: no mail appears from nowhere or strays into another mailbox, whatever runs at the
    same time. Through any sequence of calls of the interface, however the components that
    make them interleave and whichever calls fail, every message found in an inbox either
    was in that inbox at the start or was put there by a save for exactly this address,
    and has the content it had then: only the mark that it was read may differ. The inbox
    stays well formed throughout. *)
Theorem mail_provenance l w a n :
  mail_wf w → Forall op_ids l → n ∈ mail (run_ops l w).1 a →
  mail_wf (run_ops l w) ∧
  ((∃ n0, n0 ∈ mail w.1 a ∧ same_message n n0) ∨
   ∃ m n0, OpSave a m ∈ l ∧ carries m n0 ∧ same_message n n0).
Proof.
  intros Hw Hl Hn. split; [by apply run_ops_preserves; [apply law_mail_op|]|].
  revert w Hw Hn. induction Hl as [|o l Ho _ IH]; intros w Hw Hn; cbn in Hn.
  - left. by exists n.
  - destruct (IH (run_op o w)) as [(n1 & Hn1 & Hs)|(m & n1 & Hm & Hc & Hs)]; [by apply law_mail_op|done| |].
    + destruct (op_brings o w a n1 Hw Ho Hn1) as [(n0 & Hn0 & Hs0)|(m & -> & Hc)].
      * left. exists n0. split; [done|]. by rewrite Hs.
      * right. exists m, n1. split; [left|done].
    + right. exists m, n1. split; [by right|done].
Qed.
End history.

(** ** A concrete history *)

Definition demo_history : list op :=
  [OpSave demo_address (demo_msg 5); OpMarkSeen demo_address 10; OpSave (lit "b@x.io") (demo_msg 6); OpPurge 0].

Lemma mail_provenance_witness :
  ∃ n, n ∈ mail (run_ops demo_history demo_start).1 demo_address ∧
    ((∃ n0, n0 ∈ mail demo_start.1 demo_address ∧ same_message n n0) ∨
     ∃ m n0, OpSave demo_address m ∈ demo_history ∧ carries m n0 ∧ same_message n n0).
Proof.
  assert (mail_wf demo_start) as Hw by (apply mem_mail_wf_new; intros i j; cbn; lia).
  assert (Forall op_ids demo_history) as Hi.
  { repeat constructor; apply (bool_decide_unpack _); vm_compute; exact Logic.I. }
  destruct (mail (run_ops demo_history demo_start).1 demo_address) as [|n l] eqn:Hbox;
    [vm_compute in Hbox; discriminate Hbox|].
  exists n. split; [left|]. apply (mail_provenance demo_history demo_start demo_address n Hw Hi).
  rewrite Hbox. left.
Defined.
