(* ===== verification/Sql.v ===== *)
(** * Sql: the relational model the database backends run on

    The schema of [migrations/] as tables, and the statements of [src/store/sqlite.rs] and
    [src/store/postgres.rs] as functions on them. A table is the map from its primary key
    to its row; [INSERT] checks the primary key, the unique constraints and the foreign
    keys, [DELETE] cascades along the foreign keys, and a [SELECT] without [ORDER BY]
    answers in the order of [map_to_list]. Identifiers have a type of their own, text in
    SQLite and [UUID] in PostgreSQL, with the order the engine compares them in. Timestamps
    are compared as instants in both: the text SQLite stores is ordered as the instants
    are. Every statement is a round trip that may fail without effect; a transaction that
    does not reach its commit leaves no trace. *)

From S2P Require Import Prelude Str Model Config StoreSpec Rows.

(** ** Schema

    The columns of each table, but for the identifier that is its key. *)

Record MessageRec := mkMessageRec {
  mr_mailbox_address : str;
  mr_mail_from : str;
  mr_subject : option str;
  mr_message_date : option Time;
  mr_text_body : option str;
  mr_html_body : option str;
  mr_raw_size : Z;
  mr_received_at : Time;
  mr_seen : bool;
  mr_raw_content : option bytes;
}.

Record AttachmentRec (I : Type) := mkAttachmentRec {
  ar_message_id : I;
  ar_filename : option str;
  ar_content_type : str;
  ar_size : Z;
  ar_content : bytes;
}.
Arguments mkAttachmentRec {I} _ _ _ _ _.
Arguments ar_message_id {I} _.
Arguments ar_filename {I} _.
Arguments ar_content_type {I} _.
Arguments ar_size {I} _.
Arguments ar_content {I} _.

Record SubscriptionRec := mkSubscriptionRec {
  pr_mailbox_address : str;
  pr_kind : str;
  pr_endpoint : str;
  pr_p256dh : str;
  pr_auth : str;
  pr_created_at : Time;
}.

Record DomainRec := mkDomainRec {
  cr_claim_token_hash : str;
  cr_txt_token : str;
  cr_status : str;
  cr_created_at : Time;
  cr_verified_at : option Time;
  cr_last_checked_at : option Time;
}.

(** The tables; [mailboxes] and [attested_devices] have the columns of the model's
    records. *)
Record Db (I : Type) `{Countable I} := mkDb {
  t_mailboxes : gmap str Mailbox;
  t_messages : gmap I MessageRec;
  t_attachments : gmap I (AttachmentRec I);
  t_subscriptions : gmap I SubscriptionRec;
  t_domains : gmap str DomainRec;
  t_devices : gmap str AttestedDevice;
}.
Arguments mkDb {I _ _} _ _ _ _ _ _.
Arguments t_mailboxes {I _ _} _.
Arguments t_messages {I _ _} _.
Arguments t_attachments {I _ _} _.
Arguments t_subscriptions {I _ _} _.
Arguments t_domains {I _ _} _.
Arguments t_devices {I _ _} _.

(** The order an engine compares identifiers in. *)
Class IdOrder (I : Type) := {
  cmp_id : I → I → comparison;
  cmp_id_eq a b : cmp_id a b = Eq ↔ a = b;
  cmp_id_antisym a b : cmp_id b a = CompOpp (cmp_id a b);
  cmp_id_trans a b c : cmp_id a b = Lt → cmp_id b c = Lt → cmp_id a c = Lt;
}.

(** The state of a backend: its quotas, the tables, and which of the coming round trips
    to the database fail. *)
Record SqlStore (I : Type) `{Countable I} := mkSqlStore {
  sql_quotas : MailboxQuotas;
  sql_db : Db I;
  sql_faults : nat → bool;
}.
Arguments mkSqlStore {I _ _} _ _ _.
Arguments sql_quotas {I _ _} _.
Arguments sql_db {I _ _} _.
Arguments sql_faults {I _ _} _.

Section sql.
Context {I : Type} `{Countable I} `{!IdOrder I}.

Definition set_t_mailboxes (m : gmap str Mailbox) (d : Db I) : Db I :=
  mkDb m (t_messages d) (t_attachments d) (t_subscriptions d) (t_domains d) (t_devices d).
Definition set_t_messages (m : gmap I MessageRec) (d : Db I) : Db I :=
  mkDb (t_mailboxes d) m (t_attachments d) (t_subscriptions d) (t_domains d) (t_devices d).
Definition set_t_attachments (m : gmap I (AttachmentRec I)) (d : Db I) : Db I :=
  mkDb (t_mailboxes d) (t_messages d) m (t_subscriptions d) (t_domains d) (t_devices d).
Definition set_t_subscriptions (m : gmap I SubscriptionRec) (d : Db I) : Db I :=
  mkDb (t_mailboxes d) (t_messages d) (t_attachments d) m (t_domains d) (t_devices d).
Definition set_t_domains (m : gmap str DomainRec) (d : Db I) : Db I :=
  mkDb (t_mailboxes d) (t_messages d) (t_attachments d) (t_subscriptions d) m (t_devices d).
Definition set_t_devices (m : gmap str AttestedDevice) (d : Db I) : Db I :=
  mkDb (t_mailboxes d) (t_messages d) (t_attachments d) (t_subscriptions d) (t_domains d) m.

Definition set_db (d : Db I) (s : SqlStore I) : SqlStore I :=
  mkSqlStore (sql_quotas s) d (sql_faults s).
Definition trip (s : SqlStore I) : SqlStore I :=
  mkSqlStore (sql_quotas s) (sql_db s) (shift (sql_faults s)).

(** ** Statements and transactions *)

Abbreviation SqlM A := (SM (SqlStore I) A).

(** One statement: it fails on the way, or with a constraint, or takes effect. *)
Definition stmt {A} (f : Db I → result (A * Db I) anyhow) : SqlM A := λ w,
  let s := trip w.1 in
  if sql_faults w.1 0%nat then (Err (Sqlx false), (s, w.2))
  else
    match f (sql_db w.1) with
    | Ok (a, d) => (Ok a, (set_db d s, w.2))
    | Err e => (Err e, (s, w.2))
    end.
Definition query {A} (f : Db I → A) : SqlM A := stmt (λ d, Ok (f d, d)).
Definition exec {A} (f : Db I → A * Db I) : SqlM A := stmt (λ d, Ok (f d)).

(** [pool.begin()], the body, [tx.commit()]: dropping the transaction before the commit
    succeeds rolls it back. *)
Definition transaction {A} (m : SqlM A) : SqlM A := λ w,
  match (query (λ _, tt);; a ← m; query (λ _, tt);; mret a) w with
  | (Ok a, w') => (Ok a, w')
  | (Err e, (s, e')) => (Err e, (set_db (sql_db w.1) s, e'))
  end.

(** ** Rows affected and rows answered *)

(** The number of rows a [WHERE] selects. *)
Definition count_rows {K R} `{Countable K} (p : K → R → bool) (t : gmap K R) : Z :=
  Z.of_nat (size (filter (λ x, p x.1 x.2 = true) t)).
(** The table without the rows a [WHERE] selects. *)
Definition without {K R} `{Countable K} (p : K → R → bool) (t : gmap K R) : gmap K R :=
  filter (λ x, p x.1 x.2 = false) t.
(** The rows a [WHERE] selects. *)
Definition rows {K R} `{Countable K} (p : K → R → bool) (t : gmap K R) : list (K * R) :=
  map_to_list (filter (λ x, p x.1 x.2 = true) t).

(** [INSERT] under a primary key. *)
Definition insert_row {K R} `{Countable K} (k : K) (r : R) (t : gmap K R)
    : result (gmap K R) anyhow :=
  match t !! k with
  | Some _ => Err (Sqlx true)
  | None => Ok (<[k := r]> t)
  end.

(** ** Statements of both dialects *)

Definition sql_insert_mailbox (m : Mailbox) (d : Db I) : result (unit * Db I) anyhow :=
  match insert_row (mb_address m) m (t_mailboxes d) with
  | Ok t => Ok (tt, set_t_mailboxes t d)
  | Err e => Err e
  end.

(** [UPDATE mailboxes SET ... WHERE address = ?]. *)
Definition sql_update_mailbox (f : Mailbox → Mailbox) (address : str) (d : Db I) : Z * Db I :=
  (if bool_decide (is_Some (t_mailboxes d !! address)) then 1 else 0,
   set_t_mailboxes (alter f address (t_mailboxes d)) d).

(** [DELETE FROM messages WHERE ...], attachments included ([ON DELETE CASCADE]). *)
Definition sql_delete_messages (p : I → MessageRec → bool) (d : Db I) : Z * Db I :=
  let gone := filter (λ x, p x.1 x.2 = true) (t_messages d) in
  (count_rows p (t_messages d),
   set_t_attachments (without (λ _ a, bool_decide (is_Some (gone !! ar_message_id a))) (t_attachments d))
     (set_t_messages (without p (t_messages d)) d)).

(** [DELETE FROM mailboxes WHERE ...], with their messages, attachments and push
    subscriptions. *)
Definition sql_delete_mailboxes (p : str → Mailbox → bool) (d : Db I) : Z * Db I :=
  let gone := filter (λ x, p x.1 x.2 = true) (t_mailboxes d) in
  let orphan address := bool_decide (is_Some (gone !! address)) in
  let d1 := (sql_delete_messages (λ _ m, orphan (mr_mailbox_address m)) d).2 in
  (count_rows p (t_mailboxes d),
   set_t_mailboxes (without p (t_mailboxes d))
     (set_t_subscriptions (without (λ _ r, orphan (pr_mailbox_address r)) (t_subscriptions d1)) d1)).

(** [INSERT INTO messages]: the mailbox must exist. *)
Definition sql_insert_message (id : I) (r : MessageRec) (d : Db I) : result (unit * Db I) anyhow :=
  match insert_row id r (t_messages d) with
  | Err e => Err e
  | Ok t => if bool_decide (is_Some (t_mailboxes d !! mr_mailbox_address r))
            then Ok (tt, set_t_messages t d) else Err (Sqlx false)
  end.

(** [INSERT INTO attachments]: the message must exist. *)
Definition sql_insert_attachment (id : I) (r : AttachmentRec I) (d : Db I)
    : result (unit * Db I) anyhow :=
  match insert_row id r (t_attachments d) with
  | Err e => Err e
  | Ok t => if bool_decide (is_Some (t_messages d !! ar_message_id r))
            then Ok (tt, set_t_attachments t d) else Err (Sqlx false)
  end.

(** [(mailbox_address, endpoint)] of a subscription is unique. *)
Definition same_endpoint (address endpoint : str) (_ : I) (r : SubscriptionRec) : bool :=
  bool_decide (pr_mailbox_address r = address) && bool_decide (pr_endpoint r = endpoint).
Definition sql_insert_subscription (id : I) (r : SubscriptionRec) (d : Db I)
    : result (unit * Db I) anyhow :=
  match insert_row id r (t_subscriptions d) with
  | Err e => Err e
  | Ok t =>
      if bool_decide (0 < count_rows (same_endpoint (pr_mailbox_address r) (pr_endpoint r))
                            (t_subscriptions d))
      then Err (Sqlx true)
      else if bool_decide (is_Some (t_mailboxes d !! pr_mailbox_address r))
      then Ok (tt, set_t_subscriptions t d) else Err (Sqlx false)
  end.

(** ** The newest-first order and the quotas *)

(** [ORDER BY received_at DESC, id DESC]. *)
Definition newest_cmp (x y : I * MessageRec) : comparison :=
  ordering_then (mr_received_at y.2 ?= mr_received_at x.2) (cmp_id y.1 x.1).
Definition in_box (address : str) (_ : I) (r : MessageRec) : bool :=
  bool_decide (mr_mailbox_address r = address).
Definition newest_rows (address : str) (d : Db I) : list (I * MessageRec) :=
  sort_by newest_cmp (rows (in_box address) (t_messages d)).

(** [SUM(raw_size) OVER (ORDER BY received_at DESC, id DESC)], no two rows being peers. *)
Fixpoint running_sums (acc : Z) (l : list (I * MessageRec)) : list (I * Z) :=
  match l with
  | [] => []
  | (id, r) :: l => (id, acc + mr_raw_size r) :: running_sums (acc + mr_raw_size r) l
  end.

(** The message cap: [id NOT IN (SELECT id ... LIMIT ?)]. *)
Definition sql_cap_messages (address : str) (max : Z) (d : Db I) : Z * Db I :=
  let newest := map fst (take (Z.to_nat max) (newest_rows address d)) in
  sql_delete_messages (λ id r, in_box address id r && negb (bool_decide (id ∈ newest))) d.

(** The byte cap: the rows whose running total exceeds it, except the new one. *)
Definition sql_cap_bytes (address : str) (max : Z) (new_id : I) (d : Db I) : Z * Db I :=
  let over := map fst (retain (λ x, bool_decide (max < x.2) && negb (bool_decide (x.1 = new_id)))
                         (running_sums 0 (newest_rows address d))) in
  sql_delete_messages (λ id r, in_box address id r && bool_decide (id ∈ over)) d.

(** [(m.received_at, m.id) > (s.received_at, s.id)], a comparison of row values. *)
Definition row_after (x y : I * MessageRec) : bool :=
  match newest_cmp y x with Gt => true | _ => false end.

(** The listing: the rows of the mailbox newer than the cursor, newest first. *)
Definition cursor_row (address : str) (since : option I) (d : Db I) : option (I * MessageRec) :=
  match since with
  | None => None
  | Some id =>
      match t_messages d !! id with
      | Some r => if in_box address id r then Some (id, r) else None
      | None => None
      end
  end.
Definition sql_listing (address : str) (since : option I) (d : Db I) : list (I * MessageRec) :=
  match cursor_row address since d with
  | None => newest_rows address d
  | Some anchor => retain (λ x, row_after x anchor) (newest_rows address d)
  end.
Definition has_attachments (id : I) (d : Db I) : bool :=
  bool_decide (0 < count_rows (λ _ a, bool_decide (ar_message_id a = id)) (t_attachments d)).

(** [SELECT ... FROM messages WHERE mailbox_address = ? AND id = ?]. *)
Definition sql_message (address : str) (id : I) (d : Db I) : option MessageRec :=
  match t_messages d !! id with
  | Some r => if in_box address id r then Some r else None
  | None => None
  end.
(** [SELECT ... FROM attachments WHERE message_id = ? ORDER BY id]. *)
Definition sql_attachments (id : I) (d : Db I) : list (I * AttachmentRec I) :=
  sort_by (λ x y, cmp_id x.1 y.1)
    (rows (λ _ a, bool_decide (ar_message_id a = id)) (t_attachments d)).

(** ** The columns a query answers *)

Definition select_mailbox (m : Mailbox) : MailboxRow :=
  mkMailboxRow (mb_address m) (mb_domain m) (mb_created_at m) (mb_expires_at m)
    (mb_owner_token_hash m) (mb_creator_device_hash m).
Definition select_device (a : AttestedDevice) : AttestedDeviceRow :=
  mkAttestedDeviceRow (ad_key_id a) (ad_public_key a) (ad_counter a) (ad_created_at a)
    (ad_last_seen_at a).
Definition select_summary (d : Db I) (x : I * MessageRec) : SummaryRow I :=
  mkSummaryRow x.1 (mr_mail_from x.2) (mr_subject x.2) (mr_received_at x.2)
    (has_attachments x.1 d) (mr_seen x.2).
Definition select_message (id : I) (r : MessageRec) : MessageRow I :=
  mkMessageRow id (mr_mailbox_address r) (mr_mail_from r) (mr_subject r) (mr_message_date r)
    (mr_text_body r) (mr_html_body r) (mr_raw_size r) (mr_received_at r) (mr_seen r).
Definition select_attachment (x : I * AttachmentRec I) : AttachmentMetaRow I :=
  mkAttachmentMetaRow x.1 (ar_filename x.2) (ar_content_type x.2) (ar_size x.2).
Definition select_subscription (id : I) (r : SubscriptionRec) : PushSubscriptionRow I :=
  mkPushSubscriptionRow id (pr_mailbox_address r) (pr_kind r) (pr_endpoint r) (pr_p256dh r)
    (pr_auth r) (pr_created_at r).
Definition select_domain (domain : str) (r : DomainRec) : CustomDomainRow :=
  mkCustomDomainRow domain (cr_claim_token_hash r) (cr_txt_token r) (cr_status r)
    (cr_created_at r) (cr_verified_at r) (cr_last_checked_at r).

(** ** Methods with the same statements in both backends *)

(** *** Mailboxes *)

Definition db_create_mailbox (address domain : str) (expires_at : Time)
    (owner_token_hash creator_device_hash : option str) : SqlM Mailbox :=
  created_at ← utc_now;
  let mailbox := mkMailbox address domain created_at expires_at owner_token_hash creator_device_hash in
  stmt (sql_insert_mailbox mailbox);;
  mret mailbox.

Definition db_get_mailbox (address : str) : SqlM (option Mailbox) :=
  row ← query (λ d, select_mailbox <$> t_mailboxes d !! address);
  mret (Mailbox_from <$> row).

Definition db_mailbox_is_active (address : str) (now : Time) : SqlM bool :=
  query (λ d, match t_mailboxes d !! address with
              | Some m => bool_decide (now < mb_expires_at m)
              | None => false
              end).

Definition db_delete_mailbox (address : str) : SqlM bool :=
  n ← exec (sql_delete_mailboxes (λ a _, bool_decide (a = address)));
  mret (bool_decide (0 < n)).

Definition db_rotate_owner_token (address new_hash : str) : SqlM bool :=
  n ← exec (sql_update_mailbox (with_owner_hash (Some new_hash)) address);
  mret (bool_decide (0 < n)).

Definition db_purge_expired (now : Time) : SqlM Z :=
  exec (sql_delete_mailboxes (λ _ m, bool_decide (mb_expires_at m ≤ now))).

Definition db_count_active_mailboxes_by_device (creator_device_hash : str) (now : Time) : SqlM Z :=
  n ← query (λ d, count_rows (λ _ m, bool_decide (mb_creator_device_hash m = Some creator_device_hash)
                                     && bool_decide (now < mb_expires_at m)) (t_mailboxes d));
  mret (Z.max n 0).

(** *** Messages *)

(** The loop over the attachments of a new message; [key] is how an identifier is stored. *)
Definition attachment_row (message_id : I) (att : NewAttachment) : AttachmentRec I :=
  mkAttachmentRec message_id (na_filename att) (na_content_type att)
    (as_i32 (len (na_content att))) (na_content att).
Fixpoint db_insert_attachments (key : Uuid → I) (message_id : I) (l : list NewAttachment)
    : SqlM (list AttachmentMeta) :=
  match l with
  | [] => mret []
  | att :: l =>
      att_id ← new_v4;
      let size := as_i32 (len (na_content att)) in
      stmt (sql_insert_attachment (key att_id) (attachment_row message_id att));;
      rest ← db_insert_attachments key message_id l;
      mret (mkAttachmentMeta att_id (na_filename att) (na_content_type att) size :: rest)
  end.

(** The two clean-up statements of a save. *)
Definition db_caps (address : str) (id : I) : SqlM unit :=
  s ← get_st;
  let q := sql_quotas s in
  (if bool_decide (0 < max_messages q)
   then exec (sql_cap_messages address (as_i64 (max_messages q))) else mret 0);;
  (if bool_decide (0 < max_bytes q)
   then exec (sql_cap_bytes address (as_i64 (max_bytes q)) id) else mret 0);;
  mret tt.

(** The body of the transaction of [save_message], the identifier and the time of the
    new row being given. *)
Definition message_row (address : str) (m : NewMessage) (received_at : Time) : MessageRec :=
  mkMessageRec address (nm_mail_from m) (nm_subject m) (nm_message_date m)
    (nm_text_body m) (nm_html_body m) (nm_raw_size m) received_at false (nm_raw_content m).
Definition db_save (key : Uuid → I) (id : Uuid) (received_at : Time) (address : str) (m : NewMessage)
    : SqlM StoredMessage :=
  stmt (sql_insert_message (key id) (message_row address m received_at));;
  attachments ← db_insert_attachments key (key id) (nm_attachments m);
  db_caps address (key id);;
  mret {|
    sm_id := id;
    sm_mailbox_address := address;
    sm_mail_from := nm_mail_from m;
    sm_subject := nm_subject m;
    sm_message_date := nm_message_date m;
    sm_text_body := nm_text_body m;
    sm_html_body := nm_html_body m;
    sm_raw_size := nm_raw_size m;
    sm_received_at := received_at;
    sm_seen := false;
    sm_attachments := attachments |}.

Definition db_get_raw_message (address : str) (id : I) : SqlM (option bytes) :=
  row ← query (sql_message address id);
  mret (row ≫= mr_raw_content).

(** [attachments JOIN messages]. *)
Definition db_get_attachment (address : str) (message_id attachment_id : I)
    : SqlM (option Attachment) :=
  query (λ d,
    match t_attachments d !! attachment_id with
    | Some a =>
        if bool_decide (ar_message_id a = message_id)
           && bool_decide (is_Some (sql_message address (ar_message_id a) d))
        then Some (mkAttachment (ar_filename a) (ar_content_type a) (ar_content a)) else None
    | None => None
    end).

Definition is_key (address : str) (key id : I) (r : MessageRec) : bool :=
  in_box address id r && bool_decide (id = key).

Definition db_delete_message (address : str) (id : I) : SqlM bool :=
  n ← exec (sql_delete_messages (is_key address id));
  mret (bool_decide (0 < n)).

Definition with_seen (r : MessageRec) : MessageRec :=
  mkMessageRec (mr_mailbox_address r) (mr_mail_from r) (mr_subject r) (mr_message_date r)
    (mr_text_body r) (mr_html_body r) (mr_raw_size r) (mr_received_at r) true (mr_raw_content r).

Definition db_mark_seen (address : str) (id : I) : SqlM bool :=
  n ← exec (λ d,
    match sql_message address id d with
    | Some r => (1, set_t_messages (<[id := with_seen r]> (t_messages d)) d)
    | None => (0, d)
    end);
  mret (bool_decide (0 < n)).

Definition db_delete_all_messages (address : str) : SqlM Z :=
  exec (sql_delete_messages (in_box address)).

(** *** Push subscriptions, custom domains, attested devices *)

Definition db_delete_subscription (address endpoint : str) : SqlM bool :=
  n ← exec (λ d, (count_rows (same_endpoint address endpoint) (t_subscriptions d),
                  set_t_subscriptions (without (same_endpoint address endpoint) (t_subscriptions d)) d));
  mret (bool_decide (0 < n)).

Definition db_create_custom_domain (domain claim_token_hash txt_token : str) : SqlM CustomDomain :=
  created_at ← utc_now;
  stmt (λ d, match insert_row domain (mkDomainRec claim_token_hash txt_token (lit "pending")
                     created_at None None) (t_domains d) with
             | Ok t => Ok (tt, set_t_domains t d)
             | Err e => Err e
             end);;
  mret (mkCustomDomain domain Pending claim_token_hash txt_token created_at None None).

Definition db_get_custom_domain (domain : str) : SqlM (option CustomDomain) :=
  row ← query (λ d, select_domain domain <$> t_domains d !! domain);
  of_result (match row with
             | None => Ok None
             | Some r => match CustomDomain_try_from r with
                         | Ok c => Ok (Some c)
                         | Err e => Err e
                         end
             end).

Definition db_delete_custom_domain (domain : str) : SqlM bool :=
  n ← exec (λ d, (if bool_decide (is_Some (t_domains d !! domain)) then 1 else 0,
                  set_t_domains (delete domain (t_domains d)) d));
  mret (bool_decide (0 < n)).

Definition db_custom_domain_is_verified (domain : str) : SqlM bool :=
  query (λ d, match t_domains d !! domain with
              | Some r => bool_decide (cr_status r = lit "verified")
              | None => false
              end).

Definition db_record_custom_domain_check (domain : str) (status : CustomDomainStatus)
    (verified_at : option Time) (checked_at : Time) : SqlM bool :=
  n ← exec (λ d, (if bool_decide (is_Some (t_domains d !! domain)) then 1 else 0,
    set_t_domains (alter (λ r, mkDomainRec (cr_claim_token_hash r) (cr_txt_token r)
                                 (CustomDomainStatus_as_str status) (cr_created_at r)
                                 verified_at (Some checked_at)) domain (t_domains d)) d));
  mret (bool_decide (0 < n)).

Definition db_list_custom_domains_to_recheck (cutoff : Time) : SqlM (list CustomDomain) :=
  l ← query (λ d, map (λ x, select_domain x.1 x.2) (rows (λ _ r,
        (bool_decide (cr_status r = lit "verified") || bool_decide (cr_status r = lit "failed"))
        && match cr_last_checked_at r with None => true | Some t => bool_decide (t ≤ cutoff) end)
        (t_domains d)));
  of_result (collect (map CustomDomain_try_from l)).

Definition db_upsert_attested_device (key_id : str) (public_key : bytes) (now : Time)
    : SqlM AttestedDevice :=
  row ← exec (λ d,
    let row := match t_devices d !! key_id with
               | Some r => with_last_seen now r
               | None => mkAttestedDevice key_id public_key 0 now now
               end in
    (select_device row, set_t_devices (<[key_id := row]> (t_devices d)) d));
  mret (AttestedDevice_from row).

Definition db_get_attested_device (key_id : str) : SqlM (option AttestedDevice) :=
  row ← query (λ d, select_device <$> t_devices d !! key_id);
  mret (AttestedDevice_from <$> row).

Definition db_advance_attested_device_counter (key_id : str) (counter : Z) (seen_at : Time)
    : SqlM bool :=
  n ← exec (λ d,
    match t_devices d !! key_id with
    | Some r => if bool_decide (ad_counter r < counter)
                then (1, set_t_devices (<[key_id := with_counter counter seen_at r]> (t_devices d)) d)
                else (0, d)
    | None => (0, d)
    end);
  mret (bool_decide (0 < n)).

Definition db_prune_attested_devices (idle_before : Time) : SqlM Z :=
  exec (λ d, let p := λ (_ : str) r, bool_decide (ad_last_seen_at r < idle_before) in
             (count_rows p (t_devices d), set_t_devices (without p (t_devices d)) d)).

Definition db_ping : SqlM unit := query (λ _, tt).

End sql.
