(* ===== verification/SqlLaws.v ===== *)
(** * SqlLaws: lemmas about the relational model

    The abstract view of a database, and how statements and transactions act on it: the
    pieces from which each backend's refinement of the [Store] interface is assembled. *)

From S2P Require Import Prelude Str Model Config StoreSpec Rows Sql.

Section view.
Context {I : Type} `{Countable I}.

(** A domain as its row says; a status that does not parse reads as pending. *)
Definition domain_of_row (domain : str) (r : DomainRec) : CustomDomain :=
  mkCustomDomain domain
    (match CustomDomainStatus_from_str (cr_status r) with Ok s => s | Err _ => Pending end)
    (cr_claim_token_hash r) (cr_txt_token r) (cr_created_at r) (cr_verified_at r)
    (cr_last_checked_at r).
Definition domains_of (t : gmap str DomainRec) : gmap str CustomDomain :=
  map_imap (λ k r, Some (domain_of_row k r)) t.
Definition db_view (d : Db I) : AbsStore :=
  mkAbsStore (t_mailboxes d) (domains_of (t_domains d)) (t_devices d).
Definition sql_view (s : SqlStore I) : AbsStore := db_view (sql_db s).

Implicit Types s : SqlStore I.
Implicit Types d : Db I.

(** ** Counting rows *)

Lemma count_without {K R} `{Countable K} (p : K → R → bool) (t : gmap K R) :
  count_rows p t = Z.of_nat (size t) - Z.of_nat (size (without p t)).
Proof.
  unfold count_rows, without. induction t as [|k r t Hk IH] using map_ind; [done|].
  rewrite map_size_insert_None by done. destruct (p k r) eqn:Hp.
  - rewrite map_filter_insert_True, map_filter_insert_not' by (done || (cbn; congruence) || (intros; congruence)).
    rewrite map_size_insert_None by (by apply map_lookup_filter_None; left). lia.
  - rewrite (map_filter_insert_True (λ x, p x.1 x.2 = false)), map_filter_insert_not'
      by (done || (cbn; congruence) || (intros; congruence)).
    rewrite map_size_insert_None by (by apply map_lookup_filter_None; left). lia.
Qed.

Lemma count_pos {K R} `{Countable K} (p : K → R → bool) (t : gmap K R) :
  0 < count_rows p t ↔ ∃ k r, t !! k = Some r ∧ p k r = true.
Proof.
  unfold count_rows. split.
  - intros Hpos. destruct (map_choose (filter (λ x, p x.1 x.2 = true) t)) as (k & r & Hk).
    { intros Hempty. rewrite Hempty, map_size_empty in Hpos. lia. }
    apply map_lookup_filter_Some in Hk as [? ?]. eauto.
  - intros (k & r & Hk & Hp). assert (filter (λ x, p x.1 x.2 = true) t !! k = Some r) as Hf
      by (by apply map_lookup_filter_Some).
    destruct (size (filter _ t)) eqn:Hs; [|lia]. apply map_size_empty_inv in Hs. by rewrite Hs in Hf.
Qed.

Lemma elem_of_rows {K R} `{Countable K} (p : K → R → bool) (t : gmap K R) x :
  x ∈ rows p t ↔ t !! x.1 = Some x.2 ∧ p x.1 x.2 = true.
Proof. destruct x as [k r]. unfold rows. by rewrite elem_of_map_to_list, map_lookup_filter_Some. Qed.
Lemma rows_head {K R} `{Countable K} (p : K → R → bool) (t : gmap K R) k r :
  head (rows p t) = Some (k, r) → t !! k = Some r ∧ p k r = true.
Proof.
  intros Hh. apply (elem_of_rows p t (k, r)). destruct (rows p t); [done|]. injection Hh as ->. left.
Qed.

(** ** Statements *)

Lemma stmt_run {A} (f : Db I → result (A * Db I) anyhow) s e :
  stmt f (s, e) =
  if sql_faults s 0%nat then (Err (Sqlx false), (trip s, e))
  else match f (sql_db s) with
       | Ok (a, d) => (Ok a, (set_db d (trip s), e))
       | Err er => (Err er, (trip s, e))
       end.
Proof. unfold stmt. cbn. destruct (sql_faults s 0%nat); [done|]. by destruct (f (sql_db s)) as [[]|]. Qed.

Lemma stmt_ext {A} (f g : Db I → result (A * Db I) anyhow) w : (∀ d, f d = g d) → stmt f w = stmt g w.
Proof. intros Hfg. destruct w as [s e]. by rewrite !stmt_run, Hfg. Qed.
(** A statement whose answer is converted. *)
Lemma stmt_then {A B} (f : Db I → result (A * Db I) anyhow) (g : A → B) w :
  (x ← stmt f; mret (g x)) w
  = stmt (λ d, match f d with Ok (a, d') => Ok (g a, d') | Err e => Err e end) w.
Proof.
  destruct w as [s e]. unfold mbind, M_bind. rewrite !stmt_run.
  destruct (sql_faults s 0%nat); [done|]. by destruct (f (sql_db s)) as [[a d']|].
Qed.
Lemma query_then {A B} (f : Db I → A) (g : A → B) w : (x ← query f; mret (g x)) w = query (λ d, g (f d)) w.
Proof. unfold query. by rewrite stmt_then. Qed.
Lemma exec_then {A B} (f : Db I → A * Db I) (g : A → B) w :
  (x ← exec f; mret (g x)) w = exec (λ d, (g (f d).1, (f d).2)) w.
Proof. unfold exec. rewrite stmt_then. apply stmt_ext. intros d. by destruct (f d). Qed.

(** Reading a row into its struct and converting it loses nothing. *)
Lemma Mailbox_from_select m : Mailbox_from (select_mailbox m) = m.
Proof. by destruct m. Qed.
Lemma AttestedDevice_from_select a : AttestedDevice_from (select_device a) = a.
Proof. by destruct a. Qed.
Lemma select_mailbox_opt (o : option Mailbox) : Mailbox_from <$> (select_mailbox <$> o) = o.
Proof. destruct o; cbn; [by rewrite Mailbox_from_select|done]. Qed.

Lemma db_get_mailbox_query a w : db_get_mailbox a w = query (λ d, t_mailboxes d !! a) w.
Proof.
  unfold db_get_mailbox. rewrite query_then. apply stmt_ext. intros d. by rewrite select_mailbox_opt.
Qed.
Lemma db_get_device_query k w : db_get_attested_device k w = query (λ d, t_devices d !! k) w.
Proof.
  unfold db_get_attested_device. rewrite query_then. apply stmt_ext. intros d.
  destruct (t_devices d !! k); cbn; [by rewrite AttestedDevice_from_select|done].
Qed.
Lemma db_upsert_device_exec k pk now w :
  db_upsert_attested_device k pk now w
  = exec (λ d, let row := match t_devices d !! k with
                          | Some r => with_last_seen now r
                          | None => mkAttestedDevice k pk 0 now now
                          end in
               (row, set_t_devices (<[k := row]> (t_devices d)) d)) w.
Proof.
  unfold db_upsert_attested_device. rewrite exec_then. apply stmt_ext. intros d. cbn.
  by rewrite AttestedDevice_from_select.
Qed.

Lemma silent_bind {A B} (m : SM (SqlStore I) A) (k : A → SM (SqlStore I) B) :
  silent sql_view m → (∀ a, silent sql_view (k a)) → silent sql_view (m ≫= k).
Proof.
  intros Hm Hk s e. specialize (Hm s e). unfold mbind, M_bind.
  destruct (m (s, e)) as [[a|er] [s' e']]; cbn in *; [by rewrite (Hk a s' e')|done].
Qed.
Lemma silent_ret {A} (a : A) : silent sql_view (mret a).
Proof. done. Qed.
Lemma silent_throw {A} er : silent sql_view (throw er : SM (SqlStore I) A).
Proof. done. Qed.
Lemma silent_of_result {A} (r : result A anyhow) : silent sql_view (of_result r).
Proof. done. Qed.
Lemma silent_get : silent sql_view get_st.
Proof. done. Qed.
Lemma silent_now : silent sql_view utc_now.
Proof. done. Qed.
Lemma silent_uuid : silent sql_view new_v4.
Proof. done. Qed.
Lemma silent_stmt {A} (f : Db I → result (A * Db I) anyhow) :
  (∀ d a d', f d = Ok (a, d') → db_view d' = db_view d) → silent sql_view (stmt f).
Proof.
  intros Hf s e. rewrite stmt_run. destruct (sql_faults s 0%nat); [done|].
  destruct (f (sql_db s)) as [[a d']|er] eqn:Hr; [|done]. by apply Hf in Hr.
Qed.
Lemma silent_query {A} (f : Db I → A) : silent sql_view (query f).
Proof. apply silent_stmt. by intros d a d' [= _ <-]. Qed.
Lemma silent_exec {A} (f : Db I → A * Db I) :
  (∀ d, db_view (f d).2 = db_view d) → silent sql_view (exec f).
Proof. intros Hf. apply silent_stmt. intros d a d' [= Heq]. specialize (Hf d). by rewrite Heq in Hf. Qed.
Lemma silent_transaction {A} (m : SM (SqlStore I) A) : silent sql_view m → silent sql_view (transaction m).
Proof.
  intros Hm s e. unfold transaction. cbn [fst].
  assert (silent sql_view (query (λ _, tt);; a ← m; query (λ _, tt);; mret a)) as Hs.
  { apply silent_bind; [apply silent_query|]. intros []. apply silent_bind; [done|]. intros a.
    apply silent_bind; [apply silent_query|]. done. }
  specialize (Hs s e). by destruct ((query (λ _, tt);; a ← m; query (λ _, tt);; mret a) (s, e))
    as [[a|er] [s' e']].
Qed.
End view.

#[export] Hint Resolve silent_bind silent_ret silent_throw silent_of_result silent_get silent_now
  silent_uuid silent_query silent_transaction : rust.
#[export] Hint Extern 2 (silent _ (match ?x with _ => _ end)) => destruct x : rust.

Section laws.
Context {I : Type} `{Countable I} `{!IdOrder I}.

Lemma reads_query {A} (f : Db I → A) (g : AbsStore → A) :
  (∀ d, f d = g (db_view d)) → reads sql_view (query f) g.
Proof.
  intros Hf s e. unfold query. rewrite stmt_run. destruct (sql_faults s 0%nat); [done|].
  cbn. split_and!; try done. intros a [= <-]. apply Hf.
Qed.

(** A query whose answer is converted, which may fail. *)
Lemma reads_convert {A B} (f : Db I → A) (h : A → result B anyhow) (g : AbsStore → B) :
  (∀ d b, h (f d) = Ok b → b = g (db_view d)) →
  reads sql_view (x ← query f; of_result (h x)) g.
Proof.
  intros Hf s e. unfold query, mbind, M_bind. rewrite stmt_run.
  destruct (sql_faults s 0%nat); [done|]. cbn. split_and!; try done. intros b Hb. by apply Hf.
Qed.

Lemma updates_exec {A} (f : Db I → A * Db I) F G :
  (∀ d, (f d).1 = F (db_view d) ∧ db_view (f d).2 = G (db_view d)) →
  updates sql_view (exec f) F G.
Proof.
  intros Hf s e. unfold exec. rewrite stmt_run. destruct (sql_faults s 0%nat); [by left|].
  specialize (Hf (sql_db s)). by destruct (f (sql_db s)).
Qed.
Lemma updates_ext {A} (m m' : SM (SqlStore I) A) F G :
  (∀ w, m w = m' w) → updates sql_view m' F G → updates sql_view m F G.
Proof. intros Hm Hu s e. rewrite Hm. apply Hu. Qed.
Lemma updates_map {A B} (m : SM (SqlStore I) A) F G (h : A → B) F' :
  updates sql_view m F G → (∀ v, h (F v) = F' v) →
  updates sql_view (a ← m; mret (h a)) F' G.
Proof.
  intros Hu Hh s e. specialize (Hu s e). unfold mbind, M_bind.
  destruct (m (s, e)) as [[a|er] [s' e']]; [|done]. destruct Hu as [-> ?]. cbn. by rewrite Hh.
Qed.

(** ** Rows affected *)

Lemma affected (b : bool) : bool_decide (0 < if b then 1 else 0) = b.
Proof. by destruct b. Qed.
Lemma bool_decide_ltb a b : bool_decide (a < b) = (a <? b).
Proof. apply eq_true_iff_eq. by rewrite bool_decide_eq_true, Z.ltb_lt. Qed.

Lemma bool_decide_fmap {A B} (f : A → B) o :
  bool_decide (is_Some (f <$> o)) = bool_decide (is_Some o).
Proof. by destruct o. Qed.

Lemma count_key_pos {K R} `{Countable K} (k : K) (t : gmap K R) :
  0 < count_rows (λ k' _, bool_decide (k' = k)) t ↔ is_Some (t !! k).
Proof.
  rewrite count_pos. split.
  - intros (k' & r & Hk & ->%bool_decide_eq_true). by exists r.
  - intros [r Hr]. exists k, r. by rewrite bool_decide_true.
Qed.
Lemma without_key {K R} `{Countable K} (k : K) (t : gmap K R) :
  without (λ k' _, bool_decide (k' = k)) t = delete k t.
Proof.
  apply map_eq. intros k'. apply option_eq. intros r. unfold without.
  rewrite map_lookup_filter_Some, lookup_delete_Some. cbn. rewrite bool_decide_eq_false.
  naive_solver.
Qed.

(** ** Inserts *)

Lemma silent_insert_message id r : silent sql_view (stmt (I:=I) (sql_insert_message id r)).
Proof.
  apply silent_stmt. intros d a d'. unfold sql_insert_message. repeat case_match; by intros [= _ <-].
Qed.
Lemma silent_insert_attachment id r : silent sql_view (stmt (I:=I) (sql_insert_attachment id r)).
Proof.
  apply silent_stmt. intros d a d'. unfold sql_insert_attachment. repeat case_match; by intros [= _ <-].
Qed.
Lemma silent_insert_subscription id r : silent sql_view (stmt (I:=I) (sql_insert_subscription id r)).
Proof.
  apply silent_stmt. intros d a d'. unfold sql_insert_subscription. repeat case_match; by intros [= _ <-].
Qed.

(** ** Domains *)

Lemma domains_of_lookup t d : domains_of t !! d = domain_of_row d <$> t !! d.
Proof. unfold domains_of. rewrite map_lookup_imap. by destruct (t !! d). Qed.
Lemma domains_of_insert t d r : domains_of (<[d := r]> t) = <[d := domain_of_row d r]> (domains_of t).
Proof. unfold domains_of. by rewrite (map_imap_insert_Some _ _ _ _ _ eq_refl). Qed.
Lemma domains_of_delete t d : domains_of (delete d t) = delete d (domains_of t).
Proof.
  apply map_eq. intros k. rewrite domains_of_lookup, !lookup_delete, domains_of_lookup.
  by case_decide.
Qed.
Lemma domains_of_alter t d f g :
  (∀ r, domain_of_row d (f r) = g (domain_of_row d r)) →
  domains_of (alter f d t) = alter g d (domains_of t).
Proof.
  intros Hfg. apply map_eq. intros k. rewrite domains_of_lookup.
  destruct (decide (k = d)) as [->|Hk].
  - rewrite !lookup_alter_eq, domains_of_lookup. destruct (t !! d); cbn; by rewrite ?Hfg.
  - by rewrite !lookup_alter_ne, domains_of_lookup by done.
Qed.
Lemma status_verified d r : cr_status r = lit "verified" ↔ cd_status (domain_of_row d r) = Verified.
Proof.
  unfold domain_of_row. cbn. split; [by intros ->|].
  destruct (CustomDomainStatus_from_str (cr_status r)) as [st|] eqn:Hs; [|done].
  intros ->. by apply CustomDomainStatus_as_from in Hs.
Qed.
Lemma CustomDomain_try_from_row d r c : CustomDomain_try_from (select_domain d r) = Ok c → c = domain_of_row d r.
Proof.
  unfold CustomDomain_try_from, domain_of_row. cbn.
  destruct (CustomDomainStatus_from_str (cr_status r)); by intros [= <-].
Qed.

(** ** The methods both backends share *)

Implicit Types s : SqlStore I.
Implicit Types db : Db I.

Lemma db_create_mailbox_ok a d x h k s e :
  match db_create_mailbox a d x h k (s, e) with
  | (Ok mb, (s', _)) =>
      ab_mailboxes (sql_view s) !! a = None ∧
      (∃ t, mb = mkMailbox a d t x h k) ∧
      sql_view s' = set_mailboxes (insert a mb) (sql_view s)
  | (Err er, (s', _)) =>
      sql_view s' = sql_view s ∧
      (is_unique_violation er = true → is_Some (ab_mailboxes (sql_view s) !! a))
  end.
Proof.
  unfold db_create_mailbox, mbind, M_bind, utc_now. destruct (env_now e) as [t e'].
  rewrite stmt_run. destruct (sql_faults s 0%nat); [done|].
  unfold sql_insert_mailbox, insert_row. cbn.
  destruct (t_mailboxes (sql_db s) !! a) eqn:Ha; cbn; eauto.
Qed.

Lemma db_get_mailbox_ok a : reads (sql_view (I:=I)) (db_get_mailbox a) (λ v, ab_mailboxes v !! a).
Proof. intros s e. rewrite db_get_mailbox_query. by apply (reads_query _ (λ v, ab_mailboxes v !! a)). Qed.
Lemma db_mailbox_is_active_ok a now :
  reads (sql_view (I:=I)) (db_mailbox_is_active a now) (λ v, active v a now).
Proof.
  apply reads_query. intros d. unfold active. cbn.
  destruct (t_mailboxes d !! a); [apply bool_decide_ltb|done].
Qed.

Lemma db_delete_mailbox_ok a :
  updates (sql_view (I:=I)) (db_delete_mailbox a)
    (λ v, bool_decide (is_Some (ab_mailboxes v !! a))) (set_mailboxes (delete a)).
Proof.
  unfold db_delete_mailbox. eapply updates_map.
  - apply (updates_exec _ (λ v, count_rows (λ b _, bool_decide (b = a)) (ab_mailboxes v))).
    intros d. split; [done|]. unfold db_view, set_mailboxes. cbn. f_equal. apply without_key.
  - intros v. apply bool_decide_ext. apply count_key_pos.
Qed.

Lemma db_rotate_owner_token_ok a h :
  updates (sql_view (I:=I)) (db_rotate_owner_token a h)
    (λ v, bool_decide (is_Some (ab_mailboxes v !! a)))
    (set_mailboxes (alter (with_owner_hash (Some h)) a)).
Proof.
  unfold db_rotate_owner_token. eapply updates_map.
  - by apply (updates_exec _ (λ v, if bool_decide (is_Some (ab_mailboxes v !! a)) then 1 else 0)).
  - intros v. apply affected.
Qed.

Lemma db_purge_expired_ok now s e :
  match db_purge_expired now (s, e) with
  | (Ok n, (s', _)) =>
      sql_view s' = set_mailboxes (filter (λ p, now < mb_expires_at p.2)) (sql_view s) ∧
      n = Z.of_nat (size (ab_mailboxes (sql_view s))) - Z.of_nat (size (ab_mailboxes (sql_view s')))
  | (Err _, (s', _)) => sql_view s' = sql_view s
  end.
Proof.
  unfold db_purge_expired, exec. rewrite stmt_run. destruct (sql_faults s 0%nat); [done|]. cbn.
  split; [|apply count_without]. unfold sql_view, db_view, set_mailboxes. cbn. f_equal.
  apply map_filter_ext. intros k m _. cbn. rewrite bool_decide_eq_false. lia.
Qed.

Lemma db_count_active_ok h now :
  reads (sql_view (I:=I)) (db_count_active_mailboxes_by_device h now)
    (λ v, Z.of_nat (size (filter (λ p, mb_creator_device_hash p.2 = Some h ∧
                                        now < mb_expires_at p.2) (ab_mailboxes v)))).
Proof.
  apply (reads_convert _ (λ n, Ok (Z.max n 0))). intros d b [= <-]. unfold count_rows. cbn.
  rewrite Z.max_l by lia. do 2 f_equal. apply map_filter_ext. intros k m _. cbn.
  rewrite andb_true_iff, !bool_decide_eq_true. done.
Qed.

Lemma db_caps_silent a id : silent (sql_view (I:=I)) (db_caps a id).
Proof.
  unfold db_caps. apply silent_bind; [auto with rust|]. intros w.
  apply silent_bind; [|intros _; apply silent_bind; [|auto with rust]];
    case_match; auto with rust; by apply silent_exec.
Qed.
Lemma db_save_silent key id t a m : silent (sql_view (I:=I)) (db_save key id t a m).
Proof.
  unfold db_save. apply silent_bind; [apply silent_insert_message|]. intros _.
  apply silent_bind; [|intros l; apply silent_bind; [apply db_caps_silent|auto with rust]].
  generalize (nm_attachments m) as l. intros l. induction l as [|x l IH]; cbn; auto with rust.
  apply silent_bind; [auto with rust|]. intros u.
  apply silent_bind; [apply silent_insert_attachment|]. auto with rust.
Qed.

Lemma db_mark_seen_silent a i : silent (sql_view (I:=I)) (db_mark_seen a i).
Proof.
  unfold db_mark_seen. apply silent_bind; [|auto with rust].
  apply silent_exec. intros d. by destruct (sql_message _ _ d).
Qed.

Lemma db_create_custom_domain_ok d h t s e :
  match db_create_custom_domain d h t (s, e) with
  | (Ok cd, (s', _)) =>
      ab_domains (sql_view s) !! d = None ∧
      (∃ t', cd = mkCustomDomain d Pending h t t' None None) ∧
      sql_view s' = set_domains (insert d cd) (sql_view s)
  | (Err er, (s', _)) =>
      sql_view s' = sql_view s ∧
      (is_unique_violation er = true → is_Some (ab_domains (sql_view s) !! d))
  end.
Proof.
  unfold db_create_custom_domain, mbind, M_bind, utc_now. destruct (env_now e) as [u e'].
  rewrite stmt_run. destruct (sql_faults s 0%nat); [done|]. unfold insert_row. cbn.
  rewrite domains_of_lookup. destruct (t_domains (sql_db s) !! d) eqn:Hd; cbn; [by eauto|].
  split_and!; [done|by eauto|]. unfold sql_view, db_view, set_domains. cbn. f_equal.
  by rewrite domains_of_insert.
Qed.

Lemma db_get_custom_domain_ok d :
  reads (sql_view (I:=I)) (db_get_custom_domain d) (λ v, ab_domains v !! d).
Proof.
  unfold db_get_custom_domain. apply (reads_convert _ (λ row : option CustomDomainRow, match row with
    | None => Ok None
    | Some r => match CustomDomain_try_from r with Ok c => Ok (Some c) | Err e => Err e end
    end)).
  intros db b. cbn. rewrite domains_of_lookup. destruct (t_domains db !! d) as [r|]; cbn; [|by intros [= <-]].
  destruct (CustomDomain_try_from (select_domain d r)) eqn:Hr; intros [= <-].
  by rewrite (CustomDomain_try_from_row d r _ Hr).
Qed.

Lemma db_delete_custom_domain_ok d :
  updates (sql_view (I:=I)) (db_delete_custom_domain d)
    (λ v, bool_decide (is_Some (ab_domains v !! d))) (set_domains (delete d)).
Proof.
  unfold db_delete_custom_domain. eapply updates_map.
  - apply (updates_exec _ (λ v, if bool_decide (is_Some (ab_domains v !! d)) then 1 else 0)).
    intros db. cbn. rewrite domains_of_lookup, bool_decide_fmap. split; [done|].
    unfold db_view, set_domains. cbn. by rewrite domains_of_delete.
  - intros v. apply affected.
Qed.

Lemma db_custom_domain_is_verified_ok d :
  reads (sql_view (I:=I)) (db_custom_domain_is_verified d) (λ v, domain_verified v d).
Proof.
  apply reads_query. intros db. unfold domain_verified. cbn. rewrite domains_of_lookup.
  destruct (t_domains db !! d) as [r|]; [|done]. cbn. apply bool_decide_ext.
  apply (status_verified d).
Qed.

Lemma db_record_custom_domain_check_ok d st v t :
  updates (sql_view (I:=I)) (db_record_custom_domain_check d st v t)
    (λ v, bool_decide (is_Some (ab_domains v !! d))) (set_domains (alter (with_check st v t) d)).
Proof.
  unfold db_record_custom_domain_check. eapply updates_map.
  - apply (updates_exec _ (λ v, if bool_decide (is_Some (ab_domains v !! d)) then 1 else 0)).
    intros db. cbn. rewrite domains_of_lookup, bool_decide_fmap. split; [done|].
    unfold db_view, set_domains. cbn. f_equal. apply domains_of_alter. intros r.
    unfold domain_of_row, with_check. cbn. by rewrite CustomDomainStatus_from_as.
  - intros w. apply affected.
Qed.

Lemma db_advance_ok k n t :
  updates (sql_view (I:=I)) (db_advance_attested_device_counter k n t)
    (λ v, match ab_devices v !! k with Some d => ad_counter d <? n | None => false end)
    (λ v, match ab_devices v !! k with
          | Some d => if ad_counter d <? n
                      then set_devices (insert k (with_counter n t d)) v else v
          | None => v
          end).
Proof.
  unfold db_advance_attested_device_counter. eapply updates_map.
  - apply (updates_exec _ (λ v, if match ab_devices v !! k with Some d => ad_counter d <? n | None => false end
                                then 1 else 0)).
    intros db. cbn. destruct (t_devices db !! k) as [r|]; [|done].
    rewrite bool_decide_ltb. by destruct (ad_counter r <? n).
  - intros v. apply affected.
Qed.

Lemma db_prune_ok t :
  updates (sql_view (I:=I)) (db_prune_attested_devices t)
    (λ v, Z.of_nat (size (ab_devices v))
          - Z.of_nat (size (filter (λ p, t ≤ ad_last_seen_at p.2) (ab_devices v))))
    (set_devices (filter (λ p, t ≤ ad_last_seen_at p.2))).
Proof.
  apply updates_exec. intros d. cbn.
  assert (without (λ (_ : str) r, bool_decide (ad_last_seen_at r < t)) (t_devices d)
          = filter (λ p, t ≤ ad_last_seen_at p.2) (t_devices d)) as Hw.
  { apply map_filter_ext. intros k r _. cbn. rewrite bool_decide_eq_false. lia. }
  rewrite count_without, Hw. split; [done|]. unfold db_view, set_devices. cbn. by f_equal.
Qed.
Lemma db_upsert_attested_device_ok k pk now :
  updates (sql_view (I:=I)) (db_upsert_attested_device k pk now)
    (λ v, match ab_devices v !! k with
          | Some d => with_last_seen now d
          | None => mkAttestedDevice k pk 0 now now
          end)
    (λ v, set_devices (insert k
            match ab_devices v !! k with
            | Some d => with_last_seen now d
            | None => mkAttestedDevice k pk 0 now now
            end) v).
Proof.
  eapply updates_ext; [apply db_upsert_device_exec|]. by apply updates_exec.
Qed.
Lemma db_get_attested_device_ok k :
  reads (sql_view (I:=I)) (db_get_attested_device k) (λ v, ab_devices v !! k).
Proof. intros s e. rewrite db_get_device_query. by apply (reads_query _ (λ v, ab_devices v !! k)). Qed.

Lemma db_get_raw_message_silent a i : silent (sql_view (I:=I)) (db_get_raw_message a i).
Proof. apply silent_bind; auto with rust. Qed.
Lemma db_get_attachment_silent a i j : silent (sql_view (I:=I)) (db_get_attachment a i j).
Proof. apply silent_query. Qed.
Lemma db_delete_message_silent a i : silent (sql_view (I:=I)) (db_delete_message a i).
Proof. apply silent_bind; [by apply silent_exec|auto with rust]. Qed.
Lemma db_delete_all_messages_silent a : silent (sql_view (I:=I)) (db_delete_all_messages a).
Proof. by apply silent_exec. Qed.
Lemma db_delete_subscription_silent a ep : silent (sql_view (I:=I)) (db_delete_subscription a ep).
Proof. apply silent_bind; [by apply silent_exec|auto with rust]. Qed.
Lemma db_list_recheck_silent c : silent (sql_view (I:=I)) (db_list_custom_domains_to_recheck c).
Proof. apply silent_bind; auto with rust. Qed.
Lemma db_ping_silent : silent (sql_view (I:=I)) db_ping.
Proof. apply silent_query. Qed.
End laws.
