(* ===== verification/SqlInvariant.v ===== *)
(** * SqlInvariant: integrity of the database

    What every sequence of calls keeps true of the tables, whichever round trips fail:
    records filed under their own key, no dangling message, attachment or subscription,
    an endpoint registered once per mailbox, texts that parse back. *)

From S2P Require Import Prelude Str Model Config StoreSpec Sql SqlLaws.

Section invariant.
Context {I : Type} `{Countable I} `{!IdOrder I}.

(** Which stored identifiers can be read back. *)
Variable id_ok : I → Prop.

Record db_wf (d : Db I) : Prop := {
  dw_mailboxes a m : t_mailboxes d !! a = Some m → mb_address m = a;
  dw_messages i r : t_messages d !! i = Some r →
    id_ok i ∧ is_Some (t_mailboxes d !! mr_mailbox_address r);
  dw_attachments i r : t_attachments d !! i = Some r →
    id_ok i ∧ is_Some (t_messages d !! ar_message_id r);
  dw_subscriptions i r : t_subscriptions d !! i = Some r →
    id_ok i ∧ is_Some (t_mailboxes d !! pr_mailbox_address r) ∧
    is_Ok (SubscriptionKind_from_str (pr_kind r));
  dw_endpoints i j r r' : t_subscriptions d !! i = Some r → t_subscriptions d !! j = Some r' →
    pr_mailbox_address r = pr_mailbox_address r' → pr_endpoint r = pr_endpoint r' → i = j;
  dw_domains k r : t_domains d !! k = Some r → is_Ok (CustomDomainStatus_from_str (cr_status r));
  dw_devices k r : t_devices d !! k = Some r → ad_key_id r = k ∧ 0 ≤ ad_counter r;
}.

(** A store on which the invariant holds, with an environment that draws UUIDs. *)
Definition sql_wf (w : SqlStore I * Env) : Prop := db_wf (sql_db w.1) ∧ uuids w.2.

Implicit Types d : Db I.

Lemma db_wf_empty : db_wf (mkDb ∅ ∅ ∅ ∅ ∅ ∅).
Proof. split; cbn; intros *; by rewrite ?lookup_empty. Qed.

(** ** Statements keep it *)

Lemma wf_set_mailboxes d m :
  db_wf d → (∀ a mb, m !! a = Some mb → mb_address mb = a) →
  (∀ a, is_Some (t_mailboxes d !! a) → is_Some (m !! a)) → db_wf (set_t_mailboxes m d).
Proof.
  intros [H1 H2 H3 H4 H5 H6 H7] Hm Ha. split; cbn; auto.
  - intros i r [? ?]%H2. auto.
  - intros i r (? & ? & ?)%H4. auto.
Qed.

Lemma wf_alter_mailbox f a d :
  (∀ m, mb_address (f m) = mb_address m) → db_wf d → db_wf (sql_update_mailbox f a d).2.
Proof.
  intros Hf Hd. apply wf_set_mailboxes; [done|..].
  - intros b mb. rewrite lookup_alter_Some.
    intros [(<- & m & Hm & ->)|[_ Hb]]; [rewrite Hf|]; by eapply dw_mailboxes.
  - intros b Hb. destruct (decide (a = b)) as [->|Hne].
    + rewrite lookup_alter_eq. by apply fmap_is_Some.
    + by rewrite lookup_alter_ne.
Qed.

Lemma insert_row_inv {K R} `{Countable K} (k : K) (r : R) t t' :
  insert_row k r t = Ok t' → t !! k = None ∧ t' = <[k := r]> t.
Proof. unfold insert_row. destruct (t !! k); by intros [= <-]. Qed.

Lemma wf_insert_mailbox m d u d' :
  db_wf d → sql_insert_mailbox m d = Ok (u, d') → db_wf d'.
Proof.
  intros Hd. unfold sql_insert_mailbox.
  destruct (insert_row _ m _) as [t|] eqn:Ht; intros [= _ <-]. apply insert_row_inv in Ht as [_ ->].
  apply wf_set_mailboxes; [done|..].
  - intros a mb. rewrite lookup_insert_Some. intros [[<- <-]|[_ Ha]]; [done|by eapply dw_mailboxes].
  - intros a Ha. rewrite lookup_insert. by case_decide.
Qed.

Lemma wf_insert_message i r d u d' :
  db_wf d → id_ok i → sql_insert_message i r d = Ok (u, d') → db_wf d'.
Proof.
  intros Hd Hi. unfold sql_insert_message.
  destruct (insert_row i r _) as [t|] eqn:Ht; [|done]. apply insert_row_inv in Ht as [_ ->].
  case_bool_decide; intros [= _ <-]. destruct Hd as [H1 H2 H3 H4 H5 H6 H7]. split; cbn; auto.
  - intros j r'. rewrite lookup_insert_Some. intros [[<- <-]|[_ Hj]]; auto.
  - intros j r' [? ?]%H3. split; [done|]. rewrite lookup_insert. by case_decide.
Qed.

Lemma wf_insert_attachment i r d u d' :
  db_wf d → id_ok i → sql_insert_attachment i r d = Ok (u, d') → db_wf d'.
Proof.
  intros Hd Hi. unfold sql_insert_attachment.
  destruct (insert_row i r _) as [t|] eqn:Ht; [|done]. apply insert_row_inv in Ht as [_ ->].
  case_bool_decide; intros [= _ <-]. destruct Hd as [H1 H2 H3 H4 H5 H6 H7]. split; cbn; auto.
  intros j r'. rewrite lookup_insert_Some. intros [[<- <-]|[_ Hj]]; auto.
Qed.

Lemma same_endpoint_true a ep (i : I) r :
  same_endpoint a ep i r = true ↔ pr_mailbox_address r = a ∧ pr_endpoint r = ep.
Proof. unfold same_endpoint. by rewrite andb_true_iff, !bool_decide_eq_true. Qed.

Lemma wf_insert_subscription i r d u d' :
  db_wf d → id_ok i → is_Ok (SubscriptionKind_from_str (pr_kind r)) →
  sql_insert_subscription i r d = Ok (u, d') → db_wf d'.
Proof.
  intros Hd Hi Hk. unfold sql_insert_subscription.
  destruct (insert_row i r _) as [t|] eqn:Ht; [|done]. apply insert_row_inv in Ht as [Hn ->].
  case_bool_decide as Hc; [done|]. case_bool_decide; intros [= _ <-].
  assert (∀ j r', t_subscriptions d !! j = Some r' → pr_mailbox_address r = pr_mailbox_address r' →
    pr_endpoint r = pr_endpoint r' → False) as Hnew.
  { intros j r' Hj Ha Hep. apply Hc, count_pos. exists j, r'. by rewrite same_endpoint_true. }
  destruct Hd as [H1 H2 H3 H4 H5 H6 H7]. split; cbn; auto.
  - intros j r'. rewrite lookup_insert_Some. intros [[<- <-]|[_ Hj]]; auto.
  - intros j k r1 r2. rewrite !lookup_insert_Some.
    intros [[<- <-]|[_ Hj]] [[<- <-]|[_ Hk']] ??; try done; [exfalso; eauto|exfalso; eauto|eauto].
Qed.

(** Deleting messages keeps their attachments out of the table. *)
Lemma wf_delete_messages p d : db_wf d → db_wf (sql_delete_messages p d).2.
Proof.
  intros [H1 H2 H3 H4 H5 H6 H7]. split; cbn; auto; unfold without.
  - intros i r [Hi _]%map_lookup_filter_Some. auto.
  - intros i r [Hi Hg]%map_lookup_filter_Some. cbn in Hg. destruct (H3 i r Hi) as [? [x Hx]].
    split; [done|]. apply bool_decide_eq_false in Hg. exists x. apply map_lookup_filter_Some.
    split; [done|]. cbn. destruct (p (ar_message_id r) x) eqn:Hp; [|done].
    exfalso. apply Hg. exists x. by apply map_lookup_filter_Some.
Qed.

Lemma wf_delete_mailboxes p d : db_wf d → db_wf (sql_delete_mailboxes p d).2.
Proof.
  intros Hd. set (gone := filter (λ x, p x.1 x.2 = true) (t_mailboxes d)).
  assert (∀ a, is_Some (t_mailboxes d !! a) → gone !! a = None → is_Some (without p (t_mailboxes d) !! a))
    as Hkeep.
  { intros a [m Hm] Hg. exists m. apply map_lookup_filter_Some. split; [done|]. cbn.
    destruct (p a m) eqn:Hp; [|done]. exfalso. apply eq_None_not_Some in Hg. apply Hg. exists m.
    by apply map_lookup_filter_Some. }
  pose proof (wf_delete_messages (λ _ m, bool_decide (is_Some (gone !! mr_mailbox_address m))) d Hd)
    as [H1 H2 H3 H4 H5 H6 H7]. unfold without in *.
  split; cbn in *; auto.
  - intros a m [Ha _]%map_lookup_filter_Some. auto.
  - intros i r Hi. destruct (H2 i r Hi) as [? ?]. split; [done|]. apply Hkeep; [done|].
    apply map_lookup_filter_Some in Hi as [_ Hi%bool_decide_eq_false]. by apply eq_None_not_Some.
  - intros i r [Hi Hg%bool_decide_eq_false]%map_lookup_filter_Some. cbn in Hg.
    destruct (H4 i r Hi) as (? & ? & ?). split_and!; [done| |done]. apply Hkeep; [done|].
    by apply eq_None_not_Some.
  - intros i j r r' [Hi _]%map_lookup_filter_Some [Hj _]%map_lookup_filter_Some. eauto.
Qed.

Lemma wf_mark_seen i r d : db_wf d → t_messages d !! i = Some r →
  db_wf (set_t_messages (<[i := with_seen r]> (t_messages d)) d).
Proof.
  intros [H1 H2 H3 H4 H5 H6 H7] Hi. split; cbn; auto.
  - intros j r'. rewrite lookup_insert_Some. intros [[<- <-]|[_ Hj]]; [exact (H2 _ _ Hi)|eauto].
  - intros j r' [? ?]%H3. split; [done|]. rewrite lookup_insert. by case_decide.
Qed.

(** Replacing or removing subscriptions. *)
Lemma wf_update_subscription i r r' d :
  db_wf d → t_subscriptions d !! i = Some r → pr_mailbox_address r' = pr_mailbox_address r →
  pr_endpoint r' = pr_endpoint r → is_Ok (SubscriptionKind_from_str (pr_kind r')) →
  db_wf (set_t_subscriptions (<[i := r']> (t_subscriptions d)) d).
Proof.
  intros [H1 H2 H3 H4 H5 H6 H7] Hi Ha He Hk. split; cbn; auto.
  - intros j x. rewrite lookup_insert_Some. intros [[<- <-]|[_ Hj]]; [|by auto].
    destruct (H4 i r Hi) as (? & ? & ?). by rewrite Ha.
  - intros j k x y. rewrite !lookup_insert_Some.
    intros [[<- <-]|[_ Hj]] [[<- <-]|[_ Hk']] ??; try done; eapply H5; eauto; congruence.
Qed.
Lemma wf_alter_subscription f i d :
  db_wf d → (∀ r, pr_mailbox_address (f r) = pr_mailbox_address r ∧ pr_endpoint (f r) = pr_endpoint r ∧
                  is_Ok (SubscriptionKind_from_str (pr_kind (f r)))) →
  db_wf (set_t_subscriptions (alter f i (t_subscriptions d)) d).
Proof.
  intros Hd Hf. destruct (t_subscriptions d !! i) as [r|] eqn:Hi.
  - rewrite <-(insert_id _ _ _ Hi), alter_insert_eq. destruct (Hf r) as (? & ? & ?).
    by apply (wf_update_subscription i r).
  - replace (alter f i (t_subscriptions d)) with (t_subscriptions d); [by destruct d|].
    apply map_eq. intros j. destruct (decide (i = j)) as [<-|]; [|by rewrite lookup_alter_ne].
    by rewrite lookup_alter_eq, Hi.
Qed.
Lemma wf_delete_subscriptions p d :
  db_wf d → db_wf (set_t_subscriptions (without p (t_subscriptions d)) d).
Proof.
  intros [H1 H2 H3 H4 H5 H6 H7]. unfold without. split; cbn; auto.
  - intros i r [Hi _]%map_lookup_filter_Some. auto.
  - intros i j r r' [Hi _]%map_lookup_filter_Some [Hj _]%map_lookup_filter_Some. eauto.
Qed.

Lemma wf_set_domains d t :
  db_wf d → (∀ k r, t !! k = Some r → is_Ok (CustomDomainStatus_from_str (cr_status r))) →
  db_wf (set_t_domains t d).
Proof. intros [H1 H2 H3 H4 H5 H6 H7] Ht. by split. Qed.
Lemma wf_set_devices d t :
  db_wf d → (∀ k r, t !! k = Some r → ad_key_id r = k ∧ 0 ≤ ad_counter r) →
  db_wf (set_t_devices t d).
Proof. intros [H1 H2 H3 H4 H5 H6 H7] Ht. by split. Qed.

(** ** Methods keep it *)

Lemma keep_stmt {A} (f : Db I → result (A * Db I) anyhow) :
  (∀ d a d', db_wf d → f d = Ok (a, d') → db_wf d') → preserves sql_wf (stmt f).
Proof.
  intros Hf [s e] [Hd He]. rewrite stmt_run. destruct (sql_faults s 0%nat); [done|].
  destruct (f (sql_db s)) as [[a d']|] eqn:Hr; [|done]. split; [|done]. by apply (Hf _ _ _ Hd Hr).
Qed.
Lemma keep_exec {A} (f : Db I → A * Db I) :
  (∀ d, db_wf d → db_wf (f d).2) → preserves sql_wf (exec f).
Proof. intros Hf. apply keep_stmt. intros d a d' Hd [= Heq]. apply Hf in Hd. by rewrite Heq in Hd. Qed.
Lemma keep_query {A} (f : Db I → A) : preserves sql_wf (query f).
Proof. apply keep_stmt. by intros d a d' Hd [= _ <-]. Qed.
Lemma keep_of_result {A} (r : result A anyhow) : preserves sql_wf (of_result r).
Proof. by intros w. Qed.
Lemma keep_get : preserves sql_wf (get_st : SM (SqlStore I) _).
Proof. by intros w. Qed.
Lemma keep_now : preserves sql_wf (utc_now : SM (SqlStore I) _).
Proof. by intros [s e] [??]. Qed.

(** A drawn identifier is a UUID. *)
Lemma keep_uuid {A} (k : Uuid → SM (SqlStore I) A) :
  (∀ u, uuid_range u → preserves sql_wf (k u)) → preserves sql_wf (new_v4 ≫= k).
Proof.
  intros Hk [s e] [Hd He]. unfold mbind, M_bind, new_v4. cbn. apply Hk; [apply He|].
  split; [done|]. intros n. apply (He (S n)).
Qed.

Lemma keep_transaction {A} (m : SM (SqlStore I) A) :
  preserves sql_wf m → preserves sql_wf (transaction m).
Proof.
  intros Hm w Hw. unfold transaction.
  assert (preserves sql_wf (query (λ _, tt);; a ← m; query (λ _, tt);; mret a)) as Hp.
  { repeat (apply preserves_bind; [auto using keep_query|intros ?]); auto with rust. }
  specialize (Hp w Hw). destruct ((query (λ _, tt);; a ← m; query (λ _, tt);; mret a) w)
    as [[a|er] [s e]]; [done|]. destruct Hw, Hp. by split.
Qed.
End invariant.

#[export] Hint Resolve keep_query keep_of_result keep_get keep_now : rust.
#[export] Hint Extern 2 (preserves _ (match ?x with _ => _ end)) => destruct x : rust.

Section methods.
Context {I : Type} `{Countable I} `{!IdOrder I}.
Variable id_ok : I → Prop.
Variable key : Uuid → I.
Hypothesis key_ok : ∀ u, uuid_range u → id_ok (key u).

Abbreviation keeps m := (preserves (sql_wf id_ok) m).

Lemma keep_insert_attachments i l : keeps (db_insert_attachments key i l).
Proof.
  induction l as [|x l IH]; cbn; [auto with rust|]. apply keep_uuid. intros u Hu.
  apply preserves_bind; [|intros _; apply preserves_bind; auto with rust].
  apply keep_stmt. intros d a d' Hd. apply wf_insert_attachment; auto.
Qed.
Lemma keep_caps a i : keeps (db_caps a i).
Proof.
  unfold db_caps. apply preserves_bind; [auto with rust|]. intros s.
  repeat (apply preserves_bind; [|intros _]); auto with rust;
    case_match; auto with rust; apply keep_exec; intros d; apply wf_delete_messages.
Qed.
Lemma keep_save u t a m : uuid_range u → keeps (db_save key u t a m).
Proof.
  intros Hu. unfold db_save. apply preserves_bind; [|intros _].
  - apply keep_stmt. intros d x d' Hd. apply wf_insert_message; auto.
  - apply preserves_bind; [apply keep_insert_attachments|]. intros l.
    apply preserves_bind; [apply keep_caps|auto with rust].
Qed.

Lemma keep_create_mailbox a d x h k : keeps (db_create_mailbox a d x h k).
Proof.
  apply preserves_bind; [auto with rust|]. intros t. apply preserves_bind; [|auto with rust].
  apply keep_stmt. intros db u d' Hd. by apply wf_insert_mailbox.
Qed.
Lemma keep_get_mailbox a : keeps (db_get_mailbox a).
Proof. apply preserves_bind; auto with rust. Qed.
Lemma keep_update_mailbox f a : (∀ m, mb_address (f m) = mb_address m) → keeps (exec (sql_update_mailbox f a)).
Proof. intros Hf. apply keep_exec. intros d. by apply wf_alter_mailbox. Qed.
Lemma keep_delete_mailbox a : keeps (db_delete_mailbox a).
Proof. apply preserves_bind; [|auto with rust]. apply keep_exec. intros d. apply wf_delete_mailboxes. Qed.
Lemma keep_rotate a h : keeps (db_rotate_owner_token a h).
Proof. apply preserves_bind; [|auto with rust]. by apply keep_update_mailbox. Qed.
Lemma keep_purge t : keeps (db_purge_expired t).
Proof. apply keep_exec. intros d. apply wf_delete_mailboxes. Qed.
Lemma keep_delete_message a i : keeps (db_delete_message a i).
Proof. apply preserves_bind; [|auto with rust]. apply keep_exec. intros d. apply wf_delete_messages. Qed.
Lemma keep_delete_all a : keeps (db_delete_all_messages a).
Proof. apply keep_exec. intros d. apply wf_delete_messages. Qed.
Lemma sql_message_Some a (i : I) d r :
  sql_message a i d = Some r ↔ t_messages d !! i = Some r ∧ mr_mailbox_address r = a.
Proof.
  unfold sql_message, in_box. destruct (t_messages d !! i) as [x|]; [|naive_solver].
  case_bool_decide; naive_solver.
Qed.
Lemma keep_mark_seen a i : keeps (db_mark_seen a i).
Proof.
  apply preserves_bind; [|auto with rust]. apply keep_exec. intros d Hd.
  destruct (sql_message a i d) as [r|] eqn:Hr; [|done]. apply sql_message_Some in Hr as [Hr _].
  by apply wf_mark_seen.
Qed.
Lemma keep_delete_subscription a ep : keeps (db_delete_subscription a ep).
Proof. apply preserves_bind; [|auto with rust]. apply keep_exec. intros d. apply wf_delete_subscriptions. Qed.

Lemma keep_create_domain d h t : keeps (db_create_custom_domain d h t).
Proof.
  apply preserves_bind; [auto with rust|]. intros u. apply preserves_bind; [|auto with rust].
  apply keep_stmt. intros db x d' Hd. destruct (insert_row _ _ _) as [y|] eqn:Ht; intros [= _ <-].
  apply insert_row_inv in Ht as [_ ->]. apply wf_set_domains; [done|]. intros k r.
  rewrite lookup_insert_Some. intros [[<- <-]|[_ Hk]]; [done|by eapply dw_domains].
Qed.
Lemma keep_delete_domain d : keeps (db_delete_custom_domain d).
Proof.
  apply preserves_bind; [|auto with rust]. apply keep_exec. intros db Hd. apply wf_set_domains; [done|].
  intros k r [_ Hk]%lookup_delete_Some. by eapply dw_domains.
Qed.
Lemma keep_record_check d st v t : keeps (db_record_custom_domain_check d st v t).
Proof.
  apply preserves_bind; [|auto with rust]. apply keep_exec. intros db Hd. apply wf_set_domains; [done|].
  intros k r. rewrite lookup_alter_Some. intros [(<- & r' & Hr & ->)|[_ Hk]]; [|by eapply dw_domains].
  cbn. by rewrite CustomDomainStatus_from_as.
Qed.
Lemma keep_upsert_device k pk t : keeps (db_upsert_attested_device k pk t).
Proof.
  apply preserves_bind; [|auto with rust]. apply keep_exec. intros d Hd. apply wf_set_devices; [done|]. intros k' r.
  rewrite lookup_insert_Some. intros [[<- <-]|[_ Hk]]; [|by eapply dw_devices].
  destruct (t_devices d !! k) eqn:Hk; [|done]. by eapply (dw_devices _ _ Hd) in Hk.
Qed.
Lemma keep_advance k n t : keeps (db_advance_attested_device_counter k n t).
Proof.
  apply preserves_bind; [|auto with rust]. apply keep_exec. intros d Hd.
  destruct (t_devices d !! k) as [r|] eqn:Hk; [|done]. case_bool_decide; [|done].
  apply wf_set_devices; [done|]. intros k' r'. pose proof (dw_devices _ _ Hd _ _ Hk) as [??].
  rewrite lookup_insert_Some. intros [[<- <-]|[_ Hk']]; [cbn; split; [done|lia]|by eapply dw_devices].
Qed.
Lemma keep_prune t : keeps (db_prune_attested_devices t).
Proof.
  apply keep_exec. intros d Hd. apply wf_set_devices; [done|].
  intros k r [Hk _]%map_lookup_filter_Some. by eapply dw_devices.
Qed.
End methods.
