(* ===== verification/SqlMessages.v ===== *)
(** * SqlMessages: saving mail in the database

    What the transaction of [save_message] does to the tables: the new row and its
    attachments, then the two quota statements, described by one walk over the mailbox
    newest first. *)

From S2P Require Import Prelude Str Model Config StoreSpec Sql SqlLaws SqlInvariant.

Section newest.
Context {I : Type} `{Countable I} `{!IdOrder I}.
Implicit Types d : Db I.
Implicit Types x y z : I * MessageRec.

(** ** The newest-first order *)

Lemma newest_cmp_antisym x y : newest_cmp y x = CompOpp (newest_cmp x y).
Proof.
  unfold newest_cmp, ordering_then. rewrite (Z.compare_antisym (mr_received_at y.2)), (cmp_id_antisym y.1).
  by destruct (mr_received_at y.2 ?= mr_received_at x.2).
Qed.
Lemma newest_cmp_eq x y : newest_cmp x y = Eq ↔ mr_received_at y.2 = mr_received_at x.2 ∧ y.1 = x.1.
Proof.
  unfold newest_cmp, ordering_then. rewrite <-cmp_id_eq.
  destruct (Z.compare_spec (mr_received_at y.2) (mr_received_at x.2)); split; intros Hc; try done;
    [by destruct Hc|destruct Hc; lia..].
Qed.
Lemma newest_cmp_lt x y :
  newest_cmp x y = Lt ↔ mr_received_at y.2 < mr_received_at x.2 ∨
    mr_received_at y.2 = mr_received_at x.2 ∧ cmp_id y.1 x.1 = Lt.
Proof.
  unfold newest_cmp, ordering_then.
  destruct (Z.compare_spec (mr_received_at y.2) (mr_received_at x.2)); split; intros Hc; try done;
    [by right|destruct Hc as [?|[??]]; [lia|done]|by left|destruct Hc as [?|[??]]; lia].
Qed.
Lemma newest_cmp_trans x y z : newest_cmp x y = Lt → newest_cmp y z = Lt → newest_cmp x z = Lt.
Proof.
  rewrite !newest_cmp_lt. intros [?|[? ?]] [?|[? ?]]; [left; lia..|].
  right. split; [lia|]. by eapply cmp_id_trans.
Qed.
Lemma newest_cmp_total x y : newest_cmp x y = Gt → newest_cmp y x ≠ Gt.
Proof. intros Hxy. by rewrite (newest_cmp_antisym x y), Hxy. Qed.
Lemma newest_cmp_le_trans x y z : newest_cmp x y ≠ Gt → newest_cmp y z ≠ Gt → newest_cmp x z ≠ Gt.
Proof.
  intros Hxy Hyz. destruct (newest_cmp x y) eqn:H1; [|destruct (newest_cmp y z) eqn:H2|done].
  - apply newest_cmp_eq in H1 as [Ht Hi]. unfold newest_cmp in *. by rewrite <-Ht, <-Hi.
  - apply newest_cmp_eq in H2 as [Ht Hi]. unfold newest_cmp in *. by rewrite Ht, Hi, H1.
  - by rewrite (newest_cmp_trans x y z).
  - done.
Qed.

(** Two newest-first lists of rows with the same rows are the same list. *)
Abbreviation newest_sorted := (StronglySorted (λ x y, newest_cmp x y ≠ Gt)).

Lemma newest_unique (l k : list (I * MessageRec)) :
  NoDup (map fst l) → newest_sorted l → newest_sorted k → l ≡ₚ k → l = k.
Proof.
  intros Hnd Hl Hk Hp. apply (StronglySorted_unique_strong (λ x y, newest_cmp x y ≠ Gt)); [|done..].
  intros x y Hx Hy Hxy Hyx. rewrite <-Hp in Hy. apply (NoDup_map_inj fst l); [done..|].
  rewrite newest_cmp_antisym in Hyx. destruct (newest_cmp x y) eqn:Hc; try done.
  by apply newest_cmp_eq in Hc as [_ ?].
Qed.

Lemma rows_NoDup {K R} `{Countable K} (p : K → R → bool) (t : gmap K R) : NoDup (map fst (rows p t)).
Proof. unfold rows. apply NoDup_fst_map_to_list. Qed.
Lemma newest_rows_NoDup a d : NoDup (map fst (newest_rows a d)).
Proof. unfold newest_rows. rewrite sort_by_Permutation. apply rows_NoDup. Qed.
Lemma newest_rows_sorted a d : newest_sorted (newest_rows a d).
Proof. apply sort_by_StronglySorted; [apply newest_cmp_total|apply newest_cmp_le_trans]. Qed.
Lemma elem_of_newest a d x :
  x ∈ newest_rows a d ↔ t_messages d !! x.1 = Some x.2 ∧ mr_mailbox_address x.2 = a.
Proof.
  unfold newest_rows. rewrite sort_by_Permutation, elem_of_rows. unfold in_box.
  by rewrite bool_decide_eq_true.
Qed.

(** A listing in this order is determined by its rows. *)
Lemma newest_rows_eq a d l :
  newest_sorted l → NoDup (map fst l) →
  (∀ x, x ∈ l ↔ t_messages d !! x.1 = Some x.2 ∧ mr_mailbox_address x.2 = a) →
  newest_rows a d = l.
Proof.
  intros Hs Hn Hl. symmetry. apply newest_unique; [done|done|apply newest_rows_sorted|].
  apply NoDup_Permutation; [by apply (NoDup_fmap_1 fst)|apply (NoDup_fmap_1 fst), newest_rows_NoDup|].
  intros x. by rewrite Hl, elem_of_newest.
Qed.


(** [DELETE FROM messages WHERE p] drops the rows of the listing that satisfy [p]. *)
Lemma newest_delete p a d :
  newest_rows a (sql_delete_messages p d).2 = retain (λ x, negb (p x.1 x.2)) (newest_rows a d).
Proof.
  apply newest_rows_eq.
  - apply StronglySorted_retain, newest_rows_sorted.
  - apply map_retain_NoDup, newest_rows_NoDup.
  - intros x. rewrite elem_of_retain, elem_of_newest. cbn. unfold without.
    rewrite map_lookup_filter_Some, negb_true_iff. cbn. tauto.
Qed.

(** [INSERT INTO messages] inserts at the place the order gives. *)
Lemma newest_insert a i r d :
  t_messages d !! i = None → mr_mailbox_address r = a →
  newest_rows a (set_t_messages (<[i := r]> (t_messages d)) d) = insert_by newest_cmp (i, r) (newest_rows a d).
Proof.
  intros Hi Ha. apply newest_rows_eq.
  - apply insert_by_StronglySorted; [apply newest_cmp_total|apply newest_cmp_le_trans|apply newest_rows_sorted].
  - rewrite insert_by_Permutation. cbn. constructor; [|apply newest_rows_NoDup].
    intros (x & Hx & [Hin _]%elem_of_newest)%list_elem_of_fmap. congruence.
  - intros [j x]. rewrite insert_by_Permutation, elem_of_cons, elem_of_newest. cbn.
    rewrite lookup_insert_Some. naive_solver.
Qed.
Lemma newest_insert_other a b i r d :
  t_messages d !! i = None → mr_mailbox_address r = a → b ≠ a →
  newest_rows b (set_t_messages (<[i := r]> (t_messages d)) d) = newest_rows b d.
Proof.
  intros Hi Ha Hb. apply newest_rows_eq; [apply newest_rows_sorted|apply newest_rows_NoDup|].
  intros [j x]. rewrite elem_of_newest. cbn. rewrite lookup_insert_Some. naive_solver.
Qed.
End newest.

(** ** Quotas *)

Section quotas.
Context {I : Type} `{Countable I} `{!IdOrder I}.
Implicit Types d : Db I.

(** The byte cap as a walk newest first: a row stays while the running total, rows that
    do not stay included, is within the budget; the new one always stays. *)
Fixpoint within_budget (max acc : Z) (new : I) (l : list (I * MessageRec)) : list (I * MessageRec) :=
  match l with
  | [] => []
  | (i, r) :: l =>
      let acc := acc + mr_raw_size r in
      (if (acc <=? max) || bool_decide (i = new) then [(i, r)] else []) ++ within_budget max acc new l
  end.
Definition quota_keep (q : MailboxQuotas) (new : I) (l : list (I * MessageRec)) : list (I * MessageRec) :=
  let l := if bool_decide (0 < max_messages q) then take (Z.to_nat (max_messages q)) l else l in
  if bool_decide (0 < max_bytes q) then within_budget (max_bytes q) 0 new l else l.

Lemma newest_in_box a d x : x ∈ newest_rows a d → in_box a x.1 x.2 = true.
Proof. intros [_ Ha]%elem_of_newest. unfold in_box. by apply bool_decide_eq_true. Qed.

Lemma retain_take_keys {A B} `{EqDecision B} (f : A → B) p k (l : list A) :
  NoDup (map f l) → (∀ x, x ∈ l → p x = bool_decide (f x ∈ map f (take k l))) → retain p l = take k l.
Proof.
  intros Hnd Hp. rewrite <-(take_drop k l) at 1. rewrite retain_app, retain_true, retain_none, app_nil_r; [done|..].
  - intros x Hx. rewrite Hp by (rewrite <-(take_drop k l); apply elem_of_app; by right).
    apply bool_decide_eq_false. intros Hi. rewrite <-(take_drop k l), map_app in Hnd.
    apply NoDup_app in Hnd as (_ & Hnd & _). apply (Hnd _ Hi). apply list_elem_of_fmap. eauto.
  - intros x Hx. rewrite Hp by (rewrite <-(take_drop k l); apply elem_of_app; by left).
    apply bool_decide_eq_true, list_elem_of_fmap. eauto.
Qed.

Lemma cap_messages_newest a n d :
  newest_rows a (sql_cap_messages a n d).2 = take (Z.to_nat n) (newest_rows a d).
Proof.
  unfold sql_cap_messages. rewrite newest_delete. apply (retain_take_keys fst); [apply newest_rows_NoDup|].
  intros x Hx%newest_in_box. by rewrite Hx, negb_andb, negb_involutive.
Qed.

Abbreviation over max new acc l :=
  (map fst (retain (λ x : I * Z, bool_decide (max < x.2) && negb (bool_decide (x.1 = new)))
              (running_sums acc l))).
Lemma over_keys max new acc l i : i ∈ over max new acc l → i ∈ map fst l.
Proof.
  intros (x & -> & [Hx _]%elem_of_retain)%list_elem_of_fmap. revert acc Hx.
  induction l as [|[i r] l IH]; intros acc; cbn; [by intros ?%not_elem_of_nil|].
  rewrite !elem_of_cons. intros [->|Hx]; [by left|right; eauto].
Qed.

Lemma over_budget_rows max acc new (l : list (I * MessageRec)) :
  NoDup (map fst l) →
  retain (λ x, negb (bool_decide (x.1 ∈ over max new acc l))) l = within_budget max acc new l.
Proof.
  revert acc. induction l as [|[i r] l IH]; intros acc; [done|].
  intros [Hi Hl]%NoDup_cons. cbn. set (acc' := acc + mr_raw_size r). rewrite <-(IH acc' Hl).
  assert (i ∉ over max new acc' l) as Hno by (by intros Ho%over_keys).
  assert (∀ x, x ∈ l → x.1 ≠ i) as Hne.
  { intros x Hx Heq. apply Hi, list_elem_of_fmap. exists x. done. }
  assert ((acc' <=? max) || bool_decide (i = new)
          = negb (bool_decide (max < acc') && negb (bool_decide (i = new)))) as ->.
  { rewrite bool_decide_ltb. destruct (bool_decide (i = new)), (Z.leb_spec acc' max), (Z.ltb_spec max acc');
      (done || lia). }
  destruct (bool_decide (max < acc') && negb (bool_decide (i = new))); cbn.
  - rewrite bool_decide_true by left. cbn. apply retain_ext. intros x Hx. f_equal. apply bool_decide_ext.
    rewrite elem_of_cons. naive_solver.
  - by rewrite bool_decide_false.
Qed.

Lemma cap_bytes_newest a n i d :
  newest_rows a (sql_cap_bytes a n i d).2 = within_budget n 0 i (newest_rows a d).
Proof.
  unfold sql_cap_bytes. rewrite newest_delete, <-over_budget_rows by apply newest_rows_NoDup.
  apply retain_ext. intros x Hx%newest_in_box. by rewrite Hx.
Qed.

(** The statements touch no other mailbox. *)
Lemma delete_in_box_other a b q d :
  b ≠ a → newest_rows b (sql_delete_messages (λ i r, in_box a i r && q i r) d).2 = newest_rows b d.
Proof.
  intros Hb. rewrite newest_delete. apply retain_true. intros x [_ Hx]%elem_of_newest.
  unfold in_box. by rewrite bool_decide_false by congruence.
Qed.

(** ** What a deletion of messages leaves *)

Record pruned (d d' : Db I) : Prop := {
  pr_messages : t_messages d' ⊆ t_messages d;
  pr_attachments j r : t_attachments d' !! j = Some r ↔
    t_attachments d !! j = Some r ∧
    (is_Some (t_messages d !! ar_message_id r) → is_Some (t_messages d' !! ar_message_id r));
}.
Lemma pruned_refl d : pruned d d.
Proof. split; naive_solver. Qed.
Lemma pruned_trans d1 d2 d3 : pruned d1 d2 → pruned d2 d3 → pruned d1 d3.
Proof.
  intros [H1 H2] [H3 H4]. split; [by etrans|]. intros j r. rewrite H4, H2.
  assert (∀ i, is_Some (t_messages d2 !! i) → is_Some (t_messages d1 !! i)) as H5.
  { intros i [x Hx]. exists x. by eapply lookup_weaken. }
  assert (∀ i, is_Some (t_messages d3 !! i) → is_Some (t_messages d2 !! i)) as H6.
  { intros i [x Hx]. exists x. by eapply lookup_weaken. }
  naive_solver.
Qed.
Lemma pruned_delete p d : pruned d (sql_delete_messages p d).2.
Proof.
  split; cbn; unfold without; [apply map_filter_subseteq|]. intros j r.
  rewrite map_lookup_filter_Some. cbn. rewrite bool_decide_eq_false.
  split; intros [Hj Hg]; (split; [done|]).
  - intros [x Hx]. exists x. apply map_lookup_filter_Some. split; [done|]. cbn.
    destruct (p _ x) eqn:Hp; [|done]. exfalso. apply Hg. exists x. by apply map_lookup_filter_Some.
  - intros [x [Hx Hp]%map_lookup_filter_Some]. destruct Hg as [y [Hy Hp']%map_lookup_filter_Some]; [eauto|].
    cbn in *. congruence.
Qed.

(** ** Running statements *)

Lemma stmt_inv {A} (f : Db I → result (A * Db I) anyhow) s e a s' e' :
  stmt f (s, e) = (Ok a, (s', e')) →
  f (sql_db s) = Ok (a, sql_db s') ∧ sql_quotas s' = sql_quotas s ∧ e' = e.
Proof.
  rewrite stmt_run. destruct (sql_faults s 0%nat); [done|].
  destruct (f (sql_db s)) as [[x d]|]; [|done]. by intros [= -> <- <-].
Qed.
Lemma exec_inv {A} (f : Db I → A * Db I) s e a s' e' :
  exec f (s, e) = (Ok a, (s', e')) →
  f (sql_db s) = (a, sql_db s') ∧ sql_quotas s' = sql_quotas s ∧ e' = e.
Proof. intros (Hf & ? & ?)%stmt_inv. by injection Hf as ->. Qed.

(** A transaction commits what its body did, and leaves nothing when it fails. *)
Lemma transaction_inv {A} (m : SM (SqlStore I) A) s e a s' e' :
  transaction m (s, e) = (Ok a, (s', e')) →
  ∃ s1 s2, m (s1, e) = (Ok a, (s2, e')) ∧ sql_db s1 = sql_db s ∧ sql_quotas s1 = sql_quotas s ∧
           sql_db s' = sql_db s2 ∧ sql_quotas s' = sql_quotas s2.
Proof.
  unfold transaction. destruct ((query (λ _, tt);; a ← m; query (λ _, tt);; mret a) (s, e))
    as [[b|er] [s2 e2]] eqn:Hr; intros [= <- <- <-].
  apply bind_inv in Hr as ([] & [s1 e1] & (Hq1 & Hq2 & ->)%stmt_inv & Hr). injection Hq1 as Hq1.
  apply bind_inv in Hr as (x & [s3 e3] & Hm & Hr).
  apply bind_inv in Hr as ([] & [s4 e4] & (Hq3 & Hq4 & ->)%stmt_inv & Hr). injection Hq3 as Hq3.
  injection Hr as <- <- <-. exists s1, s3. rewrite <-Hq1, <-Hq3. done.
Qed.
Lemma transaction_err {A} (m : SM (SqlStore I) A) w er w' :
  transaction m w = (Err er, w') → sql_db w'.1 = sql_db w.1.
Proof.
  unfold transaction. destruct ((query (λ _, tt);; a ← m; query (λ _, tt);; mret a) w)
    as [[b|er'] [s2 e2]]; by intros [= <- <-].
Qed.

(** ** Inserting the attachments *)

Definition meta_for (meta : AttachmentMeta) (att : NewAttachment) : Prop :=
  am_filename meta = na_filename att ∧ am_content_type meta = na_content_type att ∧
  am_size meta = as_i32 (len (na_content att)).
Definition attachment_rows (key : Uuid → I) (i : I) (metas : list AttachmentMeta) (l : list NewAttachment)
    : list (I * AttachmentRec I) :=
  zip_with (λ meta att, (key (am_id meta), attachment_row i att)) metas l.

Lemma insert_attachment_inv j r d u d' :
  sql_insert_attachment j r d = Ok (u, d') →
  t_attachments d !! j = None ∧ d' = set_t_attachments (<[j := r]> (t_attachments d)) d.
Proof.
  unfold sql_insert_attachment. destruct (insert_row j r _) as [t|] eqn:Ht; [|done].
  apply insert_row_inv in Ht as [Hj ->]. case_bool_decide; by intros [= _ <-].
Qed.

Lemma insert_attachments_run key i l s e metas s' e' :
  db_insert_attachments key i l (s, e) = (Ok metas, (s', e')) →
  sql_quotas s' = sql_quotas s ∧ t_messages (sql_db s') = t_messages (sql_db s) ∧
  Forall2 meta_for metas l ∧
  NoDup (map fst (attachment_rows key i metas l)) ∧
  (∀ j r, t_attachments (sql_db s') !! j = Some r ↔
    t_attachments (sql_db s) !! j = Some r ∨ (j, r) ∈ attachment_rows key i metas l) ∧
  (∀ j, j ∈ map fst (attachment_rows key i metas l) → t_attachments (sql_db s) !! j = None) ∧
  (uuids e → Forall (λ m, uuid_range (am_id m)) metas).
Proof.
  revert s e metas. induction l as [|att l IH]; intros s e metas; cbn [db_insert_attachments].
  - intros [= <- <- <-]. split_and!; [done|done|constructor|constructor|..].
    + intros j r. cbn. rewrite elem_of_nil. tauto.
    + intros j Hj. by apply not_elem_of_nil in Hj.
    + constructor.
  - intros Hr. apply bind_inv in Hr as (u & [s0 e0] & Hu & Hr).
    unfold new_v4 in Hu. cbn in Hu. injection Hu as <- <- <-.
    apply bind_inv in Hr as ([] & [s1 e1] & (Hi & Hq & ->)%stmt_inv & Hr).
    apply insert_attachment_inv in Hi as [Hfresh Hdb].
    apply bind_inv in Hr as (rest & [s2 e2] & Hrest & Hr). injection Hr as <- <- <-.
    apply IH in Hrest as (IH1 & IH2 & IH3 & IH4 & IH5 & IH6 & IH7). rewrite Hdb in *. cbn in *.
    assert (key (e_uuid e 0%nat) ∉ map fst (attachment_rows key i rest l)) as Hnew.
    { intros Hin%IH6. by rewrite lookup_insert_eq in Hin. }
    split_and!; [congruence|done|by constructor|by constructor|..].
    + intros j r. rewrite IH5, elem_of_cons, lookup_insert_Some.
      split; [naive_solver|]. intros [Hj|[[= -> ->]|Hj]]; [|by auto..]. left. right.
      split; [congruence|done].
    + intros j [->|Hj%IH6]%elem_of_cons; [done|]. by apply lookup_insert_None in Hj as [? _].
    + intros He. constructor; [apply He|]. apply IH7. intros n. apply (He (S n)).
Qed.

(** ** The quota statements *)

(** Caps an [i64] can hold. *)
Definition caps_fit (q : MailboxQuotas) : Prop := max_messages q < 2 ^ 63 ∧ max_bytes q < 2 ^ 63.

(** What the messages of mailbox [a] become is [g] of what they were; the rest stays. *)
Definition trims (a : str) (g : list (I * MessageRec) → list (I * MessageRec)) (d d' : Db I) : Prop :=
  pruned d d' ∧ newest_rows a d' = g (newest_rows a d) ∧
  ∀ b, b ≠ a → newest_rows b d' = newest_rows b d.
Lemma trims_refl a d : trims a (λ l, l) d d.
Proof. split; [apply pruned_refl|done]. Qed.
Lemma trims_trans a f g d1 d2 d3 : trims a f d1 d2 → trims a g d2 d3 → trims a (λ l, g (f l)) d1 d3.
Proof.
  intros (P1 & N1 & O1) (P2 & N2 & O2). split; [by eapply pruned_trans|].
  split; [by rewrite N2, N1|]. intros b Hb. by rewrite O2, O1.
Qed.
Lemma trims_cap_messages a n d : trims a (take (Z.to_nat n)) d (sql_cap_messages a n d).2.
Proof.
  split; [apply pruned_delete|]. split; [apply cap_messages_newest|]. intros b Hb.
  by apply delete_in_box_other.
Qed.
Lemma trims_cap_bytes a n i d : trims a (within_budget n 0 i) d (sql_cap_bytes a n i d).2.
Proof.
  split; [apply pruned_delete|]. split; [apply cap_bytes_newest|]. intros b Hb.
  by apply (delete_in_box_other a b (λ id _, bool_decide (id ∈ _))).
Qed.

Lemma cap_step {A} (c : bool) (f : Db I → Z * Db I) (g : list (I * MessageRec) → list (I * MessageRec))
    a (k : Z → SM (SqlStore I) A) s e x w :
  ((if c then exec f else mret 0) ≫= k) (s, e) = (Ok x, w) → (∀ d, trims a g d (f d).2) →
  ∃ s1 n, k n (s1, e) = (Ok x, w) ∧ sql_quotas s1 = sql_quotas s ∧
          trims a (if c then g else λ l, l) (sql_db s) (sql_db s1).
Proof.
  intros Hr Hf. apply bind_inv in Hr as (n & [s1 e1] & Hn & Hr). exists s1, n. destruct c.
  - apply exec_inv in Hn as (Hd & Hq & ->). specialize (Hf (sql_db s)). by rewrite Hd in Hf.
  - injection Hn as <- <- <-. split; [done|]. split; [done|apply trims_refl].
Qed.

Lemma caps_run a i s e s' e' :
  db_caps a i (s, e) = (Ok tt, (s', e')) → caps_fit (sql_quotas s) →
  e' = e ∧ sql_quotas s' = sql_quotas s ∧ trims a (quota_keep (sql_quotas s) i) (sql_db s) (sql_db s').
Proof.
  intros Hr [H1 H2]. unfold db_caps in Hr. apply bind_inv in Hr as (s0 & w & Hg & Hr).
  injection Hg as <- <-. cbn zeta in Hr.
  eapply cap_step in Hr as (s1 & n1 & Hr & Q1 & T1); [|apply trims_cap_messages].
  eapply cap_step in Hr as (s2 & n2 & Hr & Q2 & T2); [|apply trims_cap_bytes].
  injection Hr as <- <-. split; [done|]. split; [congruence|].
  pose proof (trims_trans _ _ _ _ _ _ T1 T2) as T. unfold quota_keep.
  repeat case_bool_decide; rewrite ?as_i64_id in T by lia; exact T.
Qed.

(** ** The whole transaction *)

(** The mailbox after a save, newest first. *)
Definition saved_inbox (q : MailboxQuotas) (i : I) (r : MessageRec) (l : list (I * MessageRec))
    : list (I * MessageRec) := quota_keep q i (insert_by newest_cmp (i, r) l).

Lemma insert_message_inv i r d u d' :
  sql_insert_message i r d = Ok (u, d') →
  t_messages d !! i = None ∧ is_Some (t_mailboxes d !! mr_mailbox_address r) ∧
  d' = set_t_messages (<[i := r]> (t_messages d)) d.
Proof.
  unfold sql_insert_message. destruct (insert_row i r _) as [t|] eqn:Ht; [|done].
  apply insert_row_inv in Ht as [Hj ->]. case_bool_decide; by intros [= _ <-].
Qed.

(** Listings depend on the messages only. *)
Lemma newest_rows_messages a d d' : t_messages d' = t_messages d → newest_rows a d' = newest_rows a d.
Proof. unfold newest_rows. by intros ->. Qed.

Lemma save_run key u t a m s e st s' e' :
  db_save key u t a m (s, e) = (Ok st, (s', e')) → caps_fit (sql_quotas s) →
  st = mkStoredMessage u a (nm_mail_from m) (nm_subject m) (nm_message_date m) (nm_text_body m)
         (nm_html_body m) (nm_raw_size m) t false (sm_attachments st) ∧
  t_messages (sql_db s) !! key u = None ∧ is_Some (t_mailboxes (sql_db s) !! a) ∧
  newest_rows a (sql_db s') = saved_inbox (sql_quotas s) (key u) (message_row a m t) (newest_rows a (sql_db s)) ∧
  (∀ b, b ≠ a → newest_rows b (sql_db s') = newest_rows b (sql_db s)) ∧
  ∃ s1 e1 s2 e2, db_insert_attachments key (key u) (nm_attachments m) (s1, e1) = (Ok (sm_attachments st), (s2, e2)) ∧
    e1 = e ∧ t_attachments (sql_db s1) = t_attachments (sql_db s) ∧ pruned (sql_db s2) (sql_db s').
Proof.
  unfold db_save. intros Hr Hq. apply bind_inv in Hr as ([] & [s1 e1] & (Hi & Q1 & ->)%stmt_inv & Hr).
  apply insert_message_inv in Hi as (Hfresh & Hmb & Hdb).
  apply bind_inv in Hr as (atts & [s2 e2] & Ha & Hr).
  apply bind_inv in Hr as ([] & [s3 e3] & Hc & Hr). injection Hr as <- <- <-. cbn [sm_attachments].
  pose proof Ha as (Q2 & M2 & _)%insert_attachments_run.
  apply caps_run in Hc as (-> & Q3 & P3 & N3 & O3); [|by rewrite Q2, Q1].
  split_and!; [done..| | |].
  - rewrite N3, Q2, Q1, (newest_rows_messages a _ _ M2), Hdb, newest_insert by done. done.
  - intros b Hb. rewrite O3, (newest_rows_messages b _ _ M2), Hdb by done.
    by apply (newest_insert_other a).
  - exists s1, e, s2, e2. rewrite Hdb. done.
Qed.

Lemma save_answer key u t a m w st w' :
  db_save key u t a m w = (Ok st, w') → sm_id st = u ∧ sm_received_at st = t.
Proof.
  unfold db_save. intros Hr. apply bind_inv in Hr as (? & ? & _ & Hr).
  apply bind_inv in Hr as (? & ? & _ & Hr). apply bind_inv in Hr as (? & ? & _ & Hr).
  by injection Hr as <- _.
Qed.

(** The new message survives the quotas when it is the newest of its mailbox. *)
Lemma within_budget_new max acc i r (l : list (I * MessageRec)) :
  (i, r) ∈ l → (i, r) ∈ within_budget max acc i l.
Proof.
  revert acc. induction l as [|[j x] l IH]; intros acc; cbn; [by intros ?%not_elem_of_nil|].
  rewrite elem_of_cons, elem_of_app. intros [[= <- <-]|Hin]; [left|right; auto].
  rewrite bool_decide_true, orb_true_r by done. left.
Qed.
Lemma saved_inbox_new q i r l :
  Forall (λ x, newest_cmp (i, r) x = Lt) l → (i, r) ∈ saved_inbox q i r l.
Proof.
  intros Hl. unfold saved_inbox, quota_keep.
  assert (insert_by newest_cmp (i, r) l = (i, r) :: l) as ->.
  { destruct Hl as [|x l Hx]; [done|]. cbn. by rewrite Hx. }
  assert ((i, r) ∈ if bool_decide (0 < max_messages q)
                   then take (Z.to_nat (max_messages q)) ((i, r) :: l) else (i, r) :: l) as Hin.
  { case_bool_decide; [|left]. destruct (Z.to_nat (max_messages q)) eqn:Hn; [lia|]. left. }
  revert Hin. generalize (if bool_decide (0 < max_messages q)
    then take (Z.to_nat (max_messages q)) ((i, r) :: l) else (i, r) :: l) as k. intros k Hin.
  case_bool_decide; [by apply within_budget_new|done].
Qed.
Lemma within_budget_length max acc i (l : list (I * MessageRec)) :
  (length (within_budget max acc i l) ≤ length l)%nat.
Proof.
  revert acc. induction l as [|[j x] l IH]; intros acc; cbn; [done|]. rewrite length_app.
  specialize (IH (acc + mr_raw_size x)). case_match; cbn; lia.
Qed.
Lemma saved_inbox_length q i r l :
  0 < max_messages q → len (saved_inbox q i r l) ≤ max_messages q.
Proof.
  intros Hq. unfold saved_inbox, quota_keep. rewrite (bool_decide_true (0 < max_messages q)) by done.
  pose proof (length_take (insert_by newest_cmp (i, r) l) (Z.to_nat (max_messages q))).
  pose proof (within_budget_length (max_bytes q) 0 i (take (Z.to_nat (max_messages q)) (insert_by newest_cmp (i, r) l))).
  case_bool_decide; lia.
Qed.
End quotas.
