(* ===== verification/SqliteStore.v ===== *)
(** * SqliteStore: the SQLite backend ([src/store/sqlite.rs])

    Every method of the trait, statement by statement. Identifiers are stored as text;
    reading one back can fail. The name of a definition is that of the method with the
    prefix [lite_]. Opening the file, migrations and pragmas are not modelled. *)

From S2P Require Import Prelude Str Model Config StoreSpec Rows Sql.

#[export] Instance str_IdOrder : IdOrder str := {|
  cmp_id := cmp_str;
  cmp_id_eq := cmp_str_eq;
  cmp_id_antisym := cmp_str_antisym;
  cmp_id_trans := cmp_str_trans;
|}.

Abbreviation SqliteStore := (SqlStore str).

(** An empty database on a connection that fails as [faults] says. *)
Definition lite_new (faults : nat → bool) : SqliteStore :=
  mkSqlStore UNLIMITED (mkDb ∅ ∅ ∅ ∅ ∅ ∅) faults.
Definition lite_with_quotas (q : MailboxQuotas) (s : SqliteStore) : SqliteStore :=
  mkSqlStore q (sql_db s) (sql_faults s).

Definition sqlite_limit {A} (n : Z) (l : list A) : list A :=
  if bool_decide (n < 0) then l else take (Z.to_nat n) l.

Section sqlite.
Context `{UuidText}.

Abbreviation LiteM A := (SM SqliteStore A).

(** ** Mailboxes *)

Definition lite_create_mailbox (address domain : str) (expires_at : Time)
    (owner_token_hash creator_device_hash : option str) : LiteM Mailbox :=
  db_create_mailbox address domain expires_at owner_token_hash creator_device_hash.

Definition lite_get_mailbox (address : str) : LiteM (option Mailbox) :=
  db_get_mailbox address.

Definition lite_mailbox_is_active (address : str) (now : Time) : LiteM bool :=
  db_mailbox_is_active address now.

Definition lite_extend_mailbox (address : str) (new_expires_at : Time) : LiteM (option Mailbox) :=
  n ← exec (sql_update_mailbox (with_expiry new_expires_at) address);
  if bool_decide (n = 0) then mret None else lite_get_mailbox address.

Definition lite_delete_mailbox (address : str) : LiteM bool :=
  db_delete_mailbox address.

Definition lite_rotate_owner_token (address new_hash : str) : LiteM bool :=
  db_rotate_owner_token address new_hash.

Definition lite_purge_expired (now : Time) : LiteM Z :=
  db_purge_expired now.

Definition lite_count_active_mailboxes_by_device (creator_device_hash : str) (now : Time) : LiteM Z :=
  db_count_active_mailboxes_by_device creator_device_hash now.

(** ** Messages *)

Definition lite_save_message (address : str) (m : NewMessage) : LiteM StoredMessage :=
  transaction (
    id ← new_v4;
    received_at ← utc_now;
    db_save uuid_to_string id received_at address m).

Definition lite_list_messages (address : str) (limit : Z) (since : option Uuid)
    : LiteM (list MessageSummary) :=
  let limit := if bool_decide (limit = 0) then -1 else limit in
  rows ← query (λ d, map (select_summary d)
                       (sqlite_limit limit (sql_listing address (uuid_to_string <$> since) d)));
  of_result (collect (map lite_summary rows)).

Definition lite_get_message (address : str) (id : Uuid) : LiteM (option StoredMessage) :=
  let key := uuid_to_string id in
  row ← query (λ d, select_message key <$> sql_message address key d);
  match row with
  | None => mret None
  | Some row =>
      atts ← query (λ d, map select_attachment (sql_attachments key d));
      attachments ← of_result (collect (map lite_attachment_meta atts));
      id ← of_result (parse_uuid (mer_id row));
      mret (Some {|
        sm_id := id;
        sm_mailbox_address := mer_mailbox_address row;
        sm_mail_from := mer_mail_from row;
        sm_subject := mer_subject row;
        sm_message_date := mer_message_date row;
        sm_text_body := mer_text_body row;
        sm_html_body := mer_html_body row;
        sm_raw_size := mer_raw_size row;
        sm_received_at := mer_received_at row;
        sm_seen := mer_seen row;
        sm_attachments := attachments |})
  end.

Definition lite_get_raw_message (address : str) (id : Uuid) : LiteM (option bytes) :=
  db_get_raw_message address (uuid_to_string id).

Definition lite_get_attachment (address : str) (message_id attachment_id : Uuid)
    : LiteM (option Attachment) :=
  db_get_attachment address (uuid_to_string message_id) (uuid_to_string attachment_id).

Definition lite_delete_message (address : str) (id : Uuid) : LiteM bool :=
  db_delete_message address (uuid_to_string id).

Definition lite_mark_seen (address : str) (id : Uuid) : LiteM bool :=
  db_mark_seen address (uuid_to_string id).

Definition lite_delete_all_messages (address : str) : LiteM Z :=
  db_delete_all_messages address.

(** ** Push subscriptions *)

Definition lite_subscription_row (address : str) (kind : SubscriptionKind)
    (endpoint p256dh auth : str) (t : Time) : SubscriptionRec :=
  mkSubscriptionRec address (SubscriptionKind_as_str kind) endpoint p256dh auth t.

Definition lite_add_subscription (address : str) (kind : SubscriptionKind)
    (endpoint p256dh auth : str) (max_per_mailbox : Z) : LiteM PushSubscription :=
  r ← transaction (
    existing ← query (λ d, (λ x, select_subscription x.1 x.2)
                             <$> head (rows (same_endpoint address endpoint) (t_subscriptions d)));
    match existing with
    | Some row =>
        exec (λ d, (tt, set_t_subscriptions
          (alter (λ r, mkSubscriptionRec (pr_mailbox_address r) (SubscriptionKind_as_str kind)
                         (pr_endpoint r) p256dh auth (pr_created_at r)) (psr_id row) (t_subscriptions d)) d));;
        mret (inl row)
    | None =>
        (if bool_decide (0 < max_per_mailbox) then
           count ← query (λ d, count_rows (λ _ r, bool_decide (pr_mailbox_address r = address))
                                 (t_subscriptions d));
           if bool_decide (max_per_mailbox ≤ count) then throw (SubscriptionLimit max_per_mailbox)
           else mret tt
         else mret tt);;
        id ← new_v4;
        created_at ← utc_now;
        stmt (sql_insert_subscription (uuid_to_string id)
                (lite_subscription_row address kind endpoint p256dh auth created_at));;
        mret (inr (mkPushSubscription id address kind endpoint p256dh auth created_at))
    end);
  match r with
  | inl row =>
      sub ← of_result (PushSubscription_try_from row);
      mret (mkPushSubscription (ps_id sub) (ps_mailbox_address sub) kind (ps_endpoint sub)
              p256dh auth (ps_created_at sub))
  | inr sub => mret sub
  end.

Definition lite_list_subscriptions (address : str) : LiteM (list PushSubscription) :=
  rows ← query (λ d, map (λ x, select_subscription x.1 x.2)
    (sort_by (λ x y, pr_created_at x.2 ?= pr_created_at y.2)
       (rows (λ _ r, bool_decide (pr_mailbox_address r = address)) (t_subscriptions d))));
  of_result (collect (map PushSubscription_try_from rows)).

Definition lite_delete_subscription (address endpoint : str) : LiteM bool :=
  db_delete_subscription address endpoint.

(** ** Custom domains *)

Definition lite_create_custom_domain (domain claim_token_hash txt_token : str) : LiteM CustomDomain :=
  db_create_custom_domain domain claim_token_hash txt_token.

Definition lite_get_custom_domain (domain : str) : LiteM (option CustomDomain) :=
  db_get_custom_domain domain.

Definition lite_delete_custom_domain (domain : str) : LiteM bool :=
  db_delete_custom_domain domain.

Definition lite_custom_domain_is_verified (domain : str) : LiteM bool :=
  db_custom_domain_is_verified domain.

Definition lite_record_custom_domain_check (domain : str) (status : CustomDomainStatus)
    (verified_at : option Time) (checked_at : Time) : LiteM bool :=
  db_record_custom_domain_check domain status verified_at checked_at.

Definition lite_list_custom_domains_to_recheck (cutoff : Time) : LiteM (list CustomDomain) :=
  db_list_custom_domains_to_recheck cutoff.

(** ** Attested devices *)

Definition lite_upsert_attested_device (key_id : str) (public_key : bytes) (now : Time)
    : LiteM AttestedDevice :=
  db_upsert_attested_device key_id public_key now.

Definition lite_get_attested_device (key_id : str) : LiteM (option AttestedDevice) :=
  db_get_attested_device key_id.

Definition lite_advance_attested_device_counter (key_id : str) (counter : Z) (seen_at : Time)
    : LiteM bool :=
  db_advance_attested_device_counter key_id counter seen_at.

Definition lite_prune_attested_devices (idle_before : Time) : LiteM Z :=
  db_prune_attested_devices idle_before.

Definition lite_run_maintenance : LiteM unit := query (λ _, tt).
Definition lite_ping : LiteM unit :=
  db_ping.

#[export] Instance SqliteStore_Store : Store SqliteStore := {|
  create_mailbox := lite_create_mailbox;
  get_mailbox := lite_get_mailbox;
  mailbox_is_active := lite_mailbox_is_active;
  extend_mailbox := lite_extend_mailbox;
  delete_mailbox := lite_delete_mailbox;
  rotate_owner_token := lite_rotate_owner_token;
  save_message := lite_save_message;
  list_messages := lite_list_messages;
  get_message := lite_get_message;
  get_raw_message := lite_get_raw_message;
  get_attachment := lite_get_attachment;
  delete_message := lite_delete_message;
  mark_seen := lite_mark_seen;
  delete_all_messages := lite_delete_all_messages;
  purge_expired := lite_purge_expired;
  add_subscription := lite_add_subscription;
  list_subscriptions := lite_list_subscriptions;
  delete_subscription := lite_delete_subscription;
  create_custom_domain := lite_create_custom_domain;
  get_custom_domain := lite_get_custom_domain;
  delete_custom_domain := lite_delete_custom_domain;
  custom_domain_is_verified := lite_custom_domain_is_verified;
  record_custom_domain_check := lite_record_custom_domain_check;
  list_custom_domains_to_recheck := lite_list_custom_domains_to_recheck;
  upsert_attested_device := lite_upsert_attested_device;
  get_attested_device := lite_get_attested_device;
  advance_attested_device_counter := lite_advance_attested_device_counter;
  prune_attested_devices := lite_prune_attested_devices;
  count_active_mailboxes_by_device := lite_count_active_mailboxes_by_device;
  run_maintenance := lite_run_maintenance;
  ping := lite_ping;
|}.
End sqlite.
