(* ===== verification/PostgresStore.v ===== *)
(** * PostgresStore: the PostgreSQL backend ([src/store/postgres.rs])

    Every method of the trait, statement by statement; the name of a definition is that of
    the method with the prefix [pg_]. The engine generates identifiers and timestamps
    ([gen_random_uuid()], [now()], the start of the transaction) and answers them through
    [RETURNING]; here they come from the same environment as those the other backends
    generate. An identifier is its 128-bit value, ordered as the [UUID] type is. *)

From S2P Require Import Prelude Str Model Config StoreSpec Rows Sql.

Lemma Z_cmp_trans a b c : (a ?= b) = Lt → (b ?= c) = Lt → (a ?= c) = Lt.
Proof. rewrite !Z.compare_lt_iff. lia. Qed.
#[export] Instance Uuid_IdOrder : IdOrder Uuid := {|
  cmp_id := Z.compare;
  cmp_id_eq := Z.compare_eq_iff;
  cmp_id_antisym a b := Z.compare_antisym a b;
  cmp_id_trans := Z_cmp_trans;
|}.

Abbreviation PostgresStore := (SqlStore Uuid).
Abbreviation PgM A := (SM PostgresStore A).

Definition pg_new (faults : nat → bool) : PostgresStore :=
  mkSqlStore UNLIMITED (mkDb ∅ ∅ ∅ ∅ ∅ ∅) faults.
Definition pg_with_quotas (q : MailboxQuotas) (s : PostgresStore) : PostgresStore :=
  mkSqlStore q (sql_db s) (sql_faults s).

(** [LIMIT NULL] is no limit. *)
Definition pg_limit {A} (n : option Z) (l : list A) : list A :=
  match n with None => l | Some n => take (Z.to_nat n) l end.

(** ** Mailboxes *)

(** [created_at] is the column's default, [now()]; [RETURNING] answers the row. *)
Definition pg_create_mailbox (address domain : str) (expires_at : Time)
    (owner_token_hash creator_device_hash : option str) : PgM Mailbox :=
  created_at ← utc_now;
  let m := mkMailbox address domain created_at expires_at owner_token_hash creator_device_hash in
  row ← stmt (λ d, match sql_insert_mailbox m d with
                   | Ok (_, d') => Ok (select_mailbox m, d')
                   | Err e => Err e
                   end);
  mret (pg_Mailbox_from row).

Definition pg_get_mailbox (address : str) : PgM (option Mailbox) :=
  row ← query (λ d, select_mailbox <$> t_mailboxes d !! address);
  mret (pg_Mailbox_from <$> row).

Definition pg_mailbox_is_active (address : str) (now : Time) : PgM bool :=
  db_mailbox_is_active address now.

(** [UPDATE ... RETURNING]: the row as updated. *)
Definition pg_extend_mailbox (address : str) (new_expires_at : Time) : PgM (option Mailbox) :=
  row ← exec (λ d, let d' := (sql_update_mailbox (with_expiry new_expires_at) address d).2 in
                   (select_mailbox <$> t_mailboxes d' !! address, d'));
  mret (pg_Mailbox_from <$> row).

Definition pg_delete_mailbox (address : str) : PgM bool :=
  db_delete_mailbox address.

Definition pg_rotate_owner_token (address new_hash : str) : PgM bool :=
  db_rotate_owner_token address new_hash.

Definition pg_purge_expired (now : Time) : PgM Z :=
  db_purge_expired now.

Definition pg_count_active_mailboxes_by_device (creator_device_hash : str) (now : Time) : PgM Z :=
  db_count_active_mailboxes_by_device creator_device_hash now.

(** ** Messages *)

Definition pg_save_message (address : str) (m : NewMessage) : PgM StoredMessage :=
  transaction (
    received_at ← utc_now;
    id ← new_v4;
    db_save (λ id, id) id received_at address m).

Definition pg_list_messages (address : str) (limit : Z) (since : option Uuid)
    : PgM (list MessageSummary) :=
  let limit := if bool_decide (limit = 0) then None else Some limit in
  rows ← query (λ d, map (select_summary d) (pg_limit limit (sql_listing address since d)));
  mret (map pg_summary rows).

Definition pg_get_message (address : str) (id : Uuid) : PgM (option StoredMessage) :=
  row ← query (λ d, select_message id <$> sql_message address id d : option pg_MessageRow);
  match row with
  | None => mret None
  | Some row =>
      rows ← query (λ d, map select_attachment (sql_attachments id d));
      let attachments := map AttachmentMeta_from rows in
      mret (Some {|
        sm_id := mer_id row;
        sm_mailbox_address := mer_mailbox_address row;
        sm_mail_from := mer_mail_from row;
        sm_subject := mer_subject row;
        sm_message_date := mer_message_date row;
        sm_text_body := mer_text_body row;
        sm_html_body := mer_html_body row;
        sm_raw_size := mer_raw_size row;
        sm_received_at := mer_received_at row;
        sm_seen := mer_seen row;
        sm_attachments := attachments |})
  end.

Definition pg_get_raw_message (address : str) (id : Uuid) : PgM (option bytes) :=
  db_get_raw_message address id.

Definition pg_get_attachment (address : str) (message_id attachment_id : Uuid)
    : PgM (option Attachment) :=
  db_get_attachment address message_id attachment_id.

Definition pg_delete_message (address : str) (id : Uuid) : PgM bool :=
  db_delete_message address id.

Definition pg_mark_seen (address : str) (id : Uuid) : PgM bool :=
  db_mark_seen address id.

Definition pg_delete_all_messages (address : str) : PgM Z :=
  db_delete_all_messages address.

(** ** Push subscriptions *)

(** [INSERT ... ON CONFLICT (mailbox_address, endpoint) DO UPDATE ... RETURNING]. *)
Definition pg_upsert_subscription (id : Uuid) (r : SubscriptionRec) (d : Db Uuid)
    : result (pg_PushSubscriptionRow * Db Uuid) anyhow :=
  match head (rows (same_endpoint (pr_mailbox_address r) (pr_endpoint r)) (t_subscriptions d)) with
  | Some (old_id, old) =>
      let row := mkSubscriptionRec (pr_mailbox_address old) (pr_kind r) (pr_endpoint old)
                   (pr_p256dh r) (pr_auth r) (pr_created_at old) in
      Ok (select_subscription old_id row, set_t_subscriptions (<[old_id := row]> (t_subscriptions d)) d)
  | None =>
      match sql_insert_subscription id r d with
      | Ok (_, d') => Ok (select_subscription id r, d')
      | Err e => Err e
      end
  end.

Definition pg_add_subscription (address : str) (kind : SubscriptionKind)
    (endpoint p256dh auth : str) (max_per_mailbox : Z) : PgM PushSubscription :=
  row ← transaction (
    created_at ← utc_now;
    (if bool_decide (0 < max_per_mailbox) then
       count ← query (λ d, count_rows (λ _ r, bool_decide (pr_mailbox_address r = address)
                                              && negb (bool_decide (pr_endpoint r = endpoint)))
                             (t_subscriptions d));
       if bool_decide (max_per_mailbox ≤ count) then throw (SubscriptionLimit max_per_mailbox)
       else mret tt
     else mret tt);;
    id ← new_v4;
    stmt (pg_upsert_subscription id
            (mkSubscriptionRec address (SubscriptionKind_as_str kind) endpoint p256dh auth
               created_at)));
  of_result (pg_PushSubscription_try_from row).

Definition pg_list_subscriptions (address : str) : PgM (list PushSubscription) :=
  rows ← query (λ d, map (λ x, select_subscription x.1 x.2)
    (sort_by (λ x y, pr_created_at x.2 ?= pr_created_at y.2)
       (rows (λ _ r, bool_decide (pr_mailbox_address r = address)) (t_subscriptions d))));
  of_result (collect (map pg_PushSubscription_try_from rows)).

Definition pg_delete_subscription (address endpoint : str) : PgM bool :=
  db_delete_subscription address endpoint.

(** ** Custom domains *)

Definition pg_create_custom_domain (domain claim_token_hash txt_token : str) : PgM CustomDomain :=
  db_create_custom_domain domain claim_token_hash txt_token.

Definition pg_get_custom_domain (domain : str) : PgM (option CustomDomain) :=
  row ← query (λ d, select_domain domain <$> t_domains d !! domain);
  of_result (match row with
             | None => Ok None
             | Some r => match pg_CustomDomain_try_from r with
                         | Ok c => Ok (Some c)
                         | Err e => Err e
                         end
             end).

Definition pg_delete_custom_domain (domain : str) : PgM bool :=
  db_delete_custom_domain domain.

Definition pg_custom_domain_is_verified (domain : str) : PgM bool :=
  db_custom_domain_is_verified domain.

Definition pg_record_custom_domain_check (domain : str) (status : CustomDomainStatus)
    (verified_at : option Time) (checked_at : Time) : PgM bool :=
  db_record_custom_domain_check domain status verified_at checked_at.

Definition pg_list_custom_domains_to_recheck (cutoff : Time) : PgM (list CustomDomain) :=
  rows ← query (λ d, map (λ x, select_domain x.1 x.2) (rows (λ _ r,
           (bool_decide (cr_status r = lit "verified") || bool_decide (cr_status r = lit "failed"))
           && match cr_last_checked_at r with None => true | Some t => bool_decide (t ≤ cutoff) end)
           (t_domains d)));
  of_result (collect (map pg_CustomDomain_try_from rows)).

(** ** Attested devices *)

Definition pg_upsert_attested_device (key_id : str) (public_key : bytes) (now : Time)
    : PgM AttestedDevice :=
  row ← exec (λ d,
    let row := match t_devices d !! key_id with
               | Some r => with_last_seen now r
               | None => mkAttestedDevice key_id public_key 0 now now
               end in
    (select_device row, set_t_devices (<[key_id := row]> (t_devices d)) d));
  mret (pg_AttestedDevice_from row).

Definition pg_get_attested_device (key_id : str) : PgM (option AttestedDevice) :=
  row ← query (λ d, select_device <$> t_devices d !! key_id);
  mret (pg_AttestedDevice_from <$> row).

Definition pg_advance_attested_device_counter (key_id : str) (counter : Z) (seen_at : Time)
    : PgM bool :=
  db_advance_attested_device_counter key_id counter seen_at.

Definition pg_prune_attested_devices (idle_before : Time) : PgM Z :=
  db_prune_attested_devices idle_before.

Definition pg_ping : PgM unit := db_ping.

(** [run_maintenance] is the default method of the trait: it does nothing. *)
#[export] Instance PostgresStore_Store : Store PostgresStore := {|
  create_mailbox := pg_create_mailbox;
  get_mailbox := pg_get_mailbox;
  mailbox_is_active := pg_mailbox_is_active;
  extend_mailbox := pg_extend_mailbox;
  delete_mailbox := pg_delete_mailbox;
  rotate_owner_token := pg_rotate_owner_token;
  save_message := pg_save_message;
  list_messages := pg_list_messages;
  get_message := pg_get_message;
  get_raw_message := pg_get_raw_message;
  get_attachment := pg_get_attachment;
  delete_message := pg_delete_message;
  mark_seen := pg_mark_seen;
  delete_all_messages := pg_delete_all_messages;
  purge_expired := pg_purge_expired;
  add_subscription := pg_add_subscription;
  list_subscriptions := pg_list_subscriptions;
  delete_subscription := pg_delete_subscription;
  create_custom_domain := pg_create_custom_domain;
  get_custom_domain := pg_get_custom_domain;
  delete_custom_domain := pg_delete_custom_domain;
  custom_domain_is_verified := pg_custom_domain_is_verified;
  record_custom_domain_check := pg_record_custom_domain_check;
  list_custom_domains_to_recheck := pg_list_custom_domains_to_recheck;
  upsert_attested_device := pg_upsert_attested_device;
  get_attested_device := pg_get_attested_device;
  advance_attested_device_counter := pg_advance_attested_device_counter;
  prune_attested_devices := pg_prune_attested_devices;
  count_active_mailboxes_by_device := pg_count_active_mailboxes_by_device;
  run_maintenance := mret tt;
  ping := pg_ping;
|}.
