(* ===== verification/SqliteLaws.v ===== *)
(** * SqliteLaws: the SQLite backend implements the [Store] interface

    The refinement of [StoreLaws] by the relational model of [SqliteStore]. *)

From S2P Require Import Prelude Str Model Config StoreSpec Rows Sql SqlLaws SqliteStore.

Section refinement.
Context `{UuidText}.

Implicit Types s : SqliteStore.

Lemma lite_extend_mailbox_ok a t :
  updates sql_view (lite_extend_mailbox a t)
    (λ v, with_expiry t <$> ab_mailboxes v !! a) (set_mailboxes (alter (with_expiry t) a)).
Proof.
  intros s e. unfold lite_extend_mailbox, exec, mbind, M_bind. rewrite stmt_run.
  destruct (sql_faults s 0%nat); [by left|]. cbn.
  destruct (t_mailboxes (sql_db s) !! a) as [mb|] eqn:Ha; cbn.
  - rewrite bool_decide_false by done. unfold lite_get_mailbox. rewrite db_get_mailbox_query. unfold query. rewrite stmt_run. cbn.
    destruct (shift _ 0%nat); [by right|]. cbn. by rewrite lookup_alter_eq, Ha.
  - done.
Qed.

Lemma lite_add_subscription_silent a k ep p au n :
  silent sql_view (lite_add_subscription a k ep p au n).
Proof.
  unfold lite_add_subscription. apply silent_bind; [|intros [|]; auto with rust].
  apply silent_transaction, silent_bind; [auto with rust|]. intros [row|].
  - apply silent_bind; [by apply silent_exec|]. auto with rust.
  - apply silent_bind; [case_match; auto with rust|]. intros _.
    apply silent_bind; [auto with rust|]. intros id. apply silent_bind; [auto with rust|]. intros t.
    apply silent_bind; [apply silent_insert_subscription|]. auto with rust.
Qed.

#[export, refine] Instance SqliteStore_Laws : StoreLaws SqliteStore := {|
  view := sql_view;
  law_create_mailbox := db_create_mailbox_ok;
  law_get_mailbox := db_get_mailbox_ok;
  law_mailbox_is_active := db_mailbox_is_active_ok;
  law_extend_mailbox := lite_extend_mailbox_ok;
  law_delete_mailbox := db_delete_mailbox_ok;
  law_rotate_owner_token := db_rotate_owner_token_ok;
  law_get_raw_message a i := db_get_raw_message_silent a _;
  law_get_attachment a i j := db_get_attachment_silent a _ _;
  law_delete_message a i := db_delete_message_silent a _;
  law_mark_seen a i := db_mark_seen_silent a _;
  law_delete_all_messages := db_delete_all_messages_silent;
  law_purge_expired now s e _ := db_purge_expired_ok now s e;
  law_add_subscription := lite_add_subscription_silent;
  law_delete_subscription := db_delete_subscription_silent;
  law_create_custom_domain := db_create_custom_domain_ok;
  law_get_custom_domain := db_get_custom_domain_ok;
  law_delete_custom_domain := db_delete_custom_domain_ok;
  law_custom_domain_is_verified := db_custom_domain_is_verified_ok;
  law_record_custom_domain_check := db_record_custom_domain_check_ok;
  law_list_custom_domains_to_recheck := db_list_recheck_silent;
  law_upsert_attested_device := db_upsert_attested_device_ok;
  law_get_attested_device := db_get_attested_device_ok;
  law_advance := db_advance_ok;
  law_prune := db_prune_ok;
  law_count_active := db_count_active_ok;
  law_ping := db_ping_silent;
|}.
Proof.
  - intros a m. apply silent_transaction. do 2 (apply silent_bind; [auto with rust|intros ?]).
    apply db_save_silent.
  - intros a n c. apply silent_bind; auto with rust.
  - intros a i. apply silent_bind; [auto with rust|]. intros [row|]; auto 10 with rust.
  - intros a. apply silent_bind; auto with rust.
  - apply silent_query.
Defined.
End refinement.
