(* ===== verification/PostgresLaws.v ===== *)
(** * PostgresLaws: the PostgreSQL backend implements the [Store] interface *)

From S2P Require Import Prelude Str Model Config StoreSpec Rows Sql SqlLaws PostgresStore.

(** The row [RETURNING] answers is the one inserted. *)
Lemma pg_create_mailbox_run a d x h k w : pg_create_mailbox a d x h k w = db_create_mailbox a d x h k w.
Proof.
  destruct w as [s e]. unfold pg_create_mailbox, db_create_mailbox.
  rewrite !(bind_ok utc_now _ (s, e) _ _ eq_refl). rewrite !stmt_then. apply stmt_ext. intros db.
  destruct (sql_insert_mailbox _ db) as [[[] db']|]; [|done]. by rewrite Mailbox_from_select.
Qed.
Lemma pg_create_mailbox_ok a d x h k s e :
  match pg_create_mailbox a d x h k (s, e) with
  | (Ok mb, (s', _)) =>
      ab_mailboxes (sql_view s) !! a = None ∧
      (∃ t, mb = mkMailbox a d t x h k) ∧
      sql_view s' = set_mailboxes (insert a mb) (sql_view s)
  | (Err er, (s', _)) =>
      sql_view s' = sql_view s ∧
      (is_unique_violation er = true → is_Some (ab_mailboxes (sql_view s) !! a))
  end.
Proof. rewrite pg_create_mailbox_run. apply db_create_mailbox_ok. Qed.

Lemma pg_extend_mailbox_run a t w :
  pg_extend_mailbox a t w
  = exec (λ d, let d' := (sql_update_mailbox (with_expiry t) a d).2 in (t_mailboxes d' !! a, d')) w.
Proof.
  unfold pg_extend_mailbox. rewrite exec_then. apply stmt_ext. intros d. cbn. by rewrite select_mailbox_opt.
Qed.
Lemma pg_extend_mailbox_ok a t :
  updates sql_view (pg_extend_mailbox a t)
    (λ v, with_expiry t <$> ab_mailboxes v !! a) (set_mailboxes (alter (with_expiry t) a)).
Proof.
  eapply updates_ext; [apply pg_extend_mailbox_run|]. apply updates_exec. intros d. cbn.
  by rewrite lookup_alter_eq.
Qed.

Lemma pg_add_subscription_silent a k ep p au n :
  silent sql_view (pg_add_subscription a k ep p au n).
Proof.
  unfold pg_add_subscription. apply silent_bind; [|auto with rust].
  apply silent_transaction, silent_bind; [auto with rust|]. intros t.
  apply silent_bind; [case_match; auto with rust|]. intros _.
  apply silent_bind; [auto with rust|]. intros id. apply silent_stmt. intros d x d'.
  unfold pg_upsert_subscription, sql_insert_subscription.
  repeat (case_match; simplify_eq); intros; by simplify_eq.
Qed.

#[export, refine] Instance PostgresStore_Laws : StoreLaws PostgresStore := {|
  view := sql_view;
  law_create_mailbox := pg_create_mailbox_ok;
  law_get_mailbox := db_get_mailbox_ok;
  law_mailbox_is_active := db_mailbox_is_active_ok;
  law_extend_mailbox := pg_extend_mailbox_ok;
  law_delete_mailbox := db_delete_mailbox_ok;
  law_rotate_owner_token := db_rotate_owner_token_ok;
  law_get_raw_message a i := db_get_raw_message_silent a _;
  law_get_attachment a i j := db_get_attachment_silent a _ _;
  law_delete_message a i := db_delete_message_silent a _;
  law_mark_seen a i := db_mark_seen_silent a _;
  law_delete_all_messages := db_delete_all_messages_silent;
  law_purge_expired now s e _ := db_purge_expired_ok now s e;
  law_add_subscription := pg_add_subscription_silent;
  law_delete_subscription := db_delete_subscription_silent;
  law_create_custom_domain := db_create_custom_domain_ok;
  law_get_custom_domain := db_get_custom_domain_ok;
  law_delete_custom_domain := db_delete_custom_domain_ok;
  law_custom_domain_is_verified := db_custom_domain_is_verified_ok;
  law_record_custom_domain_check := db_record_custom_domain_check_ok;
  law_list_custom_domains_to_recheck := db_list_recheck_silent;
  law_upsert_attested_device := db_upsert_attested_device_ok;
  law_get_attested_device := db_get_attested_device_ok;
  law_advance := db_advance_ok;
  law_prune := db_prune_ok;
  law_count_active := db_count_active_ok;
  law_ping := db_ping_silent;
|}.
Proof.
  - intros a m. apply silent_transaction. do 2 (apply silent_bind; [auto with rust|intros ?]).
    apply db_save_silent.
  - intros a n c. apply silent_bind; auto with rust.
  - intros a i. apply silent_bind; [auto with rust|]. intros [row|]; auto 10 with rust.
  - intros a. apply silent_bind; auto with rust.
  - apply silent_ret.
Defined.
