(* ===== verification/SqlClaims.v ===== *)
(** * SqlClaims: what the database backends guarantee

    Refinement of the storage interface by both backends, integrity of the tables over any
    history of calls and connection failures, and decoding of everything that is stored. *)

From S2P Require Import Prelude Str Model Config StoreSpec Rows UuidHex.
From S2P Require Import Sql SqlLaws SqlInvariant SqliteStore SqliteLaws PostgresStore PostgresLaws.

Section sqlite.
Context `{UuidText}.

(** Whatever is asked of stored identifiers, the texts of identifiers have it. *)
Variable id_ok : str → Prop.
Hypothesis id_ok_key : ∀ u, uuid_range u → id_ok (uuid_to_string u).

Lemma lite_keep_add_subscription a k ep p au n :
  preserves (sql_wf id_ok) (lite_add_subscription a k ep p au n).
Proof.
  apply preserves_bind; [|intros [|]; [apply preserves_bind|]; auto with rust].
  apply keep_transaction, preserves_bind; [auto with rust|]. intros [row|].
  - apply preserves_bind; [|auto with rust]. apply keep_exec. intros d Hd.
    apply wf_alter_subscription; [done|]. intros r. cbn. by rewrite SubscriptionKind_from_as.
  - apply preserves_bind; [|intros _].
    { case_match; [|auto with rust]. apply preserves_bind; auto with rust. }
    apply keep_uuid. intros u Hu. apply preserves_bind; [auto with rust|]. intros t.
    apply preserves_bind; [|auto with rust]. apply keep_stmt. intros d x d' Hd.
    apply wf_insert_subscription; [done|by apply id_ok_key|]. cbn. by rewrite SubscriptionKind_from_as.
Qed.

Lemma lite_keep_save a m : preserves (sql_wf id_ok) (lite_save_message a m).
Proof.
  apply keep_transaction, keep_uuid. intros u Hu. apply preserves_bind; [auto with rust|]. intros t.
  by apply keep_save.
Qed.

Lemma lite_keep_op (o : op) (w : SqliteStore * Env) : sql_wf id_ok w → sql_wf id_ok (run_op o w).
Proof.
  intros Hw. destruct o; refine (_ w Hw).
  - apply keep_create_mailbox.
  - apply preserves_bind; [by apply keep_update_mailbox|]. intros n. case_match; auto with rust.
    apply keep_get_mailbox.
  - apply keep_delete_mailbox.
  - apply keep_rotate.
  - apply lite_keep_save.
  - exact (keep_delete_message _ address (uuid_to_string id)).
  - exact (keep_mark_seen _ address (uuid_to_string id)).
  - apply keep_delete_all.
  - apply keep_purge.
  - apply lite_keep_add_subscription.
  - apply keep_delete_subscription.
  - apply keep_create_domain.
  - apply keep_delete_domain.
  - apply keep_record_check.
  - apply keep_upsert_device.
  - apply keep_advance.
  - apply keep_prune.
Qed.
End sqlite.

(** A stored text reads back. *)
Definition lite_id_ok `{UuidText} (i : str) : Prop := is_Some (uuid_parse_str i).
Lemma lite_key_ok `{UuidText} u : uuid_range u → lite_id_ok (uuid_to_string u).
Proof. intros Hu. exists u. by apply uuid_parse_to_string. Qed.

Definition pg_id_ok (i : Uuid) : Prop := uuid_range i.

Lemma pg_keep_add_subscription a k ep p au n :
  preserves (sql_wf pg_id_ok) (pg_add_subscription a k ep p au n).
Proof.
  apply preserves_bind; [|auto with rust].
  apply keep_transaction, preserves_bind; [auto with rust|]. intros t.
  apply preserves_bind; [|intros _].
  { case_match; [|auto with rust]. apply preserves_bind; auto with rust. }
  apply keep_uuid. intros u Hu. apply keep_stmt. intros d x d' Hd. unfold pg_upsert_subscription.
  destruct (head (rows _ _)) as [[i r]|] eqn:Hr.
  - intros [= _ <-]. apply rows_head in Hr as [Hi [Ha He]%same_endpoint_true].
    apply (wf_update_subscription _ i r); try done. cbn. by rewrite SubscriptionKind_from_as.
  - destruct (sql_insert_subscription _ _ d) as [[[] db]|] eqn:Hi; intros [= _ <-].
    apply (wf_insert_subscription pg_id_ok) in Hi; [done..|]. cbn. by rewrite SubscriptionKind_from_as.
Qed.

Lemma pg_keep_save a m : preserves (sql_wf pg_id_ok) (pg_save_message a m).
Proof.
  apply keep_transaction, preserves_bind; [auto with rust|]. intros t. apply keep_uuid. intros u Hu.
  by apply keep_save.
Qed.

Lemma pg_keep_create_mailbox a d x h k : preserves (sql_wf pg_id_ok) (pg_create_mailbox a d x h k).
Proof. intros w Hw. rewrite pg_create_mailbox_run. by apply keep_create_mailbox. Qed.

Lemma pg_keep_op (o : op) (w : PostgresStore * Env) : sql_wf pg_id_ok w → sql_wf pg_id_ok (run_op o w).
Proof.
  intros Hw. destruct o; refine (_ w Hw).
  - by apply pg_keep_create_mailbox.
  - apply preserves_bind; [|auto with rust]. apply keep_exec. intros d.
    by apply (wf_alter_mailbox _ (with_expiry _)).
  - apply keep_delete_mailbox.
  - apply keep_rotate.
  - apply pg_keep_save.
  - apply keep_delete_message.
  - apply keep_mark_seen.
  - apply keep_delete_all.
  - apply keep_purge.
  - apply pg_keep_add_subscription.
  - apply keep_delete_subscription.
  - apply keep_create_domain.
  - apply keep_delete_domain.
  - apply keep_record_check.
  - apply keep_upsert_device.
  - apply keep_advance.
  - apply keep_prune.
Qed.

(** ** Decoding *)

(** The only error of a computation is a failed round trip. *)
Definition only_io {W A} (m : M W anyhow A) (w : W) : Prop :=
  ∀ er, (m w).1 = Err er → er = Sqlx false.

Lemma only_io_query {I A} `{Countable I} (f : Db I → A) s e : only_io (query f) (s, e).
Proof.
  intros er. unfold query. rewrite stmt_run. destruct (sql_faults s 0%nat); by intros [= <-].
Qed.
(** A query followed by conversions that succeed on what was answered. *)
Lemma only_io_bind {I A B} `{Countable I} (f : Db I → A) (k : A → SM (SqlStore I) B) s e :
  only_io (k (f (sql_db s))) (set_db (sql_db s) (trip s), e) → only_io (query f ≫= k) (s, e).
Proof.
  intros Hk er. unfold query, mbind, M_bind. rewrite stmt_run.
  destruct (sql_faults s 0%nat); [by intros [= <-]|]. apply Hk.
Qed.
Lemma only_io_ok {I A} `{Countable I} (r : result A anyhow) (w : SqlStore I * Env) :
  is_Ok r → only_io (of_result r) w.
Proof. by destruct r. Qed.

Lemma collect_Ok {A E} (l : list (result A E)) : (∀ x, x ∈ l → is_Ok x) → is_Ok (collect l).
Proof.
  induction l as [|[a|er] l IH]; cbn; intros Hl; [done| |by apply (Hl (Err er)); left].
  assert (is_Ok (collect l)) as Hc by (apply IH; intros x Hx; apply Hl; by right).
  by destruct (collect l).
Qed.
Lemma collect_map_Ok {A B E} (f : A → result B E) l :
  (∀ x, x ∈ l → is_Ok (f x)) → is_Ok (collect (map f l)).
Proof. intros Hf. apply collect_Ok. intros x (y & -> & Hy)%list_elem_of_fmap. auto. Qed.

Lemma sort_by_elem {A} (cmp : A → A → comparison) l x : x ∈ sort_by cmp l ↔ x ∈ l.
Proof. by rewrite sort_by_Permutation. Qed.

Lemma listing_rows {I} `{Countable I} `{!IdOrder I} a since (d : Db I) x :
  x ∈ sql_listing a since d → t_messages d !! x.1 = Some x.2 ∧ mr_mailbox_address x.2 = a.
Proof.
  intros Hx. assert (x ∈ newest_rows a d) as Hn.
  { unfold sql_listing in Hx. destruct (cursor_row a since d); [by apply elem_of_retain in Hx as [? _]|done]. }
  unfold newest_rows in Hn. rewrite sort_by_elem, elem_of_rows in Hn. destruct Hn as [? Hb].
  unfold in_box in Hb. by rewrite bool_decide_eq_true in Hb.
Qed.
Lemma elem_of_sqlite_limit {A} n (l : list A) x : x ∈ sqlite_limit n l → x ∈ l.
Proof.
  unfold sqlite_limit. case_bool_decide; [done|]. intros Hx.
  rewrite <-(take_drop (Z.to_nat n) l). apply elem_of_app. by left.
Qed.

Section decode.
Context `{UuidText}.

Lemma parse_uuid_ok i : lite_id_ok i → is_Ok (parse_uuid i).
Proof. intros [u Hu]. unfold parse_uuid. by rewrite Hu. Qed.

Lemma lite_list_messages_io a n since s e :
  db_wf lite_id_ok (sql_db s) → only_io (lite_list_messages a n since) (s, e).
Proof.
  intros Hd. apply only_io_bind, only_io_ok. rewrite map_map. apply collect_map_Ok.
  intros x Hx%elem_of_sqlite_limit. apply listing_rows in Hx as [Hx _].
  apply (dw_messages _ _ Hd) in Hx as [Hx%parse_uuid_ok _]. unfold lite_summary.
  cbn. by destruct (parse_uuid x.1).
Qed.

Lemma lite_get_message_io a i s e :
  db_wf lite_id_ok (sql_db s) → only_io (lite_get_message a i) (s, e).
Proof.
  intros Hd. apply only_io_bind. destruct (sql_message _ _ _) as [r|] eqn:Hr; [|done]. cbn [fmap option_fmap option_map].
  apply only_io_bind. cbn. apply sql_message_Some in Hr as [Hr _].
  assert (is_Ok (collect (map lite_attachment_meta (map select_attachment
    (sql_attachments (uuid_to_string i) (sql_db s)))))) as Hc.
  { rewrite map_map. apply collect_map_Ok. intros x. unfold sql_attachments. rewrite sort_by_elem, elem_of_rows.
    intros [Hx _]. apply (dw_attachments _ _ Hd) in Hx as [Hx%parse_uuid_ok _].
    unfold lite_attachment_meta. cbn. by destruct (parse_uuid x.1). }
  apply (dw_messages _ _ Hd) in Hr as [Hp%parse_uuid_ok _].
  destruct (collect _); [|done]. cbn. by destruct (parse_uuid (uuid_to_string i)).
Qed.

Lemma lite_list_subscriptions_io a s e :
  db_wf lite_id_ok (sql_db s) → only_io (lite_list_subscriptions a) (s, e).
Proof.
  intros Hd. apply only_io_bind, only_io_ok. rewrite map_map. apply collect_map_Ok. intros x.
  rewrite sort_by_elem, elem_of_rows. intros [Hx _].
  apply (dw_subscriptions _ _ Hd) in Hx as (Hx%parse_uuid_ok & _ & Hk).
  unfold PushSubscription_try_from. cbn. destruct (parse_uuid x.1); [|done]. unfold lift_str.
  by destruct (SubscriptionKind_from_str _).
Qed.
End decode.

Section domains.
Context {I : Type} `{Countable I} `{!IdOrder I} (id_ok : I → Prop).

Lemma CustomDomain_try_from_ok k r :
  is_Ok (CustomDomainStatus_from_str (cr_status r)) → is_Ok (CustomDomain_try_from (select_domain k r)).
Proof. unfold CustomDomain_try_from, lift_str. cbn. by destruct (CustomDomainStatus_from_str _). Qed.

Lemma get_custom_domain_io k (s : SqlStore I) e :
  db_wf id_ok (sql_db s) → only_io (db_get_custom_domain k) (s, e).
Proof.
  intros Hd. apply only_io_bind, only_io_ok. destruct (t_domains (sql_db s) !! k) as [r|] eqn:Hr; [|done].
  apply (dw_domains _ _ Hd), (CustomDomain_try_from_ok k) in Hr. cbn.
  by destruct (CustomDomain_try_from (select_domain k r)).
Qed.
Lemma list_recheck_io t (s : SqlStore I) e :
  db_wf id_ok (sql_db s) → only_io (db_list_custom_domains_to_recheck t) (s, e).
Proof.
  intros Hd. apply only_io_bind, only_io_ok. rewrite map_map. apply collect_map_Ok. intros x.
  rewrite elem_of_rows. intros [Hx _]. by apply (dw_domains _ _ Hd), (CustomDomain_try_from_ok x.1) in Hx.
Qed.
End domains.

(** ** The guarantees *)

(** C19: both database backends implement the storage interface the SMTP and HTTP
    components are verified against: through the view of the mailbox, domain and device
    tables, every statement answers and moves the state as the laws say, whichever round
    trips to the database fail. *)
Theorem sql_refines_store `{UuidText} :
  (∃ L : StoreLaws SqliteStore, ∀ s, view s = sql_view s) ∧
  (∃ L : StoreLaws PostgresStore, ∀ s, view s = sql_view s).
Proof. split; [by exists SqliteStore_Laws|by exists PostgresStore_Laws]. Qed.

Lemma sql_refines_store_witness :
  (∃ L : @StoreLaws SqliteStore (@SqliteStore_Store hex_UuidText), ∀ s, view s = sql_view s) ∧
  (∃ L : StoreLaws PostgresStore, ∀ s, view s = sql_view s).
Proof. apply (@sql_refines_store hex_UuidText). Defined.

(** C20: starting from an empty database, whatever calls are made, with whatever arguments
    and whichever round trips fail in between, no message, attachment or subscription is
    left without the mailbox or message it belongs to, no endpoint is registered twice
    for a mailbox, device counters are never negative, and every stored identifier,
    subscription kind and domain status parses back. *)
Theorem sql_integrity `{UuidText} q faults e l :
  uuids e →
  db_wf lite_id_ok (sql_db (run_ops l (lite_with_quotas q (lite_new faults), e)).1) ∧
  db_wf pg_id_ok (sql_db (run_ops l (pg_with_quotas q (pg_new faults), e)).1).
Proof.
  intros He. split.
  - apply (run_ops_preserves (sql_wf lite_id_ok)); [apply lite_keep_op, lite_key_ok|]. split; [apply db_wf_empty|done].
  - apply (run_ops_preserves (sql_wf pg_id_ok)); [apply pg_keep_op|]. split; [apply db_wf_empty|done].
Qed.

(** Three round trips fail, one of them inside the second save. *)
Definition demo_faults (n : nat) : bool := bool_decide (n ∈ [3; 9; 15]%nat).
Definition sql_demo_env : Env :=
  mkEnv (λ n, 1000 + Z.of_nat n) (λ n, (10 + Z.of_nat n) mod 2 ^ 128) (λ n, Z.of_nat n).
Lemma sql_demo_uuids : uuids sql_demo_env.
Proof. intros n. unfold uuid_range. cbn. apply Z.mod_pos_bound. lia. Qed.
Definition demo_mail (size : Z) : NewMessage :=
  mkNewMessage (lit "s@y.io") None None None None size (Some [1; 2])
    [mkNewAttachment None (lit "text/plain") [7; 8; 9]].
Definition demo_ops : list op :=
  [OpCreateMailbox (lit "a@x.io") (lit "x.io") 99 None None; OpSave (lit "a@x.io") (demo_mail 3);
   OpSave (lit "a@x.io") (demo_mail 4); OpSave (lit "b@x.io") (demo_mail 4);
   OpSubscribe (lit "a@x.io") Apns (lit "tok") [] [] 2; OpPurge 100].

Lemma sql_integrity_witness :
  uuids sql_demo_env ∧
  db_wf (@lite_id_ok hex_UuidText)
    (sql_db (@run_ops _ (@SqliteStore_Store hex_UuidText) demo_ops
       (lite_with_quotas (mkMailboxQuotas 1 0) (lite_new demo_faults), sql_demo_env)).1).
Proof.
  split; [apply sql_demo_uuids|].
  refine (proj1 (@sql_integrity hex_UuidText (mkMailboxQuotas 1 0) demo_faults sql_demo_env demo_ops _)).
  apply sql_demo_uuids.
Defined.

(** Everything the SQLite backend has stored can be read back: in any state reached
    by calls of the interface, with whatever failures, listing or reading messages,
    subscriptions and domains never fails on the stored data (an identifier, a kind or a
    status that does not parse); the only error left is a failed round trip. *)
Theorem stored_rows_decode `{UuidText} q faults e l a n since i k t :
  uuids e →
  let w := run_ops l (lite_with_quotas q (lite_new faults), e) in
  only_io (lite_list_messages a n since) w ∧ only_io (lite_get_message a i) w ∧
  only_io (lite_list_subscriptions a) w ∧ only_io (lite_get_custom_domain k) w ∧
  only_io (lite_list_custom_domains_to_recheck t) w.
Proof.
  intros He w. assert (db_wf lite_id_ok (sql_db w.1)) as Hd.
  { apply (run_ops_preserves (sql_wf lite_id_ok)); [apply lite_keep_op, lite_key_ok|]. split; [apply db_wf_empty|done]. }
  destruct w as [s e']. split_and!;
    [by apply lite_list_messages_io|by apply lite_get_message_io|by apply lite_list_subscriptions_io
    |by eapply get_custom_domain_io|by eapply list_recheck_io].
Qed.

Lemma stored_rows_decode_witness :
  uuids sql_demo_env ∧
  only_io (@lite_list_messages hex_UuidText (lit "a@x.io") 0 None)
    (@run_ops _ (@SqliteStore_Store hex_UuidText) demo_ops
       (lite_with_quotas (mkMailboxQuotas 1 0) (lite_new demo_faults), sql_demo_env)).
Proof.
  split; [apply sql_demo_uuids|].
  refine (proj1 (@stored_rows_decode hex_UuidText (mkMailboxQuotas 1 0) demo_faults sql_demo_env
                   demo_ops (lit "a@x.io") 0 None 10 (lit "d") 5 _)).
  apply sql_demo_uuids.
Defined.
