(* ===== verification/SqlMail.v ===== *)
(** * SqlMail: what the database backends guarantee about mail

    The effect of a save on the mailbox, the agreement of its quotas with those of the
    in-memory backend, its atomicity, and the round trip of a message. *)

From S2P Require Import Prelude Str Model Config StoreSpec UuidHex MemoryStore.
From S2P Require Import Sql SqlLaws SqlInvariant SqlMessages SqliteStore PostgresStore SqlClaims.

(** ** The transactions of both backends *)

Section inversion.
Context `{UuidText}.

Lemma lite_save_inv a m s e st s' e' :
  lite_save_message a m (s, e) = (Ok st, (s', e')) →
  ∃ s1 s2 e1, db_save uuid_to_string (sm_id st) (sm_received_at st) a m (s1, e1) = (Ok st, (s2, e')) ∧
    sql_db s1 = sql_db s ∧ sql_quotas s1 = sql_quotas s ∧ sql_db s' = sql_db s2 ∧
    (uuids e → uuids e1 ∧ uuid_range (sm_id st)).
Proof.
  intros (s1 & s2 & Hr & ? & ? & ? & ?)%transaction_inv.
  apply bind_inv in Hr as (u & [s3 e3] & Hu & Hr). injection Hu as <- <- <-.
  apply bind_inv in Hr as (t & [s4 e4] & Ht & Hr). injection Ht as <- <- <-.
  destruct (save_answer _ _ _ _ _ _ _ _ Hr) as [Hid Ht]. rewrite Hid, Ht. exists s1, s2. eexists.
  split_and!; [exact Hr|done..|]. intros He. split; [intros n; apply (He (S n))|apply He].
Qed.
End inversion.

Lemma pg_save_inv a m s e st s' e' :
  pg_save_message a m (s, e) = (Ok st, (s', e')) →
  ∃ s1 s2 e1, db_save (λ i, i) (sm_id st) (sm_received_at st) a m (s1, e1) = (Ok st, (s2, e')) ∧
    sql_db s1 = sql_db s ∧ sql_quotas s1 = sql_quotas s ∧ sql_db s' = sql_db s2 ∧
    (uuids e → uuids e1 ∧ uuid_range (sm_id st)).
Proof.
  intros (s1 & s2 & Hr & ? & ? & ? & ?)%transaction_inv.
  apply bind_inv in Hr as (t & [s3 e3] & Ht & Hr). injection Ht as <- <- <-.
  apply bind_inv in Hr as (u & [s4 e4] & Hu & Hr). injection Hu as <- <- <-.
  destruct (save_answer _ _ _ _ _ _ _ _ Hr) as [Hid Ht]. rewrite Hid, Ht. exists s1, s2. eexists.
  split_and!; [exact Hr|done..|]. intros He. split; [intros n; apply (He (S n))|apply He].
Qed.

(** ** Quotas *)

(** Saving row [r] under [i] took the mail of [d] to that of [d']. *)
Definition keeps_quota {I} `{Countable I} `{!IdOrder I} (q : MailboxQuotas) (a : str) (i : I)
    (r : MessageRec) (d d' : Db I) : Prop :=
  newest_rows a d' = saved_inbox q i r (newest_rows a d) ∧
  (∀ b, b ≠ a → newest_rows b d' = newest_rows b d) ∧
  (0 < max_messages q → len (newest_rows a d') ≤ max_messages q).

Lemma save_keeps_quota {I} `{Countable I} `{!IdOrder I} (key : Uuid → I) u t a m s e st s' e' :
  db_save key u t a m (s, e) = (Ok st, (s', e')) → caps_fit (sql_quotas s) →
  keeps_quota (sql_quotas s) a (key u) (message_row a m t) (sql_db s) (sql_db s').
Proof.
  intros Hs Hf. apply save_run in Hs as (_ & _ & _ & Hn & Ho & _); [|done].
  split_and!; [done|done|]. rewrite Hn. apply saved_inbox_length.
Qed.

(** C22: saving into a mailbox of a database puts the message at its place in the
    newest-first order and then keeps exactly what the quotas allow: the first
    [max_messages] rows, and of those the ones whose running size fits [max_bytes] or
    that are the message just saved. No other mailbox changes, and a capped mailbox never
    holds more than its cap. This holds of both backends. *)
Theorem sql_save_quota `{UuidText} a m e q :
  caps_fit q →
  (∀ s st s' e', sql_quotas s = q → lite_save_message a m (s, e) = (Ok st, (s', e')) →
     keeps_quota q a (uuid_to_string (sm_id st)) (message_row a m (sm_received_at st)) (sql_db s) (sql_db s')) ∧
  (∀ s st s' e', sql_quotas s = q → pg_save_message a m (s, e) = (Ok st, (s', e')) →
     keeps_quota q a (sm_id st) (message_row a m (sm_received_at st)) (sql_db s) (sql_db s')).
Proof.
  intros Hfit. split; intros s st s' e' <-.
  - intros (s1 & s2 & e1 & Hs & Hd & Hq & -> & _)%lite_save_inv. rewrite <-Hd, <-Hq in *.
    by eapply save_keeps_quota.
  - intros (s1 & s2 & e1 & Hs & Hd & Hq & -> & _)%pg_save_inv. rewrite <-Hd, <-Hq in *.
    by apply (save_keeps_quota (λ i, i) _ _ a m s1 e1 st s2 e').
Qed.

(** A database with one mailbox, capped at two messages and 100 bytes, and no failures. *)
Definition lite_demo : SqliteStore * Env :=
  @run_ops _ (@SqliteStore_Store hex_UuidText)
    [OpCreateMailbox (lit "a@x.io") (lit "x.io") 99 None None; OpSave (lit "a@x.io") (demo_mail 60);
     OpSave (lit "a@x.io") (demo_mail 30)]
    (lite_with_quotas (mkMailboxQuotas 2 100) (lite_new (λ _, false)), sql_demo_env).

Definition lite_demo_save : result StoredMessage anyhow * (SqliteStore * Env) :=
  @lite_save_message hex_UuidText (lit "a@x.io") (demo_mail 50) (lite_demo.1, lite_demo.2).
Lemma lite_demo_save_ok : is_Ok lite_demo_save.1.
Proof. vm_compute. exact Logic.I. Qed.
Lemma lite_demo_save_sizes :
  map (λ x, mr_raw_size x.2) (newest_rows (lit "a@x.io") (sql_db lite_demo_save.2.1)) = [50; 30].
Proof. vm_compute. reflexivity. Qed.
Lemma lite_demo_quotas : sql_quotas lite_demo.1 = mkMailboxQuotas 2 100.
Proof. vm_compute. reflexivity. Qed.

Lemma sql_save_quota_witness :
  ∃ st s' e', lite_demo_save = (Ok st, (s', e')) ∧
    keeps_quota (mkMailboxQuotas 2 100) (lit "a@x.io") (hex_text 32 (sm_id st))
      (message_row (lit "a@x.io") (demo_mail 50) (sm_received_at st)) (sql_db lite_demo.1) (sql_db s') ∧
    map (λ x, mr_raw_size x.2) (newest_rows (lit "a@x.io") (sql_db s')) = [50; 30].
Proof.
  assert (caps_fit (mkMailboxQuotas 2 100)) as Hf by (split; cbn; lia).
  pose proof (proj1 (@sql_save_quota hex_UuidText (lit "a@x.io") (demo_mail 50) lite_demo.2 _ Hf)
                lite_demo.1) as Hq.
  fold lite_demo_save in Hq. pose proof lite_demo_save_ok as Hok. pose proof lite_demo_save_sizes as Hs.
  destruct lite_demo_save as [[st|er] [s' e']]; [|done].
  exists st, s', e'. split; [done|]. split; [|exact Hs]. by apply (Hq st s' e' lite_demo_quotas).
Defined.

(** ** Agreement with the in-memory backend *)

(** A row as the in-memory quotas see it. *)
Definition sized_row (x : Uuid * MessageRec) : Z * Z * Z :=
  ((mr_received_at x.2, x.1), Z.max 0 (mr_raw_size x.2)).
Fixpoint row_sizes (l : list (Uuid * MessageRec)) : Z :=
  match l with [] => 0 | x :: l => mr_raw_size x.2 + row_sizes l end.
Lemma row_sizes_app l k : row_sizes (l ++ k) = row_sizes l + row_sizes k.
Proof. induction l; cbn; lia. Qed.
Lemma row_sizes_nonneg l : Forall (λ x, 0 ≤ mr_raw_size x.2) l → 0 ≤ row_sizes l.
Proof. induction 1; cbn in *; lia. Qed.
Lemma row_sizes_Permutation l k : l ≡ₚ k → row_sizes l = row_sizes k.
Proof. induction 1; cbn; lia. Qed.

Section memory_quota.
Context (max : Z) (new : Uuid).
Implicit Types l k : list (Uuid * MessageRec).

Definition sizes_ok (acc : Z) l : Prop :=
  0 ≤ acc ∧ Forall (λ x, 0 ≤ mr_raw_size x.2) l ∧ acc + row_sizes l ≤ u64_max.
Lemma sizes_ok_cons acc x l :
  sizes_ok acc (x :: l) →
  saturating_add_u64 acc (Z.max 0 (mr_raw_size x.2)) = acc + mr_raw_size x.2 ∧
  sizes_ok (acc + mr_raw_size x.2) l.
Proof.
  intros (H0 & [Hx Hl]%Forall_cons & Hs). cbn in Hs.
  cbn in Hx.
  pose proof (row_sizes_nonneg l Hl).
  unfold saturating_add_u64. rewrite Z.max_r, Z.min_l by lia. split; [done|]. split_and!; [lia|done|lia].
Qed.

Lemma over_budget_ids acc l i : i ∈ over_budget max acc new (map sized_row l) → i ∈ map fst l.
Proof.
  revert acc. induction l as [|[j r] l IH]; intros acc; cbn [map sized_row over_budget]; [done|].
  rewrite elem_of_app, elem_of_cons. intros [Hi|Hi%IH]; [left|by right].
  case_match; [by apply list_elem_of_singleton in Hi|by apply not_elem_of_nil in Hi].
Qed.

(** The walk of the in-memory backend marks what the database deletes. *)
Lemma over_budget_within acc l :
  NoDup (map fst l) → sizes_ok acc l →
  retain (λ x, negb (bool_decide (x.1 ∈ over_budget max acc new (map sized_row l)))) l
  = within_budget max acc new l.
Proof.
  revert acc. induction l as [|[i r] l IH]; intros acc; [done|].
  intros [Hi Hl]%NoDup_cons [Hsat Hs]%sizes_ok_cons. cbn -[saturating_add_u64] in *. rewrite Hsat.
  set (acc' := acc + mr_raw_size r) in *. rewrite <-(IH acc' Hl Hs).
  assert (i ∉ over_budget max acc' new (map sized_row l)) as Hno by (by intros Ho%over_budget_ids).
  assert (∀ x, x ∈ l → x.1 ≠ i) as Hne.
  { intros x Hx Heq. apply Hi, list_elem_of_fmap. exists x. done. }
  assert ((acc' <=? max) || bool_decide (i = new)
          = negb (bool_decide (max < acc') && negb (bool_decide (i = new)))) as ->.
  { rewrite bool_decide_ltb. destruct (bool_decide (i = new)), (Z.leb_spec acc' max), (Z.ltb_spec max acc');
      (done || lia). }
  destruct (bool_decide (max < acc') && negb (bool_decide (i = new))); cbn.
  - rewrite bool_decide_true by left. cbn. apply retain_ext. intros x Hx. f_equal. apply bool_decide_ext.
    rewrite elem_of_cons. naive_solver.
  - by rewrite bool_decide_false.
Qed.

(** What is marked in a prefix does not depend on what follows it. *)
Lemma over_budget_app acc l k x :
  NoDup (map fst (l ++ k)) → x ∈ l →
  x.1 ∈ over_budget max acc new (map sized_row (l ++ k)) ↔ x.1 ∈ over_budget max acc new (map sized_row l).
Proof.
  revert acc. induction l as [|y l IH]; intros acc; cbn [app map]; [by intros _ ?%not_elem_of_nil|].
  intros [Hy Hl]%NoDup_cons Hx. cbn -[saturating_add_u64]. rewrite !elem_of_app.
  apply elem_of_cons in Hx as [->|Hx]; [|by rewrite IH].
  split; (intros [Hi|Hi]; [by left|]).
  - by apply over_budget_ids in Hi.
  - apply over_budget_ids in Hi. exfalso. apply Hy. rewrite map_app. apply elem_of_app. by left.
Qed.
End memory_quota.

(** The two caps together. *)
Lemma quota_keep_drop q new l :
  NoDup (map fst l) → sizes_ok 0 l →
  quota_keep q new l
  = retain (λ x, negb (bool_decide (x.1 ∈ quota_drop q new (map sized_row l)))) l.
Proof.
  intros Hnd Hs. set (n := Z.to_nat (max_messages q)). set (b := bool_decide (0 < max_messages q)).
  set (k := if b then take n l else l). set (rest := if b then drop n l else []).
  assert (l = k ++ rest) as Hl by (unfold k, rest; destruct b; by rewrite ?take_drop, ?app_nil_r).
  assert ((if b then map (λ x, x.1.2) (drop n (map sized_row l)) else []) = map fst rest) as Hdrop.
  { unfold rest. destruct b; [|done]. rewrite <-fmap_drop, map_map. done. }
  assert (sizes_ok 0 k) as Hk.
  { destruct Hs as (? & Hf & Hle). rewrite Hl in Hf, Hle. apply Forall_app in Hf as [Hf1 Hf2].
    rewrite row_sizes_app in Hle. pose proof (row_sizes_nonneg _ Hf2). split_and!; [done|done|lia]. }
  assert (NoDup (map fst k)) as Hndk by (rewrite Hl, map_app in Hnd; by apply NoDup_app in Hnd as (? & _)).
  assert (∀ x, x ∈ k → x.1 ∉ map fst rest) as Hdisj.
  { intros x Hx Hr. rewrite Hl, map_app in Hnd. apply NoDup_app in Hnd as (_ & Hd & _).
    apply (Hd x.1); [|done]. apply list_elem_of_fmap. eauto. }
  assert (retain (λ x, negb (bool_decide (x.1 ∈ map fst rest ++
            (if bool_decide (0 < max_bytes q) then over_budget (max_bytes q) 0 new (map sized_row l) else [])))) l
          = if bool_decide (0 < max_bytes q) then within_budget (max_bytes q) 0 new k else k) as Hr.
  { assert (∀ p, retain p l = retain p k ++ retain p rest) as -> by (intros p; by rewrite <-retain_app, <-Hl).
    rewrite (retain_none _ rest), app_nil_r.
    - case_bool_decide as Hb.
      + rewrite <-(over_budget_within (max_bytes q) new 0 k Hndk Hk). apply retain_ext. intros x Hx.
        f_equal. apply bool_decide_ext. rewrite elem_of_app, Hl, over_budget_app by (done || by rewrite <-Hl).
        naive_solver.
      + rewrite app_nil_r. apply retain_true. intros x Hx. by rewrite bool_decide_false by auto.
    - intros x Hx. rewrite bool_decide_true; [done|]. apply elem_of_app. left. apply list_elem_of_fmap. eauto. }
  unfold quota_keep, quota_drop. fold b n k. rewrite Hdrop, Hr. done.
Qed.

(** C23: the quotas of the PostgreSQL backend, two [DELETE] statements in sequence, discard
    exactly the messages the in-memory backend discards in its single walk over the same
    mailbox, as long as sizes are not negative and add up to less than [u64] holds. *)
Theorem pg_quota_as_memory a m s e st s' e' :
  pg_save_message a m (s, e) = (Ok st, (s', e')) → caps_fit (sql_quotas s) →
  let l := insert_by newest_cmp (sm_id st, message_row a m (sm_received_at st)) (newest_rows a (sql_db s)) in
  Forall (λ x, 0 ≤ mr_raw_size x.2) l → row_sizes l ≤ u64_max →
  newest_rows a (sql_db s')
  = retain (λ x, negb (bool_decide (x.1 ∈ quota_drop (sql_quotas s) (sm_id st) (map sized_row l)))) l.
Proof.
  intros (s1 & s2 & e1 & Hs & Hd & Hq & -> & _)%pg_save_inv Hfit. cbn zeta. rewrite <-Hd, <-Hq in *. intros Hf Hle.
  apply save_run in Hs as (_ & Hfresh & _ & Hn & _); [|done]. rewrite Hn. apply quota_keep_drop.
  - rewrite insert_by_Permutation. cbn. constructor; [|apply newest_rows_NoDup].
    intros (x & Hx & [Hin _]%elem_of_newest)%list_elem_of_fmap. congruence.
  - split_and!; [done|done|lia].
Qed.

Definition pg_demo : PostgresStore * Env :=
  run_ops [OpCreateMailbox (lit "a@x.io") (lit "x.io") 99 None None; OpSave (lit "a@x.io") (demo_mail 60);
           OpSave (lit "a@x.io") (demo_mail 30)]
    (pg_with_quotas (mkMailboxQuotas 2 100) (pg_new (λ _, false)), sql_demo_env).
Definition pg_demo_save : result StoredMessage anyhow * (PostgresStore * Env) :=
  pg_save_message (lit "a@x.io") (demo_mail 80) (pg_demo.1, pg_demo.2).
Lemma pg_demo_save_ok :
  is_Ok pg_demo_save.1 ∧ caps_fit (sql_quotas pg_demo.1) ∧
  map (λ x, mr_raw_size x.2) (newest_rows (lit "a@x.io") (sql_db pg_demo_save.2.1)) = [80].
Proof. split; [vm_compute; exact Logic.I|]. by split; vm_compute. Qed.

Lemma pg_demo_rows :
  Forall (λ x, 0 ≤ mr_raw_size x.2) (newest_rows (lit "a@x.io") (sql_db pg_demo.1)) ∧
  row_sizes (newest_rows (lit "a@x.io") (sql_db pg_demo.1)) = 90.
Proof. split; vm_compute; [repeat constructor; discriminate|reflexivity]. Qed.

Lemma pg_quota_as_memory_witness :
  ∃ st s' e', pg_demo_save = (Ok st, (s', e')) ∧
    map (λ x, mr_raw_size x.2) (newest_rows (lit "a@x.io") (sql_db s')) = [80] ∧
    let l := insert_by newest_cmp (sm_id st, message_row (lit "a@x.io") (demo_mail 80) (sm_received_at st))
               (newest_rows (lit "a@x.io") (sql_db pg_demo.1)) in
    newest_rows (lit "a@x.io") (sql_db s')
    = retain (λ x, negb (bool_decide (x.1 ∈ quota_drop (sql_quotas pg_demo.1) (sm_id st) (map sized_row l)))) l.
Proof.
  pose proof (pg_quota_as_memory (lit "a@x.io") (demo_mail 80) pg_demo.1 pg_demo.2) as Hq.
  fold pg_demo_save in Hq. pose proof pg_demo_save_ok as (Hok & Hfit & Hs).
  destruct pg_demo_save as [[st|er] [s' e']]; [|done]. exists st, s', e'. split; [done|]. split; [exact Hs|].
  destruct pg_demo_rows as [Hf Hsum]. apply (Hq st s' e' eq_refl Hfit).
  - rewrite insert_by_Permutation. constructor; [cbn; lia|exact Hf].
  - rewrite (row_sizes_Permutation _ _ (insert_by_Permutation _ _ _)). cbn [row_sizes]. rewrite Hsum. vm_compute. discriminate.
Defined.

(** ** Two edges *)

(** A byte cap of 2^63 or more, sent to the database as a negative number, makes every
    save discard all older mail of the mailbox, where the in-memory backend keeps it. *)
Example sql_huge_byte_cap :
  let ops := [OpCreateMailbox (lit "a@x.io") (lit "x.io") 99 None None; OpSave (lit "a@x.io") (demo_mail 1);
              OpSave (lit "a@x.io") (demo_mail 1)] in
  let q := mkMailboxQuotas 0 (2 ^ 63) in
  length (newest_rows (lit "a@x.io")
    (sql_db (run_ops ops (pg_with_quotas q (pg_new (λ _, false)), sql_demo_env)).1)) = 1%nat ∧
  length (messages (run_ops ops (with_quotas q new, sql_demo_env)).1) = 2%nat.
Proof. split; vm_compute; reflexivity. Qed.

(** Refreshing an endpoint of a mailbox that already holds more endpoints than a lowered
    cap: SQLite refreshes it, PostgreSQL refuses. *)
Example refresh_above_cap :
  let ops := [OpCreateMailbox (lit "a@x.io") (lit "x.io") 99 None None;
              OpSubscribe (lit "a@x.io") Apns (lit "t1") [] [] 2; OpSubscribe (lit "a@x.io") Apns (lit "t2") [] [] 2] in
  is_Ok (@lite_add_subscription hex_UuidText (lit "a@x.io") Apns (lit "t1") [] [] 1
           (@run_ops _ (@SqliteStore_Store hex_UuidText) ops (lite_new (λ _, false), sql_demo_env))).1 ∧
  (pg_add_subscription (lit "a@x.io") Apns (lit "t1") [] [] 1
     (run_ops ops (pg_new (λ _, false), sql_demo_env))).1 = Err (SubscriptionLimit 1).
Proof. split; vm_compute; [exact Logic.I|reflexivity]. Qed.
