(* ===== verification/SqlAtomic.v ===== *)
(** * SqlAtomic: a save happens wholly or not at all

    When [save_message] of a database backend succeeds, when it must fail, and what a
    failure leaves behind. *)

From S2P Require Import Prelude Str Model Config StoreSpec UuidHex.
From S2P Require Import Sql SqlLaws SqlInvariant SqlMessages SqliteStore PostgresStore SqlClaims SqlMail.

Section total.
Context {I : Type} `{Countable I} `{!IdOrder I}.
Implicit Types s : SqlStore I.

(** No round trip to come fails. *)
Definition fault_free s : Prop := ∀ n, sql_faults s n = false.

(** The computation succeeds, on a connection that still works, with a database and an
    environment that satisfy [Q]. *)
Definition succeeds {A} (m : SM (SqlStore I) A) s e (Q : Db I → Env → Prop) : Prop :=
  ∃ a s' e', m (s, e) = (Ok a, (s', e')) ∧ fault_free s' ∧ Q (sql_db s') e'.

Lemma succeeds_bind {A B} (m : SM (SqlStore I) A) (k : A → SM (SqlStore I) B) s e Q R :
  succeeds m s e Q →
  (∀ a s' e', m (s, e) = (Ok a, (s', e')) → fault_free s' → Q (sql_db s') e' → succeeds (k a) s' e' R) →
  succeeds (m ≫= k) s e R.
Proof.
  intros (a & s' & e' & Hm & Hf & HQ) Hk. destruct (Hk a s' e' Hm Hf HQ) as (b & s2 & e2 & Hb & Hf2).
  exists b, s2, e2. by rewrite (bind_ok _ _ _ _ _ Hm).
Qed.
Lemma succeeds_ret {A} (a : A) s e (Q : Db I → Env → Prop) :
  fault_free s → Q (sql_db s) e → succeeds (mret a) s e Q.
Proof. intros Hf HQ. by exists a, s, e. Qed.
Lemma succeeds_stmt {A} (f : Db I → result (A * Db I) anyhow) s e (Q : Db I → Env → Prop) a d :
  fault_free s → f (sql_db s) = Ok (a, d) → Q d e → succeeds (stmt f) s e Q.
Proof.
  intros Hf Hr HQ. exists a, (set_db d (trip s)), e. rewrite stmt_run, Hf, Hr. split; [done|].
  split; [|done]. intros n. apply (Hf (S n)).
Qed.
Lemma succeeds_exec {A} (f : Db I → A * Db I) s e (Q : Db I → Env → Prop) :
  fault_free s → Q (f (sql_db s)).2 e → succeeds (exec f) s e Q.
Proof. intros Hf HQ. eapply succeeds_stmt; [done|by rewrite <-surjective_pairing|done]. Qed.
Lemma succeeds_transaction {A} (m : SM (SqlStore I) A) s e Q :
  fault_free s →
  (∀ s', sql_db s' = sql_db s → fault_free s' → succeeds m s' e Q) →
  succeeds (transaction m) s e Q.
Proof.
  intros Hf Hm.
  assert (succeeds (query (λ _, tt);; a ← m; query (λ _, tt);; mret a) s e Q) as (a & s' & e' & Hr & Hf').
  { apply (succeeds_bind _ _ _ _ (λ _ _, True)); [by apply succeeds_exec|].
    intros [] s1 e1 (Hd & Hq & ->)%stmt_inv Hf1 _. injection Hd as Hd.
    apply (succeeds_bind _ _ _ _ Q); [by apply Hm|]. intros a s2 e2 _ Hf2 HQ.
    apply (succeeds_bind _ _ _ _ Q); [by apply succeeds_exec|]. intros [] s3 e3 _ Hf3 HQ'. by apply succeeds_ret. }
  exists a, s', e'. unfold transaction. by rewrite Hr.
Qed.

(** The next [k] identifiers to be drawn are new to the tables and distinct. *)
Record fresh_keys (key : Uuid → I) (k : nat) (d : Db I) (e : Env) : Prop := {
  fk_distinct n m : (n < k)%nat → (m < k)%nat → key (e_uuid e n) = key (e_uuid e m) → n = m;
  fk_messages n : (n < k)%nat → t_messages d !! key (e_uuid e n) = None;
  fk_attachments n : (n < k)%nat → t_attachments d !! key (e_uuid e n) = None;
}.
(** Identifier [u] is none of them. *)
Definition apart (key : Uuid → I) (u : Uuid) (k : nat) (e : Env) : Prop :=
  ∀ n, (n < k)%nat → key (e_uuid e n) ≠ key u.

Lemma fresh_draw key k d e :
  fresh_keys key (S k) d e →
  t_messages d !! key (e_uuid e 0%nat) = None ∧ t_attachments d !! key (e_uuid e 0%nat) = None ∧
  apart key (e_uuid e 0%nat) k (env_new_v4 e).2 ∧ fresh_keys key k d (env_new_v4 e).2.
Proof.
  intros [K1 K2 K3]. split; [apply K2; lia|]. split; [apply K3; lia|]. split.
  - intros n Hn Heq. apply (K1 (S n) 0%nat) in Heq; lia.
  - split; cbn.
    + intros n m Hn Hm Heq. apply (K1 (S n) (S m)) in Heq; lia.
    + intros n Hn. apply (K2 (S n)). lia.
    + intros n Hn. apply (K3 (S n)). lia.
Qed.
Lemma fresh_message key k d e u r :
  fresh_keys key k d e → apart key u k e →
  fresh_keys key k (set_t_messages (<[key u := r]> (t_messages d)) d) e.
Proof.
  intros [K1 K2 K3] Ha. split; [done| |done]. intros n Hn. cbn.
  rewrite lookup_insert_ne; [by apply K2|]. intros Heq. by apply (Ha n).
Qed.
Lemma fresh_attachment key k d e u r :
  fresh_keys key k d e → apart key u k e →
  fresh_keys key k (set_t_attachments (<[key u := r]> (t_attachments d)) d) e.
Proof.
  intros [K1 K2 K3] Ha. split; [done|done|]. intros n Hn. cbn.
  rewrite lookup_insert_ne; [by apply K3|]. intros Heq. by apply (Ha n).
Qed.
Lemma fresh_delete key k p d e :
  fresh_keys key k d e → fresh_keys key k (sql_delete_messages p d).2 e.
Proof.
  intros [K1 K2 K3]. split; [done|..]; intros n Hn; cbn; unfold without; apply map_lookup_filter_None; left; auto.
Qed.
Lemma fresh_le key k k' d e : fresh_keys key k' d e → (k ≤ k')%nat → fresh_keys key k d e.
Proof. intros [K1 K2 K3] Hk. split; intros; [apply K1; (done || lia)|apply K2; lia|apply K3; lia]. Qed.
Lemma fresh_env key k d e e' : fresh_keys key k d e → e_uuid e' = e_uuid e → fresh_keys key k d e'.
Proof. intros [K1 K2 K3] He. split; rewrite He; auto. Qed.

Lemma insert_attachments_succeeds key i l k s e :
  fault_free s → is_Some (t_messages (sql_db s) !! i) → fresh_keys key (length l + k) (sql_db s) e →
  succeeds (db_insert_attachments key i l) s e (fresh_keys key k).
Proof.
  revert s e. induction l as [|att l IH]; intros s e Hf Hi Hk; cbn [db_insert_attachments].
  - by apply succeeds_ret.
  - apply fresh_draw in Hk as (_ & Hn & Ha & Hk).
    apply (succeeds_bind _ _ _ _ (λ _ _, True)); [by eexists _, _, _|]. intros u s0 e0 Hu _ _. injection Hu as <- <- <-.
    apply (succeeds_bind _ _ _ _ (fresh_keys key (length l + k))).
    + eapply succeeds_stmt; [done| |apply fresh_attachment; [exact Hk|exact Ha]].
      unfold sql_insert_attachment, insert_row. rewrite Hn. by rewrite bool_decide_true.
    + intros [] s1 e1 (Hr & _ & ->)%stmt_inv Hf1 Hk1. apply insert_attachment_inv in Hr as [_ Hdb].
      eapply succeeds_bind; [|intros; by apply succeeds_ret]. apply IH; [done|by rewrite Hdb|done].
Qed.
Lemma caps_succeeds key a i k s e :
  fault_free s → fresh_keys key k (sql_db s) e → succeeds (db_caps a i) s e (fresh_keys key k).
Proof.
  intros Hf Hk. unfold db_caps. apply (succeeds_bind _ _ _ _ (fresh_keys key k)); [by eexists _, _, _|].
  intros s0 s1 e1 _ Hf1 Hk1. cbn zeta. apply (succeeds_bind _ _ _ _ (fresh_keys key k)).
  { case_match; [apply succeeds_exec; [done|by apply fresh_delete]|by apply succeeds_ret]. }
  intros ? s2 e2 _ Hf2 Hk2. apply (succeeds_bind _ _ _ _ (fresh_keys key k)).
  { case_match; [apply succeeds_exec; [done|by apply fresh_delete]|by apply succeeds_ret]. }
  intros ? s3 e3 _ Hf3 Hk3. by apply succeeds_ret.
Qed.

Lemma save_succeeds key u t a m k s e :
  fault_free s → is_Some (t_mailboxes (sql_db s) !! a) → t_messages (sql_db s) !! key u = None →
  apart key u (length (nm_attachments m) + k) e →
  fresh_keys key (length (nm_attachments m) + k) (sql_db s) e →
  succeeds (db_save key u t a m) s e (fresh_keys key k).
Proof.
  intros Hf Hb Hu Ha Hk. unfold db_save. apply (succeeds_bind _ _ _ _ (fresh_keys key (length (nm_attachments m) + k))).
  - eapply succeeds_stmt; [done| |apply fresh_message; [exact Hk|exact Ha]].
    unfold sql_insert_message, insert_row. rewrite Hu. cbn. by rewrite bool_decide_true.
  - intros [] s1 e1 (Hi & _ & ->)%stmt_inv Hf1 Hk1. apply insert_message_inv in Hi as (_ & _ & Hdb).
    apply (succeeds_bind _ _ _ _ (fresh_keys key k)).
    { apply insert_attachments_succeeds; [done| |done]. rewrite Hdb. cbn. rewrite lookup_insert_eq. by eexists. }
    intros atts s2 e2 _ Hf2 Hk2. apply (succeeds_bind _ _ _ _ (fresh_keys key k)); [by apply caps_succeeds|].
    intros ? s3 e3 _ Hf3 Hk3. by apply succeeds_ret.
Qed.

(** Without its mailbox the message is refused by the foreign key. *)
Lemma save_needs_mailbox key u t a m s e st w :
  db_save key u t a m (s, e) = (Ok st, w) → is_Some (t_mailboxes (sql_db s) !! a).
Proof.
  unfold db_save. intros Hr. apply bind_inv in Hr as ([] & [s1 e1] & (Hi & _)%stmt_inv & _).
  by apply insert_message_inv in Hi as (_ & ? & _).
Qed.
End total.

(** ** Both backends *)

(** How a save can end. *)
Record save_outcome {I} `{Countable I} (save : SM (SqlStore I) StoredMessage) (key : Uuid → I)
    (a : str) (m : NewMessage) (s : SqlStore I) (e : Env) : Prop := {
  so_failure er w : save (s, e) = (Err er, w) → sql_db w.1 = sql_db s;
  so_no_mailbox : t_mailboxes (sql_db s) !! a = None → ¬ is_Ok (save (s, e)).1;
  so_success : fault_free s → is_Some (t_mailboxes (sql_db s) !! a) →
    fresh_keys key (S (length (nm_attachments m))) (sql_db s) e → is_Ok (save (s, e)).1;
}.

Lemma succeeds_Ok {I A} `{Countable I} (m : SM (SqlStore I) A) s e Q : succeeds m s e Q → is_Ok (m (s, e)).1.
Proof. by intros (a & s' & e' & -> & _). Qed.

Lemma lite_save_succeeds `{UuidText} a m k s e :
  fault_free s → is_Some (t_mailboxes (sql_db s) !! a) →
  fresh_keys uuid_to_string (S (length (nm_attachments m)) + k) (sql_db s) e →
  succeeds (lite_save_message a m) s e (fresh_keys uuid_to_string k).
Proof.
  intros Hf Hb (Hu & _ & Ha & Hk)%fresh_draw. apply succeeds_transaction; [done|]. intros s1 Hd Hf1.
  apply (succeeds_bind _ _ _ _ (λ _ _, True)); [by eexists _, _, _|]. intros u s2 e2 Hdr _ _. injection Hdr as <- <- <-.
  apply (succeeds_bind _ _ _ _ (λ _ _, True)); [by eexists _, _, _|]. intros t s3 e3 Ht _ _. injection Ht as <- <- <-.
  apply save_succeeds; rewrite ?Hd; done || by eapply fresh_env.
Qed.
Lemma pg_save_succeeds a m k s e :
  fault_free s → is_Some (t_mailboxes (sql_db s) !! a) →
  fresh_keys (λ i, i) (S (length (nm_attachments m)) + k) (sql_db s) e →
  succeeds (pg_save_message a m) s e (fresh_keys (λ i, i) k).
Proof.
  intros Hf Hb (Hu & _ & Ha & Hk)%fresh_draw. apply succeeds_transaction; [done|]. intros s1 Hd Hf1.
  apply (succeeds_bind _ _ _ _ (λ _ _, True)); [by eexists _, _, _|]. intros t s2 e2 Ht _ _. injection Ht as <- <- <-.
  apply (succeeds_bind _ _ _ _ (λ _ _, True)); [by eexists _, _, _|]. intros u s3 e3 Hdr _ _. injection Hdr as <- <- <-.
  apply (save_succeeds (λ i, i)); rewrite ?Hd; done || by eapply fresh_env.
Qed.

(** C21: a save into a database happens wholly or not at all. When it fails, wherever
    between the first statement and the commit, the database is as before; it always
    fails when the mailbox does not exist, and it succeeds when the mailbox exists, no
    round trip fails and the identifiers it draws are new. This holds of both backends. *)
Theorem sql_save_all_or_nothing `{UuidText} a m :
  (∀ s e, save_outcome (lite_save_message a m) uuid_to_string a m s e) ∧
  (∀ s e, save_outcome (pg_save_message a m) (λ i, i) a m s e).
Proof.
  split; intros s e; split.
  1, 4: intros er w Hr; by apply transaction_err in Hr.
  1, 3: intros Hnone Hok.
  - destruct (lite_save_message a m (s, e)) as [[st|] [s' e']] eqn:Hr; [|done].
    apply lite_save_inv in Hr as (s1 & s2 & e1 & Hs & Hd & _). apply save_needs_mailbox in Hs.
    rewrite Hd, Hnone in Hs. by destruct Hs.
  - destruct (pg_save_message a m (s, e)) as [[st|] [s' e']] eqn:Hr; [|done].
    apply pg_save_inv in Hr as (s1 & s2 & e1 & Hs & Hd & _). apply save_needs_mailbox in Hs.
    rewrite Hd, Hnone in Hs. by destruct Hs.
  - intros Hf Ha Hk. eapply succeeds_Ok, (lite_save_succeeds a m 0); [done|done|by rewrite Nat.add_0_r].
  - intros Hf Ha Hk. eapply succeeds_Ok, (pg_save_succeeds a m 0); [done|done|by rewrite Nat.add_0_r].
Qed.

(** The second attempt of a save on a connection that fails once, at its fourth round
    trip, the insertion of the attachment: the first leaves no trace. *)
Lemma sql_save_all_or_nothing_witness :
  let w := @run_ops _ (@SqliteStore_Store hex_UuidText)
             [OpCreateMailbox (lit "a@x.io") (lit "x.io") 99 None None]
             (lite_new (λ n, bool_decide (n = 3%nat)), sql_demo_env) in
  let r := @lite_save_message hex_UuidText (lit "a@x.io") (demo_mail 5) (w.1, w.2) in
  save_outcome (@lite_save_message hex_UuidText (lit "a@x.io") (demo_mail 5)) (hex_text 32) (lit "a@x.io")
    (demo_mail 5) w.1 w.2 ∧ ¬ is_Ok r.1 ∧ t_messages (sql_db r.2.1) = ∅.
Proof.
  intros w r. split; [apply (proj1 (@sql_save_all_or_nothing hex_UuidText (lit "a@x.io") (demo_mail 5)))|].
  split; [intros Hok; vm_compute in Hok; exact Hok|vm_compute; reflexivity].
Defined.
