(* ===== verification/SqlRoundtrip.v ===== *)
(** * SqlRoundtrip: mail saved in a database can be read back

    The message, its raw form and its attachments, in both backends. Attachments come
    back ordered by identifier, not in the order of the message. *)

From S2P Require Import Prelude Str Model Config StoreSpec Rows UuidHex.
From S2P Require Import Sql SqlLaws SqlInvariant SqlMessages SqliteStore PostgresStore.
From S2P Require Import SqlClaims SqlMail SqlAtomic.

Section saved.
Context {I : Type} `{Countable I} `{!IdOrder I}.
Implicit Types d : Db I.

(** The tables hold message [r] under [i], and exactly these attachments of it. *)
Definition holds d (i : I) (r : MessageRec) (l : list (I * AttachmentRec I)) : Prop :=
  t_messages d !! i = Some r ∧ NoDup (map fst l) ∧
  ∀ x, x ∈ l ↔ t_attachments d !! x.1 = Some x.2 ∧ ar_message_id x.2 = i.

Lemma attachment_rows_message (key : Uuid → I) i metas l x :
  x ∈ attachment_rows key i metas l → ar_message_id x.2 = i.
Proof.
  unfold attachment_rows. intros (y & z & -> & _)%elem_of_zip_with. done.
Qed.

Lemma save_holds id_ok key u t a m s e st s' e' :
  db_save key u t a m (s, e) = (Ok st, (s', e')) → caps_fit (sql_quotas s) → db_wf id_ok (sql_db s) →
  Forall (λ x, newest_cmp (key u, message_row a m t) x = Lt) (newest_rows a (sql_db s)) →
  holds (sql_db s') (key u) (message_row a m t)
    (attachment_rows key (key u) (sm_attachments st) (nm_attachments m)) ∧
  Forall2 meta_for (sm_attachments st) (nm_attachments m) ∧
  (uuids e → Forall (λ m, uuid_range (am_id m)) (sm_attachments st)) ∧
  st = mkStoredMessage u a (nm_mail_from m) (nm_subject m) (nm_message_date m) (nm_text_body m)
         (nm_html_body m) (nm_raw_size m) t false (sm_attachments st).
Proof.
  intros Hs Hq Hd Hnew.
  apply save_run in Hs as (Hst & Hfresh & _ & Hn & _ & s1 & e1 & s2 & e2 & Ha & -> & Ht & Hp); [|done].
  apply insert_attachments_run in Ha as (_ & _ & Hm & Hnd & Hatt & _ & Hu). rewrite Ht in Hatt.
  assert (t_messages (sql_db s') !! key u = Some (message_row a m t)) as Hmsg.
  { apply (saved_inbox_new (sql_quotas s)) in Hnew. rewrite <-Hn in Hnew. by apply elem_of_newest in Hnew as [? _]. }
  split; [|done]. split_and!; [done|done|]. intros [j r].
  rewrite (pr_attachments _ _ Hp), Hatt. cbn. split.
  - intros Hin. pose proof (attachment_rows_message _ _ _ _ _ Hin) as Hi. cbn in Hi. rewrite Hi, Hmsg. eauto.
  - intros [[[Hold|?] _] Hi]; [|done]. apply (dw_attachments _ _ Hd) in Hold as [_ [x Hx]]. congruence.
Qed.

Lemma holds_attachments d i r l : holds d i r l → sql_attachments i d ≡ₚ l.
Proof.
  intros (_ & Hnd & Hl). unfold sql_attachments. rewrite sort_by_Permutation.
  apply NoDup_Permutation; [apply (NoDup_fmap_1 fst), rows_NoDup|by apply (NoDup_fmap_1 fst)|].
  intros x. by rewrite elem_of_rows, Hl, bool_decide_eq_true.
Qed.
Lemma holds_message d i r l : holds d i r l → sql_message (mr_mailbox_address r) i d = Some r.
Proof. intros (Hm & _). by apply sql_message_Some. Qed.

Lemma query_run {A} (f : Db I → A) s e :
  fault_free s → query f (s, e) = (Ok (f (sql_db s)), (set_db (sql_db s) (trip s), e)).
Proof. intros Hf. unfold query. by rewrite stmt_run, Hf. Qed.
Lemma fault_free_trip (s : SqlStore I) : fault_free s → fault_free (set_db (sql_db s) (trip s)).
Proof. intros Hf n. apply (Hf (S n)). Qed.

Lemma get_raw_run a i s e r l :
  fault_free s → holds (sql_db s) i r l → mr_mailbox_address r = a →
  (db_get_raw_message a i (s, e)).1 = Ok (mr_raw_content r).
Proof.
  intros Hf Hh <-. unfold db_get_raw_message, mbind, M_bind. rewrite query_run by done.
  by rewrite (holds_message _ _ _ _ Hh).
Qed.
Lemma get_attachment_run a i s e r l j x :
  fault_free s → holds (sql_db s) i r l → mr_mailbox_address r = a → (j, x) ∈ l →
  (db_get_attachment a i j (s, e)).1 = Ok (Some (mkAttachment (ar_filename x) (ar_content_type x) (ar_content x))).
Proof.
  intros Hf Hh <- Hx. unfold db_get_attachment. rewrite query_run by done.
  pose proof Hh as (_ & _ & Hl). apply Hl in Hx as [Hj Hi]. cbn in *. rewrite Hj, Hi.
  rewrite (holds_message _ _ _ _ Hh). by rewrite bool_decide_true.
Qed.
End saved.

Definition with_attachments (l : list AttachmentMeta) (m : StoredMessage) : StoredMessage :=
  mkStoredMessage (sm_id m) (sm_mailbox_address m) (sm_mail_from m) (sm_subject m) (sm_message_date m)
    (sm_text_body m) (sm_html_body m) (sm_raw_size m) (sm_received_at m) (sm_seen m) l.

(** What was saved as [m] and answered as [st] reads back from store [s]. *)
Definition reads_back {S} `{Store S} (s : S) (a : str) (m : NewMessage) (st : StoredMessage) : Prop :=
  ∀ e,
    (∃ l, l ≡ₚ sm_attachments st ∧
       (get_message a (sm_id st) (s, e)).1 = Ok (Some (with_attachments l st))) ∧
    (get_raw_message a (sm_id st) (s, e)).1 = Ok (nm_raw_content m) ∧
    ∀ n meta att, sm_attachments st !! n = Some meta → nm_attachments m !! n = Some att →
      (get_attachment a (sm_id st) (am_id meta) (s, e)).1
      = Ok (Some (mkAttachment (am_filename meta) (am_content_type meta) (na_content att))).

Lemma collect_map_total {A B E} (f : A → result B E) g l :
  (∀ x, x ∈ l → f x = Ok (g x)) → collect (map f l) = Ok (map g l).
Proof.
  induction l as [|x l IH]; intros Hf; cbn; [done|]. rewrite (Hf x) by left.
  rewrite IH; [done|]. intros y Hy. apply Hf. by right.
Qed.
(** The answers of [g] on the rows just written are the metadata answered by the save. *)
Lemma metas_of_rows {I} (key : Uuid → I) (g : I * AttachmentRec I → AttachmentMeta) i metas l :
  Forall2 meta_for metas l →
  Forall (λ meta, ∀ r, g (key (am_id meta), r)
                  = mkAttachmentMeta (am_id meta) (ar_filename r) (ar_content_type r) (ar_size r)) metas →
  map g (attachment_rows key i metas l) = metas.
Proof.
  induction 1 as [|meta att metas l (Hf & Ht & Hs) Hl IH]; intros Hg; [done|].
  apply Forall_cons in Hg as [Hg1 Hg2]. unfold attachment_rows in *. cbn. rewrite IH, Hg1 by done.
  f_equal. destruct meta. cbn in *. congruence.
Qed.
Lemma rows_lookup {I} (key : Uuid → I) i metas l n meta att :
  metas !! n = Some meta → l !! n = Some att →
  (key (am_id meta), attachment_row i att) ∈ attachment_rows key i metas l.
Proof.
  intros Hm Hl. apply (list_elem_of_lookup_2 _ n). unfold attachment_rows. rewrite lookup_zip_with, Hm.
  cbn. by rewrite Hl.
Qed.

(** ** Reading back *)

Definition stored (a : str) (m : NewMessage) (st : StoredMessage) : Prop :=
  st = mkStoredMessage (sm_id st) a (nm_mail_from m) (nm_subject m) (nm_message_date m) (nm_text_body m)
         (nm_html_body m) (nm_raw_size m) (sm_received_at st) false (sm_attachments st).

Section sqlite.
Context `{UuidText}.

Definition parsed_meta (x : str * AttachmentRec str) : AttachmentMeta :=
  mkAttachmentMeta (default 0 (uuid_parse_str x.1)) (ar_filename x.2) (ar_content_type x.2) (ar_size x.2).

Lemma lite_reads_back (s : SqliteStore) a m st :
  fault_free s → uuid_range (sm_id st) → Forall (λ m, uuid_range (am_id m)) (sm_attachments st) →
  Forall2 meta_for (sm_attachments st) (nm_attachments m) → stored a m st →
  holds (sql_db s) (uuid_to_string (sm_id st)) (message_row a m (sm_received_at st))
    (attachment_rows uuid_to_string (uuid_to_string (sm_id st)) (sm_attachments st) (nm_attachments m)) →
  reads_back s a m st.
Proof.
  intros Hf Hid Hr Hmeta Hst Hh e. split_and!.
  - pose proof (holds_attachments _ _ _ _ Hh) as Hp.
    exists (map parsed_meta (sql_attachments (uuid_to_string (sm_id st)) (sql_db s))). split.
    + rewrite Hp, (metas_of_rows uuid_to_string); [done|done|]. eapply Forall_impl; [exact Hr|].
      intros meta Hmr r. unfold parsed_meta. cbn. by rewrite uuid_parse_to_string.
    + change (get_message a (sm_id st)) with (lite_get_message a (sm_id st)).
      unfold lite_get_message, mbind, M_bind. rewrite query_run by done.
      rewrite (holds_message _ _ _ _ Hh : sql_message a _ _ = _). cbn [fmap option_fmap option_map].
      rewrite query_run, map_map by (by apply fault_free_trip).
      rewrite (collect_map_total _ parsed_meta).
      * cbn. unfold parse_uuid. rewrite uuid_parse_to_string by done. cbn.
        unfold with_attachments. by rewrite Hst.
      * intros x Hx. rewrite Hp in Hx. unfold attachment_rows in Hx.
        apply elem_of_zip_with in Hx as (meta & att & -> & Hin & _). rewrite Forall_forall in Hr.
        unfold lite_attachment_meta, parsed_meta, parse_uuid. cbn.
        by rewrite uuid_parse_to_string by (by apply Hr).
  - exact (get_raw_run _ _ _ _ _ _ Hf Hh eq_refl).
  - intros n meta att Hn Ha. destruct (Forall2_lookup_lr _ _ _ _ _ _ Hmeta Hn Ha) as (-> & -> & _).
    exact (get_attachment_run _ _ _ _ _ _ _ _ Hf Hh eq_refl (rows_lookup _ _ _ _ _ _ _ Hn Ha)).
Qed.
End sqlite.

Lemma pg_reads_back (s : PostgresStore) a m st :
  fault_free s → Forall2 meta_for (sm_attachments st) (nm_attachments m) → stored a m st →
  holds (sql_db s) (sm_id st) (message_row a m (sm_received_at st))
    (attachment_rows (λ i, i) (sm_id st) (sm_attachments st) (nm_attachments m)) →
  reads_back s a m st.
Proof.
  intros Hf Hmeta Hst Hh e. split_and!.
  - pose proof (holds_attachments _ _ _ _ Hh) as Hp.
    exists (map (λ x, AttachmentMeta_from (select_attachment x)) (sql_attachments (sm_id st) (sql_db s))). split.
    + rewrite Hp, (metas_of_rows (λ i, i)); [done|done|]. by apply Forall_true.
    + change (get_message a (sm_id st)) with (pg_get_message a (sm_id st)).
      unfold pg_get_message, mbind, M_bind. rewrite query_run by done.
      rewrite (holds_message _ _ _ _ Hh : sql_message a _ _ = _). cbn [fmap option_fmap option_map].
      rewrite query_run, map_map by (by apply fault_free_trip). cbn. unfold with_attachments. by rewrite Hst.
  - exact (get_raw_run _ _ _ _ _ _ Hf Hh eq_refl).
  - intros n meta att Hn Ha. destruct (Forall2_lookup_lr _ _ _ _ _ _ Hmeta Hn Ha) as (-> & -> & _).
    exact (get_attachment_run _ _ _ _ _ _ _ _ Hf Hh eq_refl (rows_lookup _ _ _ _ _ _ _ Hn Ha)).
Qed.

(** Mail saved in a database reads back, in both backends: in any state that calls of
    the interface can reach, a message saved as the newest of its mailbox is answered by
    [get_message] as the save answered it, up to the order of its attachments, with its
    raw form and the content of every attachment. *)
Theorem sql_save_get_roundtrip `{UuidText} a m e q :
  uuids e → caps_fit q →
  (∀ s st s' e', db_wf lite_id_ok (sql_db s) → sql_quotas s = q →
     lite_save_message a m (s, e) = (Ok st, (s', e')) → fault_free s' →
     Forall (λ x, newest_cmp (uuid_to_string (sm_id st), message_row a m (sm_received_at st)) x = Lt)
       (newest_rows a (sql_db s)) →
     reads_back s' a m st) ∧
  (∀ s st s' e', db_wf pg_id_ok (sql_db s) → sql_quotas s = q →
     pg_save_message a m (s, e) = (Ok st, (s', e')) → fault_free s' →
     Forall (λ x, newest_cmp (sm_id st, message_row a m (sm_received_at st)) x = Lt)
       (newest_rows a (sql_db s)) →
     reads_back s' a m st).
Proof.
  intros He Hfit. split; intros s st s' e' Hd <-.
  - intros (s1 & s2 & e1 & Hs & Hdb & Hq & Hs' & Hu)%lite_save_inv Hf Hnew.
    destruct (Hu He) as [He1 Hid]. rewrite <-Hdb, <-Hq in *.
    eapply save_holds in Hs as (Hh & Hmeta & Hr & Hst); [|done..]. rewrite <-Hs' in Hh.
    apply lite_reads_back; auto.
  - intros (s1 & s2 & e1 & Hs & Hdb & Hq & Hs' & Hu)%pg_save_inv Hf Hnew. rewrite <-Hdb, <-Hq in *.
    eapply (save_holds _ (λ i, i)) in Hs as (Hh & Hmeta & _ & Hst); [|done..]. rewrite <-Hs' in Hh.
    by apply pg_reads_back.
Qed.

Lemma lite_demo_fault_free : fault_free lite_demo_save.2.1.
Proof. intros n. vm_compute. reflexivity. Qed.
Lemma lite_demo_newest :
  match lite_demo_save.1 with
  | Ok st => forallb (λ x, match newest_cmp (hex_text 32 (sm_id st),
                                   message_row (lit "a@x.io") (demo_mail 50) (sm_received_at st)) x with
                           | Lt => true | _ => false end) (newest_rows (lit "a@x.io") (sql_db lite_demo.1))
  | Err _ => false
  end = true.
Proof. vm_compute. reflexivity. Qed.
Lemma lite_demo_wf : sql_wf (@lite_id_ok hex_UuidText) lite_demo.
Proof.
  apply (run_ops_preserves (sql_wf (@lite_id_ok hex_UuidText))); [apply lite_keep_op, lite_key_ok|].
  split; [apply db_wf_empty|apply sql_demo_uuids].
Qed.

Lemma sql_save_get_roundtrip_witness :
  ∃ st s' e', lite_demo_save = (Ok st, (s', e')) ∧
    @reads_back _ (@SqliteStore_Store hex_UuidText) s' (lit "a@x.io") (demo_mail 50) st.
Proof.
  assert (caps_fit (mkMailboxQuotas 2 100)) as Hf by (split; cbn; lia).
  destruct lite_demo_wf as [Hwf Hu].
  pose proof (proj1 (@sql_save_get_roundtrip hex_UuidText (lit "a@x.io") (demo_mail 50) lite_demo.2 _ Hu Hf)
                lite_demo.1) as Hrt.
  fold lite_demo_save in Hrt. pose proof lite_demo_fault_free as Hff. pose proof lite_demo_newest as Hn.
  destruct lite_demo_save as [[st|er] [s' e']]; [|done].
  exists st, s', e'. split; [done|]. apply (Hrt st s' e' Hwf lite_demo_quotas eq_refl Hff).
  apply Forall_forall. intros x Hx. cbn [fst] in Hn. rewrite forallb_forall in Hn. apply list_elem_of_In, Hn in Hx.
  by destruct (newest_cmp _ x).
Defined.
