(* ===== verification/SqlListing.v ===== *)
(** * SqlListing: listings of the database against those of the in-memory store

    The listing query of PostgreSQL filters by a cursor looked up in the same statement,
    orders and limits in the engine; the in-memory store collects, filters, sorts and
    truncates. On mailboxes that hold the same messages both answer the same page. *)

From S2P Require Import Prelude Str Model Config StoreSpec Rows MemoryStore MemoryMessages.
From S2P Require Import Sql SqlLaws SqlInvariant SqlMessages PostgresStore SqlClaims SqlMail SqlRoundtrip.

Section listing.
Variable a : str.
Implicit Types s : MemoryStore.
Implicit Types d : Db Uuid.

(** What the listing answers for a row. *)
Definition row_summary d (x : Uuid * MessageRec) : MessageSummary := pg_summary (select_summary d x).

(** The two stores hold the same messages in the mailbox, as far as listings show. *)
Definition same_inbox s d : Prop :=
  map summary (inbox s a) ≡ₚ map (row_summary d) (rows (in_box a) (t_messages d)).

Definition row_key (x : Uuid * MessageRec) : Z * Z := (mr_received_at x.2, x.1).
(** The cursor filter on summaries. *)
Definition after_key (anchor : option (Z * Z)) (m : MessageSummary) : bool :=
  match anchor with None => true | Some k => bool_decide (key_lt k (summary_key m)) end.

Lemma same_inbox_ids s d : same_inbox s d → NoDup (map ms_id (map summary (inbox s a))).
Proof.
  intros ->. rewrite map_map. cbn. apply (rows_NoDup (in_box a) (t_messages d)).
Qed.

Lemma row_after_key x y : row_after x y = bool_decide (key_lt (row_key y) (row_key x)).
Proof.
  unfold row_after, key_lt. assert (newest_cmp y x = cmp_key (row_key x) (row_key y)) as -> by done.
  pose proof (cmp_key_gt (row_key x) (row_key y)) as Hg.
  destruct (cmp_key (row_key x) (row_key y)) eqn:Hc; case_bool_decide as Hb; naive_solver.
Qed.

(** Both cursors name the same place: the message of that identifier in the mailbox. *)
Lemma same_anchor s d since :
  same_inbox s d → list_anchor s a since = row_key <$> cursor_row a since d.
Proof.
  intros Hs. destruct since as [id|]; [|done]. cbn [list_anchor cursor_row].
  destruct (find (is_message a id) (messages s)) as [en|] eqn:Hf; cbn [fmap option_fmap option_map].
  - apply find_Some in Hf as [Hin Hm]. apply andb_true_iff in Hm as [Hbox Hid].
    apply bool_decide_eq_true in Hid.
    assert (summary en ∈ map (row_summary d) (rows (in_box a) (t_messages d))) as Hx.
    { rewrite <-Hs. apply list_elem_of_fmap. exists en. split; [done|]. by apply elem_of_retain. }
    apply list_elem_of_fmap in Hx as ([i r] & He & [Hl Hb]%elem_of_rows). cbn in Hl, Hb.
    unfold summary, row_summary, pg_summary in He. cbn in He. injection He as He1 _ _ He2 _ _.
    rewrite <-Hid, He1, Hl, Hb. cbn. unfold entry_key, row_key. cbn. by rewrite He1, He2.
  - destruct (t_messages d !! id) as [r|] eqn:Hl; [|done]. destruct (in_box a id r) eqn:Hb; [|done].
    assert (row_summary d (id, r) ∈ map summary (inbox s a)) as Hx.
    { rewrite Hs. apply list_elem_of_fmap. exists (id, r). split; [done|]. by apply elem_of_rows. }
    apply list_elem_of_fmap in Hx as (en & He & [Hin Hbox]%elem_of_retain).
    unfold summary, row_summary, pg_summary in He. cbn in He. injection He as He1 _ _ _ _ _.
    exfalso. rewrite find_None in Hf. specialize (Hf en Hin). unfold is_message in Hf.
    by rewrite Hbox, <-He1, bool_decide_true in Hf.
Qed.

Lemma map_sorted {A B} (f : A → B) (R : B → B → Prop) l :
  StronglySorted (λ x y, R (f x) (f y)) l → StronglySorted R (map f l).
Proof.
  induction 1 as [|x l Hl IH Hx]; cbn; [constructor|]. constructor; [done|].
  by apply Forall_fmap.
Qed.

Abbreviation sorted := (StronglySorted (λ x y, summary_cmp x y ≠ Gt)).

Lemma summaries_unique l k : NoDup (map ms_id l) → sorted l → sorted k → l ≡ₚ k → l = k.
Proof.
  intros Hnd Hl Hk Hp. apply (StronglySorted_unique_strong (λ x y, summary_cmp x y ≠ Gt)); [|done..].
  intros x y Hx Hy Hxy Hyx. rewrite <-Hp in Hy. apply (NoDup_map_inj ms_id l); [done..|].
  assert (∀ x y, summary_cmp x y = cmp_key (summary_key y) (summary_key x)) as Hc by done.
  rewrite Hc, cmp_key_not_gt in *. destruct Hxy as [[= _ ?]|Hxy]; [done|].
  destruct Hyx as [[= _ ?]|Hyx]; [done|]. destruct (key_lt_irrefl (summary_key x)). by eapply key_lt_trans.
Qed.

Lemma sql_listing_summaries d since :
  map (row_summary d) (sql_listing a since d)
  = retain (after_key (row_key <$> cursor_row a since d)) (map (row_summary d) (newest_rows a d)).
Proof.
  rewrite retain_map. unfold sql_listing. destruct (cursor_row a since d) as [y|]; cbn.
  - f_equal. apply retain_ext. intros x _. apply row_after_key.
  - f_equal. symmetry. by apply retain_true.
Qed.

(** The full listings agree. *)
Lemma listing_agrees s d since :
  same_inbox s d →
  map (row_summary d) (sql_listing a since d)
  = sort_by summary_cmp (map summary (retain (newer_than (list_anchor s a since)) (inbox s a))).
Proof.
  intros Hs. rewrite sql_listing_summaries, <-(same_anchor s d since Hs).
  set (k := list_anchor s a since).
  assert (map summary (retain (newer_than k) (inbox s a)) = retain (after_key k) (map summary (inbox s a))) as ->
    by by rewrite retain_map.
  assert (retain (after_key k) (map (row_summary d) (newest_rows a d))
          ≡ₚ retain (after_key k) (map summary (inbox s a))) as Hp.
  { apply retain_Permutation. rewrite Hs. unfold newest_rows. by rewrite sort_by_Permutation. }
  apply summaries_unique.
  - rewrite Hp. apply same_inbox_ids in Hs. by apply map_retain_NoDup.
  - apply StronglySorted_retain, map_sorted. exact (newest_rows_sorted a d).
  - apply sort_by_StronglySorted; intros *;
      change (summary_cmp ?x ?y) with (cmp_key (summary_key y) (summary_key x)).
    + intros Hg. rewrite cmp_key_gt in Hg. congruence.
    + rewrite !cmp_key_not_gt. intros [->|H1] [->|H2]; auto. right. by eapply key_lt_trans.
  - by rewrite sort_by_Permutation.
Qed.
End listing.

(** The two backends page alike. On a mailbox that holds the same messages in the
    in-memory store and in a PostgreSQL database, every listing gives the same answer:
    the same page of summaries in the same order, for every limit and every cursor, also
    one that names no message of the mailbox. *)
Theorem pg_listing_as_memory a limit since sm em s e :
  same_inbox a sm (sql_db s) → 0 ≤ limit → sql_faults s 0%nat = false →
  (pg_list_messages a limit since (s, e)).1 = (mem_list_messages a limit since (sm, em)).1.
Proof.
  intros Hs Hl Hf.
  assert ((mem_list_messages a limit since (sm, em)).1 =
    let l := sort_by summary_cmp (map summary (retain (newer_than (list_anchor sm a since)) (inbox sm a))) in
    Ok (if bool_decide (0 < limit) then take (Z.to_nat limit) l else l)) as -> by done.
  cbn zeta. rewrite <-(listing_agrees a sm (sql_db s) since Hs).
  unfold pg_list_messages. rewrite query_then. unfold query, stmt. cbn [fst snd]. rewrite Hf. cbn [fst]. f_equal.
  rewrite map_map. change (λ x, pg_summary (select_summary (sql_db s) x)) with (row_summary (sql_db s)).
  unfold pg_limit. case_bool_decide as H0.
  - subst. by rewrite bool_decide_false by lia.
  - rewrite bool_decide_true by lia. symmetry. apply firstn_map.
Qed.

(** The same calls on both backends: two saved messages, listed after the first. *)
Definition plain_mail : NewMessage := mkNewMessage (lit "s@y.io") None None None None 3 None [].
Definition listing_ops : list op :=
  [OpCreateMailbox (lit "a@x.io") (lit "x.io") 99 None None; OpSave (lit "a@x.io") plain_mail;
   OpSave (lit "a@x.io") plain_mail].
Definition listing_mem : MemoryStore * Env := run_ops listing_ops (new, sql_demo_env).
Definition listing_pg : PostgresStore * Env := run_ops listing_ops (pg_new (λ _, false), sql_demo_env).
Lemma listing_demo :
  same_inbox (lit "a@x.io") listing_mem.1 (sql_db listing_pg.1) ∧ sql_faults listing_pg.1 0%nat = false ∧
  map ms_id (match (mem_list_messages (lit "a@x.io") 5 (Some 10) listing_mem).1 with Ok l => l | Err _ => [] end) = [11].
Proof. split; [unfold same_inbox; vm_compute; apply Permutation_swap|]. split; vm_compute; reflexivity. Qed.

Lemma pg_listing_as_memory_witness :
  (pg_list_messages (lit "a@x.io") 5 (Some 10) (listing_pg.1, listing_pg.2)).1
  = (mem_list_messages (lit "a@x.io") 5 (Some 10) (listing_mem.1, listing_mem.2)).1.
Proof.
  destruct listing_demo as (Hs & Hf & _).
  exact (pg_listing_as_memory (lit "a@x.io") 5 (Some 10) listing_mem.1 listing_mem.2 listing_pg.1 listing_pg.2
    Hs ltac:(discriminate) Hf).
Defined.
