(* ===== verification/SqlInbox.v ===== *)
(** * SqlInbox: the database backends keep the promises about mail

    The inbox of a mailbox in a database is its rows newest first, with their attachments,
    identifiers read back from the form the engine stores them in. The theory is common to
    both backends; [SqlInboxLaws] builds the two instances of [MailLaws]. *)

From S2P Require Import Prelude Str Model Config StoreSpec MailSpec.
From S2P Require Import Sql SqlLaws SqlInvariant SqlMessages SqlRoundtrip.

Section inbox.
Context {I : Type} `{Countable I} `{!IdOrder I}.

(** How identifiers are stored and read back. *)
Variable key : Uuid → I.
Variable unkey : I → Uuid.
Variable id_ok : I → Prop.
Hypothesis key_ok : ∀ u, uuid_range u → id_ok (key u).
Hypothesis unkey_key : ∀ u, uuid_range u → unkey (key u) = u.
Hypothesis key_unkey : ∀ i, id_ok i → key (unkey i) = i.
Hypothesis unkey_range : ∀ i, id_ok i → uuid_range (unkey i).

Implicit Types d : Db I.
Implicit Types s : SqlStore I.

Definition row_meta (x : I * AttachmentRec I) : AttachmentMeta :=
  mkAttachmentMeta (unkey x.1) (ar_filename x.2) (ar_content_type x.2) (ar_size x.2).
Definition row_file (x : I * AttachmentRec I) : AttachmentMeta * bytes := (row_meta x, ar_content x.2).
Definition of_message (i : I) (_ : I) (a : AttachmentRec I) : bool := bool_decide (ar_message_id a = i).
Definition row_files d (i : I) : list (AttachmentMeta * bytes) :=
  map row_file (rows (of_message i) (t_attachments d)).
Definition row_mail d (x : I * MessageRec) : Mail :=
  let r := x.2 in
  mkMail (unkey x.1) (mr_mail_from r) (mr_subject r) (mr_message_date r) (mr_text_body r) (mr_html_body r)
    (mr_raw_size r) (mr_received_at r) (mr_seen r) (mr_raw_content r) (row_files d x.1).
Definition db_mail d (a : str) : list Mail := map (row_mail d) (newest_rows a d).
Definition sql_mail s (a : str) : list Mail := db_mail (sql_db s) a.
Definition sql_mail_wf (w : SqlStore I * Env) : Prop := sql_wf id_ok w ∧ caps_fit (sql_quotas w.1).

Lemma key_inj u v : uuid_range u → uuid_range v → key u = key v → u = v.
Proof. intros Hu Hv Hk. by rewrite <-(unkey_key u), Hk, unkey_key. Qed.
Lemma unkey_inj i j : id_ok i → id_ok j → unkey i = unkey j → i = j.
Proof. intros Hi Hj Hk. by rewrite <-(key_unkey i), Hk, key_unkey. Qed.

(** ** The rows of an inbox *)

Lemma newest_ok a d x : db_wf id_ok d → x ∈ newest_rows a d → id_ok x.1.
Proof. intros Hd [Hx _]%elem_of_newest. by apply (dw_messages _ _ Hd) in Hx as [? _]. Qed.
Lemma NoDup_unkey {R} (l : list (I * R)) :
  NoDup (map fst l) → (∀ x, x ∈ l → id_ok x.1) → NoDup (map (λ x, unkey x.1) l).
Proof.
  intros Hnd Hok. rewrite <-(map_map fst unkey). apply NoDup_fmap_2_strong; [|done].
  intros i j (x & -> & Hx)%list_elem_of_fmap (y & -> & Hy)%list_elem_of_fmap. apply unkey_inj; auto.
Qed.
Lemma db_mail_nodup d a : db_wf id_ok d → NoDup (map ml_id (db_mail d a)).
Proof.
  intros Hd. unfold db_mail. rewrite map_map. apply NoDup_unkey; [apply newest_rows_NoDup|].
  intros x. by apply newest_ok.
Qed.
Lemma db_mail_range d a : db_wf id_ok d → Forall (λ m, uuid_range (ml_id m)) (db_mail d a).
Proof.
  intros Hd. apply Forall_map, Forall_forall. intros x Hx. cbn. eapply unkey_range, newest_ok; done.
Qed.
Lemma newest_rows_received a d :
  StronglySorted (λ x y, mr_received_at y.2 ≤ mr_received_at x.2) (newest_rows a d).
Proof.
  pose proof (newest_rows_sorted a d) as Hs. induction Hs as [|x l _ IH Hx]; constructor; [done|].
  eapply Forall_impl; [exact Hx|]. intros y Hy. destruct (newest_cmp x y) eqn:Hc; [| |done].
  - apply newest_cmp_eq in Hc as [-> _]. lia.
  - apply newest_cmp_lt in Hc. lia.
Qed.
Lemma db_mail_sorted d a : StronglySorted (λ x y, ml_received y ≤ ml_received x) (db_mail d a).
Proof.
  pose proof (newest_rows_received a d) as Hs. unfold db_mail.
  induction Hs as [|x l _ IH Hx]; cbn; constructor; [done|]. by apply Forall_map.
Qed.
Lemma elem_of_files d i x : x ∈ rows (of_message i) (t_attachments d) ↔
  t_attachments d !! x.1 = Some x.2 ∧ ar_message_id x.2 = i.
Proof. rewrite elem_of_rows. unfold of_message. by rewrite bool_decide_eq_true. Qed.
Lemma db_mail_files d a :
  db_wf id_ok d → Forall (λ m, NoDup (map (λ f, am_id f.1) (ml_files m)) ∧
                               Forall (λ f, uuid_range (am_id f.1)) (ml_files m)) (db_mail d a).
Proof.
  intros Hd. apply Forall_map, Forall_forall. intros x _. cbn.
  assert (∀ y, y ∈ rows (of_message x.1) (t_attachments d) → id_ok y.1) as Hok.
  { intros y [Hy _]%elem_of_files. by apply (dw_attachments _ _ Hd) in Hy as [? _]. }
  unfold row_files. split.
  - rewrite map_map. apply NoDup_unkey; [apply rows_NoDup|done].
  - apply Forall_map, Forall_forall. intros y Hy. cbn. auto.
Qed.

(** ** Databases that hold the same attachments of a message *)

Lemma rows_ext {R} (p : I → R → bool) (t t' : gmap I R) :
  (∀ i r, p i r = true → t !! i = Some r ↔ t' !! i = Some r) → rows p t = rows p t'.
Proof.
  intros Ht. unfold rows. f_equal. apply map_eq. intros i. apply option_eq. intros r.
  rewrite !map_lookup_filter_Some. cbn. split; intros [Hi Hp]; (split; [|done]); by apply (Ht i r Hp).
Qed.
Lemma row_mail_ext d d' x :
  (∀ j r, ar_message_id r = x.1 → t_attachments d !! j = Some r ↔ t_attachments d' !! j = Some r) →
  row_mail d x = row_mail d' x.
Proof.
  intros Ha. unfold row_mail, row_files. do 2 f_equal. apply rows_ext. intros j r Hr. apply Ha.
  by apply bool_decide_eq_true in Hr.
Qed.
Lemma pruned_row_mail d d' x :
  pruned d d' → is_Some (t_messages d' !! x.1) → row_mail d' x = row_mail d x.
Proof.
  intros Hp Hx. apply row_mail_ext. intros j r Hr. rewrite (pr_attachments _ _ Hp). rewrite Hr. tauto.
Qed.
Lemma db_mail_same d d' a :
  t_messages d' = t_messages d → t_attachments d' = t_attachments d → db_mail d' a = db_mail d a.
Proof.
  intros Hm Ha. unfold db_mail. rewrite (newest_rows_messages a d d' Hm).
  apply map_ext. intros x. apply row_mail_ext. by rewrite Ha.
Qed.

(** ** Deletions *)

Lemma db_mail_delete p d a (q : Mail → bool) :
  (∀ x, x ∈ newest_rows a d → p x.1 x.2 = q (row_mail d x)) →
  db_mail (sql_delete_messages p d).2 a = retain (λ m, negb (q m)) (db_mail d a).
Proof.
  intros Hpq. unfold db_mail. rewrite retain_map, newest_delete.
  assert (retain (λ x, negb (p x.1 x.2)) (newest_rows a d)
          = retain (λ x, negb (q (row_mail d x))) (newest_rows a d)) as ->.
  { apply retain_ext. intros x Hx. by rewrite Hpq. }
  apply map_ext_in. intros x [Hx Hq]%list_elem_of_In%elem_of_retain.
  apply pruned_row_mail; [apply pruned_delete|]. apply elem_of_newest in Hx as Hm. destruct Hm as [Hm _].
  exists x.2. cbn. unfold without. apply map_lookup_filter_Some. split; [done|]. cbn.
  apply negb_true_iff in Hq. by rewrite Hpq.
Qed.

(** Finding a message by its identifier. *)
Lemma db_mail_find d a i :
  db_wf id_ok d → uuid_range i →
  find (has_id i) (db_mail d a) = (λ r, row_mail d (key i, r)) <$> sql_message a (key i) d.
Proof.
  intros Hd Hi. destruct (sql_message a (key i) d) as [r|] eqn:Hr; cbn.
  - apply sql_message_Some in Hr as [Hr Ha]. assert ((key i, r) ∈ newest_rows a d) as Hin by by apply elem_of_newest.
    assert (row_mail d (key i, r) ∈ db_mail d a) as Hm by (apply list_elem_of_fmap; eauto).
    destruct (find (has_id i) (db_mail d a)) as [m|] eqn:Hf.
    + apply find_Some in Hf as [Hmin Hid%has_id_true]. f_equal.
      apply (NoDup_map_inj ml_id (db_mail d a)); [by apply db_mail_nodup|done|done|].
      cbn. by rewrite unkey_key.
    + rewrite find_None in Hf. specialize (Hf _ Hm). unfold has_id in Hf. boolify.
      cbn in Hf. by rewrite unkey_key in Hf.
  - apply find_None. intros m (x & -> & Hx)%list_elem_of_fmap. unfold has_id. boolify. cbn. intros Hid.
    pose proof (newest_ok a d x Hd Hx) as Hok. apply elem_of_newest in Hx as [Hx Ha].
    assert (sql_message a (key i) d = Some x.2) as Hs; [|congruence].
    apply sql_message_Some. by rewrite <-Hid, key_unkey.
Qed.

(** ** Marking *)

Definition mark_row (i : I) (x : I * MessageRec) : I * MessageRec :=
  if bool_decide (x.1 = i) then (x.1, with_seen x.2) else x.
Lemma mark_row_fst i x : (mark_row i x).1 = x.1.
Proof. unfold mark_row. by case_bool_decide. Qed.
Lemma mark_row_cmp i x y : newest_cmp (mark_row i x) (mark_row i y) = newest_cmp x y.
Proof. unfold mark_row. by repeat case_bool_decide. Qed.
Lemma newest_mark a i r d :
  t_messages d !! i = Some r →
  newest_rows a (set_t_messages (<[i := with_seen r]> (t_messages d)) d) = map (mark_row i) (newest_rows a d).
Proof.
  intros Hi. apply newest_rows_eq.
  - pose proof (newest_rows_sorted a d) as Hs. induction Hs as [|x l _ IH Hx]; cbn; constructor; [done|].
    apply Forall_map. eapply Forall_impl; [exact Hx|]. intros y Hy. by rewrite mark_row_cmp.
  - rewrite map_map, (map_ext _ fst) by (intros x; apply mark_row_fst). apply newest_rows_NoDup.
  - intros [j x]. rewrite list_elem_of_fmap. cbn. rewrite lookup_insert_Some. unfold mark_row. split.
    + intros ([k y] & Heq & [Hy Ha]%elem_of_newest). cbn in *. case_bool_decide; simplify_eq; auto.
    + intros [[[<- <-]|[Hne Hj]] Ha].
      * exists (i, r). cbn. rewrite bool_decide_true by done. split; [done|]. by apply elem_of_newest.
      * exists (j, x). cbn. rewrite bool_decide_false by done. split; [done|]. by apply elem_of_newest.
Qed.

Lemma db_mail_mark d a b i r :
  db_wf id_ok d → uuid_range i → sql_message a (key i) d = Some r →
  db_mail (set_t_messages (<[key i := with_seen r]> (t_messages d)) d) b
  = if bool_decide (b = a) then map (λ m, if has_id i m then see m else m) (db_mail d a) else db_mail d b.
Proof.
  intros Hd Hi [Hr Ha]%sql_message_Some. unfold db_mail. rewrite (newest_mark b (key i) r d Hr).
  rewrite map_map. case_bool_decide as Hb.
  - subst b. rewrite map_map. apply map_ext_in. intros x Hx%list_elem_of_In.
    assert (has_id i (row_mail d x) = bool_decide (x.1 = key i)) as ->.
    { apply bool_decide_ext. cbn. pose proof (newest_ok a d x Hd Hx) as Hok. split; [|intros ->; by apply unkey_key].
      intros <-. by rewrite key_unkey. }
    unfold mark_row. by case_bool_decide.
  - apply map_ext_in. intros x [Hx Hxa]%list_elem_of_In%elem_of_newest. unfold mark_row.
    rewrite bool_decide_false; [by apply row_mail_ext|]. intros Heq. congruence.
Qed.

(** ** Saving *)

(** The place of a new row. *)
Lemma insert_newest_split i r (l : list (I * MessageRec)) :
  StronglySorted (λ x y, mr_received_at y.2 ≤ mr_received_at x.2) l →
  ∃ l1 l2, l = l1 ++ l2 ∧ insert_by newest_cmp (i, r) l = l1 ++ (i, r) :: l2 ∧
    Forall (λ x, mr_received_at r ≤ mr_received_at x.2) l1 ∧
    Forall (λ x, mr_received_at x.2 ≤ mr_received_at r) l2.
Proof.
  induction 1 as [|x l _ IH Hx]; [by exists [], []|]. cbn. destruct (newest_cmp (i, r) x) eqn:Hc.
  3: { destruct IH as (l1 & l2 & -> & -> & H1 & H2). exists (x :: l1), l2. split_and!; [done|done| |done].
       constructor; [|done]. assert (newest_cmp x (i, r) = Lt) as Hlt
         by (by rewrite (newest_cmp_antisym (i, r)), Hc). apply newest_cmp_lt in Hlt. cbn in Hlt. lia. }
  all: exists [], (x :: l); split_and!; [done|done|constructor|];
    assert (mr_received_at x.2 ≤ mr_received_at r) by
      (first [apply newest_cmp_eq in Hc|apply newest_cmp_lt in Hc]; cbn in Hc; lia);
    constructor; [done|]; eapply Forall_impl; [exact Hx|]; cbn; lia.
Qed.

(** The caps on rows and on the messages they hold. *)
Lemma within_budget_bytes d max acc u (l : list (I * MessageRec)) :
  max < u64_max → (∀ x, x ∈ l → bool_decide (x.1 = key u) = has_id u (row_mail d x)) →
  map (row_mail d) (within_budget max acc (key u) l) = within_bytes (λ z, z) max acc u (map (row_mail d) l).
Proof.
  intros Hm. revert acc. induction l as [|[j r] l IH]; intros acc Hl; [done|]. cbn -[u64_max row_mail].
  rewrite map_app, IH by (intros x Hx; apply Hl; by right). f_equal.
  rewrite <-(Hl (j, r)) by left. cbn -[u64_max]. 
  assert ((Z.min u64_max (acc + mr_raw_size r) <=? max) = (acc + mr_raw_size r <=? max)) as ->.
  { apply eq_true_iff_eq. rewrite !Z.leb_le. lia. }
  by case_match.
Qed.
Lemma quota_keep_kept d q u (l : list (I * MessageRec)) :
  caps_fit q → (∀ x, x ∈ l → bool_decide (x.1 = key u) = has_id u (row_mail d x)) →
  map (row_mail d) (quota_keep q (key u) l) = quota_kept (λ z, z) q u (map (row_mail d) l).
Proof.
  intros [_ Hq] Hl. unfold quota_keep, quota_kept.
  assert (max_bytes q < u64_max) by (unfold i64_max, u64_max in *; lia).
  assert (∀ n, take n (map (row_mail d) l) = map (row_mail d) (take n l)) as Ht by (intros n; symmetry; apply fmap_take).
  repeat case_bool_decide; rewrite ?Ht; try done; apply within_budget_bytes; auto.
  intros x Hx. apply Hl. rewrite <-(take_drop (Z.to_nat (max_messages q)) l). apply elem_of_app. by left.
Qed.

(** What was in the inbox and what is added to it, for databases [d] before, [d2] with the
    new message and its attachments, [d'] after the quotas. *)
Lemma saved_received d d2 d' a u r q :
  newest_rows a d' = saved_inbox q (key u) r (newest_rows a d) → pruned d2 d' → caps_fit q →
  (∀ x, x ∈ newest_rows a d → row_mail d2 x = row_mail d x) →
  unkey (key u) = u → (∀ x, x ∈ newest_rows a d → key (unkey x.1) = x.1) →
  received (λ z, z) q (row_mail d2 (key u, r)) (db_mail d a) (db_mail d' a).
Proof.
  intros Hn Hp Hq Hold Hu Hk.
  assert (db_mail d' a = map (row_mail d2) (newest_rows a d')) as ->.
  { unfold db_mail. apply map_ext_in. intros x [Hx _]%list_elem_of_In%elem_of_newest.
    apply pruned_row_mail; [done|by eexists]. }
  assert (db_mail d a = map (row_mail d2) (newest_rows a d)) as ->.
  { unfold db_mail. apply map_ext_in. intros x Hx%list_elem_of_In. symmetry. auto. }
  rewrite Hn. unfold saved_inbox. pose proof (newest_rows_received a d) as Hs.
  destruct (insert_newest_split (key u) r (newest_rows a d) Hs) as (l1 & l2 & Hl & Hi & H1 & H2).
  exists (map (row_mail d2) l1), (map (row_mail d2) l2). split_and!.
  - by rewrite <-map_app, <-Hl.
  - by apply Forall_map.
  - by apply Forall_map.
  - assert (ml_id (row_mail d2 (key u, r)) = u) as -> by exact Hu.
    rewrite quota_keep_kept, Hi, map_app; [done|done|].
    intros x. rewrite insert_by_Permutation. intros Hx. unfold has_id. cbn. apply bool_decide_ext.
    apply elem_of_cons in Hx as [->|Hx]; [done|]. split; [by intros ->|]. intros <-. symmetry. auto.
Qed.

Lemma meta_for_describes metas l : Forall2 meta_for metas l → Forall2 describes metas l.
Proof. intros Hm. eapply Forall2_impl; [exact Hm|]. by intros meta x (? & ? & _). Qed.
Lemma files_of_rows i metas l :
  Forall2 meta_for metas l → Forall (λ m, uuid_range (am_id m)) metas →
  map row_file (attachment_rows key i metas l) = zip metas (map na_content l).
Proof.
  induction 1 as [|meta x metas l (Hf & Ht & Hs) _ IH]; [done|]. intros [Hr Hm]%Forall_cons.
  unfold attachment_rows in *. cbn. rewrite IH by done. f_equal. unfold row_file, row_meta. cbn.
  rewrite unkey_key by done. f_equal. destruct meta. cbn in *. congruence.
Qed.

(** The new message as the database holds it once its attachments are in. *)
Lemma new_row_mail d2 u t a m metas st :
  uuid_range u →
  st = mkStoredMessage u a (nm_mail_from m) (nm_subject m) (nm_message_date m) (nm_text_body m)
         (nm_html_body m) (nm_raw_size m) t false metas →
  rows (of_message (key u)) (t_attachments d2) ≡ₚ attachment_rows key (key u) metas (nm_attachments m) →
  Forall2 meta_for metas (nm_attachments m) → Forall (λ m, uuid_range (am_id m)) metas →
  shows a (row_mail d2 (key u, message_row a m t)) st ∧ carries m (row_mail d2 (key u, message_row a m t)).
Proof.
  intros Hu -> Hp Hm Hr. unfold shows, carries, row_mail, row_files. cbn.
  rewrite unkey_key, Hp, files_of_rows by done. split; (split; [done|]).
  - rewrite fst_zip; [done|]. rewrite length_map. apply Forall2_length in Hm. lia.
  - by rewrite zip_describes by by apply meta_for_describes.
Qed.

Lemma db_mail_save u t a m s e st s' e' :
  db_save key u t a m (s, e) = (Ok st, (s', e')) → caps_fit (sql_quotas s) → db_wf id_ok (sql_db s) →
  uuids e → uuid_range u →
  ∃ n, shows a n st ∧ carries m n ∧ ml_received n = t ∧ (ml_id n ∉ map ml_id (sql_mail s a)) ∧
       received (λ z, z) (sql_quotas s) n (sql_mail s a) (sql_mail s' a) ∧ ∀ b, b ≠ a → sql_mail s' b = sql_mail s b.
Proof.
  intros Hs Hq Hd He Hu.
  apply save_run in Hs as (Hst & Hfresh & _ & Hn & Ho & s1 & e1 & s2 & e2 & Ha & -> & Ht & Hp); [|done].
  apply insert_attachments_run in Ha as (_ & _ & Hm & Hnd & Hatt & _ & Hr). rewrite Ht in Hatt.
  specialize (Hr He). set (d2 := sql_db s2) in *.
  assert (∀ x, is_Some (t_messages (sql_db s) !! x.1) → row_mail d2 x = row_mail (sql_db s) x) as Hold.
  { intros x Hx. apply row_mail_ext. intros j r Hj. rewrite Hatt. split; [|by left].
    intros [?|Hin]; [done|]. apply attachment_rows_message in Hin. cbn in Hin.
    destruct Hx as [y Hy]. congruence. }
  assert (rows (of_message (key u)) (t_attachments d2)
          ≡ₚ attachment_rows key (key u) (sm_attachments st) (nm_attachments m)) as Hrows.
  { apply NoDup_Permutation; [apply (NoDup_fmap_1 fst), rows_NoDup|by apply (NoDup_fmap_1 fst)|].
    intros [j r]. rewrite elem_of_files, Hatt. cbn. split.
    - intros [[Hj|?] Hi]; [|done]. apply (dw_attachments _ _ Hd) in Hj as [_ [x Hx]]. congruence.
    - intros Hin. split; [by right|]. by apply attachment_rows_message in Hin. }
  destruct (new_row_mail d2 u t a m _ st Hu Hst Hrows Hm Hr) as [Hshow Hcarry].
  exists (row_mail d2 (key u, message_row a m t)). split_and!; [done..| | |].
  - cbn. rewrite unkey_key by done. unfold sql_mail, db_mail. rewrite map_map.
    intros (x & Hx & Hin)%list_elem_of_fmap. cbn in Hx. apply (newest_ok a _ x Hd) in Hin as Hok.
    apply elem_of_newest in Hin as [Hin _]. rewrite Hx, key_unkey in Hfresh by done. congruence.
  - eapply saved_received; [done..| | |].
    + intros x [Hx _]%elem_of_newest. apply Hold. eauto.
    + by apply unkey_key.
    + intros x Hx. apply key_unkey. by apply (newest_ok a (sql_db s)).
  - intros b Hb. unfold sql_mail, db_mail. rewrite Ho by done. apply map_ext_in.
    intros x Hx%list_elem_of_In. rewrite <-Ho in Hx by done. apply elem_of_newest in Hx as Hx'.
    destruct Hx' as [Hx' _]. rewrite (pruned_row_mail d2) by eauto.
    rewrite Ho in Hx by done. apply elem_of_newest in Hx as [Hx _]. apply Hold. eauto.
Qed.

(** ** Listings *)

Lemma row_after_lt x y : row_after x y = true ↔ newest_cmp x y = Lt.
Proof. unfold row_after. rewrite (newest_cmp_antisym x y). by destruct (newest_cmp x y). Qed.
Lemma newest_rows_strict a d : StronglySorted (λ x y, newest_cmp x y = Lt) (newest_rows a d).
Proof.
  pose proof (newest_rows_sorted a d) as Hs. pose proof (newest_rows_NoDup a d) as Hnd.
  induction Hs as [|x l _ IH Hx]; constructor; apply NoDup_cons in Hnd as [Hi Hl]; [auto|].
  rewrite Forall_forall in *. intros y Hy. specialize (Hx y Hy).
  destruct (newest_cmp x y) eqn:Hc; [|done..]. apply newest_cmp_eq in Hc as [_ Hc].
  exfalso. apply Hi. rewrite <-Hc. apply list_elem_of_fmap. eauto.
Qed.
Lemma db_mail_listing d a since :
  db_wf id_ok d → (∀ i, since = Some i → uuid_range i) →
  map (row_mail d) (sql_listing a (key <$> since) d) = newer since (db_mail d a).
Proof.
  intros Hd Hi. unfold sql_listing. destruct since as [i|]; [|done]. specialize (Hi i eq_refl).
  cbn [cursor_row fmap option_fmap option_map]. pose proof (db_mail_find d a i Hd Hi) as Hf.
  unfold sql_message in Hf. destruct (t_messages d !! key i) as [r|] eqn:Hr; [destruct (in_box a (key i) r) eqn:Hb|].
  - assert (i = ml_id (row_mail d (key i, r))) as Hid by by cbn; rewrite unkey_key.
    symmetry. rewrite Hid at 1. apply (newer_retain _ (λ x y, newest_cmp x y = Lt)).
    + pose proof (db_mail_nodup d a Hd) as Hnd. unfold db_mail in Hnd. by rewrite map_map in Hnd.
    + apply newest_rows_strict.
    + apply elem_of_newest. split; [done|]. by apply bool_decide_eq_true in Hb.
    + intros y. apply row_after_lt.
    + intros y Hy. apply not_true_iff_false. rewrite row_after_lt. intros Hc. destruct Hy as [->|Hy].
      * rewrite (proj2 (newest_cmp_eq _ _)) in Hc; done.
      * rewrite newest_cmp_antisym, Hy in Hc. done.
  - unfold newer. cbn [mbind option_bind]. cbn in Hf.
    assert (until i (db_mail d a) = None) as ->; [|done]. apply until_None. rewrite any_find, Hf. done.
  - unfold newer. cbn [mbind option_bind]. cbn in Hf.
    assert (until i (db_mail d a) = None) as ->; [|done]. apply until_None. rewrite any_find, Hf. done.
Qed.

Lemma count_rows_length {K R} `{Countable K} (p : K → R → bool) (t : gmap K R) :
  count_rows p t = len (rows p t).
Proof. unfold count_rows, rows. by rewrite length_map_to_list. Qed.
Lemma has_attachments_files d i : has_attachments i d = negb (bool_decide (row_files d i = [])).
Proof.
  unfold has_attachments. rewrite count_rows_length. unfold row_files, of_message.
  destruct (rows _ _); cbn; [done|]. by rewrite bool_decide_true by lia.
Qed.

(** ** Deleting mailboxes *)

Lemma db_mail_absent d a : db_wf id_ok d → t_mailboxes d !! a = None → db_mail d a = [].
Proof.
  intros Hd Ha. unfold db_mail. destruct (newest_rows a d) as [|x l] eqn:Hl; [done|].
  assert (x ∈ newest_rows a d) as Hx by (rewrite Hl; left). apply elem_of_newest in Hx as [Hx Hxa].
  apply (dw_messages _ _ Hd) in Hx as [_ [mb Hmb]]. congruence.
Qed.
Lemma db_mail_delete_mailboxes p d a :
  db_mail (sql_delete_mailboxes p d).2 a
  = if bool_decide (is_Some (filter (λ x, p x.1 x.2 = true) (t_mailboxes d) !! a)) then [] else db_mail d a.
Proof.
  set (orphan := λ b, bool_decide (is_Some (filter (λ x, p x.1 x.2 = true) (t_mailboxes d) !! b))).
  rewrite (db_mail_same (sql_delete_messages (λ _ m, orphan (mr_mailbox_address m)) d).2) by done.
  rewrite (db_mail_delete _ d a (λ _, orphan a)).
  - unfold orphan. case_bool_decide; cbn; [by apply retain_none|by apply retain_true].
  - by intros x [_ ->]%elem_of_newest.
Qed.
Lemma db_mail_delete_mailbox a d b :
  db_wf id_ok d →
  db_mail (sql_delete_mailboxes (λ c _, bool_decide (c = a)) d).2 b
  = if bool_decide (b = a) then [] else db_mail d b.
Proof.
  intros Hd. rewrite db_mail_delete_mailboxes. destruct (t_mailboxes d !! b) as [mb|] eqn:Hb.
  - assert (is_Some (filter (λ x, bool_decide (x.1 = a) = true) (t_mailboxes d) !! b) ↔ b = a) as Hiff.
    { unfold is_Some. setoid_rewrite map_lookup_filter_Some. cbn. rewrite Hb.
      setoid_rewrite bool_decide_eq_true. naive_solver. }
    by rewrite (bool_decide_ext _ _ Hiff).
  - rewrite (db_mail_absent d b) by done. by repeat case_bool_decide.
Qed.
Lemma db_mail_purge now d a :
  db_mail (sql_delete_mailboxes (λ _ m, bool_decide (mb_expires_at m ≤ now)) d).2 a
  = if expired_at (db_view d) now a then [] else db_mail d a.
Proof.
  rewrite db_mail_delete_mailboxes. unfold expired_at. cbn.
  assert (bool_decide (is_Some (filter (λ x, bool_decide (mb_expires_at x.2 ≤ now) = true) (t_mailboxes d) !! a))
    = match t_mailboxes d !! a with Some mb => mb_expires_at mb <=? now | None => false end) as ->; [|done].
  apply eq_true_iff_eq. rewrite bool_decide_eq_true. unfold is_Some. setoid_rewrite map_lookup_filter_Some. cbn.
  setoid_rewrite bool_decide_eq_true. destruct (t_mailboxes d !! a); [rewrite Z.leb_le|]; naive_solver.
Qed.
End inbox.
