(* ===== verification/SqlInboxLaws.v ===== *)
(** * SqlInboxLaws: the instances of [MailLaws] for the two databases *)

From S2P Require Import Prelude Str Model Config StoreSpec Rows MailSpec UuidHex.
From S2P Require Import Sql SqlLaws SqlInvariant SqlMessages SqliteStore SqliteLaws PostgresStore PostgresLaws.
From S2P Require Import SqlClaims SqlMail SqlRoundtrip SqlInbox MemoryStore MemoryStoreLaws MemoryInbox.

(** ** Computations that change nothing *)

Section frames.
Context {I : Type} `{Countable I} `{!IdOrder I}.
Implicit Types w : SqlStore I * Env.

Lemma preserves_run {W E A} (P : W → Prop) (m : M W E A) (w w' : W) r :
  preserves P m → m w = (r, w') → P w → P w'.
Proof. intros Hm Hr Hw. specialize (Hm w Hw). by rewrite Hr in Hm. Qed.

(** The tables of mail and the quotas; everything but the faults still to come; what
    matters of the environment. *)
Definition same_mail (q : MailboxQuotas) tm ta w : Prop :=
  sql_quotas w.1 = q ∧ t_messages (sql_db w.1) = tm ∧ t_attachments (sql_db w.1) = ta.
Definition same_quotas (q : MailboxQuotas) w : Prop := sql_quotas w.1 = q.
Definition same_all (q : MailboxQuotas) d (e : Env) w : Prop :=
  sql_quotas w.1 = q ∧ sql_db w.1 = d ∧ w.2 = e.
Definition ticked (e : Env) w : Prop := ∃ k, later e w.2 k.

Lemma frame_stmt {A} (f : Db I → result (A * Db I) anyhow) (P : SqlStore I * Env → Prop) :
  (∀ s e, P (s, e) → P (trip s, e)) →
  (∀ s e a d, P (s, e) → f (sql_db s) = Ok (a, d) → P (set_db d (trip s), e)) → preserves P (stmt f).
Proof.
  intros H1 H2 [s e] Hs. rewrite stmt_run. destruct (sql_faults s 0%nat); [by apply H1|].
  destruct (f (sql_db s)) as [[a d]|er] eqn:Hf; [by eapply H2|by apply H1].
Qed.
Lemma quotas_stmt {A} (f : Db I → result (A * Db I) anyhow) q : preserves (same_quotas q) (stmt f).
Proof. by apply frame_stmt. Qed.
Lemma ticked_stmt {A} (f : Db I → result (A * Db I) anyhow) e : preserves (ticked e) (stmt f).
Proof. by apply frame_stmt. Qed.
Lemma mail_stmt {A} (f : Db I → result (A * Db I) anyhow) q tm ta :
  (∀ d a d', f d = Ok (a, d') → t_messages d' = t_messages d ∧ t_attachments d' = t_attachments d) →
  preserves (same_mail q tm ta) (stmt f).
Proof.
  intros Hf. apply frame_stmt; [done|]. intros s e a d (Hq & Hm & Ha) [H1 H2]%Hf.
  by split_and!; cbn; [|rewrite H1|rewrite H2].
Qed.
Lemma mail_exec {A} (f : Db I → A * Db I) q tm ta :
  (∀ d, t_messages (f d).2 = t_messages d ∧ t_attachments (f d).2 = t_attachments d) →
  preserves (same_mail q tm ta) (exec f).
Proof. intros Hf. apply mail_stmt. intros d a d' [= Heq]. specialize (Hf d). by rewrite Heq in Hf. Qed.
Lemma all_query {A} (f : Db I → A) q d e : preserves (same_all q d e) (query f).
Proof. apply frame_stmt; [done|]. intros s e' a d' (Hq & Hd & He) [= _ <-]. by split_and!. Qed.
Lemma all_get_mailbox a q d e : preserves (same_all q d e) (db_get_mailbox (I:=I) a).
Proof. intros w. rewrite db_get_mailbox_query. apply all_query. Qed.
Lemma mail_query {A} (f : Db I → A) q tm ta : preserves (same_mail q tm ta) (query f).
Proof. apply mail_stmt. by intros d a d' [= _ <-]. Qed.

Lemma later_stmt {A} (f : Db I → result (A * Db I) anyhow) e n :
  preserves (λ w, later e w.2 n) (stmt f).
Proof. by apply frame_stmt. Qed.
Lemma later_uuid e n : preserves (λ w, later e w.2 n) (new_v4 : SM (SqlStore I) _).
Proof. by intros [s e']. Qed.
Lemma frame_pure {A} (P : SqlStore I * Env → Prop) (r : result A anyhow) :
  preserves P (of_result r : SM (SqlStore I) A).
Proof. by intros w. Qed.
Lemma frame_get (P : SqlStore I * Env → Prop) : preserves P (get_st : SM (SqlStore I) _).
Proof. by intros w. Qed.
Lemma quotas_now q : preserves (same_quotas q) (utc_now : SM (SqlStore I) _).
Proof. by intros [s e]. Qed.
Lemma quotas_uuid q : preserves (same_quotas q) (new_v4 : SM (SqlStore I) _).
Proof. by intros [s e]. Qed.
Lemma mail_now q tm ta : preserves (same_mail q tm ta) (utc_now : SM (SqlStore I) _).
Proof. by intros [s e]. Qed.
Lemma mail_uuid q tm ta : preserves (same_mail q tm ta) (new_v4 : SM (SqlStore I) _).
Proof. by intros [s e]. Qed.
Lemma ticked_now e : preserves (ticked e) (utc_now : SM (SqlStore I) _).
Proof.
  intros [s e'] [k Hk]. exists (S k). intros n. etrans; [apply (Hk (S n))|]. f_equal. lia.
Qed.
Lemma ticked_uuid e : preserves (ticked e) (new_v4 : SM (SqlStore I) _).
Proof. by intros [s e']. Qed.

(** A transaction has the frame of its body. *)
Lemma frame_transaction {A} (P : SqlStore I * Env → Prop) (m : SM (SqlStore I) A) :
  (∀ s e s', P (s, e) → sql_quotas s' = sql_quotas s → sql_db s' = sql_db s → P (s', e)) →
  (∀ s0 s e, P s0 → P (s, e) → P (set_db (sql_db s0.1) s, e)) →
  preserves P m → preserves P (transaction m).
Proof.
  intros Hext Hback Hm w Hw. unfold transaction.
  assert (∀ {B} (b : B), preserves P (query (λ _, b))) as Hq.
  { intros B b. apply frame_stmt; [intros s e Hs; by eapply Hext|].
    intros s e a d Hs [= _ <-]. by eapply Hext. }
  assert (preserves P (query (λ _, tt);; a ← m; query (λ _, tt);; mret a)) as Hp.
  { repeat (apply preserves_bind; [auto|intros ?]); auto with rust. }
  specialize (Hp w Hw). destruct ((query (λ _, tt);; a ← m; query (λ _, tt);; mret a) w)
    as [[a|er] [s e]]; [done|]. by apply Hback.
Qed.
Lemma quotas_transaction {A} (m : SM (SqlStore I) A) q :
  preserves (same_quotas q) m → preserves (same_quotas q) (transaction m).
Proof. apply frame_transaction; [|done]. intros s e s' Hs Hq _. by unfold same_quotas in *; cbn in *; rewrite Hq. Qed.
Lemma mail_transaction {A} (m : SM (SqlStore I) A) q tm ta :
  preserves (same_mail q tm ta) m → preserves (same_mail q tm ta) (transaction m).
Proof.
  apply frame_transaction.
  - intros s e s' (H1 & H2 & H3) Hq Hd. by split_and!; cbn in *; rewrite ?Hq, ?Hd.
  - intros [s0 e0] s e (H1 & H2 & H3) (H4 & _ & _). by split_and!.
Qed.
Lemma ticked_transaction {A} (m : SM (SqlStore I) A) e :
  preserves (ticked e) m → preserves (ticked e) (transaction m).
Proof. by apply frame_transaction. Qed.
End frames.

#[export] Hint Resolve quotas_stmt ticked_stmt mail_query all_query frame_pure frame_get quotas_now
  quotas_uuid mail_now mail_uuid ticked_now ticked_uuid : rust.
#[export] Hint Resolve quotas_transaction mail_transaction ticked_transaction : rust.
#[export] Hint Resolve later_stmt later_uuid : rust.
#[export] Hint Extern 1 (preserves _ (exec _)) =>
  apply quotas_stmt || apply ticked_stmt || apply later_stmt : rust.
#[export] Hint Extern 1 (preserves _ (query _)) =>
  apply quotas_stmt || apply ticked_stmt || apply later_stmt : rust.

(** Go through a computation, step by step. *)
Ltac frame :=
  repeat first
    [ apply quotas_transaction | apply mail_transaction | apply ticked_transaction
    | apply preserves_bind; [|intros ?]
    | progress auto with rust
    | match goal with |- preserves _ (match ?x with _ => _ end) => destruct x end
    | match goal with |- preserves _ (if ?x then _ else _) => destruct x end ].

Section methods.
Context {I : Type} `{Countable I} `{!IdOrder I}.

Lemma quotas_insert_attachments key i l q :
  preserves (same_quotas q) (db_insert_attachments (I:=I) key i l).
Proof. induction l; cbn; frame. Qed.
Lemma ticked_insert_attachments key i l e :
  preserves (ticked e) (db_insert_attachments (I:=I) key i l).
Proof. induction l; cbn; frame. Qed.
Lemma later_insert_attachments key i l e n :
  preserves (λ w, later e w.2 n) (db_insert_attachments (I:=I) key i l).
Proof. induction l; cbn; frame. Qed.
Lemma later_save key u t a m e n : preserves (λ w, later e w.2 n) (db_save (I:=I) key u t a m).
Proof. unfold db_save, db_caps. frame. apply later_insert_attachments. Qed.
Lemma quotas_save key u t a m q : preserves (same_quotas q) (db_save (I:=I) key u t a m).
Proof. unfold db_save, db_caps. frame. apply quotas_insert_attachments. Qed.
Lemma ticked_save key u t a m e : preserves (ticked e) (db_save (I:=I) key u t a m).
Proof. unfold db_save, db_caps. frame. apply ticked_insert_attachments. Qed.
End methods.

#[export] Hint Resolve quotas_insert_attachments ticked_insert_attachments : rust.

(** Statements on other tables. *)
Ltac other_table :=
  intros *; unfold pg_upsert_subscription, sql_insert_mailbox, sql_insert_subscription, sql_update_mailbox;
  repeat case_match; intros; simplify_eq; done.
#[export] Hint Extern 1 (preserves (same_mail _ _ _) (exec _)) => apply mail_exec; other_table : rust.
#[export] Hint Extern 1 (preserves (same_mail _ _ _) (stmt _)) => apply mail_stmt; other_table : rust.

(** The methods of both backends, down to their statements. *)
Ltac unfold_methods :=
  unfold lite_create_mailbox, lite_extend_mailbox, lite_delete_mailbox, lite_rotate_owner_token,
    lite_save_message, lite_delete_message, lite_mark_seen, lite_delete_all_messages,
    lite_purge_expired, lite_add_subscription, lite_delete_subscription, lite_create_custom_domain,
    lite_delete_custom_domain, lite_record_custom_domain_check, lite_upsert_attested_device,
    lite_advance_attested_device_counter, lite_prune_attested_devices, lite_get_mailbox,
    pg_create_mailbox, pg_extend_mailbox, pg_delete_mailbox, pg_rotate_owner_token,
    pg_save_message, pg_delete_message, pg_mark_seen, pg_delete_all_messages,
    pg_purge_expired, pg_add_subscription, pg_delete_subscription, pg_create_custom_domain,
    pg_delete_custom_domain, pg_record_custom_domain_check, pg_upsert_attested_device,
    pg_advance_attested_device_counter, pg_prune_attested_devices, pg_get_mailbox,
    db_create_mailbox, db_get_mailbox, db_delete_mailbox, db_rotate_owner_token, db_delete_message,
    db_mark_seen, db_delete_all_messages, db_purge_expired, db_delete_subscription,
    db_create_custom_domain, db_delete_custom_domain, db_record_custom_domain_check,
    db_upsert_attested_device, db_advance_attested_device_counter, db_prune_attested_devices.

Lemma preserves_call {S A} (P : S * Env → Prop) (m : SM S A) w : P w → preserves P m → P (call m w).
Proof. intros Hw Hm. by apply Hm. Qed.
Ltac frame_op Hw := cbn [run_op]; apply (preserves_call _ _ _ Hw); cbn; unfold_methods; frame.

Lemma lite_op_quotas `{UuidText} (o : op) (q : MailboxQuotas) (w : SqliteStore * Env) :
  same_quotas q w → same_quotas q (run_op o w).
Proof. intros Hw. destruct o; frame_op Hw. Qed.
Lemma pg_op_quotas (o : op) (q : MailboxQuotas) (w : PostgresStore * Env) : same_quotas q w → same_quotas q (run_op o w).
Proof. intros Hw. destruct o; frame_op Hw. Qed.
Lemma lite_op_frame `{UuidText} (o : op) (q : MailboxQuotas)
    (tm : gmap str MessageRec) (ta : gmap str (AttachmentRec str)) (w : SqliteStore * Env) :
  moves_mail o = false → same_mail q tm ta w → same_mail q tm ta (run_op o w).
Proof. intros Ho Hw. destruct o; try discriminate Ho; frame_op Hw. Qed.
Lemma pg_op_frame (o : op) (q : MailboxQuotas)
    (tm : gmap Uuid MessageRec) (ta : gmap Uuid (AttachmentRec Uuid)) (w : PostgresStore * Env) :
  moves_mail o = false → same_mail q tm ta w → same_mail q tm ta (run_op o w).
Proof. intros Ho Hw. destruct o; try discriminate Ho; frame_op Hw. Qed.

(** ** Queries and updates *)

Definition map_ok {A B E} (f : A → B) (r : result A E) : result B E :=
  match r with Ok a => Ok (f a) | Err e => Err e end.

Section laws.
Context {I : Type} `{Countable I} `{!IdOrder I}.
Variable key : Uuid → I.
Variable unkey : I → Uuid.
Variable id_ok : I → Prop.
Hypothesis key_ok : ∀ u, uuid_range u → id_ok (key u).
Hypothesis unkey_key : ∀ u, uuid_range u → unkey (key u) = u.
Hypothesis key_unkey : ∀ i, id_ok i → key (unkey i) = i.
Hypothesis unkey_range : ∀ i, id_ok i → uuid_range (unkey i).

Abbreviation smail := (sql_mail unkey).
Abbreviation ok := (sql_mail_wf id_ok).
Implicit Types s : SqlStore I.

Lemma sql_reads {A} (m : SM (SqlStore I) A) (R : (str → list Mail) → A → Prop) :
  (∀ q d e, preserves (same_all q d e) m) →
  (∀ s e x w', db_wf id_ok (sql_db s) → m (s, e) = (Ok x, w') → R (smail s) x) →
  mail_reads smail sql_quotas ok m R.
Proof.
  intros Hm HR [s e] [[Hd He] Hq]. destruct (Hm (sql_quotas s) (sql_db s) e (s, e)) as (Hq' & Hd' & He'); [done|].
  split_and!.
  - split; [|unfold caps_fit in *; by rewrite Hq']. by split; [rewrite Hd'|rewrite He'].
  - done.
  - intros a. cbn. unfold sql_mail. by rewrite Hd'.
  - done.
  - intros x Hx. destruct (m (s, e)) as [r w'] eqn:Hr. cbn in Hx. subst r. by eapply HR.
Qed.
Lemma query_inv {A} (f : Db I → A) s e x s' e' :
  query f (s, e) = (Ok x, (s', e')) → x = f (sql_db s) ∧ sql_db s' = sql_db s.
Proof. by intros ([= <- <-] & _ & _)%stmt_inv. Qed.

(** A statement followed by a reading of the number of rows. *)
Lemma sql_updates {A} (m : SM (SqlStore I) A) (f : Db I → Z * Db I) (h : Z → A) a F G :
  (∀ w, m w = (map_ok h (exec f w).1, (exec f w).2)) →
  (∀ d, db_wf id_ok d → h (f d).1 = F (db_mail unkey d a) ∧
    ∀ b, db_mail unkey (f d).2 b = if bool_decide (b = a) then G (db_mail unkey d a) else db_mail unkey d b) →
  mail_updates smail ok m a F G.
Proof.
  intros Hm Hf [s e] [[Hd He] Hq]. rewrite Hm. unfold exec. rewrite stmt_run.
  destruct (sql_faults s 0%nat); cbn; [done|]. cbn in Hd. specialize (Hf _ Hd).
  destruct (f (sql_db s)) as [n d'] eqn:Hd'. cbn in *. destruct Hf as [H1 H2]. split; [done|]. split; [done|].
  by intros x [= <-].
Qed.

Lemma count_messages p (d : Db I) a i :
  db_wf id_ok d → uuid_range i → (∀ j r, p j r = is_key a (key i) j r) →
  bool_decide (0 < count_rows p (t_messages d)) = any (has_id i) (db_mail unkey d a).
Proof.
  intros Hd Hi Hp. rewrite any_find, (db_mail_find key unkey id_ok) by done. apply bool_decide_ext.
  rewrite count_pos. split.
  - intros (j & r & Hj & Hr). rewrite Hp in Hr. unfold is_key in Hr. boolify. subst j.
    assert (sql_message a (key i) d = Some r) as ->; [|by eexists]. apply sql_message_Some.
    by unfold in_box in *; boolify.
  - destruct (sql_message a (key i) d) as [r|] eqn:Hr; [|by intros [? ?]]. intros _.
    apply sql_message_Some in Hr as [Hr Ha]. exists (key i), r. split; [done|]. rewrite Hp. unfold is_key, in_box.
    by rewrite !bool_decide_true.
Qed.

(** A save that is a transaction around [db_save]. *)
Lemma sql_mail_save (save : SM (SqlStore I) StoredMessage) a m w :
  (∀ s e st s' e', save (s, e) = (Ok st, (s', e')) →
    ∃ s1 s2 e1, db_save key (sm_id st) (sm_received_at st) a m (s1, e1) = (Ok st, (s2, e')) ∧
      sql_db s1 = sql_db s ∧ sql_quotas s1 = sql_quotas s ∧ sql_db s' = sql_db s2 ∧
      (uuids e → uuids e1 ∧ uuid_range (sm_id st))) →
  (∀ s e st s' e', save (s, e) = (Ok st, (s', e')) →
    sm_received_at st = e_clock e 0%nat ∧ later e e' 1) →
  (∀ w er w', save w = (Err er, w') → sql_db w'.1 = sql_db w.1) →
  (∀ e, preserves (ticked e) save) → ok w →
  match save w with
  | (Ok st, w') =>
      ∃ n i k, shows a n st ∧ carries m n ∧ ml_received n = e_clock w.2 i ∧ (i < k)%nat ∧
        later w.2 w'.2 k ∧ (ml_id n ∉ map ml_id (smail w.1 a)) ∧
        received (λ z, z) (sql_quotas w.1) n (smail w.1 a) (smail w'.1 a) ∧
        ∀ b, b ≠ a → smail w'.1 b = smail w.1 b
  | (Err _, w') => (∃ k, later w.2 w'.2 k) ∧ ∀ b, smail w'.1 b = smail w.1 b
  end.
Proof.
  intros Hsave Hclock Herr Htick [[Hd He] Hq]. destruct w as [s e]. cbn in Hd, He, Hq.
  destruct (save (s, e)) as [[st|er] [s' e']] eqn:Hr.
  - destruct (Hclock _ _ _ _ _ Hr) as [Hrec Hlat].
    apply Hsave in Hr as (s1 & s2 & e1 & Hr & Hd1 & Hq1 & Hd' & Hu). destruct (Hu He) as [He1 Hid].
    rewrite <-Hq1 in Hq. rewrite <-Hd1 in Hd.
    destruct (db_mail_save key unkey id_ok unkey_key key_unkey _ _ _ _ _ _ _ _ _ Hr Hq Hd He1 Hid)
      as (n & Hs & Hc & Ht & Hnew & Hrc & Hb). unfold sql_mail in *. rewrite Hd1, Hq1, <-Hd' in *.
    exists n, 0%nat, 1%nat. split_and!; [done|done|by rewrite Ht|lia|done..].
  - split.
    + pose proof (Htick e (s, e)) as Ht. rewrite Hr in Ht. apply Ht. by exists 0%nat.
    + intros b. unfold sql_mail. by rewrite (Herr _ _ _ Hr).
Qed.

Lemma sql_mail_delete a i :
  uuid_range i →
  mail_updates smail ok (db_delete_message a (key i)) a (any (has_id i)) (retain (λ m, negb (has_id i m))).
Proof.
  intros Hi. apply (sql_updates _ (sql_delete_messages (is_key a (key i))) (λ n, bool_decide (0 < n))).
  { intros w. unfold db_delete_message, mbind, M_bind. by destruct (exec _ w) as [[] ?]. }
  intros d Hd. split; [by apply count_messages|]. intros b. case_bool_decide as Hb.
  - subst b. apply db_mail_delete. intros x Hx. pose proof (newest_ok id_ok a d x Hd Hx) as Hok.
    unfold is_key. rewrite (newest_in_box a d) by done. cbn. apply bool_decide_ext. cbn.
    split; [intros ->; by apply unkey_key|]. intros <-. by rewrite key_unkey.
  - rewrite <-(retain_true (λ _, true) (db_mail unkey d b)) by done.
    apply (db_mail_delete unkey _ d b (λ _, false)). intros x [_ Hx]%elem_of_newest.
    unfold is_key, in_box. by rewrite bool_decide_false by congruence.
Qed.
Lemma sql_mail_delete_all a :
  mail_updates smail ok (db_delete_all_messages a) a (λ l, len l) (λ _, []).
Proof.
  apply (sql_updates _ (sql_delete_messages (in_box a)) (λ n, n)).
  { intros w. unfold db_delete_all_messages. by destruct (exec _ w) as [[] ?]. }
  intros d Hd. split.
  - cbn. unfold db_mail. rewrite count_rows_length, length_map. unfold newest_rows.
    by rewrite (Permutation_length (sort_by_Permutation _ _)).
  - intros b. rewrite (db_mail_delete unkey _ d b (λ _, bool_decide (b = a))).
    + case_bool_decide; [by apply retain_none|by apply retain_true].
    + intros x [_ Hx]%elem_of_newest. unfold in_box. by rewrite Hx.
Qed.
Lemma sql_mail_seen a i :
  uuid_range i →
  mail_updates smail ok (db_mark_seen a (key i)) a (any (has_id i))
    (map (λ m, if has_id i m then see m else m)).
Proof.
  intros Hi. apply (sql_updates _ (λ d,
    match sql_message a (key i) d with
    | Some r => (1, set_t_messages (<[key i := with_seen r]> (t_messages d)) d)
    | None => (0, d)
    end) (λ n, bool_decide (0 < n))).
  { intros w. unfold db_mark_seen, mbind, M_bind. by destruct (exec _ w) as [[] ?]. }
  intros d Hd. pose proof (db_mail_find key unkey id_ok unkey_key key_unkey d a i Hd Hi) as Hf.
  rewrite any_find, Hf. destruct (sql_message a (key i) d) as [r|] eqn:Hr; cbn.
  - split; [done|]. intros b. by apply (db_mail_mark key unkey id_ok).
  - split; [done|]. intros b. case_bool_decide as Hb; [|done]. subst b. symmetry. apply map_id_on.
    intros m Hm. cbn in Hf. rewrite find_None in Hf. by rewrite (Hf m Hm).
Qed.
Lemma sql_mail_raw a i :
  uuid_range i →
  mail_reads smail sql_quotas ok (db_get_raw_message a (key i)) (λ box o, o = find (has_id i) (box a) ≫= ml_raw).
Proof.
  intros Hi. apply sql_reads.
  { intros q d e. unfold db_get_raw_message. frame. }
  intros s e x w' Hd Hr. apply bind_inv in Hr as (row & [s1 e1] & [-> _]%query_inv & Hr).
  injection Hr as <- _. unfold sql_mail. rewrite (db_mail_find key unkey id_ok) by done.
  by destruct (sql_message a (key i) (sql_db s)).
Qed.

(** The attachment of a row under an identifier. *)
Lemma file_in_row (d : Db I) x j :
  db_wf id_ok d → uuid_range j →
  file_in j (row_mail unkey d x)
  = match t_attachments d !! key j with
    | Some r => if bool_decide (ar_message_id r = x.1)
                then Some (mkAttachment (ar_filename r) (ar_content_type r) (ar_content r)) else None
    | None => None
    end.
Proof.
  intros Hd Hj. unfold file_in. cbn [row_mail ml_files].
  destruct (find (λ f, bool_decide (am_id f.1 = j)) (row_files unkey d x.1)) as [f|] eqn:Hf; cbn.
  - apply find_Some in Hf as [Hin Hid]. boolify. apply list_elem_of_fmap in Hin as (y & -> & Hy).
    apply elem_of_files in Hy as [Hy Hm]. cbn in Hid. pose proof (dw_attachments _ _ Hd _ _ Hy) as [Hok _].
    rewrite <-Hid, key_unkey, Hy by done. by rewrite bool_decide_true.
  - destruct (t_attachments d !! key j) as [r|] eqn:Hr; [|done]. case_bool_decide as Hm; [|done].
    rewrite find_None in Hf. specialize (Hf (row_file unkey (key j, r))). cbn in Hf.
    rewrite unkey_key, bool_decide_true in Hf by done. exfalso. enough (true = false) by done. apply Hf.
    apply list_elem_of_fmap. exists (key j, r). split; [done|]. by apply elem_of_files.
Qed.
Lemma sql_mail_attachment a i j :
  uuid_range i → uuid_range j →
  mail_reads smail sql_quotas ok (db_get_attachment a (key i) (key j))
    (λ box o, o = find (has_id i) (box a) ≫= file_in j).
Proof.
  intros Hi Hj. apply sql_reads; [intros q d e; apply all_query|].
  intros s e x [s' e'] Hd [-> _]%query_inv. unfold sql_mail.
  rewrite (db_mail_find key unkey id_ok) by done.
  destruct (sql_message a (key i) (sql_db s)) as [r|] eqn:Hr; cbn [fmap option_fmap option_map mbind option_bind].
  - rewrite file_in_row by done. cbn [fst]. destruct (t_attachments (sql_db s) !! key j) as [at_|]; [|done].
    destruct (bool_decide_reflect (ar_message_id at_ = key i)) as [->|]; [|done].
    by rewrite Hr.
  - destruct (t_attachments (sql_db s) !! key j) as [at_|]; [|done].
    destruct (bool_decide_reflect (ar_message_id at_ = key i)) as [->|]; [|done].
    by rewrite Hr.
Qed.
Lemma sql_mail_delete_mailbox a (w : SqlStore I * Env) b :
  ok w →
  smail (db_delete_mailbox a w).2.1 b
  = match (db_delete_mailbox a w).1 with
    | Ok _ => if bool_decide (b = a) then [] else smail w.1 b
    | Err _ => smail w.1 b
    end.
Proof.
  destruct w as [s e]. intros [[Hd _] _]. unfold db_delete_mailbox, exec, mbind, M_bind. rewrite stmt_run.
  destruct (sql_faults s 0%nat); [done|]. cbn [fst snd sql_db set_db].
  by apply (db_mail_delete_mailbox unkey id_ok a (sql_db s) b).
Qed.
Lemma sql_mail_purge now (w : SqlStore I * Env) a :
  smail (db_purge_expired now w).2.1 a
  = match (db_purge_expired now w).1 with
    | Ok _ => if expired_at (sql_view w.1) now a then [] else smail w.1 a
    | Err _ => smail w.1 a
    end.
Proof.
  destruct w as [s e]. unfold db_purge_expired, exec. rewrite stmt_run.
  destruct (sql_faults s 0%nat); [done|]. cbn [fst snd sql_db set_db]. apply db_mail_purge.
Qed.
End laws.

(** ** PostgreSQL *)

Abbreviation pg_mail := (sql_mail (λ i : Uuid, i)).
Abbreviation pg_mail_wf := (sql_mail_wf pg_id_ok).

Lemma pg_mail_list a limit since :
  0 ≤ limit → (∀ i, since = Some i → uuid_range i) →
  mail_reads pg_mail sql_quotas pg_mail_wf (pg_list_messages a limit since)
    (λ box l, l = map mail_summary (mail_page limit since (box a))).
Proof.
  intros Hl Hi. apply sql_reads; [intros q d e; unfold pg_list_messages; frame; apply all_query|].
  intros s e x [s' e'] Hd Hr. unfold pg_list_messages in Hr. rewrite query_then in Hr.
  apply query_inv in Hr as [-> _]. rewrite map_map. unfold mail_page, sql_mail.
  rewrite <-(db_mail_listing (λ i, i) (λ i, i) pg_id_ok) by done.
  assert (since = (λ i : Uuid, i) <$> since) as Hs by by destruct since.
  rewrite <-Hs. assert (∀ l, map mail_summary (map (row_mail (λ i, i) (sql_db s)) l) = map (λ x, pg_summary (select_summary (sql_db s) x)) l) as Hm.
  { intros l. rewrite map_map. apply map_ext. intros y. unfold pg_summary, mail_summary. cbn.
    by rewrite (has_attachments_files (λ i, i)). }
  case_bool_decide as H0; unfold pg_limit.
  - subst. by rewrite bool_decide_false, Hm by lia.
  - rewrite bool_decide_true by lia. by rewrite <-!firstn_map, Hm.
Qed.

Lemma pg_mail_get a i :
  uuid_range i →
  mail_reads pg_mail sql_quotas pg_mail_wf (pg_get_message a i)
    (λ box o, match find (has_id i) (box a), o with
              | Some m, Some st => shows a m st
              | None, None => True
              | _, _ => False
              end).
Proof.
  intros Hi. apply sql_reads; [intros q d e; unfold pg_get_message; frame; apply all_query|].
  intros s e x w' Hd Hr. unfold pg_get_message in Hr. unfold sql_mail.
  rewrite (db_mail_find (λ i, i) (λ i, i) pg_id_ok) by done.
  apply bind_inv in Hr as (row & [s1 e1] & [-> Hd1]%query_inv & Hr).
  destruct (sql_message a i (sql_db s)) as [r|] eqn:Hrow; cbn.
  - apply bind_inv in Hr as (atts & [s2 e2] & [-> _]%query_inv & Hr). injection Hr as <- _.
    apply sql_message_Some in Hrow as [_ <-]. split; [done|]. cbn. rewrite Hd1. unfold row_files, sql_attachments.
    rewrite sort_by_Permutation, !map_map. done.
  - by injection Hr as <- _.
Qed.

Lemma pg_save_clock a m s e st s' e' :
  pg_save_message a m (s, e) = (Ok st, (s', e')) →
  sm_received_at st = e_clock e 0%nat ∧ later e e' 1.
Proof.
  intros (s1 & s2 & Hr & _)%transaction_inv.
  apply bind_inv in Hr as (t & [s3 e3] & Ht & Hr). injection Ht as <- <- <-.
  apply bind_inv in Hr as (u & [s4 e4] & Hu & Hr). injection Hu as <- <- <-.
  split; [by apply save_answer in Hr as [_ ->]|].
  pose proof (later_save (λ i : Uuid, i) (e_uuid e 0%nat) (e_clock e 0%nat) a m e 1) as Hl.
  exact (preserves_run _ _ _ _ _ Hl Hr (λ k, eq_refl)).
Qed.

Lemma pg_wf_op (o : op) w : pg_mail_wf w → pg_mail_wf (run_op o w).
Proof.
  intros [Hw Hq]. split; [by apply pg_keep_op|].
  pose proof (pg_op_quotas o (sql_quotas w.1) w eq_refl) as Hs. unfold same_quotas in Hs. by rewrite Hs.
Qed.

#[export, refine] Instance PostgresStore_Mail : MailLaws PostgresStore := {|
  mail := pg_mail;
  mail_wf := pg_mail_wf;
  mail_caps := sql_quotas;
  mail_weight z := z;
  mail_id := uuid_range;
  law_mail_caps o w := pg_op_quotas o (sql_quotas w.1) w eq_refl;
  law_mail_weight z _ := eq_refl;
  law_mail_id u Hu := Hu;
  law_mail_op := pg_wf_op;
  law_mail_list := pg_mail_list;
  law_mail_get := pg_mail_get;
|}.
Proof.
  - intros w a [[Hd _] _]. by apply (db_mail_nodup (λ i, i) (λ i, i) pg_id_ok).
  - intros w a [[Hd _] _]. by apply (db_mail_range (λ i, i) pg_id_ok).
  - intros w a _. apply db_mail_sorted.
  - intros w a [[Hd _] _]. by apply (db_mail_files (λ i, i) (λ i, i) pg_id_ok).
  - intros w [[Hd _] _]. exact (dw_mailboxes _ _ Hd).
  - intros o w a _ Ho. destruct (pg_op_frame o (sql_quotas w.1) (t_messages (sql_db w.1)) (t_attachments (sql_db w.1)) w Ho)
      as (_ & Hm & Ha); [done|].
    by apply db_mail_same.
  - intros s e e' n [[Hd Hu] Hq] _ He. split; [split; [done|]|done]. intros i. cbn. rewrite He. apply Hu.
  - intros a. apply sql_reads; [apply all_get_mailbox|done].
  - intros a t. apply sql_reads; [intros q d e; apply all_query|done].
  - intros dom. apply sql_reads; [intros q d e; apply all_query|done].
  - by intros w Hw.
  - intros a m w. apply (sql_mail_save (λ i, i) (λ i, i) pg_id_ok); try done; [apply pg_save_inv|apply pg_save_clock| |].
    + apply transaction_err.
    + intros e. cbn. unfold pg_save_message. frame.
  - intros a i Hi. by apply (sql_mail_raw (λ i, i) (λ i, i) pg_id_ok).
  - intros a i j Hi Hj. by apply (sql_mail_attachment (λ i, i) (λ i, i) pg_id_ok).
  - intros a i Hi. by apply (sql_mail_seen (λ i, i) (λ i, i) pg_id_ok).
  - intros a i Hi. by apply (sql_mail_delete (λ i, i) (λ i, i) pg_id_ok).
  - intros a. apply sql_mail_delete_all.
  - intros a w Hw b. by eapply sql_mail_delete_mailbox.
  - intros now w _ a. apply sql_mail_purge.
Defined.

(** ** SQLite *)

Section sqlite.
Context `{UuidText}.

Definition text_key (i : str) : Uuid := default 0 (uuid_parse_str i).
(** The text of an identifier. *)
Definition is_uuid_text (i : str) : Prop := ∃ u, uuid_range u ∧ i = uuid_to_string u.

Lemma text_key_ok u : uuid_range u → is_uuid_text (uuid_to_string u).
Proof. by exists u. Qed.
Lemma text_key_to_string u : uuid_range u → text_key (uuid_to_string u) = u.
Proof. intros Hu. unfold text_key. by rewrite uuid_parse_to_string. Qed.
Lemma to_string_text_key i : is_uuid_text i → uuid_to_string (text_key i) = i.
Proof. intros (u & Hu & ->). by rewrite text_key_to_string. Qed.
Lemma text_key_range i : is_uuid_text i → uuid_range (text_key i).
Proof. intros (u & Hu & ->). by rewrite text_key_to_string. Qed.
Lemma parse_uuid_text i : is_uuid_text i → parse_uuid i = Ok (text_key i).
Proof. intros (u & Hu & ->). unfold parse_uuid. by rewrite text_key_to_string, uuid_parse_to_string. Qed.

Abbreviation lite_mail := (sql_mail text_key).
Abbreviation lite_mail_wf := (sql_mail_wf is_uuid_text).

Lemma elem_of_limit {A} n (l : list A) x : x ∈ sqlite_limit n l → x ∈ l.
Proof.
  unfold sqlite_limit. case_bool_decide; [done|]. intros Hx.
  rewrite <-(take_drop (Z.to_nat n) l). apply elem_of_app. by left.
Qed.

Lemma lite_mail_list a limit since :
  0 ≤ limit → (∀ i, since = Some i → uuid_range i) →
  mail_reads lite_mail sql_quotas lite_mail_wf (lite_list_messages a limit since)
    (λ box l, l = map mail_summary (mail_page limit since (box a))).
Proof.
  intros Hl Hi. apply sql_reads; [intros q d e; unfold lite_list_messages; frame|].
  intros s e x w' Hd Hr. unfold lite_list_messages in Hr.
  apply bind_inv in Hr as (l & [s1 e1] & [-> _]%query_inv & Hr).
  set (n := if bool_decide (limit = 0) then -1 else limit) in *.
  rewrite map_map, (collect_map_total _ (λ y, mail_summary (row_mail text_key (sql_db s) y))) in Hr.
  - injection Hr as <- _. unfold sql_mail, mail_page.
    rewrite <-(db_mail_listing uuid_to_string text_key is_uuid_text)
      by (done || apply text_key_to_string || apply to_string_text_key).
    rewrite <-(map_map (row_mail text_key (sql_db s)) mail_summary). unfold sqlite_limit, n.
    destruct (bool_decide_reflect (limit = 0)) as [->|Hne]; [done|].
    rewrite (bool_decide_false (limit < 0)), (bool_decide_true (0 < limit)) by lia. by rewrite firstn_map.
  - intros y Hy%elem_of_limit. apply listing_rows in Hy as [Hy _].
    apply (dw_messages _ _ Hd) in Hy as [Hy _]. unfold lite_summary. rewrite parse_uuid_text by done.
    unfold mail_summary. cbn. by rewrite (has_attachments_files text_key).
Qed.

Lemma lite_mail_get a i :
  uuid_range i →
  mail_reads lite_mail sql_quotas lite_mail_wf (lite_get_message a i)
    (λ box o, match find (has_id i) (box a), o with
              | Some m, Some st => shows a m st
              | None, None => True
              | _, _ => False
              end).
Proof.
  intros Hi. apply sql_reads; [intros q d e; unfold lite_get_message; frame|].
  intros s e x w' Hd Hr. unfold lite_get_message in Hr. unfold sql_mail.
  rewrite (db_mail_find uuid_to_string text_key is_uuid_text)
    by (done || apply text_key_to_string || apply to_string_text_key).
  apply bind_inv in Hr as (row & [s1 e1] & [-> Hd1]%query_inv & Hr).
  destruct (sql_message a (uuid_to_string i) (sql_db s)) as [r|] eqn:Hrow; cbn; [|by injection Hr as <- _].
  apply bind_inv in Hr as (atts & [s2 e2] & [-> _]%query_inv & Hr). rewrite Hd1 in Hr.
  rewrite map_map, (collect_map_total _ (row_meta text_key)) in Hr.
  - rewrite parse_uuid_text in Hr by by apply text_key_ok. injection Hr as <- _.
    apply sql_message_Some in Hrow as [_ <-]. split; [done|]. cbn. unfold row_files, sql_attachments.
    rewrite sort_by_Permutation, map_map. done.
  - intros y Hy. unfold sql_attachments in Hy. rewrite sort_by_Permutation, elem_of_rows in Hy.
    destruct Hy as [Hy _]. apply (dw_attachments _ _ Hd) in Hy as [Hy _]. unfold lite_attachment_meta.
    by rewrite parse_uuid_text.
Qed.

Lemma lite_save_clock a m s e st s' e' :
  lite_save_message a m (s, e) = (Ok st, (s', e')) →
  sm_received_at st = e_clock e 0%nat ∧ later e e' 1.
Proof.
  intros (s1 & s2 & Hr & _)%transaction_inv.
  apply bind_inv in Hr as (u & [s3 e3] & Hu & Hr). injection Hu as <- <- <-.
  apply bind_inv in Hr as (t & [s4 e4] & Ht & Hr). injection Ht as <- <- <-.
  split; [by apply save_answer in Hr as [_ ->]|].
  pose proof (later_save uuid_to_string (e_uuid e 0%nat) (e_clock e 0%nat) a m e 1) as Hl.
  exact (preserves_run _ _ _ _ _ Hl Hr (λ k, eq_refl)).
Qed.

Lemma lite_wf_op (o : op) w : lite_mail_wf w → lite_mail_wf (run_op o w).
Proof.
  intros [Hw Hq]. split; [apply lite_keep_op; [apply text_key_ok|done]|].
  pose proof (lite_op_quotas o (sql_quotas w.1) w eq_refl) as Hs. unfold same_quotas in Hs. by rewrite Hs.
Qed.

#[export, refine] Instance SqliteStore_Mail : MailLaws SqliteStore := {|
  mail := lite_mail;
  mail_wf := lite_mail_wf;
  mail_caps := sql_quotas;
  mail_weight z := z;
  mail_id := uuid_range;
  law_mail_caps o w := lite_op_quotas o (sql_quotas w.1) w eq_refl;
  law_mail_weight z _ := eq_refl;
  law_mail_id u Hu := Hu;
  law_mail_op := lite_wf_op;
  law_mail_list := lite_mail_list;
  law_mail_get := lite_mail_get;
|}.
Proof.
  all: pose proof text_key_to_string; pose proof to_string_text_key; pose proof text_key_ok;
    pose proof text_key_range.
  - intros w a [[Hd _] _]. by apply (db_mail_nodup uuid_to_string text_key is_uuid_text).
  - intros w a [[Hd _] _]. by apply (db_mail_range text_key is_uuid_text).
  - intros w a _. apply db_mail_sorted.
  - intros w a [[Hd _] _]. by apply (db_mail_files uuid_to_string text_key is_uuid_text).
  - intros w [[Hd _] _]. exact (dw_mailboxes _ _ Hd).
  - intros o w a _ Ho.
    destruct (lite_op_frame o (sql_quotas w.1) (t_messages (sql_db w.1)) (t_attachments (sql_db w.1)) w Ho)
      as (_ & Hm & Ha); [done|]. by apply db_mail_same.
  - intros s e e' n [[Hd Hu] Hq] _ He. split; [split; [done|]|done]. intros i. cbn. rewrite He. apply Hu.
  - intros a. apply sql_reads; [apply all_get_mailbox|done].
  - intros a t. apply sql_reads; [intros q d e; apply all_query|done].
  - intros dom. apply sql_reads; [intros q d e; apply all_query|done].
  - apply sql_reads; [intros q d e; apply all_query|done].
  - intros a m w. apply (sql_mail_save uuid_to_string text_key is_uuid_text); try done;
      [apply lite_save_inv|apply lite_save_clock|apply transaction_err|].
    intros e. cbn. unfold lite_save_message. frame.
  - intros a i Hi. by apply (sql_mail_raw uuid_to_string text_key is_uuid_text).
  - intros a i j Hi Hj. by apply (sql_mail_attachment uuid_to_string text_key is_uuid_text).
  - intros a i Hi. by apply (sql_mail_seen uuid_to_string text_key is_uuid_text).
  - intros a i Hi. change (delete_message a i) with (db_delete_message a (uuid_to_string i)).
    by apply (sql_mail_delete uuid_to_string text_key is_uuid_text).
  - intros a. apply sql_mail_delete_all.
  - intros a w Hw b. by eapply sql_mail_delete_mailbox.
  - intros now w _ a. apply sql_mail_purge.
Defined.
End sqlite.

(** An empty database whose environment draws identifiers. *)
Lemma lite_mail_wf_new `{UuidText} q faults e :
  caps_fit q → uuids e → mail_wf (lite_with_quotas q (lite_new faults), e).
Proof. intros Hq He. split; [|done]. split; [apply db_wf_empty|done]. Qed.
Lemma pg_mail_wf_new q faults e :
  caps_fit q → uuids e → mail_wf (pg_with_quotas q (pg_new faults), e).
Proof. intros Hq He. split; [|done]. split; [apply db_wf_empty|done]. Qed.

(** ** Every backend *)

(** C11: the three backends keep the promises about mail. For the in-memory store, SQLite
    and PostgreSQL alike, over inboxes that start out empty under the quotas configured: a
    save puts the message under a new identifier into the one inbox, at its place by age,
    and of the mail then there keeps exactly the newest [max_messages], and of those the
    ones whose running size fits [max_bytes] and the message just saved, so that without
    quotas nothing is lost; the listing pages through exactly the inbox; a message, its raw
    form and its attachments read back; marking, deleting and clearing change exactly what
    they name; purging and deleting a mailbox empty its inbox; every other call leaves
    every inbox alone, and so does every failure. *)
Theorem every_backend_keeps_mail `{UuidText} :
  (∃ L : MailLaws MemoryStore, ∀ q e, (∀ i j, e_uuid e i = e_uuid e j → i = j) →
     mail_wf (with_quotas q new, e) ∧ mail_caps (with_quotas q new) = q ∧
     ∀ a, mail (with_quotas q new) a = []) ∧
  (∃ L : MailLaws SqliteStore, ∀ q faults e, caps_fit q → uuids e →
     mail_wf (lite_with_quotas q (lite_new faults), e) ∧
     mail_caps (lite_with_quotas q (lite_new faults)) = q ∧
     ∀ a, mail (lite_with_quotas q (lite_new faults)) a = []) ∧
  (∃ L : MailLaws PostgresStore, ∀ q faults e, caps_fit q → uuids e →
     mail_wf (pg_with_quotas q (pg_new faults), e) ∧ mail_caps (pg_with_quotas q (pg_new faults)) = q ∧
     ∀ a, mail (pg_with_quotas q (pg_new faults)) a = []).
Proof.
  split; [|split].
  - exists MemoryStore_Mail. intros q e He. split; [by apply mem_mail_wf_new|done].
  - exists SqliteStore_Mail. intros q faults e Hq He. split; [by apply lite_mail_wf_new|done].
  - exists PostgresStore_Mail. intros q faults e Hq He. split; [by apply pg_mail_wf_new|done].
Qed.

Lemma every_backend_keeps_mail_witness :
  ∃ L : @MailLaws SqliteStore (@SqliteStore_Store hex_UuidText) (@SqliteStore_Laws hex_UuidText),
    @mail_wf _ _ _ L (lite_with_quotas (mkMailboxQuotas 1 0) (lite_new demo_faults), sql_demo_env).
Proof.
  destruct (@every_backend_keeps_mail hex_UuidText) as (_ & [L HL] & _). exists L.
  destruct (HL (mkMailboxQuotas 1 0) demo_faults sql_demo_env) as [Hw _].
  - split; apply (bool_decide_unpack _); vm_compute; exact Logic.I.
  - apply sql_demo_uuids.
  - exact Hw.
Defined.
