(* ===== verification/Working.v ===== *)
(** * Working: the three backends in working order

    When the calls of the SMTP receiver succeed on each backend ([WorkingStore] of
    [MailSpec]): the in-memory store always works; a database works as long as no round
    trip fails and the identifiers drawn are new. *)

From S2P Require Import Prelude Str Model UuidHex Config StoreSpec MailSpec MemoryStore MemoryStoreLaws.
From S2P Require Import Sql SqlLaws SqlInvariant SqliteStore PostgresStore SqliteLaws PostgresLaws SqlAtomic.

#[export, refine] Instance MemoryStore_Working : WorkingStore MemoryStore := {| works _ _ := True |}.
Proof.
  - by intros _ a t [s e] _.
  - by intros _ d [s e] _.
  - intros _ a m [s e] _ _. split; [|done]. cbn. unfold mem_save_message. run_mem.
    destruct (store_attachments_state (nm_attachments m) s e) as (r & f & Hr). by rewrite Hr.
  - done.
Defined.

Section sql.
Context {I : Type} `{Countable I} `{!IdOrder I} (key : Uuid → I).

Definition sql_works (k : nat) (w : SqlStore I * Env) : Prop :=
  fault_free w.1 ∧ fresh_keys key k (sql_db w.1) w.2.

Lemma sql_works_query {A} (f : Db I → A) k w :
  sql_works k w → is_Ok (query f w).1 ∧ sql_works k (query f w).2.
Proof.
  destruct w as [s e]. intros [Hf Hk]. unfold query. rewrite stmt_run, Hf. split; [done|].
  split; [intros n; apply (Hf (S n))|done].
Qed.
Lemma sql_works_clock k s e e' n :
  sql_works k (s, e) → later e e' n → e_uuid e' = e_uuid e → sql_works k (s, e').
Proof. intros [Hf Hk] _ He. split; [done|]. by eapply fresh_env. Qed.
Lemma sql_works_save {A} (m : SM (SqlStore I) A) k w :
  succeeds m w.1 w.2 (fresh_keys key k) → is_Ok (m w).1 ∧ sql_works k (m w).2.
Proof. destruct w as [s e]. intros (a & s' & e' & Hr & Hf & Hk). cbn in Hr. by rewrite Hr. Qed.
End sql.

#[export, refine] Instance SqliteStore_Working `{UuidText} : WorkingStore SqliteStore :=
  {| works := sql_works uuid_to_string |}.
Proof.
  - intros. by apply sql_works_query.
  - intros. by apply sql_works_query.
  - intros k a m w [Hf Hk] Ha. apply sql_works_save, lite_save_succeeds; [done|exact Ha|].
    eapply fresh_le; [exact Hk|lia].
  - apply sql_works_clock.
Defined.
#[export, refine] Instance PostgresStore_Working : WorkingStore PostgresStore :=
  {| works := sql_works (λ i, i) |}.
Proof.
  - intros. by apply sql_works_query.
  - intros. by apply sql_works_query.
  - intros k a m w [Hf Hk] Ha. apply sql_works_save, pg_save_succeeds; [done|exact Ha|].
    eapply fresh_le; [exact Hk|lia].
  - apply sql_works_clock.
Defined.
