(* ===== verification/SmtpCommands.v ===== *)
(** * SmtpCommands: the command parser ([src/smtp/commands.rs])

    [Command] and [parse] as in the source. A [find] on the lowercased copy gives an
    index into the original: ASCII lowercasing keeps lengths. *)

From S2P Require Import Prelude Str.

Inductive Command :=
| Helo (domain : str)
| Ehlo (domain : str)
| MailFrom (path : str)
| RcptTo (path : str)
| Data
| Rset
| Noop
| Quit
| StartTls
| Vrfy
| Help
| Unknown (line : str).

#[export] Instance Command_eq_dec : EqDecision Command.
Proof. solve_decision. Defined.

Definition extract_path (args keyword : str) : option str :=
  let lower := to_ascii_lowercase args in
  let needle := to_ascii_lowercase keyword ++ lit ":" in
  match find_sub needle lower with
  | None => None
  | Some idx =>
      let after := trim_start (drop (idx + length needle) args) in
      match find_char (Z.eqb 60) after with
      | Some open =>
          let rest := drop (S open) after in
          match find_char (Z.eqb 62) rest with
          | None => None
          | Some close => Some (trim (take close rest))
          end
      | None => Some (default [] (first_word after))
      end
  end.

Definition parse (line : str) : Command :=
  let trimmed := trim line in
  let parts := splitn2_whitespace trimmed in
  let verb := to_ascii_uppercase parts.1 in
  let rest := trim (default [] parts.2) in
  if bool_decide (verb = lit "HELO") then Helo rest
  else if bool_decide (verb = lit "EHLO") then Ehlo rest
  else if bool_decide (verb = lit "MAIL") then
    match extract_path rest (lit "FROM") with
    | Some addr => MailFrom addr
    | None => Unknown trimmed
    end
  else if bool_decide (verb = lit "RCPT") then
    match extract_path rest (lit "TO") with
    | Some addr => RcptTo addr
    | None => Unknown trimmed
    end
  else if bool_decide (verb = lit "DATA") then Data
  else if bool_decide (verb = lit "RSET") then Rset
  else if bool_decide (verb = lit "NOOP") then Noop
  else if bool_decide (verb = lit "QUIT") then Quit
  else if bool_decide (verb = lit "STARTTLS") then StartTls
  else if bool_decide (verb = lit "VRFY") then Vrfy
  else if bool_decide (verb = lit "HELP") then Help
  else Unknown trimmed.

(** The command with its argument lowercased. *)
Definition lower_args (c : Command) : Command :=
  match c with
  | Helo d => Helo (to_ascii_lowercase d)
  | Ehlo d => Ehlo (to_ascii_lowercase d)
  | MailFrom p => MailFrom (to_ascii_lowercase p)
  | RcptTo p => RcptTo (to_ascii_lowercase p)
  | Unknown l => Unknown (to_ascii_lowercase l)
  | c => c
  end.

(** ** Lowercasing commutes with the searches *)

Lemma is_whitespace_lower c : is_whitespace (lower_char c) = is_whitespace c.
Proof.
  unfold lower_char, is_ascii_uppercase. destruct (in_range 65 90 c) eqn:Hc; [|done].
  rewrite in_range_spec in Hc. unfold is_whitespace, in_range.
  apply eq_true_iff_eq. rewrite !orb_true_iff, !andb_true_iff, !Z.leb_le, !Z.eqb_eq. lia.
Qed.

Section lowering.
Context (p : Z → bool) (Hp : ∀ c, p (lower_char c) = p c).

Lemma drop_while_lower s :
  drop_while p (to_ascii_lowercase s) = to_ascii_lowercase (drop_while p s).
Proof. induction s as [|c s IH]; cbn; [done|]. rewrite Hp. by destruct (p c). Qed.
Lemma take_while_lower s :
  take_while p (to_ascii_lowercase s) = to_ascii_lowercase (take_while p s).
Proof.
  induction s as [|c s IH]; cbn; [done|]. rewrite Hp. fold (to_ascii_lowercase s). rewrite IH.
  by destruct (p c).
Qed.
Lemma find_char_lower s : find_char p (to_ascii_lowercase s) = find_char p s.
Proof. induction s as [|c s IH]; cbn; [done|]. rewrite Hp. fold (to_ascii_lowercase s). by rewrite IH. Qed.
Lemma trim_end_by_lower s :
  trim_end_by p (to_ascii_lowercase s) = to_ascii_lowercase (trim_end_by p s).
Proof.
  unfold trim_end_by, to_ascii_lowercase. rewrite <-map_rev.
  fold (to_ascii_lowercase (rev s)). rewrite drop_while_lower. unfold to_ascii_lowercase.
  by rewrite map_rev.
Qed.
End lowering.

Lemma take_lower n s : take n (to_ascii_lowercase s) = to_ascii_lowercase (take n s).
Proof. apply firstn_map. Qed.
Lemma drop_lower n s : drop n (to_ascii_lowercase s) = to_ascii_lowercase (drop n s).
Proof. apply skipn_map. Qed.
Lemma trim_lower s : trim (to_ascii_lowercase s) = to_ascii_lowercase (trim s).
Proof.
  unfold trim, trim_end, trim_start, trim_start_by.
  rewrite drop_while_lower by apply is_whitespace_lower.
  apply trim_end_by_lower, is_whitespace_lower.
Qed.
Lemma eqb_lower d : is_ascii_alphabetic d = false → ∀ c, Z.eqb d (lower_char c) = Z.eqb d c.
Proof.
  intros Hd c. apply eq_true_iff_eq. rewrite !Z.eqb_eq.
  pose proof (lower_char_other c d Hd). naive_solver.
Qed.
Lemma first_word_lower s :
  first_word (to_ascii_lowercase s) = to_ascii_lowercase <$> first_word s.
Proof.
  unfold first_word. rewrite drop_while_lower by apply is_whitespace_lower.
  rewrite take_while_lower by (intros c; by rewrite is_whitespace_lower).
  by destruct (take_while _ _).
Qed.
Lemma splitn2_lower s :
  splitn2_whitespace (to_ascii_lowercase s)
  = (to_ascii_lowercase (splitn2_whitespace s).1, to_ascii_lowercase <$> (splitn2_whitespace s).2).
Proof.
  unfold splitn2_whitespace, split_once.
  rewrite find_char_lower by apply is_whitespace_lower.
  destruct (find_char is_whitespace s); cbn -[drop]; [|done]. by rewrite take_lower, drop_lower.
Qed.

Lemma extract_path_lower args k :
  extract_path (to_ascii_lowercase args) k = to_ascii_lowercase <$> extract_path args k.
Proof.
  unfold extract_path. rewrite to_ascii_lowercase_idemp.
  destruct (find_sub _ _) as [idx|]; [|done].
  rewrite drop_lower. unfold trim_start, trim_start_by.
  rewrite drop_while_lower by apply is_whitespace_lower.
  set (after := drop_while is_whitespace _).
  rewrite find_char_lower by by apply eqb_lower.
  destruct (find_char (Z.eqb 60) after) as [i|].
  - rewrite drop_lower, find_char_lower by by apply eqb_lower.
    destruct (find_char _ _); [|done]. cbn -[drop]. by rewrite take_lower, trim_lower.
  - rewrite first_word_lower. cbn. by destruct (first_word after).
Qed.

(** Commands are recognised whatever the case of their letters: lowercasing a line
    lowercases the argument of the command it parses to and changes nothing else. *)
Theorem parse_case_insensitive line :
  parse (to_ascii_lowercase line) = lower_args (parse line).
Proof.
  unfold parse. rewrite trim_lower, splitn2_lower.
  destruct (splitn2_whitespace (trim line)) as [verb rest]. cbn [fst snd].
  rewrite to_ascii_uppercase_lowercase.
  assert (trim (default [] (to_ascii_lowercase <$> rest))
          = to_ascii_lowercase (trim (default [] rest))) as ->.
  { destruct rest; cbn; [apply trim_lower|done]. }
  rewrite !extract_path_lower.
  repeat (case_bool_decide; [first [done | by destruct (extract_path _ _)]|]). done.
Qed.

(** ** Envelope commands *)

(** [verb keyword:<path>params] as a client writes it, with blanks after the colon. *)
Definition envelope (verb keyword blanks path params : str) : str :=
  verb ++ 32 :: keyword ++ 58 :: blanks ++ 60 :: path ++ 62 :: params.

(** Associate concatenations to the right. *)
Ltac app_norm := cbn [app]; repeat (rewrite <-app_assoc; cbn [app]).

Lemma trim_end_app s c t :
  is_whitespace c = false → trim_end (s ++ c :: t) = s ++ c :: trim_end t.
Proof.
  intros Hc. unfold trim_end, trim_end_by. rewrite rev_app_distr. cbn [rev].
  assert (∀ u v, drop_while is_whitespace (u ++ c :: v) = drop_while is_whitespace u ++ c :: v) as H.
  { induction u as [|a u IH]; intros v; cbn; [by rewrite Hc|]. by destruct (is_whitespace a). }
  rewrite <-!app_assoc. cbn [app]. rewrite H, rev_app_distr. cbn [rev].
  by rewrite rev_involutive, <-app_assoc.
Qed.
Lemma trim_end_idemp s : trim_end (trim_end s) = trim_end s.
Proof. apply trim_end_by_id. apply trim_end_by_last. Qed.
Lemma trim_start_app s c t :
  Forall (λ c, is_whitespace c = true) s → is_whitespace c = false →
  trim_start (s ++ c :: t) = c :: t.
Proof.
  intros Hs Hc. unfold trim_start, trim_start_by. induction Hs as [|a s Ha Hs IH]; cbn.
  - by rewrite Hc.
  - by rewrite Ha.
Qed.

Lemma trim_start_cons c t : is_whitespace c = false → trim_start (c :: t) = c :: t.
Proof. apply (trim_start_app []). constructor. Qed.

Lemma upper_not_whitespace s t :
  to_ascii_uppercase s = t → Forall (λ c, is_ascii_uppercase c = true) t →
  Forall (λ c, is_whitespace c = false) s.
Proof.
  intros <-. unfold to_ascii_uppercase. rewrite Forall_map. intros HF.
  eapply Forall_impl; [exact HF|]. intros c.
  unfold upper_char, is_ascii_uppercase, is_ascii_lowercase, is_whitespace, in_range.
  intros H. apply not_true_iff_false. apply andb_prop in H as [H1 H2]. apply Z.leb_le in H1, H2.
  rewrite !orb_true_iff, !andb_true_iff, !Z.leb_le, !Z.eqb_eq.
  destruct ((97 <=? c) && (c <=? 122)) eqn:Hl; [|lia]. apply andb_prop in Hl as [Hl1 Hl2].
  apply Z.leb_le in Hl1, Hl2. lia.
Qed.

Lemma envelope_cons verb keyword blanks path params c v :
  verb = c :: v → Forall (λ c, is_whitespace c = false) verb →
  trim (envelope verb keyword blanks path params)
  = envelope verb keyword blanks path (trim_end params).
Proof.
  intros -> Hv. unfold trim, envelope. apply Forall_cons in Hv as [Hc Hv].
  change ((c :: v) ++ ?l) with (c :: (v ++ l)).
  rewrite trim_start_cons by done.
  set (pre := c :: v ++ 32 :: keyword ++ 58 :: blanks ++ 60 :: path).
  replace (c :: v ++ 32 :: keyword ++ 58 :: blanks ++ 60 :: path ++ 62 :: params)
    with (pre ++ 62 :: params) by (unfold pre; app_norm; done).
  rewrite trim_end_app by done. unfold pre. app_norm. done.
Qed.

Lemma extract_path_brackets k keyword blanks path params :
  to_ascii_lowercase keyword = to_ascii_lowercase k →
  Forall (λ c, is_whitespace c = true) blanks → 62 ∉ path →
  extract_path (keyword ++ 58 :: blanks ++ 60 :: path ++ 62 :: params) k = Some (trim path).
Proof.
  intros Hk Hb Hp. unfold extract_path.
  set (needle := to_ascii_lowercase k ++ lit ":").
  set (args := keyword ++ _).
  assert (to_ascii_lowercase args
          = needle ++ to_ascii_lowercase (blanks ++ 60 :: path ++ 62 :: params)) as ->.
  { unfold args, needle. rewrite to_ascii_lowercase_app, Hk, <-app_assoc. done. }
  assert (∀ p t, find_sub p (p ++ t) = Some O) as Hfs.
  { intros p t. destruct (p ++ t) as [|c u] eqn:He; cbn.
    - apply app_eq_nil in He as [-> ->]. done.
    - by rewrite <-He, starts_with_app. }
  rewrite Hfs. cbn [Nat.add].
  assert (drop (length needle) args = blanks ++ 60 :: path ++ 62 :: params) as ->.
  { unfold needle, args. rewrite length_app, <-Hk, to_ascii_lowercase_length.
    rewrite drop_app_add. done. }
  rewrite trim_start_app by done. cbn [find_char]. rewrite Z.eqb_refl. cbn [drop].
  rewrite !drop_0. rewrite (find_char_app (Z.eqb 62)).
  - by rewrite take_app_length.
  - apply Forall_forall. intros c Hc. apply Z.eqb_neq. congruence.
  - done.
Qed.

(** An envelope command is understood in every spelling: any case of the verb and
    keyword, blanks after the colon, parameters after the bracket. The path it carries
    is the text between the brackets, trimmed. *)
Theorem parse_envelope verb keyword blanks path params :
  Forall (λ c, is_whitespace c = true) blanks → 62 ∉ path →
  (to_ascii_uppercase verb = lit "MAIL" → to_ascii_lowercase keyword = lit "from" →
   parse (envelope verb keyword blanks path params) = MailFrom (trim path)) ∧
  (to_ascii_uppercase verb = lit "RCPT" → to_ascii_lowercase keyword = lit "to" →
   parse (envelope verb keyword blanks path params) = RcptTo (trim path)).
Proof.
  intros Hb Hp.
  assert (∀ V K k, to_ascii_uppercase verb = V → V ≠ [] →
    Forall (λ c, is_ascii_uppercase c = true) V →
    to_ascii_lowercase keyword = K → K = to_ascii_lowercase k →
    (∃ c t, keyword = c :: t ∧ is_whitespace c = false) →
    ∃ rest, splitn2_whitespace (trim (envelope verb keyword blanks path params)) = (verb, Some rest) ∧
      extract_path (trim rest) k = Some (trim path)) as Hgen.
  { intros V K k HV HVn HVu HK -> (c & t & Hkw & Hc).
    assert (Forall (λ c, is_whitespace c = false) verb) as Hv by by eapply upper_not_whitespace.
    destruct verb as [|v0 v] eqn:Hverb; [by destruct HVn|]. rewrite <-Hverb in *.
    erewrite envelope_cons by done. unfold splitn2_whitespace, envelope.
    rewrite split_once_app by done. eexists. split; [done|].
    rewrite Hkw. cbn [app]. unfold trim at 1. rewrite trim_start_cons by done.
    set (mid := c :: t ++ 58 :: blanks ++ 60 :: path).
    assert (∀ x, c :: t ++ 58 :: blanks ++ 60 :: path ++ 62 :: x = mid ++ 62 :: x) as Hmid.
    { intros x. unfold mid. app_norm. done. }
    rewrite Hmid, trim_end_app, trim_end_idemp by done. rewrite <-Hmid.
    change (c :: t ++ ?l) with ((c :: t) ++ l). rewrite <-Hkw. by apply extract_path_brackets. }
  split; intros HV HK.
  - destruct (Hgen _ (lit "from") (lit "FROM") HV) as (rest & H1 & H2); try done.
    + by repeat constructor.
    + destruct keyword as [|c t]; [done|]. injection HK as Hc _. exists c, t. split; [done|].
      rewrite <-is_whitespace_lower, Hc. done.
    + unfold parse. rewrite H1. cbn [fst snd default]. rewrite HV. cbn -[extract_path trim]. by rewrite H2.
  - destruct (Hgen _ (lit "to") (lit "TO") HV) as (rest & H1 & H2); try done.
    + by repeat constructor.
    + destruct keyword as [|c t]; [done|]. injection HK as Hc _. exists c, t. split; [done|].
      rewrite <-is_whitespace_lower, Hc. done.
    + unfold parse. rewrite H1. cbn [fst snd default]. rewrite HV. cbn -[extract_path trim]. by rewrite H2.
Qed.

Lemma parse_envelope_witness :
  parse (lit "Mail from: <a@b.io> SIZE=12") = MailFrom (lit "a@b.io").
Proof.
  refine (proj1 (parse_envelope (lit "Mail") (lit "from") [32] (lit "a@b.io") (lit " SIZE=12") _ _) _ _).
  - by repeat constructor.
  - apply (bool_decide_unpack _). vm_compute. exact I.
  - reflexivity.
  - reflexivity.
Defined.
