(* ===== verification/SmtpIo.v ===== *)
(** * SmtpIo: lines, replies and the DATA phase ([src/smtp/session.rs])

    The connection is the [BufReader] over the socket: the bytes buffered and not yet
    consumed, what the network still delivers, the bytes written so far, and how many
    more writes succeed. [tokio::time::timeout] around a read is the event [Stall]: the
    deadline of the pending read passes before more data arrives. *)

From S2P Require Import Prelude Str.

Inductive NetEvent :=
| Recv (chunk : bytes)
| RecvErr
| Stall.

(** [OutOfFuel] marks a loop of the model cut short; the source has no such error. *)
Inductive io_error := TimedOut | IoError | OutOfFuel.

Record Conn := mkConn {
  c_buf : bytes;
  c_rest : list NetEvent;
  c_out : bytes;
  c_writes : option nat;
}.

Definition set_in (i : bytes * list NetEvent) (c : Conn) : Conn :=
  mkConn i.1 i.2 (c_out c) (c_writes c).

Inductive LineStatus := Line | Eof | TooLong.
Inductive DataOutcome := Complete (data : bytes) | TooLarge | ConnectionClosed.

Definition COMMAND_LINE_MAX : Z := 4096.

(** ** Reading a line *)

Inductive ReadAction :=
| ActEof
| ActDone (n : nat) (status : LineStatus) (buf : bytes)
| ActConsume (buf : bytes).

(** What one chunk of [fill_buf] does to the line being read. *)
Definition read_action (buf : bytes) (max : Z) (chunk : bytes) : ReadAction :=
  if bool_decide (chunk = []) then ActEof
  else
    match find_char (Z.eqb 10) chunk with
    | Some pos =>
        let take_n := S pos in
        if bool_decide (max < len buf + Z.of_nat take_n) then ActDone take_n TooLong buf
        else ActDone take_n Line (buf ++ take take_n chunk)
    | None =>
        if bool_decide (max < len buf + len chunk) then ActDone (length chunk) TooLong buf
        else ActConsume (buf ++ chunk)
    end.

Definition at_eof (buf : bytes) : LineStatus * bytes :=
  (if bool_decide (buf = []) then Eof else Line, buf).

(** The loop of [read_line] once the buffer is empty: one network event per turn. *)
Fixpoint read_events (rest : list NetEvent) (buf : bytes) (max : Z)
    : result (LineStatus * bytes) io_error * (bytes * list NetEvent) :=
  match rest with
  | [] => (Ok (at_eof buf), ([], []))
  | RecvErr :: rest => (Err IoError, ([], rest))
  | Stall :: rest => (Err TimedOut, ([], rest))
  | Recv chunk :: rest =>
      match read_action buf max chunk with
      | ActEof => (Ok (at_eof buf), ([], rest))
      | ActDone n status buf => (Ok (status, buf), (drop n chunk, rest))
      | ActConsume buf => read_events rest buf max
      end
  end.

(** [read_line_timed]: [buf.clear()], then the bytes already buffered, then the network. *)
Definition read_line (max : Z) : M Conn io_error (LineStatus * bytes) := λ c,
  let '(r, i) :=
    match c_buf c with
    | [] => read_events (c_rest c) [] max
    | chunk =>
        match read_action [] max chunk with
        | ActEof => (Ok (at_eof []), ([], c_rest c))
        | ActDone n status buf => (Ok (status, buf), (drop n chunk, c_rest c))
        | ActConsume buf => read_events (c_rest c) buf max
        end
    end in
  (r, set_in i c).

(** ** Writing *)

Definition write_all (b : bytes) : M Conn io_error unit := λ c,
  match c_writes c with
  | Some O => (Err IoError, c)
  | Some (S n) => (Ok tt, mkConn (c_buf c) (c_rest c) (c_out c ++ b) (Some n))
  | None => (Ok tt, mkConn (c_buf c) (c_rest c) (c_out c ++ b) None)
  end.
Definition flush : M Conn io_error unit := write_all [].

Definition crlf : bytes := [13; 10].
Definition write_line (line : str) : M Conn io_error unit :=
  write_all (as_bytes line);;
  write_all crlf;;
  flush.

Fixpoint write_multiline_go (code : Z) (lines : list str) : M Conn io_error unit :=
  match lines with
  | [] => flush
  | line :: lines =>
      let sep := if bool_decide (lines = []) then lit " " else lit "-" in
      write_all (as_bytes (fmt_int code ++ sep ++ line ++ crlf));;
      write_multiline_go code lines
  end.
Definition write_multiline : Z → list str → M Conn io_error unit := write_multiline_go.

(** ** End of line, end of data *)

Definition strip_last (b : Z) (line : bytes) : bytes :=
  match rev line with
  | c :: l => if c =? b then rev l else line
  | [] => line
  end.
Definition strip_eol (line : bytes) : bytes := strip_last 13 (strip_last 10 line).
Definition is_terminator (line : bytes) : bool := bool_decide (strip_eol line = [46]).

(** ** The DATA phase *)

Definition unstuff (line : bytes) : bytes :=
  match line with c :: l => if c =? 46 then l else line | [] => line end.

Fixpoint read_data_go (fuel : nat) (max : Z) (data : bytes) (too_large : bool)
    : M Conn io_error DataOutcome :=
  match fuel with
  | O => throw OutOfFuel
  | S fuel =>
      sl ← read_line (saturating_add_u64 max 4);
      match sl.1 with
      | Eof => mret ConnectionClosed
      | TooLong =>
          if too_large then read_data_go fuel max data true
          else read_data_go fuel max [] true
      | Line =>
          if is_terminator sl.2 then mret (if too_large then TooLarge else Complete data)
          else if too_large then read_data_go fuel max data true
          else
            let content := unstuff sl.2 in
            if bool_decide (max < len data + len content)
            then read_data_go fuel max [] true
            else read_data_go fuel max (data ++ content) false
      end
  end.

(** What a connection can still deliver: each turn of a read loop uses up some of it. *)
Definition event_size (e : NetEvent) : nat :=
  match e with Recv chunk => S (length chunk) | _ => 1 end.
Definition conn_size (c : Conn) : nat := length (c_buf c) + sum_list (map event_size (c_rest c)).

Definition read_data (max : Z) : M Conn io_error DataOutcome := λ c,
  read_data_go (S (conn_size c)) max [] false c.

(** ** Reading makes progress *)

Lemma read_action_bound buf max chunk :
  len buf ≤ max →
  match read_action buf max chunk with
  | ActEof => chunk = []
  | ActDone n st buf' => (0 < n ≤ length chunk)%nat ∧ st ≠ Eof ∧ len buf' ≤ max
  | ActConsume buf' => chunk ≠ [] ∧ len buf' ≤ max
  end.
Proof.
  intros Hb. unfold read_action. case_bool_decide as Hc; [done|].
  destruct (find_char (Z.eqb 10) chunk) as [pos|] eqn:Hf.
  - apply find_char_spec in Hf as (c & Hs & _ & _).
    assert (S pos ≤ length chunk)%nat as Hp.
    { apply (f_equal length) in Hs. rewrite length_app, length_take in Hs. cbn -[drop] in Hs.
      rewrite length_drop in Hs. lia. }
    case_bool_decide; repeat split; try done; try lia.
    rewrite length_app, length_take. lia.
  - assert (0 < length chunk)%nat by (destruct chunk; [done|cbn; lia]).
    case_bool_decide; [repeat split; done || lia|]. split; [done|]. rewrite length_app. lia.
Qed.

Lemma read_events_bound rest buf max r i :
  len buf ≤ max → read_events rest buf max = (r, i) →
  (length i.1 + sum_list (map event_size i.2) ≤ sum_list (map event_size rest))%nat ∧
  match r with
  | Ok (st, b) => len b ≤ max ∧ (st ≠ Eof → buf = [] →
      (length i.1 + sum_list (map event_size i.2) < sum_list (map event_size rest))%nat)
  | Err e => e ≠ OutOfFuel
  end.
Proof.
  revert buf. induction rest as [|[chunk| |] rest IH]; intros buf Hb; cbn.
  - intros [= <- <-]. cbn. split; [lia|]. split; [done|]. intros Hs ->. by destruct Hs.
  - pose proof (read_action_bound buf max chunk Hb) as Ha.
    destruct (read_action buf max chunk) as [|n st b|b].
    + intros [= <- <-]. cbn. subst chunk. cbn. split; [lia|]. split; [done|]. lia.
    + destruct Ha as (Hn & Hst & Hl). intros [= <- <-]. cbn. rewrite length_drop.
      split; [lia|]. split; [done|]. lia.
    + destruct Ha as [Hc Hl]. intros H. destruct (IH b Hl H) as [H1 H2]. split; [lia|].
      destruct r as [[st b']|]; [|done]. destruct H2 as [H2 _]. split; [done|]. lia.
  - intros [= <- <-]. cbn. split; [lia|done].
  - intros [= <- <-]. cbn. split; [lia|done].
Qed.

Lemma read_line_bound max c r c' :
  0 ≤ max → read_line max c = (r, c') →
  (conn_size c' ≤ conn_size c)%nat ∧
  match r with
  | Ok (st, b) => len b ≤ max ∧ (st ≠ Eof → (conn_size c' < conn_size c)%nat)
  | Err e => e ≠ OutOfFuel
  end.
Proof.
  intros Hm. unfold read_line, conn_size.
  destruct (c_buf c) as [|x b0] eqn:Hbuf.
  - destruct (read_events (c_rest c) [] max) as [r0 i] eqn:Hr. intros [= <- <-]. cbn.
    apply read_events_bound in Hr as [H1 H2]; [|cbn; lia]. split; [lia|].
    destruct r0 as [[st b]|]; [|done]. naive_solver.
  - rewrite <-Hbuf. set (chunk := c_buf c) in *.
    pose proof (read_action_bound [] max chunk ltac:(cbn; lia)) as Ha.
    destruct (read_action [] max chunk) as [|n st b|b].
    + intros [= <- <-]. congruence.
    + destruct Ha as (Hn & Hst & Hl). intros [= <- <-]. cbn. rewrite length_drop.
      split; [lia|]. split; [done|]. lia.
    + destruct Ha as [Hc Hl].
      destruct (read_events (c_rest c) b max) as [r0 i] eqn:Hr. intros [= <- <-]. cbn.
      apply read_events_bound in Hr as [H1 H2]; [|done].
      assert (0 < length chunk)%nat by (rewrite Hbuf; cbn; lia).
      split; [lia|]. destruct r0 as [[st b']|]; [|done]. split; [naive_solver|lia].
Qed.

Lemma line_max_nonneg max : 0 ≤ max → 0 ≤ saturating_add_u64 max 4.
Proof. unfold saturating_add_u64, u64_max. lia. Qed.

(** One turn of [read_data_go] on a connection, when the line read is known. *)
Lemma read_data_go_bound fuel max data tl c r c' :
  0 ≤ max → len data ≤ max → (conn_size c < fuel)%nat →
  read_data_go fuel max data tl c = (r, c') →
  (conn_size c' ≤ conn_size c)%nat ∧
  match r with
  | Ok (Complete d) => tl = false ∧ len d ≤ max
  | Ok _ => True
  | Err e => e ≠ OutOfFuel
  end.
Proof.
  intros Hm. revert data tl c. induction fuel as [|fuel IH]; intros data tl c Hd Hf; [lia|].
  cbn [read_data_go]. unfold mbind, M_bind.
  destruct (read_line _ c) as [[[st line]|e] c1] eqn:Hr;
    apply read_line_bound in Hr as [Hsz H]; auto using line_max_nonneg; [|by intros [= <- <-]].
  destruct H as [Hl Hprog]. cbn [fst snd].
  assert (∀ data tl, len data ≤ max → st ≠ Eof → read_data_go fuel max data tl c1 = (r, c') →
    (conn_size c' ≤ conn_size c)%nat ∧
    match r with
    | Ok (Complete d) => tl = false ∧ len d ≤ max
    | Ok _ => True
    | Err e => e ≠ OutOfFuel
    end) as Hgo.
  { intros d t Hd' Hst Hgo. specialize (Hprog Hst).
    destruct (IH d t c1 Hd' ltac:(lia) Hgo) as [??]. split; [lia|done]. }
  destruct st.
  - destruct (is_terminator line); [intros [= <- <-]; destruct tl; split; (done || lia)|].
    destruct tl; [by apply Hgo|]. case_bool_decide.
    + intros H'. apply Hgo in H' as [? Hr]; [|cbn; lia|done]. split; [done|].
      destruct r as [[]|]; naive_solver.
    + intros H'. apply Hgo in H' as [? Hr]; [|rewrite length_app; lia|done]. done.
  - intros [= <- <-]. done.
  - destruct tl; intros H'; (apply Hgo in H' as [? Hr]; [|cbn; lia|done]); (split; [done|]);
      destruct r as [[]|]; naive_solver.
Qed.

(** C9: the DATA phase terminates on every connection, however the bytes arrive, and
    whatever it accepts fits in the message size limit. *)
Theorem read_data_total max c :
  0 ≤ max →
  match read_data max c with
  | (Ok (Complete d), c') => len d ≤ max ∧ (conn_size c' ≤ conn_size c)%nat
  | (Ok _, c') => (conn_size c' ≤ conn_size c)%nat
  | (Err e, _) => e = TimedOut ∨ e = IoError
  end.
Proof.
  intros Hm. destruct (read_data max c) as [r c'] eqn:H. unfold read_data in H.
  apply read_data_go_bound in H as [Hs Hr]; [|done|cbn; lia|lia].
  destruct r as [[]|[]]; naive_solver.
Qed.

Lemma read_data_total_witness :
  let c := mkConn (lit "hello") [Recv [13; 10; 46]; Recv [10; 65]] [] None in
  match read_data 7 c with
  | (Ok (Complete d), c') => len d ≤ 7 ∧ (conn_size c' ≤ conn_size c)%nat
  | (Ok _, c') => (conn_size c' ≤ conn_size c)%nat
  | (Err e, _) => e = TimedOut ∨ e = IoError
  end.
Proof. intros c. apply (read_data_total 7 c). lia. Defined.

(** ** Reading does not depend on how the bytes are cut

    [pending c]: the bytes the connection still delivers, when every event is data. *)
Definition event_bytes (e : NetEvent) : bytes :=
  match e with Recv chunk => chunk | _ => [] end.
Definition pending (c : Conn) : bytes := c_buf c ++ concat (map event_bytes (c_rest c)).
Definition is_data (e : NetEvent) : Prop :=
  match e with Recv chunk => chunk ≠ [] | _ => False end.
Definition data_only (c : Conn) : Prop := Forall is_data (c_rest c).

(** One chunk against a stream that starts with the line [l] and its line feed. *)
Lemma read_action_line buf max chunk more l tail :
  chunk ≠ [] → chunk ++ more = l ++ 10 :: tail → 10 ∉ l → len buf + len l + 1 ≤ max →
  (∃ n, read_action buf max chunk = ActDone n Line (buf ++ l ++ [10]) ∧
        drop n chunk ++ more = tail) ∨
  (∃ l', read_action buf max chunk = ActConsume (buf ++ chunk) ∧ l = chunk ++ l' ∧
         more = l' ++ 10 :: tail).
Proof.
  intros Hc Heq Hl Hmax. unfold read_action. rewrite bool_decide_false by done.
  apply app_eq_app in Heq as [k [[-> Heq]|[-> Heq]]].
  - destruct k as [|x k].
    + cbn in Heq. subst more. rewrite app_nil_r in *.
      assert (find_char (Z.eqb 10) l = None) as ->.
      { apply find_char_None, Forall_forall. intros c Hc'. apply Z.eqb_neq. congruence. }
      right. exists []. rewrite bool_decide_false by lia. by rewrite app_nil_r.
    + cbn in Heq. injection Heq as <- ->. left. rewrite (find_char_app (Z.eqb 10)); [|..|done].
      * rewrite bool_decide_false by lia. exists (S (length l)). split.
        -- f_equal. f_equal. change (10 :: k) with ([10] ++ k). rewrite app_assoc.
           apply take_app_length'. rewrite length_app. cbn. lia.
        -- change (10 :: k) with ([10] ++ k). rewrite app_assoc.
           rewrite drop_app_length'; [done|]. rewrite length_app. cbn. lia.
      * apply Forall_forall. intros c Hc'. apply Z.eqb_neq. congruence.
  - assert (find_char (Z.eqb 10) chunk = None) as ->.
    { apply find_char_None, Forall_forall. intros c Hc'. apply Z.eqb_neq. intros <-.
      apply Hl. apply elem_of_app. by left. }
    right. exists k. rewrite length_app in Hmax. rewrite bool_decide_false by lia. done.
Qed.

Lemma read_events_line rest buf max l tail :
  Forall is_data rest → concat (map event_bytes rest) = l ++ 10 :: tail →
  10 ∉ l → len buf + len l + 1 ≤ max →
  ∃ b rest', read_events rest buf max = (Ok (Line, buf ++ l ++ [10]), (b, rest')) ∧
    Forall is_data rest' ∧ b ++ concat (map event_bytes rest') = tail.
Proof.
  intros Hd. revert buf l. induction Hd as [|[chunk| |] rest He Hd IH]; intros buf l Heq Hl Hmax;
    cbn in *; try done.
  - by destruct l.
  - destruct (read_action_line buf max chunk _ l tail He Heq Hl Hmax)
      as [(n & -> & Hn)|(l' & -> & -> & Hm)].
    + exists (drop n chunk), rest. done.
    + destruct (IH (buf ++ chunk) l' Hm) as (b & rest' & -> & Hd' & Hb).
      * intros H. apply Hl, elem_of_app. by right.
      * rewrite !length_app in *. lia.
      * exists b, rest'. by rewrite <-!app_assoc.
Qed.

(** A stream that starts with a line no longer than the limit delivers that line, and
    leaves the rest. *)
Lemma read_line_line max c l tail :
  data_only c → pending c = l ++ 10 :: tail → 10 ∉ l → len l + 1 ≤ max →
  ∃ c', read_line max c = (Ok (Line, l ++ [10]), c') ∧ data_only c' ∧ pending c' = tail ∧
        c_out c' = c_out c ∧ c_writes c' = c_writes c.
Proof.
  intros Hd Hp Hl Hmax. unfold read_line, pending, data_only in *.
  destruct (c_buf c) as [|x b0] eqn:Hbuf.
  - destruct (read_events_line (c_rest c) [] max l tail Hd Hp Hl ltac:(cbn; lia))
      as (b & rest' & -> & Hd' & Hb). eexists. split; [done|]. done.
  - assert (c_buf c ≠ []) as Hne by (rewrite Hbuf; done). rewrite <-Hbuf in *.
    destruct (read_action_line [] max (c_buf c) _ l tail Hne Hp Hl ltac:(cbn; lia))
      as [(n & -> & Hn)|(l' & -> & -> & Hm)].
    + eexists. split; [done|]. done.
    + destruct (read_events_line (c_rest c) (c_buf c) max l' tail Hd Hm)
        as (b & rest' & Hre & Hd' & Hb).
      * intros H. apply Hl, elem_of_app. by right.
      * rewrite length_app in *. lia.
      * cbn [app]. rewrite Hre. eexists. split; [by rewrite <-app_assoc|]. done.
Qed.

(** ** Dot-stuffing

    How a client sends a message made of lines: a line that starts with a dot gets one
    more, each line ends with CRLF, and a lone dot ends the data. *)
Definition stuff (l : bytes) : bytes :=
  match l with c :: _ => if c =? 46 then 46 :: l else l | [] => l end.
Definition body (ls : list bytes) : bytes := concat (map (λ l, l ++ crlf) ls).
Definition transmit (ls : list bytes) : bytes :=
  concat (map (λ l, stuff l ++ crlf) ls) ++ 46 :: crlf.

Lemma strip_last_snoc b l c : strip_last b (l ++ [c]) = if c =? b then l else l ++ [c].
Proof. unfold strip_last. rewrite rev_app_distr. cbn. by rewrite rev_involutive. Qed.
Lemma strip_eol_crlf l : strip_eol (l ++ crlf) = l.
Proof.
  unfold strip_eol, crlf. change [13; 10] with ([13] ++ [10]). rewrite app_assoc.
  rewrite strip_last_snoc. cbn. by rewrite strip_last_snoc.
Qed.
Lemma unstuff_stuff l : unstuff (stuff l ++ crlf) = l ++ crlf.
Proof.
  destruct l as [|c l]; cbn; [done|]. destruct (Z.eqb_spec c 46) as [->|Hc]; cbn; [done|].
  by destruct (Z.eqb_spec c 46).
Qed.
Lemma stuffed_not_terminator l : is_terminator (stuff l ++ crlf) = false.
Proof.
  unfold is_terminator. rewrite strip_eol_crlf. apply bool_decide_eq_false.
  destruct l as [|c l]; cbn; [done|]. destruct (Z.eqb_spec c 46); naive_solver.
Qed.
Lemma stuff_no_lf l : 10 ∉ l → 10 ∉ stuff l.
Proof.
  destruct l as [|c l]; cbn; [done|]. intros H. destruct (c =? 46); [|done].
  apply not_elem_of_cons. done.
Qed.

Lemma read_line_crlf max c l tail :
  data_only c → pending c = (l ++ crlf) ++ tail → 10 ∉ l → len l + 2 ≤ max →
  ∃ c', read_line max c = (Ok (Line, l ++ crlf), c') ∧ data_only c' ∧ pending c' = tail.
Proof.
  intros Hd Hp Hl Hm. destruct (read_line_line max c (l ++ [13]) tail Hd) as (c' & Hr & Hd' & Hp' & _).
  - rewrite Hp. unfold crlf. by rewrite <-!app_assoc.
  - intros [H|H]%elem_of_app; [done|]. by apply list_elem_of_singleton in H.
  - rewrite length_app. cbn. lia.
  - exists c'. unfold crlf. change [13; 10] with ([13] ++ [10]). by rewrite app_assoc.
Qed.

Lemma read_data_go_lines fuel max data tl c ls tail :
  0 ≤ max → max + 4 ≤ u64_max → Forall (λ l, 10 ∉ l ∧ len (stuff l) + 2 ≤ max + 4) ls →
  len data ≤ max → data_only c → pending c = transmit ls ++ tail → (length ls < fuel)%nat →
  ∃ c', read_data_go fuel max data tl c
        = (Ok (if tl || bool_decide (max < len (data ++ body ls))
               then TooLarge else Complete (data ++ body ls)), c') ∧
        data_only c' ∧ pending c' = tail.
Proof.
  intros Hm Hu Hls. revert data tl c fuel.
  assert (saturating_add_u64 max 4 = max + 4) as Hsat by (unfold saturating_add_u64; lia).
  induction Hls as [|l ls [Hl Hlen] Hls IH]; intros data tl c fuel Hdata Hd Hp Hf;
    (destruct fuel as [|fuel]; [cbn in Hf; lia|]); cbn [read_data_go]; rewrite Hsat;
    unfold mbind, M_bind.
  - destruct (read_line_crlf (max + 4) c [46] tail Hd) as (c' & -> & Hd' & Hp'); [by rewrite Hp|..].
    + intros H%list_elem_of_singleton. done.
    + cbn. lia.
    + exists c'. unfold body. cbn [concat map fst snd]. rewrite app_nil_r.
      rewrite (bool_decide_false (max < len data)), orb_false_r by lia. done.
  - destruct (read_line_crlf (max + 4) c (stuff l) (transmit ls ++ tail) Hd)
      as (c' & -> & Hd' & Hp'); [|by apply stuff_no_lf|done|].
    { rewrite Hp. unfold transmit. cbn. by rewrite <-!app_assoc. }
    cbn [fst snd]. rewrite stuffed_not_terminator, unstuff_stuff.
    assert (∀ d t, len d ≤ max → ∃ c'', read_data_go fuel max d t c'
      = (Ok (if t || bool_decide (max < len (d ++ body ls))
             then TooLarge else Complete (d ++ body ls)), c'') ∧
      data_only c'' ∧ pending c'' = tail) as Hgo by (intros d t Hdm; apply IH; [done..|cbn in Hf; lia]).
    assert (body (l :: ls) = (l ++ crlf) ++ body ls) as -> by done.
    rewrite (app_assoc data (l ++ crlf) (body ls)).
    destruct tl; cbn [orb]; [by destruct (Hgo data true Hdata) as (c'' & -> & ?); eauto|].
    case_bool_decide as Hover.
    + destruct (Hgo [] true) as (c'' & -> & ?); [cbn; lia|]. cbn [orb]. exists c''.
      rewrite bool_decide_true; [done|]. rewrite (length_app _ (body ls)), length_app. lia.
    + destruct (Hgo (data ++ l ++ crlf) false) as (c'' & -> & ?); [rewrite length_app; lia|].
      by exists c''.
Qed.

Lemma concat_length_le {A} (l : list (list A)) :
  Forall (λ x, x ≠ []) l → (length l ≤ length (concat l))%nat.
Proof.
  induction 1 as [|x l Hx Hl IH]; cbn; [done|]. rewrite length_app. destruct x; [done|]. cbn. lia.
Qed.
Lemma pending_le_size c : (length (pending c) ≤ conn_size c)%nat.
Proof.
  unfold pending, conn_size. rewrite length_app. apply Nat.add_le_mono_l.
  induction (c_rest c) as [|e r IH]; cbn; [done|]. rewrite length_app.
  destruct e; cbn; lia.
Qed.

(** Reading leaves the output side alone. *)
Lemma read_line_out max c r c' :
  read_line max c = (r, c') → c_out c' = c_out c ∧ c_writes c' = c_writes c.
Proof.
  unfold read_line. destruct (match c_buf c with [] => _ | _ => _ end) as [r0 i].
  by intros [= <- <-].
Qed.
Lemma read_data_go_out fuel max data tl c r c' :
  read_data_go fuel max data tl c = (r, c') → c_out c' = c_out c ∧ c_writes c' = c_writes c.
Proof.
  revert data tl c. induction fuel as [|fuel IH]; intros data tl c; cbn [read_data_go].
  - by intros [= <- <-].
  - unfold mbind, M_bind. destruct (read_line _ c) as [[[st line]|e] c1] eqn:Hr;
      apply read_line_out in Hr as [Ho Hw]; [|by intros [= <- <-]]. cbn [fst snd].
    assert (∀ d t, read_data_go fuel max d t c1 = (r, c') → c_out c' = c_out c ∧ c_writes c' = c_writes c)
      as Hgo by (intros d t [-> ->]%IH; done).
    repeat case_match; try (by apply Hgo); by intros [= <- <-].
Qed.

Lemma read_data_lines max c ls tail :
  0 ≤ max → max + 4 ≤ u64_max → Forall (λ l, 10 ∉ l ∧ len (stuff l) ≤ max + 2) ls →
  data_only c → pending c = transmit ls ++ tail →
  ∃ c', read_data max c
        = (Ok (if bool_decide (len (body ls) ≤ max) then Complete (body ls) else TooLarge), c') ∧
        data_only c' ∧ pending c' = tail ∧ c_out c' = c_out c ∧ c_writes c' = c_writes c.
Proof.
  intros Hm Hu Hls Hd Hp. unfold read_data.
  destruct (read_data_go_lines (S (conn_size c)) max [] false c ls tail Hm Hu) as (c' & Hgo & Hd' & Hp');
    try done.
  - eapply Forall_impl; [exact Hls|]. cbn. intros l [??]. split; [done|lia].
  - pose proof (pending_le_size c) as H. rewrite Hp in H. unfold transmit in H. rewrite !length_app in H.
    enough (length ls ≤ length (concat (map (λ l, stuff l ++ crlf) ls)))%nat by lia.
    etrans; [|apply concat_length_le].
    + by rewrite length_map.
    + apply Forall_map, Forall_forall. intros l _ H'. apply app_eq_nil in H' as [_ ?]. done.
  - exists c'. destruct (read_data_go_out _ _ _ _ _ _ _ Hgo) as [-> ->]. split; [|done]. rewrite Hgo. cbn. f_equal. f_equal. repeat case_bool_decide; (done || lia).
Qed.

(** C8: the DATA phase inverts the client's dot-stuffing, whatever the network does to
    the boundaries of the chunks: it delivers exactly the lines sent when they fit the
    size limit and reports an oversized message otherwise, and in both cases it stops
    right after the terminator, so that the next command is read from where it starts.
    Each line sent has to fit the limit. *)
Theorem read_data_roundtrip max c ls tail :
  0 ≤ max → max + 4 ≤ u64_max → Forall (λ l, 10 ∉ l ∧ len (stuff l) ≤ max + 2) ls →
  data_only c → pending c = transmit ls ++ tail →
  ∃ c', read_data max c
        = (Ok (if bool_decide (len (body ls) ≤ max) then Complete (body ls) else TooLarge), c') ∧
        data_only c' ∧ pending c' = tail.
Proof.
  intros Hm Hu Hls Hd Hp. destruct (read_data_lines max c ls tail Hm Hu Hls Hd Hp) as (c' & ? & ? & ? & _).
  eauto.
Qed.

Lemma read_data_roundtrip_witness :
  let c := mkConn (lit ".") [Recv (lit ".a" ++ [13]); Recv ([10] ++ lit "."); Recv [13; 10; 81]] [] None in
  ∃ c', read_data 10 c = (Ok (Complete (lit ".a" ++ crlf)), c') ∧ data_only c' ∧ pending c' = [81].
Proof.
  intros c. apply (read_data_roundtrip 10 c [lit ".a"] [81]).
  - lia.
  - unfold u64_max. lia.
  - repeat constructor; apply (bool_decide_unpack _); vm_compute; exact I.
  - repeat constructor; done.
  - reflexivity.
Defined.

(** A line is read the same however it is cut into chunks, as long as it fits the
    limit: it is delivered whole, and the stream resumes right after its line feed. *)
Theorem read_line_chunking max c1 c2 l tail :
  data_only c1 → data_only c2 → pending c1 = pending c2 → pending c1 = l ++ 10 :: tail →
  10 ∉ l → len l + 1 ≤ max →
  ∃ c1' c2', read_line max c1 = (Ok (Line, l ++ [10]), c1') ∧
             read_line max c2 = (Ok (Line, l ++ [10]), c2') ∧
             pending c1' = tail ∧ pending c2' = tail.
Proof.
  intros H1 H2 Heq Hp Hl Hm.
  destruct (read_line_line max c1 l tail) as (c1' & R1 & _ & P1 & _); try done.
  destruct (read_line_line max c2 l tail) as (c2' & R2 & _ & P2 & _); try done; [congruence|].
  eauto 10.
Qed.

Lemma read_line_chunking_witness :
  let c1 := mkConn [] [Recv (lit "NOOP" ++ [13; 10] ++ lit "Q")] [] None in
  let c2 := mkConn (lit "NO") [Recv (lit "OP" ++ [13]); Recv [10]; Recv (lit "Q")] [] None in
  ∃ c1' c2', read_line 4096 c1 = (Ok (Line, (lit "NOOP" ++ [13]) ++ [10]), c1') ∧
             read_line 4096 c2 = (Ok (Line, (lit "NOOP" ++ [13]) ++ [10]), c2') ∧
             pending c1' = lit "Q" ∧ pending c2' = lit "Q".
Proof.
  intros c1 c2. apply (read_line_chunking 4096 c1 c2 (lit "NOOP" ++ [13]) (lit "Q")).
  - by repeat constructor.
  - by repeat constructor.
  - reflexivity.
  - reflexivity.
  - apply (bool_decide_unpack _). vm_compute. exact I.
  - apply (bool_decide_unpack _). vm_compute. exact I.
Defined.

(** A line longer than the limit breaks this: the limit is hit in the middle of the
    line, what remains of it is read as a line of its own, and when that remainder is a
    dot the message ends there: the rest of the message is left for the command loop. *)
Theorem read_data_long_line_desync :
  let line := List.repeat 97 20 ++ lit "." in
  let sent := transmit [line; lit "MAIL FROM:<x@y>"] in
  ∃ c c', data_only c ∧ pending c = sent ∧
    read_data 10 c = (Ok TooLarge, c') ∧
    pending c' = lit "MAIL FROM:<x@y>" ++ crlf ++ lit "." ++ crlf.
Proof.
  exists (mkConn [] [Recv (List.repeat 97 20); Recv (lit "." ++ crlf ++ lit "MAIL FROM:<x@y>" ++ crlf ++ lit "." ++ crlf)] [] None).
  eexists. split; [repeat constructor; done|]. split; [reflexivity|]. split; reflexivity.
Qed.
