(* ===== verification/Regex.v ===== *)
(** * Regex: the regular expressions of [src/otp.rs]

    The fragment of the syntax of the [regex] crate that the source writes: sets of
    characters, word boundaries, concatenation, ordered alternatives, bounded greedy and
    lazy repetition of a set, one capture group. Its documented meaning is given twice: as
    the relation [matches] between an expression and a stretch of a text, and as the
    executable leftmost-first search [find_iter], which prefers matches that start
    earlier and, among those, the alternative written first and the repetition asked for. *)

From S2P Require Import Prelude Str.

Inductive Regex :=
| RNone
| RBoundary
| RSet (p : Z → bool)
| RRep (greedy : bool) (lo hi : nat) (p : Z → bool)
| RSeq (a b : Regex)
| RAlt (a b : Regex)
| RGroup (a : Regex).

Definition ROpt (a : Regex) : Regex := RAlt a RNone.
Definition RSeqs (l : list Regex) : Regex := foldr RSeq RNone l.
Definition RAlts (a : Regex) (l : list Regex) : Regex := fold_left RAlt l a.
Definition RLit (sets : list (Z → bool)) : Regex := RSeqs (map RSet sets).
Definition one (c x : Z) : bool := x =? c.

(** A match: its text, what follows it, its capture group. *)
Record Match := mkMatch { m_text : str; m_after : str; m_group : option str }.

Section matching.
(** The set [\w]. *)
Variable word : Z → bool.

Definition word_at (s : str) : bool := match s with c :: _ => word c | [] => false end.
(** [\b] between a text, given backwards, and what follows. *)
Definition boundary (before after : str) : bool := xorb (word_at before) (word_at after).

(** How many characters a repetition takes: as many, or as few, as it can. *)
Fixpoint run_length (p : Z → bool) (hi : nat) (s : str) : nat :=
  match hi, s with
  | Datatypes.S hi, c :: s => if p c then Datatypes.S (run_length p hi s) else O
  | _, _ => O
  end.
Definition counts (greedy : bool) (lo k : nat) : list nat :=
  let l := seq lo (Datatypes.S k - lo) in if greedy then rev l else l.

(** Every way to match at the head of [s], preferred ones first. *)
Fixpoint run (re : Regex) (before s : str) : list Match :=
  match re with
  | RNone => [mkMatch [] s None]
  | RBoundary => if boundary before s then [mkMatch [] s None] else []
  | RSet p =>
      match s with
      | c :: s => if p c then [mkMatch [c] s None] else []
      | [] => []
      end
  | RRep greedy lo hi p =>
      map (λ n, mkMatch (take n s) (drop n s) None) (counts greedy lo (run_length p hi s))
  | RSeq a b =>
      flat_map (λ x, map (λ y, mkMatch (m_text x ++ m_text y) (m_after y)
                                 (match m_group y with Some g => Some g | None => m_group x end))
                         (run b (rev (m_text x) ++ before) (m_after x)))
               (run a before s)
  | RAlt a b => run a before s ++ run b before s
  | RGroup a => map (λ x, mkMatch (m_text x) (m_after x) (Some (m_text x))) (run a before s)
  end.

(** Search: the earliest place with a match, then on after that match. *)
Fixpoint find_from (re : Regex) (skip : nat) (before s : str) : list Match :=
  match skip with
  | Datatypes.S skip => match s with [] => [] | c :: s => find_from re skip (c :: before) s end
  | O =>
      match run re before s, s with
      | [], [] => []
      | [], c :: s => find_from re 0 (c :: before) s
      | x :: _, [] => [x]
      | x :: _, c :: s => x :: find_from re (pred (length (m_text x))) (c :: before) s
      end
  end.
Definition find_iter (re : Regex) (s : str) : list Match := find_from re 0 [] s.

(** ** The meaning of an expression *)

(** [matches re before m after g]: the stretch [m] between [before] (backwards) and
    [after] matches, and the group took [g]. *)
Inductive matches : Regex → str → str → str → option str → Prop :=
| m_none b t : matches RNone b [] t None
| m_boundary b t : boundary b t = true → matches RBoundary b [] t None
| m_set p c b t : p c = true → matches (RSet p) b [c] t None
| m_rep greedy lo hi p m b t :
    (lo ≤ length m ≤ hi)%nat → all p m = true → matches (RRep greedy lo hi p) b m t None
| m_seq a b x y bf t g h :
    matches a bf x (y ++ t) g → matches b (rev x ++ bf) y t h →
    matches (RSeq a b) bf (x ++ y) t (match h with Some h => Some h | None => g end)
| m_left a b bf m t g : matches a bf m t g → matches (RAlt a b) bf m t g
| m_right a b bf m t g : matches b bf m t g → matches (RAlt a b) bf m t g
| m_grp a bf m t g : matches a bf m t g → matches (RGroup a) bf m t (Some m).

Lemma run_length_spec p hi s n :
  (n ≤ run_length p hi s)%nat ↔ (n ≤ length s)%nat ∧ (n ≤ hi)%nat ∧ all p (take n s) = true.
Proof.
  revert s n. induction hi as [|hi IH]; intros [|c s] [|n]; cbn; try by (split; [intros; split_and!|intros (?&?&?)]; (lia || done)).
  destruct (p c); cbn; [rewrite <-!Nat.succ_le_mono; apply IH|].
  split; [lia|by intros (_ & _ & ?)].
Qed.
Lemma elem_of_counts greedy lo k n : n ∈ counts greedy lo k ↔ (lo ≤ n ≤ k)%nat.
Proof.
  unfold counts. assert (n ∈ seq lo (S k - lo)%nat ↔ (lo ≤ n ≤ k)%nat) as Hs.
  { rewrite list_elem_of_In, in_seq. lia. }
  destruct greedy; [|done]. rewrite <-Hs, !list_elem_of_In. symmetry. apply in_rev.
Qed.
Lemma elem_of_flat {A B} (f : A → list B) l y : y ∈ flat_map f l ↔ ∃ x, x ∈ l ∧ y ∈ f x.
Proof. rewrite list_elem_of_In, in_flat_map. setoid_rewrite list_elem_of_In. done. Qed.
Lemma elem_of_map {A B} (f : A → B) l y : y ∈ map f l ↔ ∃ x, y = f x ∧ x ∈ l.
Proof. apply list_elem_of_fmap. Qed.

(** The matcher enumerates exactly the matches. *)
Lemma run_sound re b s x :
  x ∈ run re b s → s = m_text x ++ m_after x ∧ matches re b (m_text x) (m_after x) (m_group x).
Proof.
  revert b s x. induction re as [| |p|greedy lo hi p|r1 IH1 r2 IH2|r1 IH1 r2 IH2|r IH]; intros b s x; cbn.
  - intros ->%list_elem_of_singleton. split; [done|constructor].
  - destruct (boundary b s) eqn:Hb; [|by intros ?%not_elem_of_nil].
    intros ->%list_elem_of_singleton. split; [done|by constructor].
  - destruct s as [|c s]; [by intros ?%not_elem_of_nil|].
    destruct (p c) eqn:Hp; [|by intros ?%not_elem_of_nil].
    intros ->%list_elem_of_singleton. split; [done|by constructor].
  - intros (n & -> & Hn)%elem_of_map. apply elem_of_counts in Hn as [Hlo Hn].
    apply run_length_spec in Hn as (Hl & Hhi & Hp). cbn. rewrite take_drop. split; [done|].
    constructor; [|done]. rewrite length_take. lia.
  - intros (y & Hy & Hx)%elem_of_flat. apply elem_of_map in Hx as (z & -> & Hz). cbn.
    apply IH1 in Hy as [-> Hm1]. apply IH2 in Hz as [Hs Hm2]. rewrite Hs in Hm1 |- *.
    rewrite app_assoc. split; [done|by constructor].
  - intros [Hx|Hx]%elem_of_app; [apply IH1 in Hx|apply IH2 in Hx]; destruct Hx as [-> Hm];
      (split; [done|]); [by apply m_left|by apply m_right].
  - intros (y & -> & Hy)%elem_of_map. cbn. apply IH in Hy as [-> Hm]. split; [done|]. by econstructor.
Qed.
Lemma run_complete re b m t g : matches re b m t g → mkMatch m t g ∈ run re b (m ++ t).
Proof.
  induction 1 as [| b t Hb|p c b t Hp|greedy lo hi p m b t Hl Hp|r1 r2 x y b t g h _ IH1 _ IH2
                 |r1 r2 b m t g _ IH|r1 r2 b m t g _ IH|r b m t g _ IH]; cbn.
  - left.
  - rewrite Hb. left.
  - rewrite Hp. left.
  - apply elem_of_map. exists (length m). rewrite take_app_length, drop_app_length. split; [done|].
    apply elem_of_counts. split; [lia|]. apply run_length_spec. rewrite take_app_length, length_app.
    split; [lia|]. split; [lia|done].
  - rewrite <-app_assoc. apply elem_of_flat. eexists. split; [exact IH1|]. apply elem_of_map.
    eexists. split; [|exact IH2]. done.
  - apply elem_of_app. by left.
  - apply elem_of_app. by right.
  - apply elem_of_map. eexists. split; [|exact IH]. done.
Qed.
Theorem run_matches re b m t g : mkMatch m t g ∈ run re b (m ++ t) ↔ matches re b m t g.
Proof. split; [by intros [_ Hm]%run_sound|apply run_complete]. Qed.

(** What the search reports matches where it says. *)
Lemma find_from_sound re skip b s x :
  x ∈ find_from re skip b s →
  ∃ pre, s = pre ++ m_text x ++ m_after x ∧
    matches re (rev pre ++ b) (m_text x) (m_after x) (m_group x).
Proof.
  revert skip b. induction s as [|c s IH]; intros [|skip] b; cbn [find_from].
  - destruct (run re b []) as [|y l] eqn:Hr; [by intros ?%not_elem_of_nil|].
    intros ->%list_elem_of_singleton. exists []. apply run_sound. cbn [rev app]. rewrite Hr. left.
  - by intros ?%not_elem_of_nil.
  - assert (∀ k, x ∈ find_from re k (c :: b) s → ∃ pre, c :: s = pre ++ m_text x ++ m_after x ∧
      matches re (rev pre ++ b) (m_text x) (m_after x) (m_group x)) as Hlater.
    { intros k Hx. destruct (IH _ _ Hx) as (pre & -> & Hm). exists (c :: pre). split; [done|].
      cbn. by rewrite <-app_assoc. }
    destruct (run re b (c :: s)) as [|y l] eqn:Hr; [apply Hlater|].
    intros [->|Hx]%elem_of_cons; [|by eapply Hlater]. exists []. apply run_sound. cbn [rev app]. rewrite Hr. left.
  - intros Hx. destruct (IH _ _ Hx) as (pre & -> & Hm). exists (c :: pre). split; [done|].
    cbn. by rewrite <-app_assoc.
Qed.
Lemma find_iter_sound re s x :
  x ∈ find_iter re s →
  ∃ pre, s = pre ++ m_text x ++ m_after x ∧ matches re (rev pre) (m_text x) (m_after x) (m_group x).
Proof. intros (pre & Hs & Hm)%find_from_sound. exists pre. by rewrite app_nil_r in Hm. Qed.

(** The first match found starts at the earliest place where one can, and is the
    preferred one there. *)
Lemma find_from_first re b pre s x l :
  run re (rev pre ++ b) s = x :: l →
  ∃ p1 p2 y k, pre = p1 ++ p2 ∧ run re (rev p1 ++ b) (p2 ++ s) = y :: k ∧
    head (find_from re 0 b (pre ++ s)) = Some y.
Proof.
  revert b. induction pre as [|c pre IH]; intros b Hr.
  - exists [], [], x, l. split; [done|]. split; [done|]. cbn [app] in *. destruct s; cbn [find_from]; cbn in Hr; by rewrite Hr.
  - cbn [app find_from]. destruct (run re b (c :: pre ++ s)) as [|y k] eqn:Hr'.
    + destruct (IH (c :: b)) as (p1 & p2 & y & k & -> & Hy & Hh).
      { cbn in Hr. by rewrite <-app_assoc in Hr. }
      exists (c :: p1), p2, y, k. split; [done|]. split; [|done]. cbn. by rewrite <-app_assoc.
    + by exists [], (c :: pre), y, k.
Qed.
Lemma find_iter_none re pre m t g : find_iter re (pre ++ m ++ t) = [] → ¬ matches re (rev pre) m t g.
Proof.
  intros Hn Hm%run_complete. destruct (run re (rev pre) (m ++ t)) as [|x l] eqn:Hr; [by apply not_elem_of_nil in Hm|].
  destruct (find_from_first re [] pre (m ++ t) x l) as (p1 & p2 & y & k & -> & _ & Hh);
    [by rewrite app_nil_r|]. unfold find_iter in Hn. by rewrite Hn in Hh.
Qed.

(** ** Inversion *)

Lemma matches_seq a b bf m t g :
  matches (RSeq a b) bf m t g → ∃ x y g1 g2,
    m = x ++ y ∧ matches a bf x (y ++ t) g1 ∧ matches b (rev x ++ bf) y t g2 ∧
    g = match g2 with Some h => Some h | None => g1 end.
Proof. inversion 1; subst. by repeat eexists. Qed.
Lemma matches_rep greedy lo hi p bf m t g :
  matches (RRep greedy lo hi p) bf m t g → (lo ≤ length m ≤ hi)%nat ∧ all p m = true ∧ g = None.
Proof. by inversion 1. Qed.
Lemma matches_none bf m t g : matches RNone bf m t g → m = [] ∧ g = None.
Proof. by inversion 1. Qed.
Lemma matches_boundary bf m t g : matches RBoundary bf m t g → m = [] ∧ boundary bf t = true ∧ g = None.
Proof. by inversion 1. Qed.
Lemma matches_set p bf m t g : matches (RSet p) bf m t g → ∃ c, m = [c] ∧ p c = true ∧ g = None.
Proof. inversion 1; subst; eauto. Qed.
Lemma matches_group a bf m t g : matches (RGroup a) bf m t g → g = Some m ∧ ∃ h, matches a bf m t h.
Proof. inversion 1; subst; eauto. Qed.
Lemma matches_opt a bf m t g : matches (ROpt a) bf m t g → matches a bf m t g ∨ m = [] ∧ g = None.
Proof. inversion 1 as [| | | | |? ? ? ? ? ? Ha|? ? ? ? ? ? Ha|]; subst; [by left|right]. by inversion Ha. Qed.
Lemma matches_lit sets bf m t g :
  matches (RLit sets) bf m t g → Forall2 (λ p c, p c = true) sets m ∧ g = None.
Proof.
  revert bf m g. induction sets as [|p sets IH]; intros bf m g.
  - intros [-> ->]%matches_none. by split.
  - intros (x & y & g1 & g2 & -> & (c & -> & Hc & ->)%matches_set & [? ->]%IH & ->)%matches_seq.
    split; [by constructor|done].
Qed.
Lemma matches_alts a l bf m t g :
  matches (RAlts a l) bf m t g ↔ ∃ r, r ∈ a :: l ∧ matches r bf m t g.
Proof.
  unfold RAlts. revert a. induction l as [|b l IH]; intros a; cbn [fold_left].
  - split; [intros Hm; exists a; split; [left|done]|by intros (r & ->%list_elem_of_singleton & Hm)].
  - rewrite IH. split.
    + intros (r & [->|Hr]%elem_of_cons & Hm).
      * inversion Hm; subst; [exists a|exists b]; (split; [|done]); [left|right; left].
      * exists r. split; [by do 2 right|done].
    + intros (r & [->|[->|Hr]%elem_of_cons]%elem_of_cons & Hm).
      * exists (RAlt a b). split; [left|by apply m_left].
      * exists (RAlt a b). split; [left|by apply m_right].
      * exists r. split; [by right|done].
Qed.
End matching.

(** ** Expressions every match of which has a group and is not empty *)

Fixpoint consumes (re : Regex) : bool :=
  match re with
  | RNone | RBoundary => false
  | RSet _ => true
  | RRep _ lo _ _ => bool_decide (0 < lo)%nat
  | RSeq a b => consumes a || consumes b
  | RAlt a b => consumes a && consumes b
  | RGroup a => consumes a
  end.
Fixpoint captures_always (re : Regex) : bool :=
  match re with
  | RNone | RBoundary | RSet _ | RRep _ _ _ _ => false
  | RSeq a b => captures_always a || captures_always b
  | RAlt a b => captures_always a && captures_always b
  | RGroup a => true
  end.

Lemma consumes_text word re b m t g : matches word re b m t g → consumes re = true → m ≠ [].
Proof.
  induction 1 as [| | |? ? ? ? ? ? ? Hl|? ? x y ? ? ? ? _ IH1 _ IH2| | |]; cbn; try (by intros [=]).
  - intros Hc. boolify. destruct m; cbn in *; [lia|done].
  - intros [Hc|Hc]%orb_true_iff [-> ->]%app_eq_nil; [by apply IH1|by apply IH2].
  - intros [Hc _]%andb_true_iff; auto.
  - intros [_ Hc]%andb_true_iff; auto.
  - done.
Qed.
Lemma captures_group word re b m t g : matches word re b m t g → captures_always re = true → is_Some g.
Proof.
  induction 1 as [| | | |? ? x y ? ? g h _ IH1 _ IH2| | |]; cbn; try (by intros [=]).
  - intros [Hc|Hc]%orb_true_iff; [|destruct (IH2 Hc) as [? ->]; done].
    destruct (IH1 Hc) as [? ->]. by destruct h.
  - intros [Hc _]%andb_true_iff; auto.
  - intros [_ Hc]%andb_true_iff; auto.
Qed.
