(* ===== verification/Otp.v ===== *)
(** * Otp: extraction of one-time codes ([src/otp.rs])

    The four expressions as the source writes them, in the syntax of [Regex]. The engine
    that runs them is the [regex] crate's: [RegexEngine] is what the code relies on, its
    tables of Unicode digits and word characters and its leftmost-first search. *)

From S2P Require Import Prelude Str Regex.

(** [decimal] is [\d], [word] is [\w], which contains it; [captures_iter] is [Regex::captures_iter], the first
    group of each match. *)
Class RegexEngine := {
  decimal : Z → bool;
  word : Z → bool;
  captures_iter : Regex → str → list str;
  decimal_ascii c : is_ascii_char c = true → decimal c = is_ascii_digit c;
  word_ascii c : is_ascii_char c = true → word c = is_ascii_alphanumeric c || (c =? 95);
  decimal_word c : decimal c = true → word c = true;
  captures_iter_spec re s :
    consumes re = true → captures_always re = true →
    captures_iter re s = filter_map m_group (find_iter word re s);
}.
Definition captures `{RegexEngine} (re : Regex) (haystack : str) : option str :=
  head (captures_iter re haystack).

(** ** The expressions *)

(** A lower-case letter under [(?i)]: the characters of its simple case folding. *)
Definition ci (c x : Z) : bool :=
  (x =? c) || (x =? c - 32) || ((c =? 115) && (x =? 383)).
Definition keyword (w : str) : Regex := RLit (map ci w).
Definition is_break (c : Z) : bool := (c =? 13) || (c =? 10).

(** The keywords; the second list ends in "contrase\u{f1}a". *)
Definition KEYWORDS : list str := [lit "code"; lit "otp"; lit "pin"; lit "passcode"].
Definition KEYWORDS_BEFORE : list str := KEYWORDS ++ [lit "password"; lit "contrase" ++ [241; 97]].
Definition KEYWORDS_ALNUM : list str := [lit "code"; lit "otp"; lit "passcode"].
Definition keywords (l : list str) : Regex :=
  match map keyword l with r :: l => RAlts r l | [] => RNone end.

Section patterns.
Context `{RegexEngine}.

(** [[\d \t-]] *)
Definition in_run (c : Z) : bool := decimal c || (c =? 32) || (c =? 9) || (c =? 45).
(** [(\d(?:[\d \t-]{2,10}\d)?)] *)
Definition digit_run : Regex :=
  RGroup (RSeq (RSet decimal) (ROpt (RSeq (RRep true 2 10 in_run) (RSet decimal)))).
(** [[^\r\nA-Za-z0-9]] *)
Definition filler (c : Z) : bool := negb (is_break c) && negb (is_ascii_alphanumeric c).
(** [[A-Z0-9]] *)
Definition token_char (c : Z) : bool := is_ascii_uppercase c || is_ascii_digit c.

Definition G_CODE : Regex :=
  RSeqs [RBoundary; RLit [one 71; one 45]; RGroup (RRep true 6 6 decimal); RBoundary].
Definition KEYWORD_THEN_DIGITS : Regex :=
  RSeqs [RBoundary; keywords KEYWORDS_BEFORE; RBoundary; RRep false 0 24 (λ c, negb (decimal c));
         digit_run; RBoundary].
Definition DIGITS_THEN_KEYWORD : Regex :=
  RSeqs [RBoundary; digit_run; RBoundary; RRep false 0 40 (λ c, negb (is_break c));
         RBoundary; keywords KEYWORDS; RBoundary].
Definition KEYWORD_THEN_ALNUM : Regex :=
  RSeqs [RBoundary; keywords KEYWORDS_ALNUM; RBoundary; RRep true 1 16 filler;
         RGroup (RRep true 5 10 token_char); RBoundary].
End patterns.

(** ** The extractor *)

Definition BODY_SCAN_LIMIT : nat := 4096%nat.
Definition MIN_DIGITS : Z := 4.
Definition MAX_DIGITS : Z := 8.

(** [&s[..n]] at a byte index: [None] when the index is not on a [char] boundary, where
    the source panics. *)
Fixpoint slice_to (n : nat) (s : str) : option str :=
  match n with
  | O => Some []
  | _ =>
      match s with
      | [] => None
      | c :: s' =>
          let k := length (utf8_encode_char c) in
          if bool_decide (k ≤ n)%nat then cons c <$> slice_to (n - k) s' else None
      end
  end.
Definition is_char_boundary (s : str) (n : nat) : bool := bool_decide (is_Some (slice_to n s)).

Definition floor_char_boundary (s : str) (max : nat) : nat :=
  if bool_decide (length (as_bytes s) ≤ max)%nat then length (as_bytes s)
  else default O (find (is_char_boundary s) (rev (seq 0 (S max)))).

Definition normalize_digits (raw : str) : option str :=
  let digits := retain is_ascii_digit raw in
  if bool_decide (MIN_DIGITS ≤ str_len digits ≤ MAX_DIGITS) then Some digits else None.

(** [parse::<u32>()] of a string of ASCII digits short enough not to overflow. *)
Definition parse_digits (s : str) : Z := fold_left (λ n c, n * 10 + (c - 48)) s 0.

Definition standalone_code (line : str) : option str :=
  let line := trim line in
  if bool_decide (line = []) || bool_decide (MAX_DIGITS < str_len line) then None
  else if negb (all is_ascii_digit (as_bytes line)) then None
  else
    match normalize_digits line with
    | None => None
    | Some code =>
        if bool_decide (str_len code = 4) && in_range 1900 2099 (parse_digits code) then None
        else Some code
    end.

Section engine.
Context `{RegexEngine}.

Definition scan_anchored (haystack : str) : option str :=
  match captures G_CODE haystack with
  | Some g => Some g
  | None =>
      match find_map (λ re, head (filter_map normalize_digits (captures_iter re haystack)))
              [KEYWORD_THEN_DIGITS; DIGITS_THEN_KEYWORD] with
      | Some code => Some code
      | None =>
          match captures KEYWORD_THEN_ALNUM haystack with
          | Some token =>
              let digits := len (retain is_ascii_digit token) in
              let letters := len (retain is_ascii_alphabetic token) in
              if bool_decide (2 ≤ digits) && bool_decide (1 ≤ letters) then Some token else None
          | None => None
          end
      end
  end.

(** [str::lines]: pieces that end in a line feed lose it and one carriage return before
    it; what is left behind the last line feed is a line as it stands, unless empty. *)
Definition strip_cr (l : str) : str :=
  match rev l with c :: r => if c =? 13 then rev r else l | [] => l end.
Fixpoint ended_lines (pieces : list str) : list str :=
  match pieces with
  | [] => []
  | [p] => match p with [] => [] | _ => [p] end
  | p :: ps => strip_cr p :: ended_lines ps
  end.
Definition lines (s : str) : list str := ended_lines (split 10 s).

Definition extract (subject text_body : option str) : option str :=
  let subject := default [] subject in
  let body := default [] text_body in
  let body := default [] (slice_to (floor_char_boundary body BODY_SCAN_LIMIT) body) in
  match find_map scan_anchored [subject; body] with
  | Some code => Some code
  | None => find_map standalone_code (lines subject ++ lines body)
  end.
End engine.

(** ** Lemmas *)

Lemma slice_to_spec n s t :
  slice_to n s = Some t → ∃ u, s = t ++ u ∧ length (as_bytes t) = n.
Proof.
  revert n t. induction s as [|c s IH]; intros [|n] t; cbn -[Nat.sub]; try done.
  - intros [= <-]. by exists [].
  - intros [= <-]. by exists (c :: s).
  - case_bool_decide as Hk; [|done]. intros (t' & Ht & ->)%fmap_Some.
    destruct (IH _ _ Ht) as (u & -> & Hl). exists u. split; [done|].
    unfold as_bytes in *. cbn. rewrite length_app, Hl. lia.
Qed.
Lemma slice_to_prefix t u : slice_to (length (as_bytes t)) (t ++ u) = Some t.
Proof.
  induction t as [|c t IH]; cbn; [by destruct u|]. unfold as_bytes in *. cbn.
  rewrite length_app. pose proof (length_utf8_encode_char c).
  destruct (length (utf8_encode_char c) + _)%nat as [|n] eqn:Hn; [lia|].
  rewrite bool_decide_true by lia. rewrite <-Hn.
  replace (_ + _ - _)%nat with (length (concat (map utf8_encode_char t))) by lia.
  by rewrite IH.
Qed.

Lemma find_map_elem {A B} (f : A → option B) l y : find_map f l = Some y → ∃ x, x ∈ l ∧ f x = Some y.
Proof.
  induction l as [|x l IH]; cbn; [done|]. destruct (f x) eqn:Hx.
  - intros [= <-]. exists x. split; [left|done].
  - intros H. destruct (IH H) as (z & Hz & ?). exists z. split; [by right|done].
Qed.

(** The scan window of the extractor is always cut on a character boundary, so the
    slice never panics on a body of any length and any script: it is the longest prefix
    of whole characters within the limit. *)
Theorem scan_window_safe s max :
  ∃ t u, slice_to (floor_char_boundary s max) s = Some t ∧ s = t ++ u ∧
    (length (as_bytes t) ≤ max)%nat ∧
    ∀ t' u', s = t' ++ u' → (length (as_bytes t') ≤ max)%nat →
      (length (as_bytes t') ≤ length (as_bytes t))%nat.
Proof.
  unfold floor_char_boundary. case_bool_decide as Hlen.
  - exists s, []. rewrite app_nil_r. split; [|split; [done|split; [done|]]].
    + rewrite <-(app_nil_r s) at 2. apply slice_to_prefix.
    + intros t' u' -> _. unfold as_bytes. rewrite map_app, concat_app, length_app. lia.
  - assert (∀ m : nat, ∃ n, find (is_char_boundary s) (rev (seq 0 (S m))) = Some n ∧ (n ≤ m)%nat ∧
      is_char_boundary s n = true ∧ ∀ k, (k ≤ m)%nat → is_char_boundary s k = true → (k ≤ n)%nat) as Hfind.
    { induction m as [|m (n & Hf & Hn & Hb & Hmax)].
      - exists O. assert (is_char_boundary s 0 = true) as H0.
        { apply bool_decide_eq_true. destruct s; by eexists. }
        cbn [seq rev app find]. rewrite H0. repeat split; (done || lia).
      - rewrite seq_S, rev_app_distr. cbn [rev app find Nat.add].
        destruct (is_char_boundary s (S m)) eqn:HSm.
        + exists (S m). repeat split; (done || lia).
        + exists n. split; [done|]. split; [lia|]. split; [done|]. intros k Hk Hkb.
          destruct (decide (k = S m)) as [->|]; [congruence|]. apply Hmax; [lia|done]. }
    destruct (Hfind max) as (n & -> & Hn & Hb & Hmax). cbn [default].
    unfold is_char_boundary in Hb. boolify. destruct Hb as [t Ht].
    pose proof Ht as (u & Hs & Hl)%slice_to_spec. exists t, u. split; [done|]. split; [done|].
    split; [lia|]. intros t' u' Hs' Hl'. rewrite Hl. apply Hmax; [done|].
    unfold is_char_boundary. apply bool_decide_eq_true. exists t'. rewrite Hs'. apply slice_to_prefix.
Qed.

(** ** An engine to run: the documented search, with the ASCII tables *)

Lemma digit_is_word c :
  is_ascii_digit c = true → is_ascii_alphanumeric c || (c =? 95) = true.
Proof. unfold is_ascii_alphanumeric. intros ->. by rewrite orb_true_r. Qed.
Definition reference_engine : RegexEngine := {|
  decimal := is_ascii_digit;
  word := λ c, is_ascii_alphanumeric c || (c =? 95);
  captures_iter := λ re s,
    filter_map m_group (find_iter (λ c, is_ascii_alphanumeric c || (c =? 95)) re s);
  decimal_ascii _ _ := eq_refl;
  word_ascii _ _ := eq_refl;
  decimal_word := digit_is_word;
  captures_iter_spec _ _ _ _ := eq_refl;
|}.

(** The examples of the source's own tests. *)
Example extract_examples :
  let body t := @extract reference_engine None (Some t) in
  map body
    [lit "Your verification code is 123456."; lit "Use code 4821 to continue"; lit "PIN: 9134";
     lit "Your one-time password: 98217465"; lit "code" ++ [10] ++ lit "123456";
     lit "483920 is your Instagram code"; lit "G-482913 is your Google verification code";
     lit "Your code is 123 456"; lit "Your code is 123-456"; lit "Your code: 7XK4P9";
     lit "Here is your code:" ++ [10; 10] ++ lit "  482913  " ++ [10; 10] ++ lit "Thanks!"]
  = map Some
    [lit "123456"; lit "4821"; lit "9134"; lit "98217465"; lit "123456"; lit "483920"; lit "482913";
     lit "123456"; lit "123456"; lit "7XK4P9"; lit "482913"] ∧
  map body
    [lit "Enter the code ABCDEF"; lit "no keyword 7XK4P9 here"; lit "Meeting on 2026-08-21 at 10:00";
     [169] ++ lit " 2026 Example Corp" ++ [10]; lit "Order #123456 shipped"; lit "Call us: +1 555 0123 456";
     lit "Your password must be at least 8 characters"; []; lit "Your code is 123";
     lit "Your code is 123456789"; repeat 8364 4096 ++ lit "Your code is 123456"]
  = repeat None 11 ∧
  @extract reference_engine (Some (lit "774213 is your verification code")) None = Some (lit "774213") ∧
  @extract reference_engine (Some (lit "482913")) None = Some (lit "482913") ∧
  @extract reference_engine (Some (lit "Your code is 111111"))
    (Some (lit "Previously we sent 222222 as your code")) = Some (lit "111111") ∧
  @extract reference_engine None None = None.
Proof. split_and!; vm_compute; reflexivity. Qed.
