(* ===== verification/Mime.v ===== *)
(** * Mime: from raw bytes to a message ([src/mime.rs])

    The RFC 5322 parser is the [mail_parser] crate: a parameter that gives, for raw
    bytes, what the accessors the source calls return. *)

From S2P Require Import Prelude Str Model.

Record Addr := mkAddr { ad_name : option str; ad_address : option str }.

(** An attachment part: [is_multipart], [content_type] with its optional subtype,
    [attachment_name], [contents]. *)
Record Part := mkPart {
  pt_is_multipart : bool;
  pt_content_type : option (str * option str);
  pt_attachment_name : option str;
  pt_contents : bytes;
}.

(** [from().first()], [subject()], the text [date()] has as RFC 3339, [body_text(0)],
    [body_html(0)], [attachments()]. *)
Record ParsedMail := mkParsedMail {
  pm_from_first : option Addr;
  pm_subject : option str;
  pm_date_rfc3339 : option str;
  pm_body_text : option str;
  pm_body_html : option str;
  pm_attachments : list Part;
}.

(** [MessageParser::parse], and [DateTime::parse_from_rfc3339(..).ok()] as the instant. *)
Class MailParser := {
  mail_parser_parse : bytes → option ParsedMail;
  parse_from_rfc3339 : str → option Time;
}.

Definition format_addr (addr : Addr) : str :=
  let name := ad_name addr ≫= trimmed_nonempty in
  let email := ad_address addr ≫= trimmed_nonempty in
  match name, email with
  | Some name, Some email => name ++ lit " <" ++ email ++ lit ">"
  | None, Some email => email
  | Some name, None => name
  | None, None => []
  end.

Definition part_content_type (part : Part) : str :=
  match pt_content_type part with
  | Some (ctype, Some sub) => ctype ++ lit "/" ++ sub
  | Some (ctype, None) => ctype
  | None => lit "application/octet-stream"
  end.

Definition nonempty (s : str) : option str := if bool_decide (s = []) then None else Some s.

Definition parse_message `{MailParser} (raw : bytes) (envelope_from : str) : NewMessage :=
  let raw_size := as_i32 (Z.min (len raw) i32_max) in
  match mail_parser_parse raw with
  | None => mkNewMessage envelope_from None None None None raw_size None []
  | Some message =>
      let mail_from :=
        default envelope_from ((format_addr <$> pm_from_first message) ≫= nonempty) in
      let message_date := pm_date_rfc3339 message ≫= parse_from_rfc3339 in
      let attachments :=
        map (λ part, mkNewAttachment (pt_attachment_name part) (part_content_type part)
                       (pt_contents part))
          (retain (λ part, negb (pt_is_multipart part)) (pm_attachments message)) in
      mkNewMessage mail_from (pm_subject message) message_date (pm_body_text message)
        (pm_body_html message) raw_size None attachments
  end.

Lemma raw_size_cast (n : Z) : 0 ≤ n → as_i32 (Z.min n i32_max) = Z.min n i32_max.
Proof. intros H. apply as_i32_id. unfold i32_max. lia. Qed.

(** Parsing never fails: whatever bytes were delivered become a message whose
    recorded size is their number, capped at the largest [i32] and never negative, and
    which has a sender whenever the envelope has one. *)
Theorem parse_message_total `{MailParser} raw envelope_from :
  let m := parse_message raw envelope_from in
  nm_raw_size m = Z.min (len raw) i32_max ∧ 0 ≤ nm_raw_size m ≤ i32_max ∧
  nm_raw_content m = None ∧
  (envelope_from ≠ [] → nm_mail_from m ≠ []) ∧
  (mail_parser_parse raw = None → nm_mail_from m = envelope_from ∧ nm_attachments m = []).
Proof.
  assert (nm_raw_size (parse_message raw envelope_from) = Z.min (len raw) i32_max) as Hsz.
  { unfold parse_message. by destruct (mail_parser_parse raw); cbn; apply raw_size_cast; lia. }
  cbn zeta. rewrite Hsz. split; [done|]. split; [unfold i32_max; lia|].
  unfold parse_message. destruct (mail_parser_parse raw) as [pm|]; cbn.
  - split; [done|]. split; [|done]. intros He.
    destruct (pm_from_first pm) as [a|]; cbn; [|done]. unfold nonempty. by case_bool_decide.
  - done.
Qed.
