(* ===== verification/Events.v ===== *)
(** * Events: the event bus ([src/events.rs])

    One event per stored copy of a message, with the code [Otp.extract] found in it.
    [publish] never fails: the source ignores the error of a channel nobody reads. *)

From S2P Require Import Prelude Str Model Otp.

Record MailEvent := mkMailEvent {
  ev_address : str;
  ev_id : Uuid;
  ev_mail_from : str;
  ev_subject : option str;
  ev_received_at : Time;
  ev_has_attachments : bool;
  ev_code : option str;
}.

Definition from_stored `{RegexEngine} (address : str) (msg : StoredMessage) : MailEvent :=
  mkMailEvent address (sm_id msg) (sm_mail_from msg) (sm_subject msg) (sm_received_at msg)
    (negb (bool_decide (sm_attachments msg = [])))
    (extract (sm_subject msg) (sm_text_body msg)).

(** The bus, as the sequence of the events handed to the broadcast channel. The capacity
    of the channel decides only when a slow receiver misses events. *)
Abbreviation EventBus := (list MailEvent) (only parsing).
Definition EventBus_new (capacity : Z) : EventBus := [].
Definition publish (event : MailEvent) (b : EventBus) : EventBus := b ++ [event].

(** A receiver starts behind what has been sent; the events sent since are its to read. *)
Definition EventBus_subscribe (b : EventBus) : nat := length b.
Definition sent_since (receiver : nat) (b : EventBus) : list MailEvent := drop receiver b.

(** What the channel promises a receiver that has read its way through [sent]: the events
    in their order, each once, and in place of some of them the number that was missed. *)
Inductive receives : list MailEvent → list (result MailEvent Z) → Prop :=
| receives_all : receives [] []
| receives_event ev sent items : receives sent items → receives (ev :: sent) (Ok ev :: items)
| receives_lagged missed sent items :
    missed ≠ [] → receives sent items → receives (missed ++ sent) (Err (len missed) :: items).

Definition item_event (item : result MailEvent Z) : option MailEvent :=
  match item with Ok ev => Some ev | Err _ => None end.

(** A receiver sees events of the bus in their order, and all of them when it keeps up. *)
Lemma receives_events sent items :
  receives sent items → omap item_event items `sublist_of` sent ∧
  ((∀ n, Err n ∉ items) → items = map Ok sent).
Proof.
  induction 1 as [|ev sent items _ [IH1 IH2]|missed sent items _ _ [IH1 _]]; cbn.
  - done.
  - split; [by constructor|]. intros Hn. rewrite IH2; [done|]. intros n Hin. apply (Hn n). by right.
  - split; [by apply sublist_inserts_l|]. intros Hn. destruct (Hn (len missed)). left.
Qed.
