(* ===== verification/SmtpSession.v ===== *)
(** * SmtpSession: the SMTP state machine ([src/smtp/session.rs])

    The world of one session is its [Session] record, the connection, whether the
    stream is the TLS variant, the store with its environment, and the event bus. The
    loop body of [Session::run] is [session_step]; [run] iterates it. The session is
    written against the [Store] interface. Outside the source, and parameters here: the
    TLS handshake (from what the network still delivers to what the decrypted stream
    delivers, or failure) and the free space of a directory. *)

From S2P Require Import Prelude Str Model Config StoreSpec SmtpCommands SmtpIo Otp Mime Events.

Record Session := mkSession {
  helo : option str;
  mail_from : option str;
  rcpts : list str;
  tls_active : bool;
}.

Inductive RecipientCheck :=
| Accept (delivery : str)
| NotOurDomain
| NoMailbox
| CheckError.

(** How the loop body ends: next command, [break], or [return Ok(())]. *)
Inductive Flow := Continue | Break | ReturnOk.

Record World (S : Type) := mkWorld {
  w_sess : Session;
  w_conn : Conn;
  w_tls : bool;
  w_st : S * Env;
  w_bus : EventBus;
}.
Arguments mkWorld {S} _ _ _ _ _.
Arguments w_sess {S} _.
Arguments w_conn {S} _.
Arguments w_tls {S} _.
Arguments w_st {S} _.
Arguments w_bus {S} _.

Definition set_sess {S} (x : Session) (w : World S) : World S :=
  mkWorld x (w_conn w) (w_tls w) (w_st w) (w_bus w).
Definition set_conn {S} (x : Conn) (w : World S) : World S :=
  mkWorld (w_sess w) x (w_tls w) (w_st w) (w_bus w).
Definition set_tls {S} (x : bool) (w : World S) : World S :=
  mkWorld (w_sess w) (w_conn w) x (w_st w) (w_bus w).
Definition set_st {S} (x : S * Env) (w : World S) : World S :=
  mkWorld (w_sess w) (w_conn w) (w_tls w) x (w_bus w).
Definition set_bus {S} (x : EventBus) (w : World S) : World S :=
  mkWorld (w_sess w) (w_conn w) (w_tls w) (w_st w) x.

(** ** Pure helpers *)

Definition strip_plus_tag (addr : str) : str :=
  match rsplit_once 64 addr with
  | None => addr
  | Some (local, domain) =>
      match find_char (Z.eqb 43) local with
      | Some pos => if bool_decide (0 < pos)%nat then take pos local ++ lit "@" ++ domain else addr
      | None => addr
      end
  end.

(** [Path::parent]: the components but the last; [None] without a component. Empty
    components and inner [.] components do not count. *)
Definition path_components (path : str) : list str :=
  let rooted := starts_with (lit "/") path in
  match split 47 path with
  | [] => []
  | first :: others =>
      (if bool_decide (first = []) || (rooted && bool_decide (first = lit ".")) then [] else [first])
      ++ retain (λ c, negb (bool_decide (c = [])) && negb (bool_decide (c = lit "."))) others
  end.
Definition path_parent (path : str) : option str :=
  match rev (path_components path) with
  | [] => None
  | _ :: r => Some ((if starts_with (lit "/") path then lit "/" else []) ++ join (lit "/") (rev r))
  end.

Definition storage_has_headroom (available_space : str → option Z) (config : Config) : bool :=
  if bool_decide (min_free_disk_bytes config = 0) then true
  else
    match sqlite_path config with
    | None => true
    | Some db_path =>
        let dir := match path_parent db_path with
                   | Some p => if bool_decide (p = []) then lit "." else p
                   | None => lit "."
                   end in
        match available_space dir with
        | Some free => bool_decide (min_free_disk_bytes config ≤ free)
        | None => true
        end
    end.

(** ** The session *)

Section session.
Context {S : Type} `{Store S} `{MailParser} `{RegexEngine}.
Variable config : Config.
Variable tls_acceptor : option (list NetEvent → option (list NetEvent)).
Variable available_space : str → option Z.

Abbreviation SessM A := (M (World S) io_error A).

Definition io {A} (m : M Conn io_error A) : SessM A := zoom w_conn set_conn m.
Definition reply (line : str) : SessM unit := io (write_line line).
Definition get_sess : SessM Session := gets w_sess.
Definition put_sess (s : Session) : SessM unit := modify (set_sess s).

(** An awaited store call; its error is a value the caller matches on. *)
Definition store_call {A} (m : SM S A) : SessM (result A anyhow) := λ w,
  let '(r, st) := m (w_st w) in (Ok r, set_st st w).
Definition now : SessM Time := λ w,
  let '(r, st) := utc_now (w_st w) in (r, set_st st w).

Definition reset_tx : SessM unit :=
  modify (λ w, set_sess (mkSession (helo (w_sess w)) None [] (tls_active (w_sess w))) w).
Definition set_helo (h : option str) : SessM unit :=
  modify (λ w, set_sess (mkSession h (mail_from (w_sess w)) (rcpts (w_sess w))
                                   (tls_active (w_sess w))) w).

Definition write_ehlo : SessM unit :=
  s ← get_sess;
  let host := smtp_hostname config in
  let caps := [host ++ lit " at your service"]
    ++ (if bool_decide (is_Some tls_acceptor) && negb (tls_active s)
        then [lit "STARTTLS"] else [])
    ++ [lit "SIZE " ++ fmt_int (max_message_size config); lit "8BITMIME"; lit "PIPELINING";
        lit "ENHANCEDSTATUSCODES"; lit "SMTPUTF8"] in
  io (write_multiline 250 caps).

Definition try_catch_all (delivery : str) : SessM RecipientCheck :=
  if negb (catch_all_enabled config) then mret NoMailbox
  else
    match rsplit_once 64 delivery with
    | None => mret NoMailbox
    | Some (local, domain) =>
        if is_reserved_local_part config local then mret NoMailbox
        else
          let ttl := mailbox_ttl config in
          t ← now;
          r ← store_call (create_mailbox delivery domain (t + ttl) None None);
          match r with
          | Ok _ => mret (Accept delivery)
          | Err e =>
              if is_unique_violation e then
                t ← now;
                r ← store_call (mailbox_is_active delivery t);
                match r with
                | Ok true => mret (Accept delivery)
                | Ok false => mret NoMailbox
                | Err _ => mret CheckError
                end
              else mret CheckError
          end
    end.

(** The second half of [validate_recipient]: the domain is accepted. *)
Definition check_mailbox (is_config_domain : bool) (addr : str) : SessM RecipientCheck :=
  let delivery := strip_plus_tag addr in
  t ← now;
  r ← store_call (mailbox_is_active delivery t);
  match r with
  | Ok true => mret (Accept delivery)
  | Ok false => if is_config_domain then try_catch_all delivery else mret NoMailbox
  | Err _ => mret CheckError
  end.

Definition validate_recipient (addr : str) : SessM RecipientCheck :=
  match rsplit_once 64 addr with
  | None => mret NotOurDomain
  | Some (_, domain) =>
      if bool_decide (domain = []) then mret NotOurDomain
      else
        let is_config_domain := accepts_domain config domain in
        if is_config_domain then check_mailbox is_config_domain addr
        else if negb (custom_domains_enabled config) then mret NotOurDomain
        else
          r ← store_call (custom_domain_is_verified domain);
          match r with
          | Ok true => check_mailbox is_config_domain addr
          | Ok false => mret NotOurDomain
          | Err _ => mret CheckError
          end
  end.

Definition handle_rcpt (addr : str) : SessM unit :=
  s ← get_sess;
  if bool_decide (mail_from s = None) then reply (lit "503 5.5.1 Need MAIL before RCPT")
  else if bool_decide (max_recipients config ≤ len (rcpts s))
  then reply (lit "452 4.5.3 Too many recipients")
  else
    let recipient := to_ascii_lowercase (trim addr) in
    check ← validate_recipient recipient;
    match check with
    | Accept delivery =>
        s ← get_sess;
        (if bool_decide (delivery ∈ rcpts s) then mret tt
         else put_sess (mkSession (helo s) (mail_from s) (rcpts s ++ [delivery]) (tls_active s)));;
        reply (lit "250 2.1.5 Recipient OK")
    | NotOurDomain => reply (lit "550 5.7.1 Relaying denied, not a local domain")
    | NoMailbox => reply (lit "550 5.1.1 No such user here")
    | CheckError => reply (lit "451 4.3.0 Temporary lookup failure, try again later")
    end.

(** The loop over the recipients: the first error stops it. *)
Fixpoint save_copies (rcpts : list str) (parsed : NewMessage) : SessM (result unit anyhow) :=
  match rcpts with
  | [] => mret (Ok tt)
  | rcpt :: rcpts =>
      r ← store_call (save_message rcpt parsed);
      match r with
      | Ok stored =>
          modify (λ w, set_bus (publish (from_stored rcpt stored) (w_bus w)) w);;
          save_copies rcpts parsed
      | Err e => mret (Err e)
      end
  end.

Definition store_message (raw : bytes) : SessM (result Z anyhow) :=
  s ← get_sess;
  let envelope_from := default [] (mail_from s) in
  let parsed := parse_message raw envelope_from in
  let parsed :=
    if store_raw_message config
    then mkNewMessage (nm_mail_from parsed) (nm_subject parsed) (nm_message_date parsed)
           (nm_text_body parsed) (nm_html_body parsed) (nm_raw_size parsed) (Some raw)
           (nm_attachments parsed)
    else parsed in
  r ← save_copies (rcpts s) parsed;
  mret (match r with Ok _ => Ok (len (rcpts s)) | Err e => Err e end).

Definition handle_data : SessM Flow :=
  s ← get_sess;
  if bool_decide (mail_from s = None) then
    reply (lit "503 5.5.1 Need MAIL before DATA");; mret Continue
  else if bool_decide (rcpts s = []) then
    reply (lit "554 5.5.1 No valid recipients");; mret Continue
  else if negb (storage_has_headroom available_space config) then
    reply (lit "452 4.3.1 Insufficient system storage");; mret Continue
  else
    reply (lit "354 Start mail input; end with <CRLF>.<CRLF>");;
    outcome ← io (read_data (max_message_size config));
    match outcome with
    | Complete data =>
        r ← store_message data;
        match r with
        | Ok count => reply (lit "250 2.0.0 Message accepted (" ++ fmt_int count ++ lit " recipient(s))")
        | Err _ => reply (lit "451 4.3.0 Could not store message, try again later")
        end;;
        reset_tx;;
        mret Continue
    | TooLarge =>
        reply (lit "552 5.3.4 Message too large");;
        reset_tx;;
        mret Continue
    | ConnectionClosed => mret Break
    end.

(** The new stream after [STARTTLS]: the buffered plaintext is dropped with the
    [BufReader], the handshake runs on what the network still delivers. *)
Definition handle_starttls : SessM Flow :=
  s ← get_sess;
  if tls_active s then reply (lit "503 5.5.1 TLS already active");; mret Continue
  else
    match tls_acceptor with
    | None => reply (lit "502 5.5.1 STARTTLS not supported");; mret Continue
    | Some accept =>
        reply (lit "220 2.0.0 Ready to start TLS");;
        io flush;;
        is_tls ← gets w_tls;
        if (is_tls : bool) then
          modify (λ w, set_conn (set_in ([], c_rest (w_conn w)) (w_conn w)) w);;
          mret Continue
        else
          rest ← gets (λ w, c_rest (w_conn w));
          match accept rest with
          | Some plain =>
              modify (λ w, set_tls true (set_conn (set_in ([], plain) (w_conn w)) w));;
              s ← get_sess;
              put_sess (mkSession None (mail_from s) (rcpts s) true);;
              reset_tx;;
              mret Continue
          | None => mret ReturnOk
          end
    end.

Definition dispatch (command : Command) : SessM Flow :=
  let host := smtp_hostname config in
  match command with
  | Quit => reply (lit "221 2.0.0 Bye");; mret Break
  | Ehlo domain => set_helo (Some domain);; reset_tx;; write_ehlo;; mret Continue
  | Helo domain =>
      set_helo (Some domain);; reset_tx;;
      reply (lit "250 " ++ host ++ lit " Hello");; mret Continue
  | MailFrom addr =>
      s ← get_sess;
      (if bool_decide (helo s = None) then reply (lit "503 5.5.1 Send HELO/EHLO first")
       else if bool_decide (mail_from s ≠ None) then
         reply (lit "503 5.5.1 Sender already specified")
       else
         put_sess (mkSession (helo s) (Some addr) [] (tls_active s));;
         reply (lit "250 2.1.0 Sender OK"));;
      mret Continue
  | RcptTo addr => handle_rcpt addr;; mret Continue
  | Data => handle_data
  | Rset => reset_tx;; reply (lit "250 2.0.0 OK");; mret Continue
  | Noop => reply (lit "250 2.0.0 OK");; mret Continue
  | StartTls => handle_starttls
  | Vrfy => reply (lit "252 2.5.2 Cannot VRFY user");; mret Continue
  | Help => reply (lit "214 2.0.0 anony-mail inbound-only SMTP");; mret Continue
  | Unknown _ => reply (lit "500 5.5.2 Command not recognized");; mret Continue
  end.

Definition session_step : SessM Flow :=
  sl ← io (read_line COMMAND_LINE_MAX);
  match sl.1 with
  | Eof => mret Break
  | TooLong => reply (lit "500 5.5.2 Line too long");; mret Break
  | Line => dispatch (parse (from_utf8_lossy (strip_eol sl.2)))
  end.

Fixpoint session_loop (fuel : nat) : SessM unit :=
  match fuel with
  | O => throw OutOfFuel
  | Datatypes.S fuel =>
      fl ← session_step;
      match fl with
      | Continue => session_loop fuel
      | Break | ReturnOk => mret tt
      end
  end.

Definition run (fuel : nat) : SessM unit :=
  reply (lit "220 " ++ smtp_hostname config ++ lit " ESMTP anony-mail");;
  session_loop fuel.

(** [handle]: a fresh session on an accepted socket. *)
Definition handle (fuel : nat) (rest : list NetEvent) (writes : option nat) (st : S * Env)
    (bus : EventBus) : result unit io_error * World S :=
  run fuel (mkWorld (mkSession None None [] false) (mkConn [] rest [] writes) false st bus).
End session.
