(* ===== verification/SmtpSessionLaws.v ===== *)
(** * SmtpSessionLaws: what the SMTP receiver guarantees

    Proved against the laws of the [Store] interface, for every backend: recipients are
    only accepted for domains the server serves and mailboxes that exist, the catch-all
    is confined, the transaction state is well formed in every reachable state, DATA
    stores exactly what was sent, every session terminates, and STARTTLS drops the
    plaintext. *)

From S2P Require Import Prelude Str Model Config StoreSpec SmtpCommands SmtpIo.
From S2P Require Import Otp Mime Events SmtpSession MemoryStore MemoryStoreLaws MemoryMessages MemoryClaims.

(** ** Plus-addressing *)

Definition domain_of (addr : str) : option str := snd <$> rsplit_once 64 addr.

Lemma strip_plus_tag_split addr local domain :
  rsplit_once 64 addr = Some (local, domain) →
  ∃ local', rsplit_once 64 (strip_plus_tag addr) = Some (local', domain) ∧
    (∃ t, local = local' ++ t) ∧ (local ≠ [] → local' ≠ []) ∧
    (43 ∈ local' → head local' = Some 43 ∧ local' = local).
Proof.
  intros Hs. unfold strip_plus_tag. rewrite Hs. pose proof Hs as [Ha Hd]%rsplit_once_Some.
  destruct (find_char (Z.eqb 43) local) as [pos|] eqn:Hf.
  - pose proof Hf as (c & Hloc & Hc & Hpre)%find_char_spec. apply Z.eqb_eq in Hc. subst c.
    case_bool_decide as Hpos.
    + exists (take pos local). change (lit "@" ++ domain) with (64 :: domain).
      rewrite rsplit_once_app by done.
      split; [done|]. split; [exists (drop pos local); by rewrite take_drop|]. split.
      * intros Hne Ht. apply (f_equal length) in Ht. rewrite length_take in Ht. cbn in Ht.
        destruct local; [done|cbn in Ht; lia].
      * intros Hin. exfalso. rewrite Forall_forall in Hpre. by specialize (Hpre 43 Hin).
    + exists local. rewrite Hs. split; [done|]. split; [exists []; by rewrite app_nil_r|].
      split; [done|]. intros _. split; [|done]. assert (pos = O) as -> by lia.
      rewrite Hloc. done.
  - exists local. rewrite Hs. split; [done|]. split; [exists []; by rewrite app_nil_r|].
    split; [done|]. intros Hin. exfalso. rewrite find_char_None, Forall_forall in Hf.
    by specialize (Hf 43 Hin).
Qed.

Lemma domain_of_strip addr : domain_of (strip_plus_tag addr) = domain_of addr.
Proof.
  unfold domain_of. destruct (rsplit_once 64 addr) as [[local domain]|] eqn:Hs.
  - by destruct (strip_plus_tag_split addr local domain Hs) as (local' & -> & _).
  - unfold strip_plus_tag. by rewrite Hs, Hs.
Qed.

(** Plus-addressing is a normal form: stripping keeps the domain, never empties a
    local part, leaves no tag behind (a leading plus is kept as it is), and stripping
    again changes nothing. *)
Theorem strip_plus_tag_normal addr :
  strip_plus_tag (strip_plus_tag addr) = strip_plus_tag addr ∧
  domain_of (strip_plus_tag addr) = domain_of addr ∧
  ∀ local domain, rsplit_once 64 addr = Some (local, domain) → local ≠ [] →
    ∃ local', rsplit_once 64 (strip_plus_tag addr) = Some (local', domain) ∧ local' ≠ [] ∧
      (43 ∈ local' → head local' = Some 43).
Proof.
  destruct (rsplit_once 64 addr) as [[local domain]|] eqn:Hs.
  - destruct (strip_plus_tag_split addr local domain Hs) as (local' & H1 & _ & H2 & H3). split_and!.
    + unfold strip_plus_tag at 1. rewrite H1. destruct (find_char (Z.eqb 43) local') as [pos|] eqn:Hf; [|done].
      pose proof Hf as (c & Hloc & Hc & Hpre)%find_char_spec. apply Z.eqb_eq in Hc. subst c.
      destruct H3 as [Hh _]; [rewrite Hloc; apply elem_of_app; right; left|].
      destruct local' as [|c l']; [done|]. cbn in Hh. injection Hh as ->. cbn in Hf. injection Hf as <-. done.
    + apply domain_of_strip.
    + intros l d [= <- <-] Hl. exists local'. naive_solver.
  - unfold strip_plus_tag. rewrite Hs. rewrite Hs. done.
Qed.

(** ** Running the session *)

Lemma io_run {S A} (m : M Conn io_error A) (w : World S) :
  io m w = ((m (w_conn w)).1, set_conn (m (w_conn w)).2 w).
Proof. unfold io, zoom. by destruct (m (w_conn w)). Qed.
Lemma store_call_run {S A} (m : SM S A) (w : World S) :
  store_call m w = (Ok (m (w_st w)).1, set_st (m (w_st w)).2 w).
Proof. unfold store_call. by destruct (m (w_st w)). Qed.
Lemma now_run {S} (w : World S) :
  now w = (Ok (e_clock (w_st w).2 0%nat), set_st ((w_st w).1, (env_now (w_st w).2).2) w).
Proof. unfold now. by destruct (w_st w) as [s e]. Qed.

(** Writes leave the input side alone. *)
Lemma write_all_frame b c :
  let c' := (write_all b c).2 in c_buf c' = c_buf c ∧ c_rest c' = c_rest c ∧
  ∀ e, (write_all b c).1 = Err e → e = IoError.
Proof.
  unfold write_all. destruct (c_writes c) as [[|n]|]; cbn; split_and!; try done; congruence.
Qed.
Lemma write_line_frame l c :
  let c' := (write_line l c).2 in c_buf c' = c_buf c ∧ c_rest c' = c_rest c ∧
  ∀ e, (write_line l c).1 = Err e → e = IoError.
Proof.
  unfold write_line, flush, mbind, M_bind.
  pose proof (write_all_frame (as_bytes l) c) as F1. destruct (write_all (as_bytes l) c) as [[[]|] c1];
    [|done]. pose proof (write_all_frame crlf c1) as F2.
  destruct (write_all crlf c1) as [[[]|] c2]; [|naive_solver congruence].
  pose proof (write_all_frame [] c2) as F3. naive_solver congruence.
Qed.
Lemma write_multiline_frame n ls c :
  let c' := (write_multiline n ls c).2 in c_buf c' = c_buf c ∧ c_rest c' = c_rest c ∧
  ∀ e, (write_multiline n ls c).1 = Err e → e = IoError.
Proof.
  unfold write_multiline. revert c. induction ls as [|l ls IH]; intros c; cbn [write_multiline_go].
  - apply write_all_frame.
  - unfold mbind, M_bind. pose proof (write_all_frame (as_bytes (fmt_int n ++
      (if bool_decide (ls = []) then lit " " else lit "-") ++ l ++ crlf)) c) as F.
    destruct (write_all _ c) as [[[]|] c1]; [|done]. specialize (IH c1). naive_solver congruence.
Qed.

Section recipients.
Context {S : Type} `{SL : StoreLaws S} `{MailParser} `{RegexEngine}.
Variable config : Config.

Implicit Types w : World S.
Abbreviation wview w := (view (w_st w).1).

(** The server receives mail for the domain: it is configured, or a verified custom
    domain while the feature is on. *)
Definition domain_served (v : AbsStore) (domain : str) : Prop :=
  accepts_domain config domain = true ∨
  custom_domains_enabled config = true ∧ domain_verified v domain = true.

(** The catch-all made mailbox [d] at [domain]: it was unknown, the domain is configured,
    the local part is not reserved, nobody owns it and it lives for the default TTL. *)
Definition conjured (v v' : AbsStore) (t : Time) (d : str) : Prop :=
  catch_all_enabled config = true ∧ ab_mailboxes v !! d = None ∧
  ∃ local domain t0, rsplit_once 64 d = Some (local, domain) ∧
    is_reserved_local_part config local = false ∧
    v' = set_mailboxes (insert d (mkMailbox d domain t0 (t + mailbox_ttl config) None None)) v.

Lemma set_st_id w : set_st (w_st w) w = w.
Proof. by destruct w. Qed.

Lemma is_active_run d t w :
  ∃ r st', store_call (mailbox_is_active d t) w = (Ok r, set_st st' w) ∧
    view st'.1 = wview w ∧ st'.2 = (w_st w).2 ∧ ∀ b, r = Ok b → b = active (wview w) d t.
Proof.
  rewrite store_call_run. destruct (reads_run _ _ (w_st w) (law_mailbox_is_active d t)) as (H1 & H2 & H3).
  do 2 eexists. split; [done|]. split_and!; [done..|]. auto.
Qed.

Lemma try_catch_all_spec d w :
  ∃ ck st', try_catch_all config d w = (Ok ck, set_st st' w) ∧
    match ck with
    | Accept d' => d' = d ∧ (conjured (wview w) (view st'.1) (e_clock (w_st w).2 0%nat) d ∨
                             view st'.1 = wview w ∧ ∃ t, active (wview w) d t = true)
    | _ => view st'.1 = wview w
    end.
Proof.
  unfold try_catch_all. destruct (catch_all_enabled config) eqn:Hen; cbn [negb].
  2:{ exists NoMailbox, (w_st w). by rewrite set_st_id. }
  destruct (rsplit_once 64 d) as [[local domain]|] eqn:Hs.
  2:{ exists NoMailbox, (w_st w). by rewrite set_st_id. }
  destruct (is_reserved_local_part config local) eqn:Hres.
  { exists NoMailbox, (w_st w). by rewrite set_st_id. }
  rewrite (bind_ok _ _ _ _ _ (now_run w)). set (t := e_clock (w_st w).2 0%nat).
  set (w1 := set_st _ w). rewrite (bind_ok _ _ _ _ _ (store_call_run _ w1)).
  pose proof (law_create_mailbox d domain (t + mailbox_ttl config) None None (w_st w1).1 (w_st w1).2) as L.
  rewrite <-surjective_pairing in L.
  destruct (create_mailbox d domain _ None None (w_st w1)) as [[mb|er] [s2 e2]]; cbn in L |- *.
  - destruct L as (Hn & [t0 ->] & Hv). exists (Accept d), (s2, e2). split; [done|]. split; [done|].
    left. split; [done|]. split; [done|]. by exists local, domain, t0.
  - destruct L as [Hv _]. destruct (is_unique_violation er).
    2:{ exists CheckError, (s2, e2). done. }
    set (w2 := set_st (s2, e2) w1). rewrite (bind_ok _ _ _ _ _ (now_run w2)). set (w3 := set_st _ w2).
    destruct (is_active_run d (e_clock (w_st w2).2 0%nat) w3) as (r & st' & Hr & Hv' & _ & Ha).
    rewrite (bind_ok _ _ _ _ _ Hr).
    assert (view st'.1 = wview w) as Hvv by (rewrite Hv'; exact Hv).
    destruct r as [[|]|]; [exists (Accept d), st'|exists NoMailbox, st'|exists CheckError, st'];
      (split; [done|]); try done.
    split; [done|]. right. split; [done|]. eexists. specialize (Ha true eq_refl).
    symmetry. rewrite Ha. unfold w3, w2, w1. cbn. f_equal. exact Hv.
Qed.

(** What an accepted recipient is. *)
Definition acceptable (v v' : AbsStore) (e : Env) (addr d : str) : Prop :=
  d = strip_plus_tag addr ∧
  (∃ domain, domain_of addr = Some domain ∧ domain ≠ [] ∧ domain_served v domain ∧
     (accepts_domain config domain = false → v' = v ∧ active v d (e_clock e 0%nat) = true)) ∧
  (v' = v ∧ (∃ t, active v d t = true) ∨ conjured v v' (e_clock e 1%nat) d).

Lemma check_mailbox_spec b addr w :
  ∃ ck st', check_mailbox config b addr w = (Ok ck, set_st st' w) ∧
    match ck with
    | Accept d => d = strip_plus_tag addr ∧
        (view st'.1 = wview w ∧ active (wview w) d (e_clock (w_st w).2 0%nat) = true ∨
         b = true ∧ (conjured (wview w) (view st'.1) (e_clock (w_st w).2 1%nat) d ∨
                     view st'.1 = wview w ∧ ∃ t, active (wview w) d t = true))
    | _ => view st'.1 = wview w
    end.
Proof.
  unfold check_mailbox. rewrite (bind_ok _ _ _ _ _ (now_run w)). set (w1 := set_st _ w).
  destruct (is_active_run (strip_plus_tag addr) (e_clock (w_st w).2 0%nat) w1)
    as (r & st' & Hr & Hv & He & Ha).
  rewrite (bind_ok _ _ _ _ _ Hr).
  assert (set_st st' w1 = set_st st' w) as -> by done. change (wview w1) with (wview w) in Hv, Ha.
  change (w_st w1).2 with (env_now (w_st w).2).2 in He.
  destruct r as [[|]|].
  - exists (Accept (strip_plus_tag addr)), st'. split; [done|]. split; [done|]. left. split; [done|].
    by rewrite (Ha true).
  - destruct b; [|by exists NoMailbox, st'].
    destruct (try_catch_all_spec (strip_plus_tag addr) (set_st st' w)) as (ck & st2 & -> & Hck).
    exists ck, st2. split; [done|]. cbn [w_st set_st] in Hck. rewrite Hv, He in Hck. cbn in Hck.
    destruct ck; [|done..]. destruct Hck as [-> Hck]. auto.
  - by exists CheckError, st'.
Qed.

Lemma validate_recipient_spec addr w :
  ∃ ck st', validate_recipient config addr w = (Ok ck, set_st st' w) ∧
    match ck with
    | Accept d => acceptable (wview w) (view st'.1) (w_st w).2 addr d
    | _ => view st'.1 = wview w
    end.
Proof.
  unfold validate_recipient. destruct (rsplit_once 64 addr) as [[local domain]|] eqn:Hs.
  2:{ exists NotOurDomain, (w_st w). by rewrite set_st_id. }
  assert (domain_of addr = Some domain) as Hdom by (unfold domain_of; by rewrite Hs).
  case_bool_decide as Hd.
  { exists NotOurDomain, (w_st w). by rewrite set_st_id. }
  destruct (accepts_domain config domain) eqn:Hacc.
  - destruct (check_mailbox_spec true addr w) as (ck & st' & -> & Hck). exists ck, st'.
    split; [done|]. destruct ck; try done. destruct Hck as [-> Hck]. split; [done|]. split.
    + exists domain. split_and!; [done..|by left|congruence].
    + destruct Hck as [[? ?]|[_ [?|?]]]; [left|right|left]; eauto.
  - destruct (custom_domains_enabled config) eqn:Hcd; cbn [negb].
    2:{ exists NotOurDomain, (w_st w). by rewrite set_st_id. }
    rewrite (bind_ok _ _ _ _ _ (store_call_run _ w)).
    destruct (reads_run _ _ (w_st w) (law_custom_domain_is_verified domain)) as (H1 & H2 & H3).
    destruct (custom_domain_is_verified domain (w_st w)) as [r st1]. cbn in H1, H2, H3 |- *.
    destruct r as [[|]|]; [|by exists NotOurDomain, st1|by exists CheckError, st1].
    destruct (check_mailbox_spec false addr (set_st st1 w)) as (ck & st' & -> & Hck).
    exists ck, st'. split; [done|]. cbn [w_st set_st] in Hck. rewrite H1, H2 in Hck.
    destruct ck; try done. destruct Hck as [-> [[Hv Ha]|[? _]]]; [|done]. split; [done|]. split.
    + exists domain. split_and!; [done..|right; split; [done|by rewrite <-(H3 true)]|done].
    + left. split; [done|]. eauto.
Qed.

(** The stream variant, the bus and the input side of the connection are as before. *)
Definition input_kept (w w' : World S) : Prop :=
  w_tls w' = w_tls w ∧ w_bus w' = w_bus w ∧
  c_buf (w_conn w') = c_buf (w_conn w) ∧ c_rest (w_conn w') = c_rest (w_conn w).

(** A reply touches the output side of the connection only. *)
Lemma reply_run line w w1 :
  input_kept w w1 →
  input_kept w (reply line w1).2 ∧ (∀ e, (reply line w1).1 = Err e → e = IoError) ∧
  w_sess (reply line w1).2 = w_sess w1 ∧ w_st (reply line w1).2 = w_st w1.
Proof.
  intros (H1 & H2 & H3 & H4). unfold reply. rewrite io_run. cbn.
  destruct (write_line_frame line (w_conn w1)) as (F1 & F2 & F3). unfold input_kept. cbn.
  rewrite F1, F2. done.
Qed.

Definition add_rcpt (d : str) (s : Session) : Session :=
  if bool_decide (d ∈ rcpts s) then s
  else mkSession (helo s) (mail_from s) (rcpts s ++ [d]) (tls_active s).

(** What [RCPT] can do: nothing to the transaction, or add one acceptable recipient. *)
Lemma handle_rcpt_spec addr w :
  let w' := (handle_rcpt config addr w).2 in
  input_kept w w' ∧ (∀ e, (handle_rcpt config addr w).1 = Err e → e = IoError) ∧
  (w_sess w' = w_sess w ∧ wview w' = wview w ∨
   ∃ d, acceptable (wview w) (wview w') (w_st w).2 (to_ascii_lowercase (trim addr)) d ∧
     mail_from (w_sess w) ≠ None ∧ len (rcpts (w_sess w)) < max_recipients config ∧
     w_sess w' = add_rcpt d (w_sess w)).
Proof.
  cbn zeta. unfold handle_rcpt, get_sess. rewrite (bind_ok _ _ w (w_sess w) w) by done.
  assert (∀ line w1, input_kept w w1 → w_sess w1 = w_sess w → wview w1 = wview w →
    input_kept w (reply line w1).2 ∧ (∀ e, (reply line w1).1 = Err e → e = IoError) ∧
    (w_sess (reply line w1).2 = w_sess w ∧ wview (reply line w1).2 = wview w ∨
     ∃ d, acceptable (wview w) (wview (reply line w1).2) (w_st w).2 (to_ascii_lowercase (trim addr)) d ∧
     mail_from (w_sess w) ≠ None ∧ len (rcpts (w_sess w)) < max_recipients config ∧
     w_sess (reply line w1).2 = add_rcpt d (w_sess w))) as Hrep.
  { intros line w1 H1 H2 H3. destruct (reply_run line w w1 H1) as (R1 & R2 & R3 & R4).
    split; [done|]. split; [done|]. left. by rewrite R3, R4. }
  case_bool_decide as Hmf; [by apply Hrep|]. case_bool_decide as Hmax; [by apply Hrep|].
  destruct (validate_recipient_spec (to_ascii_lowercase (trim addr)) w) as (ck & st' & Hck & Hspec).
  rewrite (bind_ok _ _ _ _ _ Hck).
  destruct ck as [d| | |]; [|by apply Hrep..].
  rewrite (bind_ok _ _ (set_st st' w) (w_sess w) (set_st st' w)) by done.
  erewrite (bind_ok _ _ _ tt (set_sess (add_rcpt d (w_sess w)) (set_st st' w))).
  2:{ unfold add_rcpt. case_bool_decide; [|done]. by destruct w. }
  destruct (reply_run (lit "250 2.1.5 Recipient OK") w (set_sess (add_rcpt d (w_sess w)) (set_st st' w))) as (R1 & R2 & R3 & R4); [done|].
  split; [done|]. split; [done|]. right. exists d. rewrite R3, R4. cbn. split_and!; [done..|lia|done].
Qed.

(** C1: the server is not an open relay. A [RCPT] either leaves the envelope as it was
    or adds exactly one recipient, and that recipient is the plus-stripped, lowercased
    address, at a domain the server serves (configured, or custom and verified while the
    feature is on), and names a mailbox that exists: one that was active when checked,
    or one the catch-all just made. The envelope never exceeds the recipient limit and
    never repeats a recipient. *)
Theorem rcpt_never_relays addr w :
  let w' := (handle_rcpt config addr w).2 in
  let recipient := to_ascii_lowercase (trim addr) in
  rcpts (w_sess w') = rcpts (w_sess w) ∨
  ∃ d domain, rcpts (w_sess w') = rcpts (w_sess w) ++ [d] ∧ d ∉ rcpts (w_sess w) ∧
    len (rcpts (w_sess w')) ≤ max_recipients config ∧
    d = strip_plus_tag recipient ∧ domain_of recipient = Some domain ∧ domain ≠ [] ∧
    domain_served (wview w) domain ∧ is_Some (ab_mailboxes (wview w') !! d) ∧
    (wview w' = wview w ∨ conjured (wview w) (wview w') (e_clock (w_st w).2 1%nat) d).
Proof.
  cbn zeta. destruct (handle_rcpt_spec addr w) as (_ & _ & [[-> _]|(d & Hacc & Hmf & Hlen & ->)]); [by left|].
  unfold add_rcpt. case_bool_decide as Hin; [by left|]. right. cbn. destruct Hacc as (Hd & (domain & H1 & H2 & H3 & _) & Hv).
  exists d, domain. split; [done|]. split; [done|]. split; [rewrite length_app; cbn; lia|].
  split_and!; [done..| |naive_solver].
  destruct Hv as [[-> [t Ht]]|(_ & _ & local & dom & t0 & _ & _ & ->)].
  - unfold active in Ht. destruct (ab_mailboxes (wview w) !! d); [eauto|done].
  - cbn. rewrite lookup_insert_eq. eauto.
Qed.

(** C10: inbound mail changes the store's mailboxes, domains and devices only through the
    catch-all, and that is confined: it makes one mailbox that did not exist, ownerless,
    at a configured domain and never a custom one, never with a reserved local part,
    with the default lifetime, and only while it is switched on. *)
Theorem catch_all_confined addr w :
  let w' := (handle_rcpt config addr w).2 in
  wview w' ≠ wview w →
  ∃ local domain t0, let d := strip_plus_tag (to_ascii_lowercase (trim addr)) in
    catch_all_enabled config = true ∧ accepts_domain config domain = true ∧
    rsplit_once 64 d = Some (local, domain) ∧ is_reserved_local_part config local = false ∧
    ab_mailboxes (wview w) !! d = None ∧
    wview w' = set_mailboxes (insert d (mkMailbox d domain t0
                 (e_clock (w_st w).2 1%nat + mailbox_ttl config) None None)) (wview w).
Proof.
  cbn zeta. destruct (handle_rcpt_spec addr w) as (_ & _ & [[_ ?]|(d & Hacc & _)]); [done|].
  intros Hne. destruct Hacc as (-> & (domain & H1 & _ & _ & Hcust) & [[? _]|Hc]); [done|].
  destruct Hc as (Hen & Hnone & local & dom & t0 & Hs & Hres & Hv).
  exists local, dom, t0. split_and!; try done.
  assert (dom = domain) as ->.
  { pose proof (domain_of_strip (to_ascii_lowercase (trim addr))) as Hd.
    unfold domain_of in *. rewrite Hs, H1 in Hd. by injection Hd. }
  destruct (accepts_domain config domain); [done|]. by destruct Hcust.
Qed.

Variable tls_acceptor : option (list NetEvent → option (list NetEvent)).
Variable available_space : str → option Z.

(** ** The session invariant *)

(** The transaction of a session over a store with view [v]: recipients only after a
    sender, a sender only after a greeting, no recipient twice, at most the configured
    number, each the address of a mailbox that exists at a domain the server serves. *)
Record sess_ok (v : AbsStore) (s : Session) : Prop := {
  ok_rcpts : rcpts s ≠ [] → mail_from s ≠ None;
  ok_mail : mail_from s ≠ None → helo s ≠ None;
  ok_nodup : NoDup (rcpts s);
  ok_len : len (rcpts s) ≤ max_recipients config;
  ok_served : Forall (λ r, is_Some (ab_mailboxes v !! r) ∧
    ∃ domain, domain_of r = Some domain ∧ domain ≠ [] ∧ domain_served v domain) (rcpts s);
}.
Definition inv (w : World S) : Prop := sess_ok (wview w) (w_sess w) ∧ w_tls w = tls_active (w_sess w).

(** The store lost no mailbox and no verified domain. *)
Definition grows (v v' : AbsStore) : Prop :=
  (∀ a, is_Some (ab_mailboxes v !! a) → is_Some (ab_mailboxes v' !! a)) ∧
  ∀ d, domain_verified v d = true → domain_verified v' d = true.

Lemma sess_ok_grows v v' s : grows v v' → sess_ok v s → sess_ok v' s.
Proof.
  intros [Hm Hd] [? ? ? ? Hs]. split; [done..|]. eapply Forall_impl; [exact Hs|]. cbn.
  intros r (Hr & domain & H1 & H2 & H3). split; [auto|]. exists domain. split_and!; [done..|].
  destruct H3 as [?|[??]]; [by left|right; auto].
Qed.
Lemma acceptable_grows v v' e addr d : acceptable v v' e addr d → grows v v' ∧ is_Some (ab_mailboxes v' !! d).
Proof.
  intros (_ & _ & [[-> [t Ht]]|(_ & _ & local & dom & t0 & _ & _ & ->)]).
  - split; [done|]. unfold active in Ht. destruct (ab_mailboxes v !! d); [eauto|done].
  - split; [split; [|done]|]; cbn; [intros a Ha|rewrite lookup_insert_eq; eauto].
    apply lookup_insert_is_Some'. by right.
Qed.

Hypothesis max_rcpts_nonneg : 0 ≤ max_recipients config.

Lemma sess_ok_reset v h tls : sess_ok v (mkSession h None [] tls).
Proof. split; cbn; try done; constructor. Qed.

(** A piece of the loop that keeps the invariant, the encryption state, and never makes
    the input longer. *)
Definition good {A} (m : M (World S) io_error A) : Prop := ∀ w,
  let w' := (m w).2 in
  (inv w → inv w') ∧ (conn_size (w_conn w') ≤ conn_size (w_conn w))%nat ∧
  tls_active (w_sess w') = tls_active (w_sess w) ∧
  ∀ e, (m w).1 = Err e → e ≠ OutOfFuel.

Lemma good_bind {A B} (m : M (World S) io_error A) (k : A → M (World S) io_error B) :
  good m → (∀ a, good (k a)) → good (m ≫= k).
Proof.
  intros Hm Hk w. unfold mbind, M_bind. destruct (Hm w) as (M1 & M2 & M3 & M4).
  destruct (m w) as [[a|e] w1]; cbn in *.
  2:{ split_and!; try done. intros e' [= <-]. by apply M4. }
  destruct (Hk a w1) as (K1 & K2 & K3 & K4). cbn in *. split_and!; [auto|lia|congruence|done].
Qed.
Lemma good_ret {A} (a : A) : good (mret a).
Proof. intros w. cbn. split_and!; (done || lia). Qed.
Lemma good_reply line : good (reply line).
Proof.
  intros w. destruct (reply_run line w w) as ((K1 & K2 & K3 & K4) & R2 & R3 & R4); [done|].
  cbn. unfold inv, conn_size. rewrite R3, R4, K1, K3, K4. split_and!; [done..|].
  intros e He. by rewrite (R2 e He).
Qed.
Lemma good_reset_tx : good reset_tx.
Proof. intros w. cbn. split_and!; try done. intros [_ ?]. split; [apply sess_ok_reset|done]. Qed.
Lemma good_set_helo d : good (set_helo (Some d)).
Proof. intros w. cbn. split_and!; try done. intros [[] ?]. split; [|done]. by split. Qed.
Lemma good_get_sess {A} (k : Session → M (World S) io_error A) :
  (∀ s, good (k s)) → good (s ← get_sess; k s).
Proof. intros Hk. apply good_bind; [|done]. intros w. cbn. split_and!; (done || lia). Qed.
Lemma good_io {A} (m : M Conn io_error A) :
  (∀ c, (conn_size (m c).2 ≤ conn_size c)%nat ∧ ∀ e, (m c).1 = Err e → e ≠ OutOfFuel) → good (io m).
Proof. intros Hm w. rewrite io_run. cbn. destruct (Hm (w_conn w)). split_and!; done. Qed.
Lemma good_write_ehlo : good (write_ehlo config tls_acceptor).
Proof.
  unfold write_ehlo. apply good_get_sess. intros s. apply good_io. intros c.
  match goal with |- context [write_multiline ?n ?ls c] =>
    destruct (write_multiline_frame n ls c) as (F1 & F2 & F3) end.
  unfold conn_size. rewrite F1, F2. split; [done|]. intros e He. by rewrite (F3 e He).
Qed.
#[local] Hint Resolve good_bind good_ret good_reply good_reset_tx good_set_helo good_get_sess
  good_write_ehlo : rust.

Lemma good_handle_rcpt addr : good (handle_rcpt config addr).
Proof.
  intros w. destruct (handle_rcpt_spec addr w) as ((K1 & K2 & K3 & K4) & Herr & Hs).
  cbn zeta. unfold conn_size. rewrite K3, K4.
  assert (tls_active (w_sess (handle_rcpt config addr w).2) = tls_active (w_sess w)) as Htls.
  { destruct Hs as [[-> _]|(d & _ & _ & _ & ->)]; [done|]. unfold add_rcpt. by case_bool_decide. }
  split_and!; [|done..|intros e He; by rewrite (Herr e He)].
  intros [Hok Ht]. unfold inv. rewrite Htls, K1. split; [|done].
  destruct Hs as [[-> ->]|(d & Hacc & Hmf & Hlen & ->)]; [done|].
  destruct (acceptable_grows _ _ _ _ _ Hacc) as [Hg Hd]. apply (sess_ok_grows _ _ _ Hg) in Hok. unfold add_rcpt.
  case_bool_decide as Hin; [done|]. destruct Hok as [O1 O2 O3 O4 O5]. split; cbn; [done|done|..].
  - apply NoDup_app. split_and!; [done| |apply NoDup_singleton].
    intros x Hx Hx'. apply list_elem_of_singleton in Hx'. by subst.
  - rewrite length_app. cbn. lia.
  - apply Forall_app. split; [done|]. constructor; [|done].
    split; [done|]. destruct Hacc as (-> & (domain & D1 & D2 & D3 & _) & _). exists domain.
    rewrite domain_of_strip. split_and!; [done..|]. destruct D3 as [?|[??]]; [by left|right; split; [done|by apply Hg]].
Qed.

Lemma save_copies_run rc m w :
  ∃ r st' bus', save_copies rc m w = (Ok r, set_bus bus' (set_st st' w)).
Proof.
  revert w. induction rc as [|a rc IH]; intros w; cbn [save_copies].
  - exists (Ok tt), (w_st w), (w_bus w). by destruct w.
  - rewrite (bind_ok _ _ _ _ _ (store_call_run _ w)).
    destruct (save_message a m (w_st w)) as [[stored|er] st1]; cbn [fst snd].
    + erewrite bind_ok by done. edestruct IH as (r & st' & bus' & ->). by do 3 eexists.
    + exists (Err er), st1, (w_bus w). done.
Qed.
Lemma save_copies_view rc m w : wview (save_copies rc m w).2 = wview w.
Proof.
  revert w. induction rc as [|a rc IH]; intros w; cbn [save_copies]; [done|].
  rewrite (bind_ok _ _ _ _ _ (store_call_run _ w)).
  pose proof (law_save_message a m (w_st w).1 (w_st w).2) as Hv. rewrite <-surjective_pairing in Hv.
  destruct (save_message a m (w_st w)) as [[stored|er] st1]; cbn [fst snd] in *; [|done].
  erewrite bind_ok by done. rewrite IH. exact Hv.
Qed.
Lemma good_store_message raw : good (store_message config raw).
Proof.
  intros w. unfold store_message. rewrite (bind_ok _ _ w (w_sess w) w) by done. cbn zeta.
  edestruct save_copies_run as (r & st' & bus' & Hr). rewrite (bind_ok _ _ _ _ _ Hr).
  match type of Hr with save_copies ?rc ?m _ = _ => pose proof (save_copies_view rc m w) as Hv end.
  rewrite Hr in Hv. cbn in Hv |- *.
  split_and!; try done. unfold inv. cbn. by rewrite Hv.
Qed.

Hypothesis max_size_nonneg : 0 ≤ max_message_size config.

Lemma good_handle_data : good (handle_data config available_space).
Proof.
  assert (good (io (S := S) (read_data (max_message_size config)))) as Hread.
  { apply good_io. intros c. destruct (read_data _ c) as [r c'] eqn:Hr.
    apply read_data_go_bound in Hr as [Hs Hr]; [|done|cbn; lia|lia]. split; [done|].
    destruct r as [|e]; [done|]. by intros e' [= <-]. }
  unfold handle_data. apply good_get_sess. intros s.
  repeat case_match; auto with rust.
  apply good_bind; [apply good_reply|]. intros _. apply good_bind; [done|]. intros [data| |]; auto with rust.
  apply good_bind; [apply good_store_message|]. intros [n|er]; auto with rust.
Qed.

(** [MAIL]: the sender is recorded with an empty recipient list. *)
Lemma good_mail addr : good (dispatch config tls_acceptor available_space (MailFrom addr)).
Proof.
  intros w. cbn [dispatch]. rewrite (bind_ok _ _ w (w_sess w) w) by done.
  case_bool_decide as Hh; [apply good_bind; auto with rust|].
  case_bool_decide as Hm; [apply good_bind; auto with rust|].
  set (w1 := set_sess (mkSession (helo (w_sess w)) (Some addr) [] (tls_active (w_sess w))) w).
  assert (good (reply (lit "250 2.1.0 Sender OK");; mret Continue)) as Hg by auto with rust.
  specialize (Hg w1). cbn zeta in *.
  assert (((put_sess (mkSession (helo (w_sess w)) (Some addr) [] (tls_active (w_sess w)));;
    reply (lit "250 2.1.0 Sender OK"));; mret Continue) w
    = (reply (lit "250 2.1.0 Sender OK");; mret Continue) w1) as ->.
  { unfold put_sess, modify, mbind, M_bind. done. }
  destruct Hg as (G1 & G2 & G3 & G4). split_and!; try done.
  intros [Hok Ht]. apply G1. split; [|done]. cbn. split; cbn; try done; constructor.
Qed.

Abbreviation step := (session_step config tls_acceptor available_space).

(** [STARTTLS] either behaves like the others or switches encryption on once. *)
Lemma starttls_spec w :
  let w' := (handle_starttls tls_acceptor w).2 in
  (inv w → inv w') ∧ (∀ e, (handle_starttls tls_acceptor w).1 = Err e → e ≠ OutOfFuel) ∧
  ((conn_size (w_conn w') ≤ conn_size (w_conn w))%nat ∧
     tls_active (w_sess w') = tls_active (w_sess w) ∨
   tls_active (w_sess w) = false ∧ tls_active (w_sess w') = true).
Proof.
  cbn zeta. unfold handle_starttls. rewrite (bind_ok _ _ w (w_sess w) w) by done.
  assert (∀ m : M (World S) io_error Flow, good m →
    (inv w → inv (m w).2) ∧ (∀ e, (m w).1 = Err e → e ≠ OutOfFuel) ∧
    ((conn_size (w_conn (m w).2) ≤ conn_size (w_conn w))%nat ∧
     tls_active (w_sess (m w).2) = tls_active (w_sess w) ∨
     tls_active (w_sess w) = false ∧ tls_active (w_sess (m w).2) = true)) as Hgood.
  { intros m Hm. destruct (Hm w) as (?&?&?&?). auto. }
  destruct (tls_active (w_sess w)) eqn:Htls; [apply Hgood; auto with rust|].
  destruct tls_acceptor as [accept|]; [|apply Hgood; auto with rust]. clear Hgood.
  assert (good (reply (lit "220 2.0.0 Ready to start TLS");; io flush)) as Hpre.
  { apply good_bind; [apply good_reply|]. intros _. apply good_io. intros c.
    destruct (write_all_frame [] c) as (F1 & F2 & F3). unfold flush, conn_size. rewrite F1, F2.
    split; [done|]. intros e He. by rewrite (F3 e He). }
  specialize (Hpre w). revert Hpre. cbn zeta. unfold mbind, M_bind.
  destruct (reply (lit "220 2.0.0 Ready to start TLS") w) as [[[]|e] w1]; cbn.
  2:{ intros (P1 & P2 & P3 & P4). split_and!; [done|intros e' [= <-]; by apply P4|left; split; [done|congruence]]. }
  destruct (io flush w1) as [[[]|e] w2]; cbn.
  2:{ intros (P1 & P2 & P3 & P4). split_and!; [done|intros e' [= <-]; by apply P4|left; split; [done|congruence]]. }
  intros (P1 & P2 & P3 & P4). destruct (w_tls w2) eqn:Hw2; cbn.
  - split_and!; [|done|].
    + intros Hi. destruct (P1 Hi). by split.
    + left. split; [|congruence]. unfold conn_size in *. cbn. lia.
  - destruct (accept (c_rest (w_conn w2))); cbn; split_and!; try done.
    + intros _. split; [apply sess_ok_reset|done].
    + by right.
    + left. split; [done|congruence].
Qed.

Lemma step_unfold w :
  step w =
    match (read_line COMMAND_LINE_MAX (w_conn w)).1 with
    | Ok (Eof, _) => (Ok Break, set_conn (read_line COMMAND_LINE_MAX (w_conn w)).2 w)
    | Ok (TooLong, _) => (reply (lit "500 5.5.2 Line too long");; mret Break)
                           (set_conn (read_line COMMAND_LINE_MAX (w_conn w)).2 w)
    | Ok (Line, line) => dispatch config tls_acceptor available_space
                           (parse (from_utf8_lossy (strip_eol line)))
                           (set_conn (read_line COMMAND_LINE_MAX (w_conn w)).2 w)
    | Err e => (Err e, set_conn (read_line COMMAND_LINE_MAX (w_conn w)).2 w)
    end.
Proof.
  unfold session_step. unfold mbind at 1, M_bind at 1. rewrite io_run.
  by destruct (read_line COMMAND_LINE_MAX (w_conn w)) as [[[[] line]|e] c1].
Qed.

(** One turn of the loop. *)
Lemma step_spec w :
  let w' := (step w).2 in
  (inv w → inv w') ∧ (∀ e, (step w).1 = Err e → e ≠ OutOfFuel) ∧
  ((step w).1 = Ok Continue →
   (conn_size (w_conn w') < conn_size (w_conn w))%nat ∧
     tls_active (w_sess w') = tls_active (w_sess w) ∨
   tls_active (w_sess w) = false ∧ tls_active (w_sess w') = true).
Proof.
  cbn zeta. rewrite step_unfold.
  destruct (read_line COMMAND_LINE_MAX (w_conn w)) as [r c1] eqn:Hr. cbn [fst snd].
  apply read_line_bound in Hr as [Hsz Hr]; [|unfold COMMAND_LINE_MAX; lia].
  destruct r as [[st line]|e]; cbn [fst snd].
  2:{ split_and!; [done|congruence|done]. }
  destruct Hr as [_ Hprog]. set (w1 := set_conn c1 w).
  assert (∀ m : M (World S) io_error Flow, good m → st ≠ Eof →
    (inv w → inv (m w1).2) ∧ (∀ e, (m w1).1 = Err e → e ≠ OutOfFuel) ∧
    ((m w1).1 = Ok Continue →
     (conn_size (w_conn (m w1).2) < conn_size (w_conn w))%nat ∧
       tls_active (w_sess (m w1).2) = tls_active (w_sess w) ∨
     tls_active (w_sess w) = false ∧ tls_active (w_sess (m w1).2) = true)) as Hgood.
  { intros m Hm Hst. specialize (Hprog Hst). destruct (Hm w1) as (M1 & M2 & M3 & M4).
    cbn in M2, M3. split_and!; [by intros; apply M1|done|]. intros _. left. split; [lia|done]. }
  destruct st; [|by split_and!|apply Hgood; auto with rust; done].
  generalize (parse (from_utf8_lossy (strip_eol line))). intros cmd.
  destruct cmd; cbn [dispatch]; try (by apply Hgood; auto 6 using good_handle_rcpt, good_handle_data with rust).
  - apply Hgood; [apply good_mail|done].
  - destruct (starttls_spec w1) as (S1 & S2 & S3). cbn in S3. split_and!; [by intros; apply S1|done|].
    intros _. destruct S3 as [[S3 S4]|S3]; [left|by right].
    specialize (Hprog ltac:(done)). split; [lia|done].
Qed.

(** C2: in every state a session can reach, whatever the client and the network do, the
    transaction is well formed: recipients only after a sender and a sender only after a
    greeting, no recipient twice, no more than the limit, each the address of a mailbox
    that exists at a domain the server serves, that is one configured or, while the
    feature is on, a custom domain the store holds as verified; and the session believes
    the stream is encrypted exactly when it is. Between two commands the rest of the
    server may change the store in any way that takes away no mailbox and no verified
    domain. *)
Theorem session_invariant rest writes st bus w :
  rtc (λ w1 w2, (∃ fl, step w1 = (Ok fl, w2)) ∨
                ∃ st', w2 = set_st st' w1 ∧ grows (wview w1) (view st'.1))
    (mkWorld (mkSession None None [] false) (mkConn [] rest [] writes) false st bus) w →
  sess_ok (wview w) (w_sess w) ∧ w_tls w = tls_active (w_sess w).
Proof.
  intros Hr. change (inv w).
  assert (inv (mkWorld (mkSession None None [] false) (mkConn [] rest [] writes) false st bus)) as Hinit.
  { split; [apply sess_ok_reset|done]. }
  induction Hr as [|w1 w2 w3 [[fl Hs]|(st' & -> & Hg)] _ IH]; [done| |]; apply IH.
  - destruct (step_spec w1) as (Hi & _). rewrite Hs in Hi. auto.
  - destruct Hinit as [Hok Ht]. split; [by apply (sess_ok_grows _ _ _ Hg)|done].
Qed.

(** C33: every session ends: from any state there is a number of commands after which the
    loop is over (closed, refused or failed on the network), because each command uses
    up input and encryption can be switched on only once. *)
Theorem session_terminates w :
  ∃ fuel, ∀ fuel', (fuel ≤ fuel')%nat →
    (session_loop config tls_acceptor available_space fuel' w).1 ≠ Err OutOfFuel.
Proof.
  assert (∀ w, (∀ w', (step w) = (Ok Continue, w') →
      ∃ fuel, ∀ fuel', (fuel ≤ fuel')%nat →
        (session_loop config tls_acceptor available_space fuel' w').1 ≠ Err OutOfFuel) →
    ∃ fuel, ∀ fuel', (fuel ≤ fuel')%nat →
      (session_loop config tls_acceptor available_space fuel' w).1 ≠ Err OutOfFuel) as Hnext.
  { clear w. intros w Hw. destruct (step_spec w) as (_ & Herr & _).
    destruct (step w) as [[[| |]|e] w'] eqn:Hs.
    - destruct (Hw w' eq_refl) as [f Hf]. exists (Datatypes.S f). intros [|f'] Hf'; [lia|].
      cbn [session_loop]. rewrite (bind_ok _ _ _ _ _ Hs). apply Hf. lia.
    - exists 1%nat. intros [|f'] Hf'; [lia|]. cbn [session_loop]. by rewrite (bind_ok _ _ _ _ _ Hs).
    - exists 1%nat. intros [|f'] Hf'; [lia|]. cbn [session_loop]. by rewrite (bind_ok _ _ _ _ _ Hs).
    - exists 1%nat. intros [|f'] Hf'; [lia|]. cbn [session_loop]. rewrite (bind_err _ _ _ _ _ Hs).
      intros [= ->]. by apply (Herr OutOfFuel). }
  assert (∀ n w, tls_active (w_sess w) = true → (conn_size (w_conn w) < n)%nat →
    ∃ fuel, ∀ fuel', (fuel ≤ fuel')%nat →
      (session_loop config tls_acceptor available_space fuel' w).1 ≠ Err OutOfFuel) as Htls.
  { clear w. induction n as [|n IH]; intros w Ht Hn; [lia|]. apply Hnext. intros w' Hs.
    destruct (step_spec w) as (_ & _ & Hp). rewrite Hs in Hp. cbn in Hp.
    destruct (Hp eq_refl) as [[Hlt Hsame]|[? _]]; [|congruence]. apply IH; [congruence|lia]. }
  enough (∀ n w, (conn_size (w_conn w) < n)%nat →
    ∃ fuel, ∀ fuel', (fuel ≤ fuel')%nat →
      (session_loop config tls_acceptor available_space fuel' w).1 ≠ Err OutOfFuel) as H1.
  { apply (H1 (Datatypes.S (conn_size (w_conn w)))). lia. }
  clear w. induction n as [|n IH]; intros w Hn; [lia|]. apply Hnext. intros w' Hs.
  destruct (step_spec w) as (_ & _ & Hp). rewrite Hs in Hp. cbn in Hp.
  destruct (Hp eq_refl) as [[Hlt _]|[_ Ht]].
  - apply IH. lia.
  - apply (Htls (Datatypes.S (conn_size (w_conn w'))) w' Ht). lia.
Qed.

(** ** Delivery *)

(** The copies of [m] saved one after the other for the addresses of a list. *)
Inductive save_trace (m : NewMessage) : list str → S * Env → list StoredMessage → S * Env → Prop :=
| save_trace_nil st : save_trace m [] st [] st
| save_trace_cons a l st stored st1 saved st2 :
    save_message a m st = (Ok stored, st1) → save_trace m l st1 saved st2 →
    save_trace m (a :: l) st (stored :: saved) st2.

Lemma save_copies_trace rc m w :
  ∃ saved st1, save_trace m (take (length saved) rc) (w_st w) saved st1 ∧
    let w' := (save_copies rc m w).2 in
    w_bus w' = w_bus w ++ zip_with from_stored rc saved ∧
    w_sess w' = w_sess w ∧ w_conn w' = w_conn w ∧ w_tls w' = w_tls w ∧
    match (save_copies rc m w).1 with
    | Ok (Ok _) => length saved = length rc ∧ w_st w' = st1
    | Ok (Err e) => ∃ a, rc !! length saved = Some a ∧ save_message a m st1 = (Err e, w_st w')
    | Err _ => False
    end.
Proof.
  revert w. induction rc as [|a rc IH]; intros w; cbn [save_copies].
  - exists [], (w_st w). split; [constructor|]. cbn. by rewrite app_nil_r.
  - rewrite (bind_ok _ _ _ _ _ (store_call_run _ w)).
    destruct (save_message a m (w_st w)) as [[stored|er] st1] eqn:Hs; cbn [fst snd].
    + erewrite bind_ok by done. set (w1 := set_bus _ _).
      destruct (IH w1) as (saved & st2 & Htr & Hbus & H1 & H2 & H3 & Hres).
      exists (stored :: saved), st2. cbn [length take]. split; [by econstructor|].
      cbn zeta. rewrite Hbus, H1, H2, H3. unfold w1 at 1. cbn. unfold publish.
      rewrite <-app_assoc. split_and!; try done.
      destruct (save_copies rc m w1).1 as [[]|]; cbn; [|done..]. destruct Hres. by split; [f_equal|].
    + exists [], (w_st w). cbn. split; [constructor|]. rewrite app_nil_r. split_and!; try done.
      exists a. done.
Qed.

(** A message is stored as one copy per recipient, in order, and one event is
    published per stored copy. Success is reported only when every recipient has its
    copy; on a storage error the copies before the failing recipient stay, with their
    events, and nothing after it is written. *)
Theorem store_message_copies raw w :
  let m := parse_message raw (default [] (mail_from (w_sess w))) in
  let w' := (store_message config raw w).2 in
  ∃ saved st1 m', nm_raw_content m' = (if store_raw_message config then Some raw else None) ∧
    (nm_mail_from m', nm_subject m', nm_text_body m', nm_html_body m', nm_raw_size m', nm_attachments m')
    = (nm_mail_from m, nm_subject m, nm_text_body m, nm_html_body m, nm_raw_size m, nm_attachments m) ∧
    save_trace m' (take (length saved) (rcpts (w_sess w))) (w_st w) saved st1 ∧
    w_bus w' = w_bus w ++ zip_with from_stored (rcpts (w_sess w)) saved ∧
    w_sess w' = w_sess w ∧ w_conn w' = w_conn w ∧
    match (store_message config raw w).1 with
    | Ok (Ok n) => n = len (rcpts (w_sess w)) ∧ length saved = length (rcpts (w_sess w)) ∧ w_st w' = st1
    | Ok (Err e) => ∃ a, rcpts (w_sess w) !! length saved = Some a ∧
                         save_message a m' st1 = (Err e, w_st w')
    | Err _ => False
    end.
Proof.
  cbn zeta. unfold store_message. rewrite (bind_ok _ _ w (w_sess w) w) by done. cbn zeta.
  match goal with |- context [save_copies _ ?m] => set (m' := m) end.
  destruct (save_copies_trace (rcpts (w_sess w)) m' w) as (saved & st1 & Htr & Hbus & H1 & H2 & H3 & Hres).
  exists saved, st1, m'.
  assert (nm_raw_content (parse_message raw (default [] (mail_from (w_sess w)))) = None) as Hnone.
  { unfold parse_message. by destruct (mail_parser_parse raw). }
  split; [unfold m'; by destruct (store_raw_message config)|].
  split; [unfold m'; by destruct (store_raw_message config)|]. split; [done|].
  destruct (save_copies_run (rcpts (w_sess w)) m' w) as (r & st' & bus' & Hr). rewrite Hr in *.
  cbn in *. rewrite (bind_ok _ _ _ _ _ Hr). cbn. split_and!; try done. destruct r; [|done].
  destruct Hres. done.
Qed.

(** Storing does not look at the connection. *)
Lemma save_copies_conn rc m c w :
  save_copies rc m (set_conn c w) = ((save_copies rc m w).1, set_conn c (save_copies rc m w).2).
Proof.
  revert w. induction rc as [|a rc IH]; intros w; cbn [save_copies]; [done|].
  rewrite (bind_ok _ _ _ _ _ (store_call_run _ (set_conn c w))), (bind_ok _ _ _ _ _ (store_call_run _ w)).
  cbn [w_st set_conn]. destruct (save_message a m (w_st w)) as [[stored|er] st1]; cbn [fst snd]; [|done].
  erewrite bind_ok by done. erewrite (bind_ok (modify _)) by done.
  apply (IH (set_bus (publish (from_stored a stored) (w_bus w)) (set_st st1 w))).
Qed.
Lemma store_message_total raw w :
  ∃ r st' bus', store_message config raw w = (Ok r, set_bus bus' (set_st st' w)).
Proof.
  unfold store_message. rewrite (bind_ok _ _ w (w_sess w) w) by done. cbn zeta.
  edestruct save_copies_run as (r & st' & bus' & Hr). rewrite (bind_ok _ _ _ _ _ Hr). by do 3 eexists.
Qed.
Lemma store_message_conn raw c w :
  store_message config raw (set_conn c w)
  = ((store_message config raw w).1, set_conn c (store_message config raw w).2).
Proof.
  unfold store_message. rewrite (bind_ok _ _ (set_conn c w) (w_sess w) (set_conn c w)) by done.
  rewrite (bind_ok _ _ w (w_sess w) w) by done. cbn zeta. unfold mbind, M_bind. rewrite save_copies_conn.
  by destruct (save_copies _ _ w) as [[]].
Qed.

Lemma write_line_ok line c :
  c_writes c = None →
  write_line line c = (Ok tt, mkConn (c_buf c) (c_rest c) (c_out c ++ as_bytes line ++ crlf) None).
Proof.
  intros Hw. unfold write_line, flush, mbind, M_bind, write_all. rewrite Hw. cbn.
  by rewrite app_nil_r, <-app_assoc.
Qed.
Lemma reply_ok line w :
  c_writes (w_conn w) = None →
  reply line w = (Ok tt, set_conn (mkConn (c_buf (w_conn w)) (c_rest (w_conn w))
                            (c_out (w_conn w) ++ as_bytes line ++ crlf) None) w).
Proof. intros Hw. unfold reply. by rewrite io_run, write_line_ok. Qed.

(** The world after the DATA command: what was stored, the connection past the terminator
    with the two replies, and a session ready for the next message. *)
Lemma handle_data_run w ls tail :
  max_message_size config + 4 ≤ u64_max →
  mail_from (w_sess w) ≠ None → rcpts (w_sess w) ≠ [] →
  storage_has_headroom available_space config = true → c_writes (w_conn w) = None →
  data_only (w_conn w) → pending (w_conn w) = transmit ls ++ tail →
  Forall (λ l, 10 ∉ l ∧ len (stuff l) ≤ max_message_size config + 2) ls →
  let stored := store_message config (body ls) w in
  let small := bool_decide (len (body ls) ≤ max_message_size config) in
  ∃ c', pending c' = tail ∧ data_only c' ∧ c_writes c' = None ∧
    c_out c' = c_out (w_conn w)
      ++ (as_bytes (lit "354 Start mail input; end with <CRLF>.<CRLF>") ++ crlf)
      ++ as_bytes (if small
                   then match stored.1 with
                        | Ok (Ok n) => lit "250 2.0.0 Message accepted (" ++ fmt_int n ++ lit " recipient(s))"
                        | _ => lit "451 4.3.0 Could not store message, try again later"
                        end
                   else lit "552 5.3.4 Message too large") ++ crlf ∧
    handle_data config available_space w
    = (Ok Continue, set_sess (mkSession (helo (w_sess w)) None [] (tls_active (w_sess w)))
                      (set_conn c' (if small then stored.2 else w))).
Proof.
  intros Hu Hmf Hrc Hroom Hw Hd Hp Hls. cbn zeta. unfold handle_data.
  rewrite (bind_ok _ _ w (w_sess w) w) by done.
  rewrite (bool_decide_false (mail_from (w_sess w) = None)) by done.
  rewrite (bool_decide_false (rcpts (w_sess w) = [])) by done. rewrite Hroom. cbn [negb].
  rewrite (bind_ok _ _ _ _ _ (reply_ok _ w Hw)). set (w1 := set_conn _ w).
  destruct (read_data_lines (max_message_size config) (w_conn w1) ls tail max_size_nonneg Hu Hls)
    as (c' & Hrd & Hd' & Hp' & Ho' & Hw'); [done|done|].
  assert (io (read_data (max_message_size config)) w1
    = (Ok (if bool_decide (len (body ls) ≤ max_message_size config) then Complete (body ls) else TooLarge),
       set_conn c' w1)) as Hio by by rewrite io_run, Hrd.
  rewrite (bind_ok _ _ _ _ _ Hio). set (w2 := set_conn c' w1). cbn in Hw', Ho'.
  case_bool_decide as Hsz.
  - pose proof (store_message_conn (body ls) c' w1) as Hst. fold w2 in Hst.
    unfold w1 in Hst. rewrite store_message_conn in Hst.
    destruct (store_message_total (body ls) w) as (r & st' & bus' & Hs). rewrite Hs in *. cbn in Hst |- *.
    rewrite (bind_ok _ _ _ _ _ Hst).
    destruct r as [n|er]; (erewrite bind_ok by (apply reply_ok; exact Hw'));
      cbn; eexists (mkConn _ _ _ _); (split; [exact Hp'|split; [exact Hd'|split; [reflexivity|split; [|reflexivity]]]]);
      cbn; by rewrite Ho', <-!app_assoc.
  - cbn. rewrite (bind_ok _ _ _ _ _ (reply_ok _ w2 Hw')).
    eexists (mkConn _ _ _ _); (split; [exact Hp'|split; [exact Hd'|split; [reflexivity|split; [|reflexivity]]]]).
    cbn. by rewrite Ho', <-!app_assoc.
Qed.

(** The whole DATA command, from the prompt to the reply, on a connection that
    delivers a dot-stuffed message in any chunks: the message stored is exactly the lines
    sent, once for each recipient, the reply says whether it was accepted, an oversized
    message is refused and stores nothing, and in all cases the transaction is reset and
    the next command is read from right after the terminator. *)
Theorem data_command_delivers w ls tail :
  max_message_size config + 4 ≤ u64_max →
  mail_from (w_sess w) ≠ None → rcpts (w_sess w) ≠ [] →
  storage_has_headroom available_space config = true → c_writes (w_conn w) = None →
  data_only (w_conn w) → pending (w_conn w) = transmit ls ++ tail →
  Forall (λ l, 10 ∉ l ∧ len (stuff l) ≤ max_message_size config + 2) ls →
  let w' := (handle_data config available_space w).2 in
  let stored := store_message config (body ls) w in
  (handle_data config available_space w).1 = Ok Continue ∧
  w_sess w' = mkSession (helo (w_sess w)) None [] (tls_active (w_sess w)) ∧
  pending (w_conn w') = tail ∧ data_only (w_conn w') ∧
  let out line := c_out (w_conn w)
    ++ (as_bytes (lit "354 Start mail input; end with <CRLF>.<CRLF>") ++ crlf)
    ++ as_bytes line ++ crlf in
  if bool_decide (len (body ls) ≤ max_message_size config) then
    w_st w' = w_st stored.2 ∧ w_bus w' = w_bus stored.2 ∧
    c_out (w_conn w') = out match stored.1 with
      | Ok (Ok n) => lit "250 2.0.0 Message accepted (" ++ fmt_int n ++ lit " recipient(s))"
      | _ => lit "451 4.3.0 Could not store message, try again later"
      end
  else
    w_st w' = w_st w ∧ w_bus w' = w_bus w ∧
    c_out (w_conn w') = out (lit "552 5.3.4 Message too large").
Proof.
  intros Hu Hmf Hrc Hroom Hw Hd Hp Hls. cbn zeta.
  destruct (handle_data_run w ls tail Hu Hmf Hrc Hroom Hw Hd Hp Hls) as (c' & Hp' & Hd' & _ & Ho & ->).
  split; [done|]. split; [done|]. split; [done|]. split; [done|]. revert Ho. by case_bool_decide.
Qed.

(** C32: what a client (or somebody on the path) pipelined behind [STARTTLS] in plaintext
    is not carried into the encrypted session: once the handshake is done, the session is
    the same whatever was buffered, and it has to greet again. *)
Theorem starttls_discards_plaintext accept w buf1 buf2 :
  tls_acceptor = Some accept → tls_active (w_sess w) = false → w_tls w = false →
  let inject b := set_conn (mkConn b (c_rest (w_conn w)) (c_out (w_conn w)) (c_writes (w_conn w))) w in
  let r1 := handle_starttls tls_acceptor (inject buf1) in
  let r2 := handle_starttls tls_acceptor (inject buf2) in
  r1.1 = Ok Continue →
  r1 = r2 ∧ w_sess r1.2 = mkSession None None [] true ∧
  ∃ plain, accept (c_rest (w_conn w)) = Some plain ∧ c_buf (w_conn r1.2) = [] ∧
           c_rest (w_conn r1.2) = plain.
Proof.
  intros Hacc Htls Hw. cbn zeta. unfold handle_starttls. rewrite Hacc. clear Hacc.
  assert (∀ b line out writes, ∃ r out' writes', write_line line (mkConn b (c_rest (w_conn w)) out writes)
    = (r, mkConn b (c_rest (w_conn w)) out' writes') ∧
    ∀ b', write_line line (mkConn b' (c_rest (w_conn w)) out writes)
    = (r, mkConn b' (c_rest (w_conn w)) out' writes')) as Hwr.
  { intros b line out writes. unfold write_line, flush, mbind, M_bind, write_all. cbn.
    destruct writes as [[|[|[|n]]]|]; cbn; by do 3 eexists. }
  assert (∀ b out writes, ∃ r out' writes', flush (mkConn b (c_rest (w_conn w)) out writes)
    = (r, mkConn b (c_rest (w_conn w)) out' writes') ∧
    ∀ b', flush (mkConn b' (c_rest (w_conn w)) out writes)
    = (r, mkConn b' (c_rest (w_conn w)) out' writes')) as Hfl.
  { intros b out writes. unfold flush, write_all. cbn. destruct writes as [[|n]|]; cbn; by do 3 eexists. }
  destruct (Hwr buf1 (lit "220 2.0.0 Ready to start TLS") (c_out (w_conn w)) (c_writes (w_conn w)))
    as (r & out' & writes' & H1 & H2). specialize (H2 buf2). clear Hwr.
  unfold reply, get_sess, gets, modify, mbind, M_bind, mret, M_ret. cbn -[io flush]. rewrite Htls.
  cbn -[io flush]. rewrite !io_run. cbn -[io flush]. rewrite H1, H2. cbn -[io flush].
  destruct r as [[]|]; [|done]. destruct (Hfl buf1 out' writes') as (r & out2 & writes2 & F1 & F2).
  specialize (F2 buf2). rewrite F1, F2. cbn. destruct r as [[]|]; cbn; [|intros Hx; discriminate Hx].
  rewrite Hw. cbn. destruct (accept (c_rest (w_conn w))) as [plain|] eqn:Ha; cbn;
    [|intros Hx; discriminate Hx]. intros _.
  split; [done|]. split; [done|]. by exists plain.
Qed.
End recipients.

(** ** A session to run: the memory store with one mailbox, mail that is not parsed *)

Definition demo_parser : MailParser := Build_MailParser (λ _, None) (λ _, None).
#[local] Existing Instance demo_parser.
#[local] Existing Instance reference_engine.

Definition demo_box : str := lit "box@example.com".
Definition demo_st : MemoryStore * Env :=
  (mem_create_mailbox demo_box (lit "example.com") 1000000 None None
     (with_quotas (mkMailboxQuotas 2 100) new, demo_env)).2.
Definition demo_session (s : Session) (input : list NetEvent) : World MemoryStore :=
  mkWorld s (mkConn [] input [] None) false demo_st [].
Definition demo_mail : Session := mkSession (Some (lit "c")) (Some (lit "s@y.io")) [] false.
Definition no_space : str → option Z := λ _, None.

Lemma rcpt_never_relays_witness :
  let w' := (handle_rcpt Config_default (lit "Box+tag@Example.com") (demo_session demo_mail [])).2 in
  rcpts (w_sess w') = [demo_box] ∧ is_Some (mailboxes (w_st w').1 !! demo_box).
Proof.
  cbn zeta. assert (rcpts (w_sess (handle_rcpt Config_default (lit "Box+tag@Example.com")
    (demo_session demo_mail [])).2) = [demo_box]) as Hr by (vm_compute; reflexivity).
  split; [exact Hr|].
  destruct (rcpt_never_relays Config_default (lit "Box+tag@Example.com") (demo_session demo_mail []))
    as [Hs|(d & domain & Hd & _ & _ & _ & _ & _ & _ & Hm & _)].
  - rewrite Hr in Hs. discriminate.
  - rewrite Hr in Hd. injection Hd as <-. exact Hm.
Defined.

Definition catch_all_config : Config := Config_with true false false None (lit "T") Config_default.

Lemma catch_all_confined_witness :
  ∃ local domain t0,
    rsplit_once 64 (lit "new@example.com") = Some (local, domain) ∧
    mailboxes (w_st (handle_rcpt catch_all_config (lit "new@example.com") (demo_session demo_mail [])).2).1
    = <[lit "new@example.com" := mkMailbox (lit "new@example.com") domain t0 (1002 + seconds 3600) None None]>
        (mailboxes demo_st.1).
Proof.
  destruct (catch_all_confined catch_all_config (lit "new@example.com") (demo_session demo_mail []))
    as (local & domain & t0 & _ & _ & Hs & _ & _ & Hv).
  - intros Heq. apply (f_equal (λ v, ab_mailboxes v !! lit "new@example.com")) in Heq.
    vm_compute in Heq. discriminate.
  - exists local, domain, t0. split; [exact Hs|]. exact (f_equal ab_mailboxes Hv).
Defined.

Definition demo_lines : list NetEvent :=
  map (λ l, Recv (lit l ++ crlf)) ["EHLO me"; "MAIL FROM:<s@y.io>"; "RCPT TO:<Box+tag@Example.com>"]%string.
Definition demo_turn (w : World MemoryStore) : World MemoryStore :=
  (session_step Config_default None no_space w).2.
Definition demo_dialog : World MemoryStore := demo_session (mkSession None None [] false) demo_lines.
Lemma demo_turn_run w :
  (session_step Config_default None no_space w).1 = Ok Continue →
  session_step Config_default None no_space w = (Ok Continue, demo_turn w).
Proof. unfold demo_turn. by destruct (session_step _ _ _ w) as [r w'] eqn:Hr; intros [= ->]. Qed.
Lemma session_invariant_witness :
  let w := demo_turn (demo_turn (demo_turn demo_dialog)) in
  rcpts (w_sess w) = [demo_box] ∧
  sess_ok Config_default (mem_view (w_st w).1) (w_sess w) ∧ w_tls w = tls_active (w_sess w).
Proof.
  cbn zeta. split; [vm_compute; reflexivity|].
  apply (session_invariant Config_default None no_space ltac:(done) ltac:(done) demo_lines None demo_st []).
  do 3 (eapply rtc_l; [left; exists Continue; apply demo_turn_run; vm_compute; reflexivity|]). apply rtc_refl.
Defined.

Lemma session_terminates_witness :
  ∃ fuel, ∀ fuel', (fuel ≤ fuel')%nat →
    (session_loop Config_default None no_space fuel' (demo_session demo_mail [Recv (lit "NOOP"); Stall])).1
    ≠ Err OutOfFuel.
Proof. apply session_terminates; done. Defined.

Lemma data_command_delivers_witness :
  let s := mkSession (Some (lit "c")) (Some (lit "s@y.io")) [demo_box] false in
  let w := demo_session s [Recv (lit "hi" ++ crlf ++ lit "."); Recv (crlf ++ lit "QUIT")] in
  (handle_data Config_default no_space w).1 = Ok Continue ∧
  w_st (handle_data Config_default no_space w).2
  = w_st (store_message Config_default (lit "hi" ++ crlf) w).2.
Proof.
  intros s w.
  assert (Hgo : let w' := (handle_data Config_default no_space w).2 in
    (handle_data Config_default no_space w).1 = Ok Continue ∧ w_st w' = w_st (store_message Config_default (lit "hi" ++ crlf) w).2).
  { assert (Forall (λ l, 10 ∉ l ∧ len (stuff l) ≤ max_message_size Config_default + 2) [lit "hi"]) as Hl.
    { repeat constructor; apply (bool_decide_unpack _); vm_compute; exact I. }
    assert (data_only (w_conn w)) as Hd by (repeat constructor; done).
    destruct (data_command_delivers Config_default no_space ltac:(done) w [lit "hi"] (lit "QUIT")
      ltac:(done) ltac:(done) ltac:(done) ltac:(reflexivity) ltac:(reflexivity) Hd ltac:(reflexivity) Hl)
      as (H1 & _ & _ & _ & H2).
    split; [exact H1|]. destruct H2 as [H2 _]. exact H2. }
  exact Hgo.
Defined.

Lemma starttls_discards_plaintext_witness :
  let accept := λ _ : list NetEvent, Some [Recv (lit "EHLO me")] in
  let w := demo_session demo_mail [Recv [22; 3]] in
  let inject b := set_conn (mkConn b (c_rest (w_conn w)) (c_out (w_conn w)) (c_writes (w_conn w))) w in
  handle_starttls (Some accept) (inject (lit "RCPT TO:<x@y>")) = handle_starttls (Some accept) (inject []).
Proof.
  intros accept w inject.
  apply (starttls_discards_plaintext (Some accept) accept w (lit "RCPT TO:<x@y>") []); done.
Defined.
