(* ===== verification/RateLimiter.v ===== *)
(** * RateLimiter: admission of SMTP connections ([src/smtp/mod.rs])

    The sliding-window limiter per address, the throttled log of rejections, and the
    accept loop of [serve] as a transition on the limiter and the semaphore. Instants
    are nanoseconds; [Instant::now] is monotone, so traces are in order of time. *)

From S2P Require Import Prelude Str Config.

Record RejectionLog := mkRejectionLog { last_logged : Z; unreported : Z }.

Record RateLimiter := mkRateLimiter {
  window : Z;
  rl_max : Z;
  hits : gmap IpAddr (list Z);
  rejections : gmap IpAddr RejectionLog;
}.

Definition RateLimiter_new (window max : Z) : RateLimiter := mkRateLimiter window max ∅ ∅.

Definition within (now window t : Z) : bool := bool_decide (duration_since now t < window).

Definition check_at (ip : IpAddr) (now : Z) (r : RateLimiter) : bool * RateLimiter :=
  let hits0 :=
    if bool_decide (10000 < Z.of_nat (size (hits r)))
    then filter (λ p, any (within now (window r)) p.2 = true) (hits r) else hits r in
  let times := retain (within now (window r)) (default [] (hits0 !! ip)) in
  if bool_decide (rl_max r ≤ len times)
  then (false, mkRateLimiter (window r) (rl_max r) (<[ip := times]> hits0) (rejections r))
  else (true, mkRateLimiter (window r) (rl_max r) (<[ip := times ++ [now]]> hits0) (rejections r)).

Definition note_rejection_at (ip : IpAddr) (now : Z) (r : RateLimiter) : option Z * RateLimiter :=
  let rej0 :=
    if bool_decide (10000 < Z.of_nat (size (rejections r)))
    then filter (λ p, within now (window r) (last_logged p.2) = true) (rejections r)
    else rejections r in
  match rej0 !! ip with
  | None =>
      (Some 1, mkRateLimiter (window r) (rl_max r) (hits r) (<[ip := mkRejectionLog now 0]> rej0))
  | Some l =>
      if within now (window r) (last_logged l) then
        (None, mkRateLimiter (window r) (rl_max r) (hits r)
                 (<[ip := mkRejectionLog (last_logged l) (unreported l + 1)]> rej0))
      else
        (Some (unreported l + 1),
         mkRateLimiter (window r) (rl_max r) (hits r) (<[ip := mkRejectionLog now 0]> rej0))
  end.

(** ** The accept loop *)

(** One accepted socket: refused by the limiter (with the report the log gets), refused
    because every permit is taken, or handed to a session that holds a permit. *)
Inductive Admission :=
| RateLimited (report : option Z)
| ServerBusy
| Spawned.

Record Server := mkServer { sv_limiter : RateLimiter; sv_permits : Z; sv_sessions : Z }.

Definition serve_start (c : Config) : Server :=
  mkServer (RateLimiter_new (seconds 60) (per_ip_connections_per_min c)) (max_connections c) 0.

(** [now] is when the limiter looks at its clock, [later] when the log does. *)
Definition accept (ip : IpAddr) (now later : Z) (s : Server) : Admission * Server :=
  let '(allowed, l) := check_at ip now (sv_limiter s) in
  if negb allowed then
    let '(report, l) := note_rejection_at ip later l in
    (RateLimited report, mkServer l (sv_permits s) (sv_sessions s))
  else if bool_decide (sv_permits s ≤ 0) then
    (ServerBusy, mkServer l (sv_permits s) (sv_sessions s))
  else (Spawned, mkServer l (sv_permits s - 1) (sv_sessions s + 1)).

(** A session that ends drops its permit. *)
Definition session_end (s : Server) : Server :=
  mkServer (sv_limiter s) (sv_permits s + 1) (sv_sessions s - 1).

(** What a turned-away connection is sent before it is closed: [reject], with the line of
    the limit that stopped it. *)
Definition reject (line : str) : bytes := as_bytes line ++ [13; 10].
Definition rejection (a : Admission) : option bytes :=
  match a with
  | RateLimited _ => Some (reject (lit "421 4.7.0 Too many connections from your host"))
  | ServerBusy => Some (reject (lit "421 4.7.0 Server busy, try again later"))
  | Spawned => None
  end.

Inductive server_event :=
| Connect (ip : IpAddr) (now later : Z)
| Disconnect.

Definition server_step (e : server_event) (s : Server) : Server :=
  match e with
  | Connect ip now later => (accept ip now later s).2
  | Disconnect => if bool_decide (0 < sv_sessions s) then session_end s else s
  end.

(** ** Traces *)

Abbreviation attempt := (IpAddr * Z)%type (only parsing).

Fixpoint check_all (l : list attempt) (r : RateLimiter) : list (attempt * bool) * RateLimiter :=
  match l with
  | [] => ([], r)
  | (ip, now) :: l =>
      let '(b, r) := check_at ip now r in
      let '(bs, r) := check_all l r in
      (((ip, now), b) :: bs, r)
  end.

(** The times at which [ip] was let in. *)
Definition admitted (ip : IpAddr) (l : list (attempt * bool)) : list Z :=
  map (λ x, x.1.2) (retain (λ x, bool_decide (x.1.1 = ip) && x.2) l).

Definition in_window (w T t : Z) : bool := bool_decide (t ≤ T ∧ T - t < w).

(** ** Lemmas *)

Lemma within_spec now w t : 0 < w → within now w t = true ↔ now - t < w.
Proof. intros Hw. unfold within. rewrite bool_decide_eq_true. by apply duration_since_lt. Qed.

Lemma retain_sub {A} (p q : A → bool) l :
  (∀ x, x ∈ l → p x = true → q x = true) → (length (retain p l) ≤ length (retain q l))%nat.
Proof.
  induction l as [|x l IH]; intros Hpq; cbn; [done|].
  assert (length (retain p l) ≤ length (retain q l))%nat by (apply IH; intros y Hy; apply Hpq; by right).
  specialize (Hpq x ltac:(left)). destruct (p x), (q x); cbn; try lia.
Qed.

(** The limiter remembers every admission still inside the window: [acc ip] are the times
    [ip] was admitted so far, [now] the time of the last attempt. *)
Definition remembers (r : RateLimiter) (now : Z) (acc : IpAddr → list Z) : Prop :=
  ∀ ip, Forall (λ a, a ≤ now) (acc ip) ∧
        retain (within now (window r)) (acc ip)
        = retain (within now (window r)) (default [] (hits r !! ip)).

Lemma retain_later w now t (l : list Z) :
  0 < w → now ≤ t → retain (within t w) (retain (within now w) l) = retain (within t w) l.
Proof.
  intros Hw Ht. rewrite retain_retain. apply retain_ext. intros x _.
  destruct (within t w x) eqn:H; [|apply andb_false_r].
  apply within_spec in H; [|done]. rewrite (proj2 (within_spec now w x Hw)); [done|lia].
Qed.

(** Dropping the entries without a recent hit forgets nothing. *)
Lemma cleanup_hits r now ip :
  0 < window r →
  retain (within now (window r)) (default [] ((if bool_decide (10000 < Z.of_nat (size (hits r)))
    then filter (λ p, any (within now (window r)) p.2 = true) (hits r) else hits r) !! ip))
  = retain (within now (window r)) (default [] (hits r !! ip)).
Proof.
  intros Hw. case_bool_decide; [|done]. rewrite map_lookup_filter.
  destruct (hits r !! ip) as [l|]; cbn; [|done]. case_guard as Hany; cbn; [done|].
  symmetry. apply retain_none. intros x Hx. apply not_true_iff_false. intros Hp. apply Hany.
  apply any_true. eauto.
Qed.

Lemma check_at_remembers ip t r now acc :
  0 < window r → remembers r now acc → now ≤ t →
  let b := (check_at ip t r).1 in
  let acc' := λ i, if bool_decide (i = ip) && b then acc i ++ [t] else acc i in
  remembers (check_at ip t r).2 t acc' ∧ window (check_at ip t r).2 = window r ∧
  rl_max (check_at ip t r).2 = rl_max r ∧
  (b = true → len (retain (within t (window r)) (acc ip)) < rl_max r).
Proof.
  intros Hw Hrem Ht. cbn zeta. unfold check_at. cbn zeta.
  set (h0 := if bool_decide (10000 < Z.of_nat (size (hits r))) then _ else _).
  assert (∀ i, retain (within t (window r)) (default [] (h0 !! i))
               = retain (within t (window r)) (acc i)) as Hh0.
  { intros i. unfold h0. rewrite cleanup_hits by done. destruct (Hrem i) as [_ Hi].
    rewrite <-(retain_later _ now t (acc i)), Hi by done. symmetry. by apply retain_later. }
  assert (∀ i, Forall (λ a, a ≤ t) (acc i)) as Hle.
  { intros i. destruct (Hrem i) as [Hi _]. eapply Forall_impl; [exact Hi|]. cbn. lia. }
  rewrite Hh0. case_bool_decide as Hmax; cbn.
  - split_and!; try done. intros i. rewrite andb_false_r. split; [done|]. cbn.
    destruct (decide (i = ip)) as [->|Hi].
    + rewrite lookup_insert_eq. cbn. by rewrite retain_later.
    + rewrite lookup_insert_ne by done. by rewrite Hh0.
  - split_and!; try done; [|lia]. intros i. rewrite andb_true_r.
    case_bool_decide as Hi; cbn.
    + subst i. split; [apply Forall_app; split; [done|repeat constructor; lia]|].
      rewrite lookup_insert_eq. cbn. rewrite !retain_app. f_equal. by rewrite retain_later.
    + split; [done|]. rewrite lookup_insert_ne by done. by rewrite Hh0.
Qed.

Lemma check_all_bound l r now acc :
  0 < window r → 0 ≤ rl_max r → remembers r now acc → ordered_from now l →
  (∀ ip T, len (retain (in_window (window r) T) (acc ip)) ≤ rl_max r) →
  ∀ ip T, len (retain (in_window (window r) T) (acc ip ++ admitted ip (check_all l r).1)) ≤ rl_max r.
Proof.
  revert r now acc. induction l as [|[ip t] l IH]; intros r now acc Hw Hm Hrem Hord Hacc i T.
  { cbn. by rewrite app_nil_r. }
  destruct Hord as [Ht Hord]. cbn [check_all].
  pose proof (check_at_remembers ip t r now acc Hw Hrem Ht) as (Hrem' & Hwin & Hmax & Hb).
  destruct (check_at ip t r) as [b r1]. cbn [fst snd] in *.
  set (acc' := λ i, if bool_decide (i = ip) && b then acc i ++ [t] else acc i) in *.
  specialize (IH r1 t acc'). rewrite Hwin, Hmax in IH.
  destruct (check_all l r1) as [bs r2] eqn:Hall. cbn [fst] in *.
  assert (acc i ++ admitted i (((ip, t), b) :: bs) = acc' i ++ admitted i bs) as ->.
  { unfold acc', admitted. cbn.
    destruct (bool_decide (i = ip)) eqn:Hi; boolify; [subst; rewrite bool_decide_true by done|
      rewrite bool_decide_false by done; done]. destruct b; cbn; [by rewrite <-app_assoc|done]. }
  apply IH; try done. intros i' T'. unfold acc'. case_bool_decide as Hi; cbn; [|apply Hacc]. subst i'.
  destruct b; [|apply Hacc]. rewrite retain_app, length_app. cbn.
  destruct (in_window (window r) T' t) eqn:Hin; cbn; [|specialize (Hacc ip T'); lia].
  unfold in_window in Hin. boolify. specialize (Hb eq_refl).
  enough (length (retain (in_window (window r) T') (acc ip))
          ≤ length (retain (within t (window r)) (acc ip)))%nat by lia.
  apply retain_sub. intros x _ Hx. unfold in_window in Hx. boolify. apply within_spec; [done|lia].
Qed.

(** C37: the limiter admits, from any one address, at most its maximum of connections in
    any window of time, wherever the window lies, whatever other addresses do and
    however often the table is cleaned up. *)
Theorem sliding_window_bound w max l ip T now :
  0 < w → 0 ≤ max → ordered_from now l →
  len (retain (in_window w T) (admitted ip (check_all l (RateLimiter_new w max)).1)) ≤ max.
Proof.
  intros Hw Hm Hord.
  pose proof (check_all_bound l (RateLimiter_new w max) now (λ _, []) Hw Hm) as H. cbn in H.
  apply H; [|done|done]. intros i. cbn. rewrite lookup_empty. split; [constructor|done].
Qed.

Lemma sliding_window_bound_witness :
  len (retain (in_window 60 70) (admitted [127; 0; 0; 1]
    (check_all [([127; 0; 0; 1], 0); ([127; 0; 0; 1], 20); ([127; 0; 0; 1], 30); ([127; 0; 0; 1], 65)]
       (RateLimiter_new 60 2)).1)) ≤ 2.
Proof. apply (sliding_window_bound 60 2 _ _ _ 0); [lia|lia|]. cbn. lia. Defined.

(** ** The log of rejections *)

Fixpoint note_all (l : list attempt) (r : RateLimiter) : list (attempt * option Z) * RateLimiter :=
  match l with
  | [] => ([], r)
  | (ip, now) :: l =>
      let '(o, r) := note_rejection_at ip now r in
      let '(os, r) := note_all l r in
      (((ip, now), o) :: os, r)
  end.

(** The reports about [ip]: when, and how many rejections each accounts for. *)
Definition reports (ip : IpAddr) (l : list (attempt * option Z)) : list (Z * Z) :=
  filter_map (λ x, if bool_decide (x.1.1 = ip) then (λ n, (x.1.2, n)) <$> x.2 else None) l.
Definition rejected (ip : IpAddr) (l : list attempt) : list attempt :=
  retain (λ x, bool_decide (x.1 = ip)) l.
Definition reported (l : list (Z * Z)) : Z := foldr (λ x n, x.2 + n) 0 l.
Definition pending (r : RateLimiter) (ip : IpAddr) : Z :=
  match rejections r !! ip with Some l => unreported l | None => 0 end.

(** What the log knows at time [now] of the reports made so far. *)
Definition log_ok (r : RateLimiter) (now : Z) (ip : IpAddr) (rep : list (Z * Z)) (n : Z) : Prop :=
  StronglySorted (λ a b, window r ≤ b.1 - a.1) rep ∧
  Forall (λ a, window r ≤ now - a.1 ∨
               ∃ l, rejections r !! ip = Some l ∧ a.1 ≤ last_logged l) rep ∧
  0 ≤ pending r ip ∧ reported rep + pending r ip ≤ n.

Lemma reported_app l k : reported (l ++ k) = reported l + reported k.
Proof. unfold reported. induction l as [|x l IH]; cbn; [done|]. cbn in IH. lia. Qed.

Lemma note_step ip t r now i rep n :
  0 < window r → now ≤ t → log_ok r now i rep n →
  let o := (note_rejection_at ip t r).1 in
  log_ok (note_rejection_at ip t r).2 t i
    (rep ++ (if bool_decide (ip = i) then match o with Some k => [(t, k)] | None => [] end else []))
    (n + (if bool_decide (ip = i) then 1 else 0)) ∧
  window (note_rejection_at ip t r).2 = window r.
Proof.
  intros Hw Ht (Hs & Hl & Hp0 & Hp). cbn zeta. unfold note_rejection_at. cbn zeta.
  set (rej0 := if bool_decide (10000 < Z.of_nat (size (rejections r))) then _ else _).
  assert (rej0 !! i = rejections r !! i ∨
          rej0 !! i = None ∧ ∃ l, rejections r !! i = Some l ∧ window r ≤ t - last_logged l) as Hrej.
  { unfold rej0. case_bool_decide; [|by left]. rewrite map_lookup_filter.
    destruct (rejections r !! i) as [l|]; cbn; [|by left]. case_guard as Hg; cbn; [by left|].
    right. split; [done|]. exists l. split; [done|]. cbn in Hg.
    destruct (decide (t - last_logged l < window r)); [|lia]. destruct Hg. by apply within_spec. }
  assert (Forall (λ a, window r ≤ t - a.1 ∨ ∃ l, rej0 !! i = Some l ∧ a.1 ≤ last_logged l) rep) as Hl0.
  { eapply Forall_impl; [exact Hl|]. cbn. intros a [Ha|(l & Hl1 & Hl2)]; [left; lia|].
    destruct Hrej as [Hr|[Hr (l' & Hl' & Hage)]]; [right; exists l; by rewrite Hr|].
    simplify_eq. left. lia. }
  assert (match rej0 !! i with Some l => 0 ≤ unreported l ∧ reported rep + unreported l ≤ n
          | None => reported rep ≤ n end) as Hp1.
  { unfold pending in *. destruct Hrej as [->|[-> _]]; destruct (rejections r !! i); lia. }
  clear Hl Hp Hp0 Hrej.
  destruct (decide (ip = i)) as [->|Hne].
  - rewrite bool_decide_true by done.
    assert (∀ k, match rej0 !! i with Some l => k = unreported l + 1 ∧ window r ≤ t - last_logged l
                 | None => k = 1 end →
      log_ok (mkRateLimiter (window r) (rl_max r) (hits r) (<[i := mkRejectionLog t 0]> rej0)) t i
        (rep ++ [(t, k)]) (n + 1)) as Hreport.
    { intros k Hk. split_and!; cbn.
      - apply StronglySorted_snoc; [done|]. eapply Forall_impl; [exact Hl0|]. cbn.
        intros a [Ha|(l & Hl1 & Hl2)]; [done|]. rewrite Hl1 in Hk. lia.
      - apply Forall_app. split.
        + eapply Forall_impl; [exact Hl0|]. cbn. intros a [Ha|(l & Hl1 & Hl2)]; [by left|].
          rewrite Hl1 in Hk. left. lia.
        + constructor; [|done]. right. exists (mkRejectionLog t 0). rewrite lookup_insert_eq. done.
      - unfold pending. cbn. by rewrite lookup_insert_eq.
      - unfold pending. cbn. rewrite lookup_insert_eq, reported_app. cbn.
        destruct (rej0 !! i); lia. }
    destruct (rej0 !! i) as [l|] eqn:Hi; cbn; [|split; [by apply Hreport|done]].
    destruct (within t (window r) (last_logged l)) eqn:Hwi; cbn.
    + split; [|done]. rewrite app_nil_r. split_and!; cbn; [done|..].
      * eapply Forall_impl; [exact Hl0|]. cbn. intros a [Ha|(l' & Hl1 & Hl2)]; [by left|].
        right. rewrite lookup_insert_eq. eexists. split; [done|]. cbn. by simplify_eq.
      * unfold pending. cbn. rewrite lookup_insert_eq. cbn. lia.
      * unfold pending. cbn. rewrite lookup_insert_eq. cbn. lia.
    + split; [|done]. apply Hreport. split; [done|].
      destruct (decide (t - last_logged l < window r)); [|lia].
      rewrite (proj2 (within_spec t (window r) (last_logged l) Hw)) in Hwi by done. done.
  - rewrite bool_decide_false by done. rewrite app_nil_r, Z.add_0_r.
    assert (∀ x, log_ok (mkRateLimiter (window r) (rl_max r) (hits r) (<[ip := x]> rej0)) t i rep n) as Hx.
    { intros x. split_and!; cbn; [done|..].
      - eapply Forall_impl; [exact Hl0|]. cbn. intros a. by rewrite lookup_insert_ne.
      - unfold pending. cbn. rewrite lookup_insert_ne by done. destruct (rej0 !! i); lia.
      - unfold pending. cbn. rewrite lookup_insert_ne by done. destruct (rej0 !! i); lia. }
    destruct (rej0 !! ip); cbn; [|by split]. destruct (within _ _ _); cbn; by split.
Qed.

(** A flood of refused connections cannot flood the log: two reports about one
    address are at least a window apart, and together the reports never account for more
    rejections than there were. *)
Theorem rejection_log_throttled w max l ip now :
  0 < w → ordered_from now l →
  let rep := reports ip (note_all l (RateLimiter_new w max)).1 in
  StronglySorted (λ a b, w ≤ b.1 - a.1) rep ∧ reported rep ≤ len (rejected ip l).
Proof.
  intros Hw Hord. cbn zeta.
  assert (∀ l r now rep n, window r = w → ordered_from now l → log_ok r now ip rep n →
    let rep' := rep ++ reports ip (note_all l r).1 in
    StronglySorted (λ a b, w ≤ b.1 - a.1) rep' ∧ reported rep' ≤ n + len (rejected ip l)) as Hgen.
  { clear l now Hord. induction l as [|[a t] l IH]; intros r now rep n Hwr Hord Hok; cbn [note_all].
    - destruct Hok as (H1 & _ & H3 & H4). cbn. rewrite app_nil_r. rewrite Hwr in H1. split; [done|lia].
    - destruct Hord as [Ht Hord]. rewrite <-Hwr in Hw.
      destruct (note_step a t r now ip rep n Hw Ht Hok) as [Hok' Hwin].
      destruct (note_rejection_at a t r) as [o r1]. cbn [fst snd] in *.
      specialize (IH r1 t _ _ ltac:(congruence) Hord Hok').
      destruct (note_all l r1) as [os r2]. cbn [fst] in *. destruct IH as [IH1 IH2].
      rewrite <-app_assoc in IH1, IH2.
      assert ((if bool_decide (a = ip) then match o with Some k => [(t, k)] | None => [] end else [])
        ++ reports ip os = reports ip ((a, t, o) :: os)) as Heq.
      { unfold reports. cbn. case_bool_decide; [by destruct o|done]. }
      rewrite Heq in IH1, IH2. split; [done|].
      assert (len (rejected ip ((a, t) :: l)) = (if bool_decide (a = ip) then 1 else 0) + len (rejected ip l))
        as -> by (unfold rejected; cbn; destruct (bool_decide (a = ip)); cbn; lia). lia. }
  destruct (Hgen l (RateLimiter_new w max) now [] 0) as [H1 H2]; try done.
  - split_and!; [constructor|constructor|..]; unfold pending; cbn; rewrite lookup_empty; lia.
Qed.

Lemma rejection_log_throttled_witness :
  let l := [([10; 0; 0; 1], 0); ([10; 0; 0; 1], 5); ([10; 0; 0; 1], 61)] in
  reported (reports [10; 0; 0; 1] (note_all l (RateLimiter_new 60 2)).1) ≤ 3.
Proof.
  apply (rejection_log_throttled 60 2 [([10; 0; 0; 1], 0); ([10; 0; 0; 1], 5); ([10; 0; 0; 1], 61)]
           [10; 0; 0; 1] 0); [lia|cbn; lia].
Defined.

(** The accept loop never runs more sessions than the configured maximum, and no
    permit is lost: in every reachable state the free permits and the running sessions
    add up to the maximum, whatever order connections arrive and end in. *)
Theorem sessions_bounded c events :
  0 ≤ max_connections c →
  let s := foldl (λ s e, server_step e s) (serve_start c) events in
  sv_permits s + sv_sessions s = max_connections c ∧ 0 ≤ sv_sessions s ≤ max_connections c.
Proof.
  intros Hm. cbn zeta.
  assert (∀ s, sv_permits s + sv_sessions s = max_connections c → 0 ≤ sv_permits s →
    0 ≤ sv_sessions s →
    let s' := foldl (λ s e, server_step e s) s events in
    sv_permits s' + sv_sessions s' = max_connections c ∧ 0 ≤ sv_permits s' ∧ 0 ≤ sv_sessions s') as H.
  { induction events as [|e l IH]; intros s H1 H2 H3; cbn; [done|]. apply IH; clear IH.
    all: destruct e as [ip t t'|]; cbn [server_step]; unfold accept; [destruct (check_at _ _ _) as [[] r];
      cbn [negb]; [|by destruct (note_rejection_at _ _ _)]|]; case_bool_decide; cbn; lia. }
  destruct (H (serve_start c)) as (H1 & H2 & H3); cbn; lia.
Qed.

Lemma sessions_bounded_witness :
  let s := foldl (λ s e, server_step e s) (serve_start Config_default)
             [Connect [1; 2; 3; 4] 5 5; Connect [1; 2; 3; 4] 6 7; Disconnect] in
  sv_permits s + sv_sessions s = 1024 ∧ 0 ≤ sv_sessions s ≤ 1024.
Proof. apply (sessions_bounded Config_default). done. Defined.
