(* ===== verification/Limits.v ===== *)
(** * Limits: in-process abuse limits ([src/api/limits.rs])

    [RuntimeLimits] with its counters. A guard returned by [try_acquire_sse] is a value;
    its [Drop] is [drop_guard]. The semaphore is its number of free permits. [NaiveDate]
    is a day number. *)

From S2P Require Import Prelude Str Config.

Record RuntimeLimits := mkLimits {
  sse_global : option Z;
  sse_per_ip_cap : Z;
  sse_per_ip : gmap IpAddr Z;
  daily_create_cap : Z;
  created_today : gmap IpAddr (Z * Z);
  daily_domain_cap : Z;
  domains_today : gmap IpAddr (Z * Z);
  domain_verify_min_interval : Z;
  domain_verify_last : gmap str Z;
}.

Definition from_config (c : Config) : RuntimeLimits :=
  mkLimits (if bool_decide (0 < sse_max_concurrent c) then Some (sse_max_concurrent c) else None)
    (sse_max_per_ip c) ∅ (max_addresses_per_ip_per_day c) ∅
    (max_custom_domains_per_ip_per_day c) ∅ (custom_domain_verify_throttle c) ∅.

Definition set_sse (g : option Z) (m : gmap IpAddr Z) (r : RuntimeLimits) : RuntimeLimits :=
  mkLimits g (sse_per_ip_cap r) m (daily_create_cap r) (created_today r) (daily_domain_cap r)
    (domains_today r) (domain_verify_min_interval r) (domain_verify_last r).

(** A guard: whether it holds a global permit, and the address it is counted under. *)
Record SseGuard := mkSseGuard { sg_permit : bool; sg_ip : option IpAddr }.

Definition try_acquire_sse (ip : IpAddr) (r : RuntimeLimits) : option SseGuard * RuntimeLimits :=
  if bool_decide (sse_global r = Some 0) then (None, r)
  else
    let g := sse_global r in
    let taken := Z.pred <$> g in
    if bool_decide (0 < sse_per_ip_cap r) then
      let count := default 0 (sse_per_ip r !! ip) in
      if bool_decide (sse_per_ip_cap r ≤ count)
      then (None, set_sse g (<[ip := count]> (sse_per_ip r)) r)
      else (Some (mkSseGuard (bool_decide (is_Some g)) (Some ip)),
            set_sse taken (<[ip := count + 1]> (sse_per_ip r)) r)
    else (Some (mkSseGuard (bool_decide (is_Some g)) None), set_sse taken (sse_per_ip r) r).

Definition drop_guard (g : SseGuard) (r : RuntimeLimits) : RuntimeLimits :=
  let m :=
    match sg_ip g with
    | Some ip =>
        match sse_per_ip r !! ip with
        | Some count =>
            let count := Z.max 0 (count - 1) in
            if bool_decide (count = 0) then delete ip (sse_per_ip r)
            else <[ip := count]> (sse_per_ip r)
        | None => sse_per_ip r
        end
    | None => sse_per_ip r
    end in
  set_sse (if sg_permit g then Z.succ <$> sse_global r else sse_global r) m r.

Definition note_daily (table : gmap IpAddr (Z * Z)) (cap : Z) (ip : IpAddr) (today : Z)
    : bool * gmap IpAddr (Z * Z) :=
  if bool_decide (cap = 0) then (true, table)
  else
    let table :=
      if bool_decide (100000 < Z.of_nat (size table)) then filter (λ p, p.2.1 = today) table else table in
    let entry := default (today, 0) (table !! ip) in
    let entry := if bool_decide (entry.1 = today) then entry else (today, 0) in
    if bool_decide (cap ≤ entry.2) then (false, <[ip := entry]> table)
    else (true, <[ip := (entry.1, entry.2 + 1)]> table).

Definition note_address_created (ip : IpAddr) (today : Z) (r : RuntimeLimits)
    : bool * RuntimeLimits :=
  let '(b, t) := note_daily (created_today r) (daily_create_cap r) ip today in
  (b, mkLimits (sse_global r) (sse_per_ip_cap r) (sse_per_ip r) (daily_create_cap r) t
        (daily_domain_cap r) (domains_today r) (domain_verify_min_interval r) (domain_verify_last r)).
Definition note_domain_created (ip : IpAddr) (today : Z) (r : RuntimeLimits)
    : bool * RuntimeLimits :=
  let '(b, t) := note_daily (domains_today r) (daily_domain_cap r) ip today in
  (b, mkLimits (sse_global r) (sse_per_ip_cap r) (sse_per_ip r) (daily_create_cap r)
        (created_today r) (daily_domain_cap r) t (domain_verify_min_interval r)
        (domain_verify_last r)).

Definition recent (now interval at_ : Z) : bool := bool_decide (duration_since now at_ < interval).

Definition try_begin_domain_verify (domain : str) (now : Z) (r : RuntimeLimits)
    : bool * RuntimeLimits :=
  if bool_decide (domain_verify_min_interval r = 0) then (true, r)
  else
    let set_last m := mkLimits (sse_global r) (sse_per_ip_cap r) (sse_per_ip r)
      (daily_create_cap r) (created_today r) (daily_domain_cap r) (domains_today r)
      (domain_verify_min_interval r) m in
    let last :=
      if bool_decide (10000 < Z.of_nat (size (domain_verify_last r)))
      then filter (λ p, recent now (domain_verify_min_interval r) p.2 = true) (domain_verify_last r)
      else domain_verify_last r in
    match last !! domain with
    | Some t => if recent now (domain_verify_min_interval r) t then (false, set_last last)
                else (true, set_last (<[domain := now]> last))
    | None => (true, set_last (<[domain := now]> last))
    end.

(** Request headers as their visible values, and [str::parse::<IpAddr>]. *)
Abbreviation HeaderMap := (str → option str) (only parsing).
Class ParseIp := parse_ip : str → option IpAddr.

Definition client_ip `{ParseIp} (headers : HeaderMap) (peer : IpAddr) (trust : bool) : IpAddr :=
  if negb trust then peer
  else
    let forwarded := headers (lit "x-forwarded-for") ≫=
      (λ s, find_map (λ part, parse_ip (trim part)) (split 44 s)) in
    let real := headers (lit "x-real-ip") ≫= (λ s, parse_ip (trim s)) in
    default peer (match forwarded with Some ip => Some ip | None => real end).

(** ** Server-sent event slots *)

(** A history of streams: opened from an address, or one of the live ones closed. *)
Inductive sse_event := Open (ip : IpAddr) | Close (i : nat).

Definition sse_step (e : sse_event) (s : list SseGuard * RuntimeLimits)
    : list SseGuard * RuntimeLimits :=
  match e with
  | Open ip => let '(g, r) := try_acquire_sse ip s.2 in
               (match g with Some g => s.1 ++ [g] | None => s.1 end, r)
  | Close i => match s.1 !! i with
               | Some g => (delete i s.1, drop_guard g s.2)
               | None => s
               end
  end.

Definition live_of (ip : IpAddr) (l : list SseGuard) : Z :=
  len (retain (λ g, bool_decide (sg_ip g = Some ip)) l).

(** The counters say exactly what the live guards hold. *)
Definition slots_ok (c : Config) (s : list SseGuard * RuntimeLimits) : Prop :=
  sse_per_ip_cap s.2 = sse_max_per_ip c ∧
  Forall (λ g, sg_permit g = bool_decide (0 < sse_max_concurrent c) ∧
               (sg_ip g = None → sse_max_per_ip c ≤ 0)) s.1 ∧
  sse_global s.2 = (if bool_decide (0 < sse_max_concurrent c)
                    then Some (sse_max_concurrent c - len s.1) else None) ∧
  (0 < sse_max_concurrent c → len s.1 ≤ sse_max_concurrent c) ∧
  ∀ ip, sse_per_ip s.2 !! ip = (if bool_decide (live_of ip s.1 = 0) then None else Some (live_of ip s.1)) ∧
        (0 < sse_max_per_ip c → live_of ip s.1 ≤ sse_max_per_ip c).

Lemma live_of_app ip l k : live_of ip (l ++ k) = live_of ip l + live_of ip k.
Proof. unfold live_of. rewrite retain_app, length_app. lia. Qed.
Lemma live_of_nonneg ip l : 0 ≤ live_of ip l.
Proof. unfold live_of. lia. Qed.
Lemma live_of_delete ip l i g :
  l !! i = Some g →
  live_of ip l = live_of ip (delete i l) + (if bool_decide (sg_ip g = Some ip) then 1 else 0).
Proof.
  intros Hi. rewrite <-(take_drop_middle l i g Hi) at 1. rewrite delete_take_drop, !live_of_app.
  unfold live_of at 2. cbn. fold (live_of ip (drop (S i) l)).
  case_bool_decide; cbn; unfold live_of; lia.
Qed.

Lemma live_of_single ip g : live_of ip [g] = if bool_decide (sg_ip g = Some ip) then 1 else 0.
Proof. unfold live_of. cbn. by destruct (bool_decide (sg_ip g = Some ip)). Qed.

Lemma slots_open c ip s : slots_ok c s → slots_ok c (sse_step (Open ip) s).
Proof.
  destruct s as [l r]. intros Hok. pose proof Hok as (H1 & H2 & H3 & H4 & H5).
  cbn in H1, H2, H3, H4, H5. cbn. unfold try_acquire_sse.
  destruct (H5 ip) as [Hip Hcap]. pose proof (live_of_nonneg ip l) as Hnn.
  assert (default 0 (sse_per_ip r !! ip) = live_of ip l) as Hd.
  { rewrite Hip. case_bool_decide; cbn; lia. }
  rewrite Hd. destruct (bool_decide (sse_global r = Some 0)) eqn:Hfull; [exact Hok|].
  apply bool_decide_eq_false in Hfull. clear Hok.
  assert (Z.pred <$> sse_global r = if bool_decide (0 < sse_max_concurrent c)
    then Some (sse_max_concurrent c - len (l ++ [mkSseGuard true None])) else None) as Hpred.
  { rewrite H3, length_app. destruct (bool_decide (0 < sse_max_concurrent c)); cbn; [f_equal; lia|done]. }
  assert (bool_decide (is_Some (sse_global r)) = bool_decide (0 < sse_max_concurrent c)) as Hperm.
  { rewrite H3. destruct (bool_decide (0 < sse_max_concurrent c)).
    - apply bool_decide_eq_true. by eexists.
    - apply bool_decide_eq_false. by intros [? [=]]. }
  assert (0 < sse_max_concurrent c → len l + 1 ≤ sse_max_concurrent c) as Hroom.
  { intros Hc. specialize (H4 Hc). rewrite H3, bool_decide_true in Hfull by done.
    destruct (decide (len l = sse_max_concurrent c)); [|lia]. destruct Hfull. f_equal. lia. }
  rewrite Hperm, Hpred, !length_app. cbn zeta. rewrite H1.
  destruct (bool_decide (0 < sse_max_per_ip c)) eqn:Hc; apply bool_decide_eq_true in Hc || apply bool_decide_eq_false in Hc;
    [destruct (bool_decide (sse_max_per_ip c ≤ live_of ip l)) eqn:Hover;
     apply bool_decide_eq_true in Hover || apply bool_decide_eq_false in Hover|]; cbn.
  - split_and!; cbn; try done. intros i. split; [|apply H5]. destruct (decide (i = ip)) as [->|Hi].
    + rewrite lookup_insert_eq. rewrite bool_decide_false by lia. done.
    + rewrite lookup_insert_ne by done. apply H5.
  - split_and!; cbn; try done.
    + apply Forall_app. split; [done|]. constructor; [|done]. cbn. done.
    + by rewrite length_app.
    + rewrite length_app. cbn. intros. specialize (Hroom ltac:(done)). lia.
    + intros i. rewrite live_of_app, live_of_single. cbn. destruct (decide (i = ip)) as [->|Hi].
      * rewrite lookup_insert_eq, (bool_decide_true (Some ip = Some ip)) by done.
        rewrite bool_decide_false by lia. split; [done|]. intros. lia.
      * rewrite lookup_insert_ne by done. rewrite (bool_decide_false (Some ip = Some i)) by congruence.
        rewrite Z.add_0_r. apply H5.
  - split_and!; cbn; try done.
    + apply Forall_app. split; [done|]. constructor; [|done]. cbn. split; [done|]. lia.
    + by rewrite length_app.
    + rewrite length_app. cbn. intros. specialize (Hroom ltac:(done)). lia.
    + intros i. rewrite live_of_app, live_of_single. cbn.
      rewrite (bool_decide_false (None = Some i)), Z.add_0_r by done. apply H5.
Qed.

Lemma slots_close c i s : slots_ok c s → slots_ok c (sse_step (Close i) s).
Proof.
  destruct s as [l r]. intros Hok. pose proof Hok as (H1 & H2 & H3 & H4 & H5).
  cbn in H1, H2, H3, H4, H5. cbn.
  destruct (l !! i) as [g|] eqn:Hi; [|exact Hok]. clear Hok.
  assert (len (delete i l) = len l - 1) as Hlen.
  { rewrite length_delete by by eexists. pose proof (lookup_lt_Some _ _ _ Hi). lia. }
  assert (sg_permit g = bool_decide (0 < sse_max_concurrent c) ∧ (sg_ip g = None → sse_max_per_ip c ≤ 0))
    as [Hp Hn] by by apply (Forall_lookup_1 _ _ _ _ H2 Hi).
  unfold drop_guard. cbn. split_and!; cbn; try done.
  - by apply Forall_delete.
  - rewrite Hp, H3, Hlen. destruct (bool_decide (0 < sse_max_concurrent c)); cbn; [f_equal; lia|done].
  - intros Hc. specialize (H4 Hc). lia.
  - intros ip. pose proof (live_of_delete ip l i g Hi) as Hdel.
    pose proof (live_of_nonneg ip (delete i l)) as Hnn. destruct (H5 ip) as [Hip Hcap].
    split; [|intros Hc; specialize (Hcap Hc); destruct (bool_decide (sg_ip g = Some ip)); lia].
    destruct (sg_ip g) as [ip'|] eqn:Hg.
    + destruct (decide (ip = ip')) as [<-|Hne].
      * rewrite (bool_decide_true (Some ip = Some ip)) in Hdel by done. rewrite Hip.
        rewrite (bool_decide_false (live_of ip l = 0)) by lia. cbn zeta. rewrite Z.max_r by lia.
        replace (live_of ip l - 1) with (live_of ip (delete i l)) by lia.
        destruct (bool_decide (live_of ip (delete i l) = 0));
          [by rewrite lookup_delete_eq|by rewrite lookup_insert_eq].
      * rewrite (bool_decide_false (Some ip' = Some ip)) in Hdel by congruence.
        rewrite Z.add_0_r in Hdel. rewrite <-Hdel, <-Hip.
        repeat case_match; by rewrite ?lookup_delete_ne, ?lookup_insert_ne by done.
    + rewrite (bool_decide_false (None = Some ip)) in Hdel by done. rewrite Z.add_0_r in Hdel.
      by rewrite <-Hdel.
Qed.

(** C38: the slots of event streams are exact. After any history of streams opened and
    closed, the counters equal the live streams: no slot leaks and none is freed twice;
    the live streams never exceed the global cap, nor those of one address the cap per
    address, where a cap is set. *)
Theorem sse_slots_exact c events :
  let s := foldl (λ s e, sse_step e s) ([], from_config c) events in
  (0 < sse_max_concurrent c → len s.1 ≤ sse_max_concurrent c ∧
     sse_global s.2 = Some (sse_max_concurrent c - len s.1)) ∧
  (∀ ip, sse_per_ip s.2 !! ip = (if bool_decide (live_of ip s.1 = 0) then None else Some (live_of ip s.1)) ∧
         (0 < sse_max_per_ip c → live_of ip s.1 ≤ sse_max_per_ip c)).
Proof.
  cbn zeta. assert (slots_ok c ([], from_config c)) as H0.
  { split_and!; cbn; try done.
    - case_bool_decide; [f_equal; lia|done].
    - lia.
    - intros ip. rewrite lookup_empty. split; [done|]. unfold live_of. cbn. lia. }
  assert (slots_ok c (foldl (λ s e, sse_step e s) ([], from_config c) events)) as (_ & _ & H3 & H4 & H5).
  { revert H0. generalize (([], from_config c) : list SseGuard * RuntimeLimits).
    induction events as [|[ip|i] l IH]; intros s Hs; cbn; [done|apply IH, slots_open, Hs|apply IH, slots_close, Hs]. }
  split; [|done]. intros Hc. split; [auto|]. rewrite H3. by rewrite bool_decide_true.
Qed.

(** ** Daily quotas *)

Fixpoint daily_all (table : gmap IpAddr (Z * Z)) (cap : Z) (l : list (IpAddr * Z))
    : list (IpAddr * Z * bool) :=
  match l with
  | [] => []
  | (ip, today) :: l =>
      let '(b, table) := note_daily table cap ip today in
      (ip, today, b) :: daily_all table cap l
  end.

Definition attempts (ip : IpAddr) (day : Z) (l : list (IpAddr * Z)) : Z :=
  len (retain (λ x, bool_decide (x = (ip, day))) l).
Definition granted (ip : IpAddr) (day : Z) (l : list (IpAddr * Z * bool)) : Z :=
  len (retain (λ x, bool_decide (x.1 = (ip, day)) && x.2) l).

(** What the table holds for [ip] on [day]. *)
Definition used (table : gmap IpAddr (Z * Z)) (ip : IpAddr) (day : Z) : Z :=
  match table !! ip with
  | Some (d, n) => if bool_decide (d = day) then n else 0
  | None => 0
  end.

Lemma note_daily_used table cap ip today i day :
  0 < cap →
  let '(b, table') := note_daily table cap ip today in
  used table' i today = used table i today
    + (if bool_decide (i = ip) && b then 1 else 0) ∧
  b = bool_decide (used table ip today < cap) ∧
  (day ≠ today → used table' i day = 0 ∨ used table' i day = used table i day).
Proof.
  intros Hc. unfold note_daily. rewrite bool_decide_false by lia.
  set (t0 := if bool_decide (100000 < Z.of_nat (size table)) then _ else _).
  assert (∀ j, used t0 j today = used table j today) as Ht0.
  { intros j. unfold used, t0. case_bool_decide; [|done]. rewrite map_lookup_filter.
    destruct (table !! j) as [[d n]|]; cbn; [|done]. case_guard as Hd; cbn in *; [done|].
    by rewrite bool_decide_false. }
  assert (∀ j, used t0 j day = 0 ∨ used t0 j day = used table j day) as Ht1.
  { intros j. unfold used, t0. case_bool_decide; [|by right]. rewrite map_lookup_filter.
    destruct (table !! j) as [[d n]|]; cbn; [|by left]. case_guard; cbn; auto. }
  set (entry := if bool_decide ((default (today, 0) (t0 !! ip)).1 = today) then _ else _).
  assert (entry = (today, used table ip today)) as ->.
  { rewrite <-Ht0. unfold entry, used. destruct (t0 !! ip) as [[d n]|]; cbn.
    - case_bool_decide; [by subst|done].
    - by rewrite bool_decide_true. }
  cbn. rewrite <-!Ht0.
  destruct (bool_decide (cap ≤ used t0 ip today)) eqn:Hcap; boolify.
  - split_and!; [|by rewrite bool_decide_false by lia|].
    + rewrite andb_false_r, Z.add_0_r. unfold used at 1. cbn. destruct (decide (i = ip)) as [->|Hi].
      * rewrite lookup_insert_eq, bool_decide_true by done. done.
      * by rewrite lookup_insert_ne by done.
    + intros Hday. destruct (decide (i = ip)) as [->|Hi].
      * left. unfold used. rewrite lookup_insert_eq, bool_decide_false by congruence. done.
      * specialize (Ht1 i). unfold used in *. by rewrite lookup_insert_ne.
  - split_and!; [|by rewrite bool_decide_true by lia|].
    + unfold used at 1. cbn. destruct (decide (i = ip)) as [->|Hi].
      * rewrite lookup_insert_eq, !bool_decide_true by done. done.
      * rewrite lookup_insert_ne, (bool_decide_false (i = ip)) by done. cbn. rewrite Z.add_0_r. done.
    + intros Hday. destruct (decide (i = ip)) as [->|Hi].
      * left. unfold used. rewrite lookup_insert_eq, bool_decide_false by congruence. done.
      * specialize (Ht1 i). unfold used in *. by rewrite lookup_insert_ne.
Qed.

(** The daily quota is exact: over any sequence of attempts in order of days, an
    address is granted on a day its first attempts up to the cap, and nothing more,
    whatever the others do and however often the table is trimmed. *)
Theorem daily_quota_exact cap l ip day start :
  0 < cap → ordered_from start l →
  granted ip day (daily_all ∅ cap l) = Z.min cap (attempts ip day l).
Proof.
  intros Hc Hord.
  assert (∀ l table d k, ordered_from d l → 0 ≤ k →
    (d ≤ day → used table ip day = Z.min cap k) → (d < day → k = 0) →
    Z.min cap k + granted ip day (daily_all table cap l) = Z.min cap (k + attempts ip day l)) as Hgen.
  { clear l start Hord. induction l as [|[a t] l IH]; intros table d k Hord Hk Hu Hz.
    { unfold granted, attempts. cbn. lia. }
    destruct Hord as [Ht Hord]. cbn [daily_all].
    pose proof (note_daily_used table cap a t ip day Hc) as Hn.
    destruct (note_daily table cap a t) as [b table']. destruct Hn as (Hn1 & Hn2 & Hn3).
    unfold granted, attempts in *. cbn.
    destruct (decide ((a, t) = (ip, day))) as [[= -> ->]|Hne].
    - rewrite (bool_decide_true ((ip, day) = (ip, day))) by done.
      rewrite bool_decide_true in Hn1 by done. cbn in Hn1.
      specialize (IH table' day (k + 1) Hord ltac:(lia)). specialize (Hu ltac:(lia)).
      rewrite Hu in Hn1, Hn2. destruct b; cbn.
      + symmetry in Hn2. boolify. specialize (IH ltac:(intros; lia) ltac:(lia)). lia.
      + symmetry in Hn2. boolify. specialize (IH ltac:(intros; lia) ltac:(lia)). lia.
    - rewrite (bool_decide_false ((a, t) = (ip, day))) by done. cbn.
      apply (IH table' t k Hord Hk).
      + intros Htd. specialize (Hu ltac:(lia)). destruct (decide (t = day)) as [->|Htne].
        * rewrite Hn1, Hu. rewrite bool_decide_false by congruence. cbn. lia.
        * specialize (Hz ltac:(lia)). subst k. destruct (Hn3 ltac:(done)) as [->| ->]; lia.
      + intros Htd. apply Hz. lia. }
  specialize (Hgen l ∅ start 0 Hord ltac:(lia)). rewrite Z.min_r, Z.add_0_l in Hgen by lia.
  apply Hgen; [|done]. unfold used. by rewrite lookup_empty.
Qed.

Lemma daily_quota_exact_witness :
  granted [1; 1; 1; 1] 7 (daily_all ∅ 2 [([1; 1; 1; 1], 7); ([2; 2; 2; 2], 7); ([1; 1; 1; 1], 7); ([1; 1; 1; 1], 7)])
  = 2.
Proof.
  etrans; [apply (daily_quota_exact 2 _ _ _ 0); [lia|cbn; lia]|]. vm_compute. reflexivity.
Defined.
