(* ===== verification/CustomDomains.v ===== *)
(** * CustomDomains: claiming and verifying a domain ([src/custom_domains.rs])

    Validation of a claim, the DNS checks, the status machine with its grace window, and
    the background re-verification pass. What DNS answers is a parameter (the trait
    [DomainDns]). *)

From S2P Require Import Prelude Str Model Config.
From S2P Require Import StoreSpec MemoryStore MemoryStoreLaws MemoryMessages MemoryClaims.

Definition TXT_LABEL : str := lit "_anonymail".
Definition TXT_VALUE_PREFIX : str := lit "anonymail-verify=".
Definition GRACE_HOURS : Z := 48.
Definition RECHECK_AFTER_HOURS : Z := 24.

Definition txt_value (txt_token : str) : str := TXT_VALUE_PREFIX ++ txt_token.
Definition txt_host (domain : str) : str := TXT_LABEL ++ lit "." ++ domain.

(** [{b:02x}] of each byte. *)
Definition hex_digit (n : Z) : Z := if n <? 10 then 48 + n else 87 + n.
Definition hex (b : bytes) : str := concat (map (λ x, [hex_digit (x / 16); hex_digit (x mod 16)]) b).

Definition generate_txt_token (e : Env) : str * Env :=
  let '(b, e) := env_randoms 256 16 e in (hex b, e).

(** ** Validation *)

Definition valid_label (label : str) : bool :=
  negb (bool_decide (label = []))
  && bool_decide (str_len label ≤ 63)
  && negb (starts_with (lit "-") label)
  && negb (ends_with (lit "-") label)
  && all (λ c, is_ascii_lowercase c || is_ascii_digit c || (c =? 45)) label.

Definition is_valid_domain (domain : str) : bool :=
  if bool_decide (253 < str_len domain) then false
  else
    let labels := split 46 domain in
    if bool_decide (length labels < 2)%nat then false
    else if negb (all valid_label labels) then false
    else
      let tld := default [] (last labels) in
      bool_decide (2 ≤ str_len tld) && all is_ascii_lowercase tld.

Definition validate_claimable (config : Config) (raw : str) : result str str :=
  let domain := to_ascii_lowercase (trim_end_matches 46 (trim raw)) in
  if negb (is_valid_domain domain) then Err (lit "not a valid domain name: " ++ raw)
  else if any (λ served, bool_decide (domain = served) || ends_with (lit "." ++ served) domain)
            (domains config)
  then Err (lit "domain is reserved by this server: " ++ domain)
  else if bool_decide (domain = to_ascii_lowercase (smtp_hostname config))
  then Err (lit "domain is reserved by this server: " ++ domain)
  else Ok domain.

(** ** DNS checks *)

Record DomainDns := mkDomainDns {
  txt_records : str → result (list str) anyhow;
  mx_hosts : str → result (list str) anyhow;
}.

Record DnsCheck := mkDnsCheck {
  dc_record : str;
  dc_ok : bool;
  dc_expected : str;
  dc_found : option str;
}.

Definition summarize (values : list str) : option str :=
  match values with [] => None | _ => Some (join (lit ", ") values) end.

Definition run_checks (dns : DomainDns) (config : Config) (domain : CustomDomain)
    : list DnsCheck * bool :=
  let expected_txt := txt_value (cd_txt_token domain) in
  let expected_mx := to_ascii_lowercase (trim_end_matches 46 (smtp_hostname config)) in
  let txt :=
    match txt_records dns (txt_host (cd_domain domain)) with
    | Ok values => mkDnsCheck (lit "txt") (any (λ v, bool_decide (trim v = expected_txt)) values)
                     expected_txt (summarize values)
    | Err _ => mkDnsCheck (lit "txt") false expected_txt None
    end in
  let mx :=
    match mx_hosts dns (cd_domain domain) with
    | Ok hosts => mkDnsCheck (lit "mx") (any (λ h, bool_decide (h = expected_mx)) hosts)
                    expected_mx (summarize hosts)
    | Err _ => mkDnsCheck (lit "mx") false expected_mx None
    end in
  ([txt; mx], dc_ok txt && dc_ok mx).

(** ** The status machine *)

Definition next_status (current : CustomDomain) (all_ok : bool) (now : Time)
    : CustomDomainStatus * option Time :=
  if all_ok then (Verified, Some now)
  else
    match cd_status current with
    | Pending => (Pending, cd_verified_at current)
    | Failed => (Failed, cd_verified_at current)
    | Verified =>
        let anchor := default (cd_created_at current) (cd_verified_at current) in
        if bool_decide (hours GRACE_HOURS < now - anchor) then (Failed, cd_verified_at current)
        else (Verified, cd_verified_at current)
    end.

Definition check_and_record {S} `{Store S} (dns : DomainDns) (config : Config)
    (domain : CustomDomain) : SM S (list DnsCheck * CustomDomainStatus * option Time) :=
  let '(checks, all_ok) := run_checks dns config domain in
  now ← utc_now;
  let '(status, verified_at) := next_status domain all_ok now in
  _ ← record_custom_domain_check (cd_domain domain) status verified_at now;
  mret (checks, status, verified_at).

(** One tick of [reverify_loop]: the domains due, each checked; an error on one is logged
    and the pass goes on. *)
Fixpoint recheck_all {S} `{Store S} (dns : DomainDns) (config : Config) (due : list CustomDomain)
    : SM S unit :=
  match due with
  | [] => mret tt
  | d :: due =>
      _ ← try (check_and_record dns config d);
      recheck_all dns config due
  end.
Definition reverify_tick {S} `{Store S} (dns : DomainDns) (config : Config) : SM S unit :=
  now ← utc_now;
  let cutoff := now - hours RECHECK_AFTER_HOURS in
  due ← try (list_custom_domains_to_recheck cutoff);
  match due with
  | Ok due => recheck_all dns config due
  | Err _ => mret tt
  end.

(** ** Claims *)

Lemma split_trim_end c s t :
  trim_end_by (Z.eqb c) s = t ++ [c] → False.
Proof. intros H. apply trim_end_by_last in H. by rewrite Z.eqb_refl in H. Qed.

Lemma split_app_sep c a b : split c (a ++ c :: b) = split c a ++ split c b.
Proof.
  induction a as [|x a IH]; cbn; [by rewrite Z.eqb_refl|]. rewrite IH.
  destruct (x =? c); [done|]. pose proof (split_not_nil c a). by destruct (split c a).
Qed.

Lemma label_chars l :
  valid_label l = true → Forall (λ c, is_ascii_uppercase c = false ∧ is_whitespace c = false ∧ c ≠ 46) l.
Proof.
  unfold valid_label. intros H. boolify. apply Forall_forall. intros c Hc.
  match goal with H : all _ l = true |- _ => rewrite all_true in H; specialize (H c Hc); rename H into Hcc end.
  unfold is_ascii_lowercase, is_ascii_digit, is_ascii_uppercase in *.
  rewrite !orb_true_iff, !in_range_spec, Z.eqb_eq in Hcc.
  split; [apply in_range_false; lia|]. split; [|lia].
  apply not_true_iff_false. unfold is_whitespace.
  rewrite !orb_true_iff, !in_range_spec, !Z.eqb_eq. lia.
Qed.

Lemma join_chars (P : Z → Prop) sep ls :
  Forall P sep → Forall (Forall P) ls → Forall P (join sep ls).
Proof.
  intros Hs. induction 1 as [|l ls Hl Hls IH]; cbn; [done|]. destruct ls; [done|].
  by repeat apply Forall_app_2.
Qed.

Lemma valid_domain_chars d :
  is_valid_domain d = true →
  Forall (λ c, is_ascii_uppercase c = false ∧ is_whitespace c = false) d ∧
  d ≠ [] ∧ ∀ t, d ≠ t ++ [46].
Proof.
  unfold is_valid_domain. case_bool_decide; [done|]. case_bool_decide; [done|].
  destruct (all valid_label (split 46 d)) eqn:Hall; [|done]. cbn [negb]. intros Htld.
  rewrite all_true in Hall. split_and!.
  - rewrite <-(join_split 46 d). apply join_chars; [by repeat constructor|].
    apply Forall_forall. intros l Hl. eapply Forall_impl; [apply label_chars, Hall, Hl|]. naive_solver.
  - intros ->. cbn in *. lia.
  - intros t ->. rewrite split_app_sep in Hall. specialize (Hall [] ltac:(apply elem_of_app; right; left)).
    done.
Qed.

(** What a claim is stored under is a normal form that cannot shadow the server: it
    is a syntactically valid, lowercase name without a trailing dot, it is neither one
    of the server's own domains, nor below one, nor its mail host name, and claiming it
    again gives the same name. *)
Theorem claimable_sound config raw d :
  validate_claimable config raw = Ok d →
  is_valid_domain d = true ∧ to_ascii_lowercase d = d ∧
  (∀ served, served ∈ domains config → d ≠ served ∧ ∀ sub, d ≠ sub ++ lit "." ++ served) ∧
  accepts_domain config d = false ∧
  d ≠ to_ascii_lowercase (smtp_hostname config) ∧
  validate_claimable config d = Ok d.
Proof.
  unfold validate_claimable at 1. set (dom := to_ascii_lowercase _).
  destruct (is_valid_domain dom) eqn:Hv; cbn [negb]; [|done].
  destruct (any _ (domains config)) eqn:Hany; [done|]. case_bool_decide as Hh; [done|].
  intros [= <-]. assert (to_ascii_lowercase dom = dom) as Hlow by apply to_ascii_lowercase_idemp.
  assert (∀ served, served ∈ domains config → dom ≠ served ∧ ∀ sub, dom ≠ sub ++ lit "." ++ served) as Hs.
  { intros served Hin. split.
    - intros Heq. apply not_true_iff_false in Hany. apply Hany. apply any_true. exists served.
      split; [done|]. by rewrite bool_decide_true.
    - intros sub Heq. apply not_true_iff_false in Hany. apply Hany. apply any_true. exists served.
      split; [done|]. apply orb_true_iff. right. apply ends_with_spec. by exists sub. }
  split_and!; try done.
  - apply not_true_iff_false. rewrite accepts_domain_spec, Hlow. intros Hin.
    destruct (Hs dom Hin). done.
  - destruct (valid_domain_chars dom Hv) as (Hc & Hne & Hdot). unfold validate_claimable.
    assert (trim dom = dom) as ->.
    { apply trimmed_no_whitespace. eapply Forall_impl; [exact Hc|]. naive_solver. }
    assert (trim_end_matches 46 dom = dom) as ->.
    { apply trim_end_by_id. intros t c Ht. destruct (Z.eqb_spec 46 c) as [<-|]; [|done].
      by destruct (Hdot t). }
    rewrite Hlow, Hv, Hany. cbn [negb]. by rewrite bool_decide_false.
Qed.

Lemma claimable_sound_witness :
  validate_claimable Config_default (lit " Mail.Acme.Org. ") = Ok (lit "mail.acme.org") ∧
  validate_claimable Config_default (lit "mail.acme.org") = Ok (lit "mail.acme.org").
Proof.
  split; [vm_compute; reflexivity|].
  apply (claimable_sound Config_default (lit " Mail.Acme.Org. ")). vm_compute. reflexivity.
Defined.

(** ** The life of a claim *)

(** A check at a time, applied to the record as [check_and_record] stores it. *)
Definition apply_check (d : CustomDomain) (c : bool * Time) : CustomDomain :=
  let '(st, v) := next_status d c.1 c.2 in with_check st v c.2 d.

Definition last_success (l : list (bool * Time)) : option Time :=
  foldl (λ (o : option Time) (c : bool * Time), if c.1 then Some c.2 else o) None l.

Lemma last_success_snoc l c :
  last_success (l ++ [c]) = if c.1 then Some c.2 else last_success l.
Proof. unfold last_success. by rewrite foldl_snoc. Qed.

Lemma apply_checks_spec d l :
  cd_status d = Pending → cd_verified_at d = None →
  let d' := foldl apply_check d l in
  cd_verified_at d' = last_success l ∧
  (cd_status d' = Pending ↔ last_success l = None) ∧
  (cd_status d' = Verified → ∃ v t, last_success l = Some v ∧ cd_last_checked_at d' = Some t ∧
     t - v ≤ hours GRACE_HOURS).
Proof.
  intros Hp Hv. cbn zeta. induction l as [|[ok t] l IH] using rev_ind.
  { cbn. rewrite Hp, Hv. split_and!; done. }
  rewrite last_success_snoc, foldl_snoc. set (d' := foldl apply_check d l) in *.
  destruct IH as (I1 & I2 & I3).
  unfold apply_check, next_status. cbn [fst snd]. destruct ok.
  - cbn. split_and!; [done|done|]. intros _. exists t, t. split_and!; [done..|].
    unfold hours, GRACE_HOURS, seconds, nanos_per_second. lia.
  - destruct (cd_status d') eqn:Hs; cbn.
    + split_and!; [done|naive_solver|done].
    + destruct (I3 eq_refl) as (v & t' & Hls & _ & _). rewrite I1, Hls. cbn.
      case_bool_decide as Hg; cbn; split_and!; try done.
      intros _. exists v, t. split_and!; [done..|lia].
    + split_and!; [done|naive_solver|done].
Qed.

(** C39: a claimed domain is served only on recent proof. Through any history of checks
    from the moment it was claimed, the record's anchor is the time of the last
    successful check; it is still pending exactly when none ever succeeded; and while it
    is verified, the last check was made at most the grace window after the last
    success. *)
Theorem verified_means_recent domain hash token created l :
  let d := foldl apply_check (mkCustomDomain domain Pending hash token created None None) l in
  cd_verified_at d = last_success l ∧
  (cd_status d = Pending ↔ last_success l = None) ∧
  (cd_status d = Verified → ∃ v t, last_success l = Some v ∧ cd_last_checked_at d = Some t ∧
     t - v ≤ hours 48).
Proof. by apply apply_checks_spec. Qed.

(** Verification needs both records: the status a check persists is verified only
    if the TXT challenge of this very claim and an MX record for this server were both
    found, or the domain was verified already and is within its grace window; and what is
    persisted is what the caller is told, for that domain and no other. *)
Theorem check_and_record_sound {S} `{SL : StoreLaws S} dns config d s e checks st v w :
  check_and_record dns config d (s, e) = (Ok (checks, st, v), w) →
  view w.1 = set_domains (alter (with_check st v (e_clock e 0%nat)) (cd_domain d)) (view s) ∧
  (st = Verified →
   (∃ values hosts, txt_records dns (txt_host (cd_domain d)) = Ok values ∧
      mx_hosts dns (cd_domain d) = Ok hosts ∧
      (∃ value, value ∈ values ∧ trim value = lit "anonymail-verify=" ++ cd_txt_token d) ∧
      to_ascii_lowercase (trim_end_matches 46 (smtp_hostname config)) ∈ hosts ∧
      v = Some (e_clock e 0%nat)) ∨
   cd_status d = Verified ∧ v = cd_verified_at d ∧
   e_clock e 0%nat - default (cd_created_at d) (cd_verified_at d) ≤ hours GRACE_HOURS).
Proof.
  unfold check_and_record. destruct (run_checks dns config d) as [cs ok] eqn:Hrun.
  intros Hcr. apply bind_inv in Hcr as (now & w1 & Hnow & Hcr). injection Hnow as <- <-.
  destruct (next_status d ok (e_clock e 0%nat)) as [st' v'] eqn:Hns.
  apply bind_inv in Hcr as (b & [s2 e2] & Hrec & Hret). injection Hret as <- <- <- <-.
  pose proof (law_record_custom_domain_check (cd_domain d) st' v' (e_clock e 0%nat)
                s (mkEnv (shift (e_clock e)) (e_uuid e) (e_rand e))) as L.
  rewrite Hrec in L. destruct L as [_ Hview]. split; [exact Hview|]. intros ->.
  unfold next_status in Hns. destruct ok.
  - left. injection Hns as <-. unfold run_checks in Hrun.
    destruct (txt_records dns _) as [values|]; [|by injection Hrun].
    destruct (mx_hosts dns _) as [hosts|]; [|injection Hrun as _ Hok; by rewrite andb_false_r in Hok].
    cbn in Hrun. injection Hrun as _ Hok. apply andb_prop in Hok as [H1 H2].
    apply any_true in H1 as (value & Hin & H1), H2 as (h & Hin2 & H2). boolify. subst h.
    exists values, hosts. split_and!; try done. by exists value.
  - right. destruct (cd_status d); try done. case_bool_decide; [done|]. injection Hns as <-.
    split_and!; [done..|lia].
Qed.

(** A claim in the memory store, and a DNS that publishes its records. *)
Definition demo_domain : CustomDomain :=
  mkCustomDomain (lit "acme.org") Pending (lit "h") (lit "t0ken") 1 None None.
Definition demo_domains : MemoryStore * Env :=
  (mem_create_custom_domain (lit "acme.org") (lit "h") (lit "t0ken") demo_start).2.
Definition demo_dns : DomainDns :=
  mkDomainDns (λ _, Ok [lit "other"; lit "anonymail-verify=t0ken"]) (λ _, Ok [lit "example.com"]).

Lemma check_and_record_sound_witness :
  ∃ checks v w, check_and_record demo_dns Config_default demo_domain demo_domains
                = (Ok (checks, Verified, v), w) ∧
    (Verified = Verified →
   (∃ values hosts, txt_records demo_dns (txt_host (cd_domain demo_domain)) = Ok values ∧
      mx_hosts demo_dns (cd_domain demo_domain) = Ok hosts ∧
      (∃ value, value ∈ values ∧ trim value = lit "anonymail-verify=" ++ cd_txt_token demo_domain) ∧
      to_ascii_lowercase (trim_end_matches 46 (smtp_hostname Config_default)) ∈ hosts ∧
      v = Some (e_clock demo_domains.2 0%nat)) ∨
   cd_status demo_domain = Verified ∧ v = cd_verified_at demo_domain ∧
   e_clock demo_domains.2 0%nat
     - default (cd_created_at demo_domain) (cd_verified_at demo_domain) ≤ hours GRACE_HOURS).
Proof.
  do 3 eexists. split; [vm_compute; reflexivity|].
  eapply (check_and_record_sound demo_dns Config_default demo_domain demo_domains.1 demo_domains.2).
  vm_compute. reflexivity.
Defined.

(** The check of a claim compares with the mail host name as configured, the MX check
    without its trailing dot: written with the dot, the host name itself is claimable. *)
Theorem claimable_dotted_hostname :
  ∃ config, trim_end_matches 46 (smtp_hostname config) = lit "mx.acme.org" ∧
    validate_claimable config (lit "mx.acme.org") = Ok (lit "mx.acme.org").
Proof.
  exists (Config_with_hostname (lit "mx.acme.org.") Config_default). split; vm_compute; reflexivity.
Qed.
