(* ===== verification/Dns.v ===== *)
(** * Dns: the production resolver ([src/custom_domains.rs], [HickoryDns])

    The implementation of [DomainDns] over the hickory resolver. The resolver itself, its
    lookups and the text form of a name are the class [Hickory]; what the source does is to
    build it once, to ask for absolute names, and to normalise what the records say. *)

From S2P Require Import Prelude Str Model Config StoreSpec CustomDomains.

(** The data of a record, as far as the source tells records apart. *)
Inductive RData (Name : Type) := TXT (txt_data : list bytes) | MX (exchange : Name) | OtherData.
Arguments TXT {Name} _.
Arguments MX {Name} _.
Arguments OtherData {Name}.

Class Hickory := {
  Name : Type;
  name_to_utf8 : Name → str;
  ResolveError : Type;
  is_no_records_found : ResolveError → bool;
  into_anyhow : ResolveError → anyhow;
  TokioResolver : Type;
  (** [Resolver::builder_tokio()?.build()?] *)
  build_tokio : result TokioResolver anyhow;
  (** The answers of a lookup, in order *)
  txt_lookup : TokioResolver → str → result (list (RData Name)) ResolveError;
  mx_lookup : TokioResolver → str → result (list (RData Name)) ResolveError;
}.

Section hickory.
Context `{Hickory}.

(** The cell of the resolver. *)
Record HickoryDns := mkHickoryDns { hk_resolver : option TokioResolver }.
Definition HickoryDns_new : HickoryDns := mkHickoryDns None.

Abbreviation HM A := (M HickoryDns anyhow A).

(** [get_or_try_init]: a failure leaves the cell empty, for the next call to try again. *)
Definition resolver : HM TokioResolver :=
  cell ← gets hk_resolver;
  match cell with
  | Some r => mret r
  | None =>
      r ← of_result build_tokio;
      modify (λ _, mkHickoryDns (Some r));;
      mret r
  end.

Definition fqdn (name : str) : str := trim_end_matches 46 name ++ lit ".".

Definition hickory_answers (l : result (list (RData Name)) ResolveError) (f : RData Name → option str)
    : HM (list str) :=
  match l with
  | Ok answers => mret (filter_map f answers)
  | Err e => if is_no_records_found e then mret [] else throw (into_anyhow e)
  end.

Definition txt_text (record : RData Name) : option str :=
  match record with TXT parts => Some (concat (map from_utf8_lossy parts)) | _ => None end.
Definition mx_text (record : RData Name) : option str :=
  match record with
  | MX exchange => Some (to_ascii_lowercase (trim_end_matches 46 (name_to_utf8 exchange)))
  | _ => None
  end.

Definition hickory_txt_records (name : str) : HM (list str) :=
  r ← resolver;
  hickory_answers (txt_lookup r (fqdn name)) txt_text.
Definition hickory_mx_hosts (name : str) : HM (list str) :=
  r ← resolver;
  hickory_answers (mx_lookup r (fqdn name)) mx_text.

(** The resolver as the checks see it, from the state of its cell. *)
Definition hickory_dns (cell : HickoryDns) : DomainDns :=
  mkDomainDns (λ name, (hickory_txt_records name cell).1) (λ name, (hickory_mx_hosts name cell).1).

(** ** Lemmas *)

(** The resolver in use: the one of the cell, or a new one. *)
Definition usable (cell : HickoryDns) (r : TokioResolver) : Prop :=
  match hk_resolver cell with Some r' => r' = r | None => build_tokio = Ok r end.

Lemma resolver_run cell :
  match resolver cell with
  | (Ok r, cell') => usable cell r ∧ hk_resolver cell' = Some r
  | (Err e, cell') => build_tokio = Err e ∧ hk_resolver cell = None ∧ cell' = cell
  end.
Proof.
  unfold resolver, usable, mbind, M_bind, gets. destruct (hk_resolver cell) as [r|] eqn:Hc; cbn; [done|].
  by destruct build_tokio.
Qed.
Lemma usable_run {A} cell r (k : TokioResolver → HM A) :
  usable cell r → ((x ← resolver; k x) cell).1 = (k r (mkHickoryDns (Some r))).1.
Proof.
  unfold usable, resolver, mbind, M_bind, gets. destruct cell as [[r'|]]; cbn; [by intros ->|by intros ->].
Qed.

(** Both lookups ask for the absolute name: whatever dots the caller wrote, it ends in
    exactly one, and asking again for it changes nothing. *)
Lemma fqdn_absolute name :
  fqdn (fqdn name) = fqdn name ∧ trim_end_matches 46 (fqdn name) = trim_end_matches 46 name ∧
  ∃ t, fqdn name = t ++ [46] ∧ ∀ u, t ≠ u ++ [46].
Proof.
  assert (trim_end_matches 46 (fqdn name) = trim_end_matches 46 name) as Ht.
  { unfold fqdn, trim_end_matches. change (lit ".") with [46].
    assert (∀ s, trim_end_by (Z.eqb 46) (s ++ [46]) = trim_end_by (Z.eqb 46) s) as -> by
      (intros s; unfold trim_end_by; by rewrite rev_app_distr).
    apply trim_end_by_id. apply trim_end_by_last. }
  split; [unfold fqdn at 1; by rewrite Ht|]. split; [done|]. exists (trim_end_matches 46 name).
  split; [done|]. by intros u Hu%split_trim_end.
Qed.

Lemma answers_ok l f (cell : HickoryDns) values :
  (hickory_answers l f cell).1 = Ok values →
  (∃ answers, l = Ok answers ∧ values = filter_map f answers) ∨
  (∃ e, l = Err e ∧ is_no_records_found e = true ∧ values = []).
Proof.
  unfold hickory_answers. destruct l as [answers|e]; [intros [= <-]; eauto|].
  destruct (is_no_records_found e) eqn:He; [intros [= <-]|done]. eauto.
Qed.
Lemma found_in_answers l f cell (p : str → bool) :
  match (hickory_answers l f cell).1 with Ok values => any p values | Err _ => false end = true ↔
  ∃ answers record value, l = Ok answers ∧ record ∈ answers ∧ f record = Some value ∧ p value = true.
Proof.
  unfold hickory_answers. destruct l as [answers|e]; cbn.
  - rewrite any_true. split.
    + intros (v & (record & Hr & Hf)%elem_of_filter_map & Hp). by exists answers, record, v.
    + intros (a & record & v & [= <-] & Hr & Hf & Hp). exists v. split; [|done].
      clear Hp. induction answers as [|x answers IH]; [by apply not_elem_of_nil in Hr|].
      cbn. apply elem_of_cons in Hr as [<-|Hr]; [rewrite Hf; left|]. destruct (f x); [right|]; auto.
  - split; [by destruct (is_no_records_found e)|]. by intros (? & ? & ? & ? & ?).
Qed.

(** C40: what it takes to verify a domain against real DNS. The checks succeed exactly
    when a resolver is available, the zone's TXT answers for [_anonymail.] the domain hold
    a record whose strings, joined and trimmed, are the challenge of this very claim, and
    its MX answers name this server up to letter case and trailing dots. Any failed
    lookup, any name without records and any other kind of record count as not verified,
    and both lookups ask for absolute names, which no search domain rewrites. *)
Theorem hickory_verifies cell config d :
  (run_checks (hickory_dns cell) config d).2 = true ↔
  ∃ r txts parts mxs exchange,
    usable cell r ∧
    txt_lookup r (trim_end_matches 46 (lit "_anonymail." ++ cd_domain d) ++ lit ".") = Ok txts ∧ TXT parts ∈ txts ∧
    trim (concat (map from_utf8_lossy parts)) = lit "anonymail-verify=" ++ cd_txt_token d ∧
    mx_lookup r (trim_end_matches 46 (cd_domain d) ++ lit ".") = Ok mxs ∧ MX exchange ∈ mxs ∧
    to_ascii_lowercase (trim_end_matches 46 (name_to_utf8 exchange))
    = to_ascii_lowercase (trim_end_matches 46 (smtp_hostname config)).
Proof.
  assert (∀ r, usable cell r → (run_checks (hickory_dns cell) config d).2 = true ↔
    (∃ answers record value, txt_lookup r (fqdn (lit "_anonymail." ++ cd_domain d)) = Ok answers ∧
       record ∈ answers ∧ txt_text record = Some value ∧
       bool_decide (trim value = lit "anonymail-verify=" ++ cd_txt_token d) = true) ∧
    (∃ answers record value, mx_lookup r (fqdn (cd_domain d)) = Ok answers ∧ record ∈ answers ∧
       mx_text record = Some value ∧
       bool_decide (value = to_ascii_lowercase (trim_end_matches 46 (smtp_hostname config))) = true)) as Hrun.
  { intros r Hu. rewrite <-(found_in_answers _ _ (mkHickoryDns (Some r))), <-(found_in_answers _ mx_text (mkHickoryDns (Some r))).
    unfold run_checks, hickory_dns, hickory_txt_records, hickory_mx_hosts. cbn [txt_records mx_hosts snd].
    rewrite !(usable_run _ _ _ Hu). change (txt_host (cd_domain d)) with (lit "_anonymail." ++ cd_domain d).
    rewrite andb_true_iff. by destruct (hickory_answers _ txt_text _).1, (hickory_answers _ mx_text _).1. }
  split.
  - intros Hok. pose proof (resolver_run cell) as Hres.
    destruct (resolver cell) as [[r|e] cell'] eqn:Hr.
    + destruct Hres as [Hu _]. destruct (proj1 (Hrun r Hu) Hok) as
        [(txts & record & value & Ht & Hin & Hv & Hp) (mxs & record' & value' & Hm & Hin' & Hv' & Hp')].
      apply bool_decide_eq_true in Hp, Hp'.
      destruct record as [parts| |]; [injection Hv as <-|done..].
      destruct record' as [|exchange|]; [done|injection Hv' as <-|done].
      by exists r, txts, parts, mxs, exchange.
    + exfalso. unfold run_checks, hickory_dns, hickory_txt_records in Hok.
      cbn [txt_records mx_hosts snd] in Hok. by rewrite (bind_err _ _ _ _ _ Hr) in Hok.
  - intros (r & txts & parts & mxs & exchange & Hu & Ht & Hin & Hp & Hm & Hin' & Hp').
    apply (Hrun r Hu). split; do 3 eexists; split_and!; try done; by apply bool_decide_eq_true.
Qed.
End hickory.

(** ** A zone to check *)

#[local] Instance demo_hickory : Hickory := {|
  Name := str; name_to_utf8 n := n; ResolveError := unit; is_no_records_found _ := true;
  into_anyhow _ := Anyhow []; TokioResolver := unit; build_tokio := Ok tt;
  txt_lookup _ name := if bool_decide (name = lit "_anonymail.acme.org.")
                       then Ok [TXT [lit "v=spf1"]; TXT [lit "anonymail-"; lit "verify=t0ken"]] else Err tt;
  mx_lookup _ name := if bool_decide (name = lit "acme.org.") then Ok [OtherData; MX (lit "Example.COM.")] else Err tt;
|}.

Example demo_zone_verifies : (run_checks (hickory_dns HickoryDns_new) Config_default demo_domain).2 = true.
Proof. vm_compute. reflexivity. Qed.
