(* ===== verification/Attest.v ===== *)
(** * Attest: single-use challenges ([ChallengeStore] of [src/attest.rs])

    The challenges issued and not yet redeemed, with the instant each was issued. An
    operation holds the lock throughout; the instant it reads is an argument. *)

From S2P Require Import Prelude Str.

Definition CHALLENGE_TTL_SECONDS : Z := 300.
Definition MAX_OUTSTANDING_CHALLENGES : Z := 100000.

Record ChallengeStore := mkChallengeStore {
  ch_ttl : Z;
  issued : gmap str Z;
}.

Definition ChallengeStore_new (ttl : Z) : ChallengeStore := mkChallengeStore ttl ∅.
Definition ChallengeStore_default : ChallengeStore :=
  ChallengeStore_new (seconds CHALLENGE_TTL_SECONDS).

(** [HashMap::retain] with the test that an entry is less than [d] old. *)
Definition younger (now d : Z) (m : gmap str Z) : gmap str Z :=
  filter (λ p, duration_since now p.2 < d) m.

(** [issue], once the challenge has been drawn. *)
Definition issue_at (challenge : str) (now : Z) (s : ChallengeStore) : ChallengeStore :=
  let kept :=
    if bool_decide (MAX_OUTSTANDING_CHALLENGES ≤ Z.of_nat (size (issued s))) then
      let live := younger now (ch_ttl s) (issued s) in
      if bool_decide (MAX_OUTSTANDING_CHALLENGES ≤ Z.of_nat (size live))
      then younger now (ch_ttl s / 2) live else live
    else issued s in
  mkChallengeStore (ch_ttl s) (<[challenge := now]> kept).

(** [consume]: the challenge is removed whether it is still live or not. *)
Definition consume_at (challenge : str) (now : Z) (s : ChallengeStore) : bool * ChallengeStore :=
  (match issued s !! challenge with
   | Some at_ => bool_decide (duration_since now at_ < ch_ttl s)
   | None => false
   end,
   mkChallengeStore (ch_ttl s) (delete challenge (issued s))).

(** ** Histories *)

Inductive ch_event :=
| Issued (challenge : str) (now : Z)
| Consumed (challenge : str) (now : Z).

Definition ev_challenge (e : ch_event) : str :=
  match e with Issued c _ | Consumed c _ => c end.
Definition ev_time (e : ch_event) : Z := match e with Issued _ t | Consumed _ t => t end.

Definition ch_step (s : ChallengeStore) (e : ch_event) : ChallengeStore :=
  match e with
  | Issued c t => issue_at c t s
  | Consumed c t => (consume_at c t s).2
  end.
Definition ch_history (ttl : Z) (l : list ch_event) : ChallengeStore :=
  foldl ch_step (ChallengeStore_new ttl) l.

(** ** Lemmas *)

Lemma ch_history_ttl ttl l : ch_ttl (ch_history ttl l) = ttl.
Proof.
  unfold ch_history. change ttl with (ch_ttl (ChallengeStore_new ttl)) at 2.
  generalize (ChallengeStore_new ttl) as s. induction l as [|e l IH]; intros s; [done|].
  cbn. rewrite IH. by destruct e.
Qed.
Lemma ch_history_snoc ttl l e : ch_history ttl (l ++ [e]) = ch_step (ch_history ttl l) e.
Proof. unfold ch_history. by rewrite foldl_snoc. Qed.

Lemma younger_sub now d m c t : younger now d m !! c = Some t → m !! c = Some t.
Proof. by intros [? _]%map_lookup_filter_Some. Qed.
Lemma younger_keep now d m c t :
  m !! c = Some t → duration_since now t < d → younger now d m !! c = Some t.
Proof. intros. by apply map_lookup_filter_Some. Qed.

(** Issuing a challenge never brings another one back, and keeps the recent ones. *)
Lemma issue_other c c' now s t :
  c ≠ c' → issued (issue_at c' now s) !! c = Some t → issued s !! c = Some t.
Proof.
  intros Hne. unfold issue_at. cbn. rewrite lookup_insert_ne by done.
  repeat case_bool_decide; eauto using younger_sub.
Qed.
Lemma issue_keeps c c' now s t :
  c ≠ c' → 0 ≤ ch_ttl s → issued s !! c = Some t → duration_since now t < ch_ttl s / 2 →
  issued (issue_at c' now s) !! c = Some t.
Proof.
  intros Hne Httl Hs Ht. unfold issue_at. cbn. rewrite lookup_insert_ne by done.
  assert (ch_ttl s / 2 ≤ ch_ttl s) by (apply Z.div_le_upper_bound; lia).
  repeat case_bool_decide; repeat apply younger_keep; done || lia.
Qed.

Lemma issued_history ttl l c t :
  issued (ch_history ttl l) !! c = Some t →
  ∃ l1 l2, l = l1 ++ Issued c t :: l2 ∧ Forall (λ e, ev_challenge e ≠ c) l2.
Proof.
  induction l as [|e l IH] using rev_ind; [done|]. rewrite ch_history_snoc. intros Hc.
  destruct (decide (ev_challenge e = c)) as [Heq|Hne].
  - destruct e as [c' t'|c' t']; cbn in *; subst c'.
    + unfold issue_at in Hc. cbn in Hc. rewrite lookup_insert_eq in Hc. injection Hc as <-.
      by exists l, [].
    + by rewrite lookup_delete_eq in Hc.
  - assert (issued (ch_history ttl l) !! c = Some t) as (l1 & l2 & -> & Hl2)%IH.
    { destruct e as [c' t'|c' t']; cbn [ch_step ev_challenge] in *; [by eapply issue_other|].
      cbn in Hc. by rewrite lookup_delete_ne in Hc. }
    exists l1, (l2 ++ [e]). split; [by rewrite <-app_assoc|]. apply Forall_app. split; [done|by constructor].
Qed.

Lemma history_keeps ttl l1 c t l2 now :
  0 ≤ ttl → Forall (λ e, ev_challenge e ≠ c ∧ ev_time e ≤ now) l2 →
  duration_since now t < ttl / 2 →
  issued (ch_history ttl (l1 ++ Issued c t :: l2)) !! c = Some t.
Proof.
  intros Httl Hl2 Hnow. induction l2 as [|e l2 IH] using rev_ind.
  - rewrite ch_history_snoc. cbn. apply lookup_insert_eq.
  - apply Forall_app in Hl2 as [Hl2 [[Hc Ht] _]%Forall_cons]. specialize (IH Hl2).
    rewrite app_comm_cons, app_assoc, ch_history_snoc.
    destruct e as [c' t'|c' t']; cbn [ch_step ev_challenge ev_time] in Hc, Ht |- *.
    + apply issue_keeps; rewrite ?ch_history_ttl; try done. unfold duration_since in *. lia.
    + cbn. by rewrite lookup_delete_ne.
Qed.

(** C34: a challenge can be redeemed once, in time, and only if it was issued. After any
    history of issuing and redeeming, a redemption succeeds only if the challenge was
    issued less than its lifetime ago and nothing has been done with it since: an attempt
    to redeem it, successful or not, uses it up. And under any flood of other requests, a
    challenge redeemed within half its lifetime is accepted. *)
Theorem challenge_single_use ttl l c now :
  ((consume_at c now (ch_history ttl l)).1 = true →
   ∃ l1 t l2, l = l1 ++ Issued c t :: l2 ∧ duration_since now t < ttl ∧
     Forall (λ e, ev_challenge e ≠ c) l2) ∧
  (∀ l1 t l2, l = l1 ++ Issued c t :: l2 → 0 ≤ ttl → duration_since now t < ttl / 2 →
     Forall (λ e, ev_challenge e ≠ c ∧ ev_time e ≤ now) l2 →
     (consume_at c now (ch_history ttl l)).1 = true).
Proof.
  unfold consume_at. cbn [fst]. rewrite ch_history_ttl. split.
  - destruct (issued _ !! c) as [t|] eqn:Hc; [|done]. intros Ht. boolify.
    apply issued_history in Hc as (l1 & l2 & -> & Hl2). by exists l1, t, l2.
  - intros l1 t l2 -> Httl Hnow Hl2. rewrite (history_keeps _ _ _ _ _ now) by done. boolify.
    assert (ttl / 2 ≤ ttl) by (apply Z.div_le_upper_bound; lia). lia.
Qed.
