(* ===== verification/Cleanup.v ===== *)
(** * Cleanup: the periodic task ([src/cleanup.rs])

    One tick of the loop of [run]: expired mailboxes, then idle devices, then maintenance;
    an error of one step is logged and the next step runs all the same. *)

From S2P Require Import Prelude Str Model Config StoreSpec.

Definition DEVICE_IDLE_WINDOW : Z := days 180.

Definition cleanup_tick {S} `{Store S} : SM S unit :=
  now ← utc_now;
  _ ← try (purge_expired now);
  now ← utc_now;
  _ ← try (prune_attested_devices (now - DEVICE_IDLE_WINDOW));
  _ ← try run_maintenance;
  mret tt.

Section laws.
Context {S : Type} `{SL : StoreLaws S}.

Lemma try_purge now st :
  keyed (view st.1) →
  ∃ r st', try (E' := anyhow) (purge_expired now) st = (Ok r, st') ∧
    (view st'.1 = set_mailboxes (filter (λ p, now < mb_expires_at p.2)) (view st.1) ∨
     view st'.1 = view st.1).
Proof.
  destruct st as [s e]. intros Hk. pose proof (law_purge_expired now s e Hk) as L.
  unfold try. destruct (purge_expired now (s, e)) as [[n|er] [s' e']]; eexists _, _; (split; [done|]).
  - left. apply L.
  - by right.
Qed.
Lemma try_updates {A} (m : SM S A) f g st :
  updates view m f g →
  ∃ r st', try (E' := anyhow) m st = (Ok r, st') ∧ (view st'.1 = g (view st.1) ∨ view st'.1 = view st.1).
Proof.
  destruct st as [s e]. intros Hu. specialize (Hu s e). unfold try.
  destruct (m (s, e)) as [[n|er] [s' e']]; eexists _, _; (split; [done|]);
    [left; apply Hu|destruct Hu; auto].
Qed.

(** A tick never fails, whatever its steps do, and never removes anything that is in use:
    a mailbox that has not expired stays as it is, a device seen within the idle window
    stays as it is, nothing is added, and custom domains are not touched. *)
Theorem cleanup_keeps_live s e :
  keyed (view s) →
  let r := cleanup_tick (s, e) in
  let v' := view r.2.1 in
  r.1 = Ok tt ∧ ab_domains v' = ab_domains (view s) ∧
  ab_mailboxes v' ⊆ ab_mailboxes (view s) ∧ ab_devices v' ⊆ ab_devices (view s) ∧
  (∀ a m, ab_mailboxes (view s) !! a = Some m → e_clock e 0%nat < mb_expires_at m →
     ab_mailboxes v' !! a = Some m) ∧
  ∃ now, ∀ k d, ab_devices (view s) !! k = Some d → now - days 180 ≤ ad_last_seen_at d →
     ab_devices v' !! k = Some d.
Proof.
  intros Hk. cbn zeta. unfold cleanup_tick.
  rewrite (bind_ok _ _ _ (e_clock e 0%nat) (s, (env_now e).2)) by done.
  destruct (try_purge (e_clock e 0%nat) (s, (env_now e).2) Hk) as (r1 & [s1 e1] & Hr1 & Hv1).
  rewrite (bind_ok _ _ _ _ _ Hr1), (bind_ok _ _ _ (e_clock e1 0%nat) (s1, (env_now e1).2)) by done.
  destruct (try_updates _ _ _ (s1, (env_now e1).2) (law_prune (e_clock e1 0%nat - DEVICE_IDLE_WINDOW)))
    as (r2 & [s2 e2] & Hr2 & Hv2).
  rewrite (bind_ok _ _ _ _ _ Hr2). pose proof (law_run_maintenance s2 e2) as Hv3.
  destruct (run_maintenance (s2, e2)) as [r3 [s3 e3]] eqn:Hm.
  rewrite (bind_ok _ _ _ r3 (s3, e3)) by (unfold try; by rewrite Hm). cbn in Hv1, Hv2, Hv3 |- *.
  rewrite Hv3. split; [done|].
  assert (ab_domains (view s2) = ab_domains (view s)) by (destruct Hv1 as [H1|H1], Hv2 as [H2|H2]; by rewrite H2, ?H1).
  split; [done|].
  assert (ab_mailboxes (view s2) = ab_mailboxes (view s1)) as -> by (destruct Hv2 as [H2|H2]; by rewrite H2).
  assert (ab_devices (view s1) = ab_devices (view s)) as Hd by (destruct Hv1 as [H1|H1]; by rewrite H1).
  split_and!.
  - destruct Hv1 as [->| ->]; cbn; [apply map_filter_subseteq|done].
  - rewrite <-Hd. destruct Hv2 as [->| ->]; cbn; [apply map_filter_subseteq|done].
  - intros a m Ham Hlt. destruct Hv1 as [->| ->]; [|done]. cbn. by apply map_lookup_filter_Some.
  - exists (e_clock e1 0%nat). rewrite <-Hd. intros k d Hkd Hle. destruct Hv2 as [->| ->]; [|done].
    cbn. by apply map_lookup_filter_Some.
Qed.
End laws.
