(* ===== verification/RevenueCat.v ===== *)
(** * RevenueCat: the purchase verifier ([src/entitlements.rs])

    [RevenueCatVerifier] with its cache of verdicts. The RevenueCat API is a parameter: what
    it answers for an identifier at the moment of the call, an error standing for any
    failure up to the parsing of the body. *)

From S2P Require Import Prelude Str Model Config StoreSpec.

Definition RC_CACHE_TTL : Z := seconds 600.

(** The entitlements of a subscriber with the moment each lapses, if any. *)
Record SubscriberResponse := mkSubscriberResponse { entitlements : gmap str (option Time) }.

Definition entitlement_active (body : SubscriberResponse) (entitlement_id : str) (now : Time) : bool :=
  match entitlements body !! entitlement_id with
  | Some (Some d) => bool_decide (now < d)
  | Some None => true
  | None => false
  end.

Abbreviation RcCache := (gmap str (bool * Time)) (only parsing).
Abbreviation RcM A := (M (RcCache * Env) anyhow A) (only parsing).

Definition elapsed_below_ttl (now at_ : Time) : bool :=
  bool_decide (duration_since now at_ < RC_CACHE_TTL).

Definition cached (id : str) : RcM (option bool) :=
  cache ← get_st;
  match cache !! id with
  | Some (pro, at_) =>
      now ← utc_now;
      mret (if elapsed_below_ttl now at_ then Some pro else None)
  | None => mret None
  end.

Definition remember (id : str) (pro : bool) : RcM unit :=
  cache ← get_st;
  cache ← (if bool_decide (10000 ≤ Z.of_nat (size cache))
           then now ← utc_now; mret (filter (λ x, elapsed_below_ttl now x.2.2 = true) cache)
           else mret cache);
  now ← utc_now;
  put_st (<[id := (pro, now)]> cache).

Definition is_pro (entitlement_id : str) (fetch : str → result SubscriberResponse anyhow)
    (rc_app_user_id : str) : RcM bool :=
  c ← cached rc_app_user_id;
  match c with
  | Some pro => mret pro
  | None =>
      body ← of_result (fetch rc_app_user_id);
      now ← utc_now;
      let pro := entitlement_active body entitlement_id now in
      remember rc_app_user_id pro;;
      mret pro
  end.

(** ** Lemmas *)

Implicit Types c : RcCache.

Lemma remember_run id pro c e :
  ∃ c1 now e', remember id pro (c, e) = (Ok tt, (<[id := (pro, now)]> c1, e')) ∧ c1 ⊆ c ∧
    ∃ n, now = e_clock e n.
Proof.
  unfold remember, mbind, M_bind. cbn -[size]. case_bool_decide; cbn.
  - eexists _, _, _. split; [done|]. split; [apply map_filter_subseteq|]. by exists 1%nat.
  - exists c. eexists _, _. split; [done|]. split; [done|]. by exists 0%nat.
Qed.

Lemma cached_run id c e :
  ∃ o e' m, cached id (c, e) = (Ok o, (c, e')) ∧ (∀ i, e_clock e' i = e_clock e (m + i)%nat) ∧
    ∀ pro, o = Some pro → ∃ at_, c !! id = Some (pro, at_) ∧
      duration_since (e_clock e 0%nat) at_ < RC_CACHE_TTL.
Proof.
  unfold cached, mbind, M_bind. cbn. destruct (c !! id) as [[pro at_]|]; cbn.
  - eexists _, _, 1%nat. split; [done|]. split; [done|]. unfold elapsed_below_ttl.
    case_bool_decide; [|done]. intros p [= <-]. eauto.
  - by exists None, e, 0%nat.
Qed.

(** What a call does: it answers the verdict recorded less than the lifetime of the cache
    ago, or asks the service and records what it said; an error is never recorded, and no
    other entry is ever added or altered. *)
Theorem is_pro_spec ent fetch id c e :
  match is_pro ent fetch id (c, e) with
  | (Ok pro, (c', _)) =>
      (∃ at_, c !! id = Some (pro, at_) ∧ duration_since (e_clock e 0%nat) at_ < RC_CACHE_TTL ∧ c' = c) ∨
      (∃ body n k, fetch id = Ok body ∧ pro = entitlement_active body ent (e_clock e n) ∧
         c' !! id = Some (pro, e_clock e k) ∧ (n ≤ k)%nat ∧
         ∀ id' x, id' ≠ id → c' !! id' = Some x → c !! id' = Some x)
  | (Err er, (c', _)) => fetch id = Err er ∧ c' = c
  end.
Proof.
  destruct (cached_run id c e) as (o & e1 & m & Hrun & Hclock & Hfresh). unfold is_pro.
  rewrite (bind_ok _ _ _ _ _ Hrun). destruct o as [pro|].
  - left. destruct (Hfresh pro eq_refl) as (at_ & ? & ?). eauto.
  - destruct (fetch id) as [body|er]; [|done]. unfold of_result, utc_now, mbind, M_bind at 1 2. cbn -[remember].
    destruct (remember_run id (entitlement_active body ent (e_clock e1 0%nat)) c
      (mkEnv (shift (e_clock e1)) (e_uuid e1) (e_rand e1))) as (c1 & now & e2 & Hr & Hsub & k & ->).
    unfold M_bind. rewrite Hr. right. exists body, m, (m + S k)%nat. rewrite lookup_insert_eq. cbn.
    unfold shift. rewrite !Hclock, Nat.add_0_r. split_and!; [done..|lia|].
    intros id' x Hne Hx. rewrite lookup_insert_ne in Hx by done. by eapply lookup_weaken.
Qed.

(** The cache has no bound of its own: with only recent verdicts in it, a verdict for a
    new identifier is added whatever the size. *)
Theorem rc_cache_grows id pro c e :
  c !! id = None → (∀ i x, c !! i = Some x → duration_since (e_clock e 0%nat) x.2 < RC_CACHE_TTL) →
  size (remember id pro (c, e)).2.1 = S (size c).
Proof.
  intros Hid Hfresh. unfold remember, mbind, M_bind. cbn -[size]. case_bool_decide; cbn -[size].
  - rewrite map_filter_id; [by apply map_size_insert_None|].
    intros i x Hx. apply bool_decide_eq_true. by apply (Hfresh i).
  - by apply map_size_insert_None.
Qed.

(** ** The verifier over HTTP *)

(** reqwest and its URLs. *)
Class Reqwest := {
  HttpClient : Type;
  Url : Type;
  (** [Client::builder().timeout(..).build()] *)
  client_build : Z → result HttpClient anyhow;
  url_parse : str → option Url;
  (** [path_segments_mut()?.extend(..)]: each segment percent-encoded; [None] when the URL
      cannot be a base *)
  url_extend : Url → list str → option Url;
  (** [get(url).bearer_auth(key).send()]: the status and, when read, the parsed body *)
  http_get : HttpClient → Url → str → result (Z * result SubscriberResponse anyhow) anyhow;
}.

Section verifier.
Context `{Reqwest}.

Record RevenueCatVerifier := mkRevenueCatVerifier {
  rv_http : HttpClient;
  rv_base_url : str;
  rv_secret_key : str;
  rv_entitlement_id : str;
}.

Definition with_base_url (secret_key entitlement_id base_url : str) : result RevenueCatVerifier anyhow :=
  match client_build (seconds 10) with
  | Err _ => Err (Anyhow (lit "building RevenueCat HTTP client"))
  | Ok http => Ok (mkRevenueCatVerifier http (trim_end_matches 47 base_url) secret_key entitlement_id)
  end.
Definition RevenueCatVerifier_new (secret_key entitlement_id : str) : result RevenueCatVerifier anyhow :=
  with_base_url secret_key entitlement_id (lit "https://api.revenuecat.com").

Definition is_success (status : Z) : bool := in_range 200 299 status.

(** The part of [is_pro] between the two looks at the cache. *)
Definition fetch_subscriber (v : RevenueCatVerifier) (rc_app_user_id : str)
    : result SubscriberResponse anyhow :=
  match url_parse (rv_base_url v) with
  | None => Err (Anyhow (lit "parsing RevenueCat base url"))
  | Some url =>
      match url_extend url [lit "v1"; lit "subscribers"; rc_app_user_id] with
      | None => Err (Anyhow (lit "RevenueCat base url cannot be a base"))
      | Some url =>
          match http_get (rv_http v) url (rv_secret_key v) with
          | Err _ => Err (Anyhow (lit "calling RevenueCat"))
          | Ok (status, body) =>
              if negb (is_success status) then Err (Anyhow (lit "RevenueCat returned " ++ fmt_int status))
              else match body with
                   | Ok body => Ok body
                   | Err _ => Err (Anyhow (lit "parsing RevenueCat response"))
                   end
          end
      end
  end.
Definition verifier_is_pro (v : RevenueCatVerifier) : str → RcM bool :=
  is_pro (rv_entitlement_id v) (fetch_subscriber v).

(** Pro is never granted on a guess: a verdict is what the cache recorded less than its
    lifetime ago, or what RevenueCat said under this server's key, in a successful answer
    about this very identifier, with the entitlement not lapsed at the time. *)
Theorem pro_means_entitled v id c e c' e' :
  verifier_is_pro v id (c, e) = (Ok true, (c', e')) →
  (∃ at_, c !! id = Some (true, at_) ∧ duration_since (e_clock e 0%nat) at_ < RC_CACHE_TTL) ∨
  ∃ root url status body n,
    url_parse (rv_base_url v) = Some root ∧
    url_extend root [lit "v1"; lit "subscribers"; id] = Some url ∧
    http_get (rv_http v) url (rv_secret_key v) = Ok (status, Ok body) ∧ 200 ≤ status ≤ 299 ∧
    ∃ expires, entitlements body !! rv_entitlement_id v = Some expires ∧
      ∀ d, expires = Some d → e_clock e n < d.
Proof.
  intros Hr. pose proof (is_pro_spec (rv_entitlement_id v) (fetch_subscriber v) id c e) as Hs.
  unfold verifier_is_pro in Hr. rewrite Hr in Hs.
  destruct Hs as [(at_ & Hc & Ht & _)|(body & n & k & Hf & Hp & _)]; [left; eauto|right].
  unfold fetch_subscriber in Hf. destruct (url_parse _) as [root|] eqn:Hu; [|done].
  destruct (url_extend _ _) as [url|] eqn:Hx; [|done].
  destruct (http_get _ _ _) as [[status b]|] eqn:Hg; [|done]. destruct (is_success status) eqn:Hst; [|done].
  destruct b as [b|]; [|done]. injection Hf as ->. unfold is_success in Hst. apply in_range_spec in Hst.
  exists root, url, status, body, n. split_and!; try done; try lia.
  unfold entitlement_active in Hp. destruct (entitlements body !! _) as [[d|]|]; [|by exists None|done].
  exists (Some d). split; [done|]. intros d' [= <-]. by apply eq_sym, bool_decide_eq_true in Hp.
Qed.
End verifier.
