(* ===== verification/Push.v ===== *)
(** * Push: the push delivery worker ([src/push.rs])

    The payload, the senders of both channels, and the worker that reads the event bus.
    The [web-push] and [a2] crates are parameters: [WebPushCrate] signs, builds and sends a
    Web Push message, [ApnsCrate] sends a notification to Apple; both answer with the
    errors the source tells apart. A sender is a function of the subscription and the
    payload; what the services answer may differ from one event to the next, so the worker
    is given the senders of every event. *)

From S2P Require Import Prelude Str Model Config StoreSpec Otp Events.

Inductive PushOutcome := Delivered | Gone | TransientFailure.
#[export] Instance PushOutcome_eq_dec : EqDecision PushOutcome.
Proof. solve_decision. Defined.

Record PushPayload := mkPushPayload {
  pp_address : str;
  pp_id : Uuid;
  pp_from : str;
  pp_subject : option str;
  pp_code : option str;
}.

(** The title and the body shown to the user; the dash is U+2014. *)
Definition alert (p : PushPayload) : str * str :=
  let title := match pp_subject p with
               | Some s => if bool_decide (trim s = []) then lit "New mail" else s
               | None => lit "New mail"
               end in
  let body := match pp_code p with
              | Some code => lit "Code " ++ code ++ lit " " ++ [8212] ++ lit " " ++ pp_from p
              | None => lit "From " ++ pp_from p
              end in
  (title, body).

Abbreviation PushSender := (PushSubscription → PushPayload → PushOutcome) (only parsing).

Record Senders := mkSenders {
  webpush : option PushSender;
  apns : option PushSender;
}.

Definition for_kind (s : Senders) (kind : SubscriptionKind) : option PushSender :=
  match kind with WebPush => webpush s | Apns => apns s end.

Definition senders_is_empty (s : Senders) : bool :=
  match webpush s, apns s with None, None => true | _, _ => false end.

(** ** Web Push *)

Inductive WebPushError := EndpointNotFound | EndpointNotValid | OtherWebPushError.

Class WebPushCrate := {
  wp_key : Type;
  wp_signature : Type;
  wp_message : Type;
  to_vec : PushPayload → option bytes;
  from_base64_no_sub : str → option wp_key;
  wp_sign : wp_key → (str * str * str) → str → option wp_signature;
  wp_build : (str * str * str) → wp_signature → bytes → option wp_message;
  wp_send : wp_message → result unit WebPushError;
}.

Section webpush.
Context `{WebPushCrate}.

Record WebPushSender := mkWebPushSender {
  signature_builder : wp_key;
  ws_subject : str;
}.

Definition WebPushSender_from_config (config : Config) : option WebPushSender :=
  private_key ← vapid_private_key config;
  signature_builder ← from_base64_no_sub private_key;
  Some (mkWebPushSender signature_builder (vapid_subject config)).

Definition WebPushSender_send (self : WebPushSender) (subscription : PushSubscription)
    (payload : PushPayload) : PushOutcome :=
  match to_vec payload with
  | None => TransientFailure
  | Some payload =>
      let sub_info := (ps_endpoint subscription, ps_p256dh subscription, ps_auth subscription) in
      match wp_sign (signature_builder self) sub_info (ws_subject self) with
      | None => Gone
      | Some signature =>
          match wp_build sub_info signature payload with
          | None => Gone
          | Some message =>
              match wp_send message with
              | Ok _ => Delivered
              | Err EndpointNotFound | Err EndpointNotValid => Gone
              | Err _ => TransientFailure
              end
          end
      end
  end.
End webpush.

(** ** APNs *)

Inductive ErrorReason := Unregistered | BadDeviceToken | OtherReason.
Inductive ApnsError := ResponseError (reason : option ErrorReason) | OtherApnsError.

(** The headers of a notification the source sets. *)
Record NotificationOptions := mkNotificationOptions {
  apns_topic_header : option str;
  apns_push_type_alert : bool;
  apns_collapse_id : option str;
}.

Class ApnsCrate := {
  CollapseId_new : str → option str;
  apns_client : Type;
  apns_token_client : str → str → str → bool → option apns_client;
  add_custom_data : str → PushPayload → bool;
  apns_send : apns_client → str → (str * str) → NotificationOptions → PushPayload → result unit ApnsError;
}.

Section apns.
Context `{ApnsCrate} `{UuidText}.

Definition apns_notification_options (topic collapse_id : str) : NotificationOptions :=
  mkNotificationOptions (Some topic) true (CollapseId_new collapse_id).

Record ApnsSender := mkApnsSender {
  as_client : apns_client;
  as_topic : str;
}.

Definition ApnsSender_from_config (config : Config) : option ApnsSender :=
  key ← apns_private_key config;
  key_id ← apns_key_id config;
  team_id ← apns_team_id config;
  topic ← apns_topic config;
  client ← apns_token_client key key_id team_id (apns_sandbox config);
  Some (mkApnsSender client topic).

Definition ApnsSender_send (self : ApnsSender) (subscription : PushSubscription)
    (payload : PushPayload) : PushOutcome :=
  let collapse := uuid_to_string (pp_id payload) in
  let options := apns_notification_options (as_topic self) collapse in
  if negb (add_custom_data (lit "anonymail") payload) then TransientFailure
  else
    match apns_send (as_client self) (ps_endpoint subscription) (alert payload) options payload with
    | Ok _ => Delivered
    | Err (ResponseError (Some Unregistered)) | Err (ResponseError (Some BadDeviceToken)) => Gone
    | Err (ResponseError _) => TransientFailure
    | Err OtherApnsError => TransientFailure
    end.
End apns.

(** ** The worker *)

Definition payload_of (event : MailEvent) : PushPayload :=
  mkPushPayload (ev_address event) (ev_id event) (ev_mail_from event) (ev_subject event)
    (ev_code event).

(** The sends of one event: [filter_map] over the subscriptions, all awaited. *)
Definition send_all (senders : Senders) (payload : PushPayload) (subs : list PushSubscription)
    : list (PushSubscription * PushOutcome) :=
  omap (λ sub, sender ← for_kind senders (ps_kind sub); Some (sub, sender sub payload)) subs.

Inductive recv := Event (event : MailEvent) | Lagged (skipped : Z) | Closed.

Section worker.
Context {S : Type} `{Store S}.

(** The loop over the results: dead endpoints are deleted, errors only logged. *)
Fixpoint prune (results : list (PushSubscription * PushOutcome)) : SM S unit :=
  match results with
  | [] => mret tt
  | (sub, outcome) :: results =>
      (if bool_decide (outcome = Gone)
       then try (delete_subscription (ps_mailbox_address sub) (ps_endpoint sub));; mret tt
       else mret tt);;
      prune results
  end.

Definition deliver (senders : Senders) (event : MailEvent) : SM S unit :=
  r ← try (list_subscriptions (ev_address event));
  match r with
  | Err _ => mret tt
  | Ok subscriptions =>
      if bool_decide (subscriptions = []) then mret tt
      else prune (send_all senders (payload_of event) subscriptions)
  end.

(** [run]: the loop over what the receiver answers, until the bus closes; [senders n] is
    how the push services answer the [n]-th message received. *)
Fixpoint run (senders : nat → Senders) (received : list recv) : SM S unit :=
  match received with
  | [] | Closed :: _ => mret tt
  | Event event :: received => deliver (senders O) event;; run (shift senders) received
  | Lagged _ :: received => run (shift senders) received
  end.
End worker.
