(* ===== verification/PushLaws.v ===== *)
(** * PushLaws: what the push worker does to the subscriptions

    [SubscriptionLaws] is what a store promises about push subscriptions; every backend
    provides it, and the worker is verified against it. *)

From S2P Require Import Prelude Str Model Config StoreSpec Rows Otp Events Push.
From S2P Require Import MemoryStore MemoryStoreLaws MemoryClaims UuidHex.
From S2P Require Import Sql SqlLaws SqlInvariant SqlMessages SqliteStore PostgresStore SqlClaims SqlAtomic.

(** ** The interface *)

Definition at_endpoint (a ep : str) (p : PushSubscription) : Prop :=
  ps_mailbox_address p = a ∧ ps_endpoint p = ep.

(** [p] is the subscription a client asked for: of this kind, at this endpoint, with these
    keys. *)
Definition is_target (a : str) (k : SubscriptionKind) (ep p256dh auth : str) (p : PushSubscription) : Prop :=
  at_endpoint a ep p ∧ ps_kind p = k ∧ ps_p256dh p = p256dh ∧ ps_auth p = auth.

(** [subs_work] holds of a store that answers the queries and deletions of the worker. *)
Class SubscriptionLaws (S : Type) {ops : Store S} := {
  subscribed : S → PushSubscription → Prop;
  subs_work : S → Prop;
  law_list_works a s e :
    subs_work s → is_Ok (list_subscriptions a (s, e)).1 ∧ subs_work (list_subscriptions a (s, e)).2.1;
  law_delete_works a ep s e :
    subs_work s → is_Ok (delete_subscription a ep (s, e)).1 ∧ subs_work (delete_subscription a ep (s, e)).2.1;
  law_add_sub a k ep p256dh auth n s e :
    let r := add_subscription a k ep p256dh auth n (s, e) in
    (∀ p, subscribed r.2.1 p → subscribed s p ∨ is_target a k ep p256dh auth p) ∧
    (∀ p, subscribed s p → subscribed r.2.1 p ∨ at_endpoint a ep p) ∧
    ∀ sub, r.1 = Ok sub → is_target a k ep p256dh auth sub ∧
      (uuids e → subscribed r.2.1 sub);
  law_list_subs a s e :
    (∀ p, subscribed (list_subscriptions a (s, e)).2.1 p ↔ subscribed s p) ∧
    ∀ l, (list_subscriptions a (s, e)).1 = Ok l →
      ∀ p, p ∈ l ↔ subscribed s p ∧ ps_mailbox_address p = a;
  law_delete_sub a ep s e :
    match delete_subscription a ep (s, e) with
    | (Ok _, (s', _)) => ∀ p, subscribed s' p ↔ subscribed s p ∧ ¬ at_endpoint a ep p
    | (Err _, (s', _)) => ∀ p, subscribed s' p ↔ subscribed s p
    end;
  law_get_mailbox_subs a s e p : subscribed (get_mailbox a (s, e)).2.1 p ↔ subscribed s p;
}.

(** ** The worker *)

Section worker.
Context {S : Type} `{SL : SubscriptionLaws S}.

(** The service of some subscription at this endpoint of the mailbox said it is gone. *)
Definition endpoint_gone (senders : Senders) (event : MailEvent) (s : S) (p : PushSubscription) : Prop :=
  ∃ p' send, subscribed s p' ∧ ps_mailbox_address p' = ev_address event ∧
    for_kind senders (ps_kind p') = Some send ∧ send p' (payload_of event) = Gone ∧
    at_endpoint (ps_mailbox_address p') (ps_endpoint p') p.

Lemma elem_of_send_all senders payload l p o :
  (p, o) ∈ send_all senders payload l ↔
  p ∈ l ∧ ∃ send, for_kind senders (ps_kind p) = Some send ∧ o = send p payload.
Proof.
  unfold send_all. rewrite list_elem_of_omap. split.
  - intros (q & Hq & Hs). destruct (for_kind senders (ps_kind q)) as [send|] eqn:Hk; [|done].
    cbn in Hs. injection Hs as -> <-. eauto.
  - intros (Hp & send & Hk & ->). exists p. by rewrite Hk.
Qed.

Abbreviation at_same q p := (at_endpoint (ps_mailbox_address q) (ps_endpoint q) p).

(** One turn of the loop. *)
Lemma prune_cons q o results s e :
  ∃ s1 e1, prune ((q, o) :: results) (s, e) = prune results (s1, e1) ∧
    (∀ p, subscribed s1 p → subscribed s p) ∧
    (∀ p, subscribed s p → ¬ (o = Gone ∧ at_same q p) → subscribed s1 p) ∧
    (subs_work s → subs_work s1 ∧ (o = Gone → ∀ p, at_same q p → ¬ subscribed s1 p)).
Proof.
  cbn [prune]. case_bool_decide as Ho; [|exists s, e; split_and!; naive_solver].
  pose proof (law_delete_works (ps_mailbox_address q) (ps_endpoint q) s e) as Hw.
  pose proof (law_delete_sub (ps_mailbox_address q) (ps_endpoint q) s e) as Hd.
  destruct (delete_subscription _ _ (s, e)) as [[b|er] [s1 e1]] eqn:Hr; exists s1, e1.
  - split; [unfold mbind, M_bind, try; by rewrite Hr|]. setoid_rewrite Hd. cbn in Hw. naive_solver.
  - split; [unfold mbind, M_bind, try; by rewrite Hr|]. setoid_rewrite Hd. split_and!; [done|by auto|].
    by intros [? _]%Hw.
Qed.

Lemma prune_subs results s e :
  let s' := (prune results (s, e)).2.1 in
  (∀ p, subscribed s' p → subscribed s p) ∧
  (∀ p, subscribed s p → (∀ q, (q, Gone) ∈ results → ¬ at_same q p) → subscribed s' p) ∧
  (subs_work s → ∀ p q, (q, Gone) ∈ results → at_same q p → ¬ subscribed s' p).
Proof.
  cbn zeta. revert s e. induction results as [|[q o] results IH]; intros s e.
  - split_and!; [done|done|]. by intros _ p q ?%not_elem_of_nil.
  - destruct (prune_cons q o results s e) as (s1 & e1 & -> & P1 & P2 & P3).
    destruct (IH s1 e1) as (I1 & I2 & I3). split_and!; [by auto| |].
    + intros p Hp Hno. apply I2; [|intros x Hx; apply Hno; by right].
      apply P2; [done|]. intros [-> Hat]. apply (Hno q); [by left|done].
    + intros [Hw1 Hgone]%P3 p x [[= <- <-]|Hx]%elem_of_cons Hat Hs; [|by eapply I3].
      apply I1 in Hs. by eapply Hgone.
Qed.

Lemma deliver_subs senders event s e :
  let s' := (deliver senders event (s, e)).2.1 in
  (∀ p, subscribed s' p → subscribed s p) ∧
  (∀ p, subscribed s p → ¬ endpoint_gone senders event s p → subscribed s' p) ∧
  (subs_work s → ∀ p, endpoint_gone senders event s p → ¬ subscribed s' p).
Proof.
  cbn zeta. destruct (law_list_subs (ev_address event) s e) as [Hsame Hl].
  pose proof (law_list_works (ev_address event) s e) as Hw.
  unfold deliver, mbind, M_bind, try.
  destruct (list_subscriptions (ev_address event) (s, e)) as [[l|er] [s1 e1]] eqn:Hr; cbn [fst snd] in *.
  2: { split_and!; [naive_solver..|]. by intros [? _]%Hw. }
  specialize (Hl l eq_refl). case_bool_decide as Hnil.
  - subst l. split_and!; [naive_solver..|]. intros _ p (q & send & Hq & Ha & _).
    by destruct (not_elem_of_nil q (proj2 (Hl q) (conj Hq Ha))).
  - destruct (prune_subs (send_all senders (payload_of event) l) s1 e1) as (P1 & P2 & P3).
    split_and!.
    + intros p Hp%P1. by apply Hsame.
    + intros p Hp%Hsame Hno. apply P2; [done|]. intros q (Hq & send & Hk & Ho)%elem_of_send_all Hat.
      apply Hl in Hq as [Hq Ha]. apply Hno. exists q, send. done.
    + intros [_ Hw1]%Hw p (q & send & Hq & Ha & Hk & Ho & Hat). apply (P3 Hw1 p q); [|done].
      apply elem_of_send_all. split; [by apply Hl|]. eauto.
Qed.
End worker.

(** ** The backends *)

Section lists.
Context {A : Type} (p : A → bool) (f : A → A).
Lemma elem_of_update_first x (l : list A) :
  x ∈ update_first p f l → x ∈ l ∨ ∃ y, p y = true ∧ y ∈ l ∧ x = f y.
Proof.
  induction l as [|y l IH]; cbn; [by left|]. destruct (p y) eqn:Hy; rewrite !elem_of_cons.
  - intros [->|?]; [right; exists y; split_and!; [done|by left|done]|by left; right].
  - intros [->|[?|(z & ? & ? & ->)]%IH]; [by left; left|by left; right|right]. exists z. split_and!; [done|by right|done].
Qed.
Lemma update_first_keeps x (l : list A) : x ∈ l → x ∈ update_first p f l ∨ p x = true.
Proof.
  induction l as [|y l IH]; cbn; [by intros ?%not_elem_of_nil|]. destruct (p y) eqn:Hy; rewrite !elem_of_cons.
  - intros [->|?]; auto.
  - intros [->|[?|?]%IH]; auto.
Qed.
Lemma update_first_find x (l : list A) : find p l = Some x → f x ∈ update_first p f l.
Proof.
  induction l as [|y l IH]; cbn; [done|]. destruct (p y); rewrite elem_of_cons; [intros [= ->]; by left|right; auto].
Qed.
End lists.

Lemma mem_add_sub a k ep p256dh auth n s e :
  let r := mem_add_subscription a k ep p256dh auth n (s, e) in
  (∀ p, p ∈ subscriptions r.2.1 → p ∈ subscriptions s ∨ is_target a k ep p256dh auth p) ∧
  (∀ p, p ∈ subscriptions s → p ∈ subscriptions r.2.1 ∨ at_endpoint a ep p) ∧
  ∀ sub, r.1 = Ok sub → is_target a k ep p256dh auth sub ∧
    (uuids e → sub ∈ subscriptions r.2.1).
Proof.
  cbn zeta. unfold mem_add_subscription. run_mem.
  destruct (find (is_subscription a ep) (subscriptions s)) as [old|] eqn:Hf; cbn [fst snd].
  - assert (∀ q, is_subscription a ep q = true →
      is_target a k ep p256dh auth (refresh_subscription k p256dh auth q)) as Ht.
    { intros q Hq. unfold is_subscription in Hq. boolify. by repeat split. }
    assert (∀ q, is_subscription a ep q = true → at_endpoint a ep q) as Hat.
    { intros q Hq. unfold is_subscription in Hq. boolify. done. }
    cbn. split_and!.
    + intros p Hp. apply elem_of_update_first in Hp as [?|(q & Hq & _ & ->)]; [by left|right; auto].
    + intros p Hp. by apply (update_first_keeps (is_subscription a ep) (refresh_subscription k p256dh auth))
        in Hp as [?|?]; [left|right; auto].
    + intros sub [= <-]. pose proof Hf as [_ Hold]%find_Some. split; [by apply Ht|]. intros _. by apply update_first_find.
  - case_match; cbn; split_and!; try done; [by left..| | |].
    + intros p [?|Hp%list_elem_of_singleton]%elem_of_app; [by left|right; subst; by repeat split].
    + intros p Hp. left. apply elem_of_app. by left.
    + intros sub [= <-]. split; [by repeat split|]. intros _. apply elem_of_app. right. left.
Qed.

#[export, refine] Instance MemoryStore_Subs : SubscriptionLaws MemoryStore := {|
  subscribed s p := p ∈ subscriptions s;
  subs_work _ := True;
  law_add_sub := mem_add_sub;
|}.
Proof.
  - by intros a s e _.
  - intros a ep s e _. split; [|done]. change (delete_subscription a ep) with (mem_delete_subscription a ep).
    unfold mem_delete_subscription. run_mem. done.
  - intros a s e. split; [done|]. intros l Hl p.
    injection Hl as <-. rewrite elem_of_retain, bool_decide_eq_true. done.
  - intros a ep s e p.
    change (p ∈ retain (λ q, negb (is_subscription a ep q)) (subscriptions s) ↔
            p ∈ subscriptions s ∧ ¬ at_endpoint a ep p).
    rewrite elem_of_retain, negb_true_iff. unfold is_subscription, at_endpoint.
    rewrite andb_false_iff, !bool_decide_eq_false. split; [naive_solver|].
    intros [? Hn]. split; [done|]. destruct (decide (ps_mailbox_address p = a)); [right|left]; naive_solver.
  - done.
Defined.

(** The rows that decode. *)
Section sql_subs.
Context {I : Type} `{Countable I} (conv : PushSubscriptionRow I → result PushSubscription anyhow).
Abbreviation decode i r := (conv (select_subscription i r)).
Hypothesis decode_fields : ∀ i r p,
  decode i r = Ok p → ps_mailbox_address p = pr_mailbox_address r ∧ ps_endpoint p = pr_endpoint r.

Hypothesis decode_target : ∀ i a k ep p256dh auth t p,
  decode i (mkSubscriptionRec a (SubscriptionKind_as_str k) ep p256dh auth t) = Ok p →
  is_target a k ep p256dh auth p.

Definition sql_subscribed (s : SqlStore I) (p : PushSubscription) : Prop :=
  ∃ i r, t_subscriptions (sql_db s) !! i = Some r ∧ decode i r = Ok p.

Lemma collect_elem {A B E} (f : A → result B E) l k y :
  collect (map f l) = Ok k → y ∈ k ↔ ∃ x, x ∈ l ∧ f x = Ok y.
Proof.
  revert k. induction l as [|x l IH]; intros k; cbn.
  - intros [= <-]. split; [by intros ?%not_elem_of_nil|by intros (x & ?%not_elem_of_nil & _)].
  - destruct (f x) as [b|] eqn:Hx; [|done]. destruct (collect (map f l)) as [k'|]; [|done].
    intros [= <-]. rewrite elem_of_cons, IH by done. setoid_rewrite elem_of_cons. split.
    + intros [->|(z & ? & ?)]; eauto.
    + intros (z & [->|?] & Hz); [left; congruence|eauto].
Qed.

Lemma sql_list_subs (cmp : I * SubscriptionRec → I * SubscriptionRec → comparison) a s e :
  let m := l ← query (λ d, map (λ x, select_subscription x.1 x.2)
                 (sort_by cmp (rows (λ _ r, bool_decide (pr_mailbox_address r = a)) (t_subscriptions d))));
           of_result (collect (map conv l)) in
  (∀ p, sql_subscribed (m (s, e)).2.1 p ↔ sql_subscribed s p) ∧
  ∀ l, (m (s, e)).1 = Ok l → ∀ p, p ∈ l ↔ sql_subscribed s p ∧ ps_mailbox_address p = a.
Proof.
  cbn zeta. unfold query, mbind, M_bind. rewrite stmt_run. destruct (sql_faults s 0%nat); [done|]. cbn.
  split; [done|]. intros l Hc p. rewrite map_map in Hc. rewrite (collect_elem _ _ _ _ Hc). unfold sql_subscribed. split.
  - intros ([i r] & Hx & Hp). rewrite sort_by_elem, elem_of_rows, bool_decide_eq_true in Hx. cbn in *.
    destruct Hx as [Hi Ha], (decode_fields _ _ _ Hp). split; [eauto|congruence].
  - intros [(i & r & Hi & Hp) Ha]. exists (i, r). rewrite sort_by_elem, elem_of_rows, bool_decide_eq_true.
    destruct (decode_fields _ _ _ Hp). cbn. split; [split; [done|congruence]|done].
Qed.

Lemma sql_delete_sub a ep s e :
  match db_delete_subscription a ep (s, e) with
  | (Ok _, (s', _)) => ∀ p, sql_subscribed s' p ↔ sql_subscribed s p ∧ ¬ at_endpoint a ep p
  | (Err _, (s', _)) => ∀ p, sql_subscribed s' p ↔ sql_subscribed s p
  end.
Proof.
  unfold db_delete_subscription, exec, mbind, M_bind. rewrite stmt_run.
  destruct (sql_faults s 0%nat); [done|]. cbn. intros p. unfold sql_subscribed, without. cbn.
  setoid_rewrite map_lookup_filter_Some. cbn.
  assert (∀ i r, decode i r = Ok p → same_endpoint a ep i r = false ↔ ¬ at_endpoint a ep p) as Hsame.
  { intros i r [Ha He]%decode_fields. rewrite <-not_true_iff_false, same_endpoint_true. unfold at_endpoint.
    by rewrite Ha, He. }
  split.
  - intros (i & r & [Hi Hs] & Hp). split; [eauto|]. by apply (Hsame i r Hp).
  - intros [(i & r & Hi & Hp) Hn]. exists i, r. split; [split; [done|by apply (Hsame i r Hp)]|done].
Qed.

(** A database whose round trips succeed and whose rows decode. *)
Definition sql_subs_work (s : SqlStore I) : Prop :=
  fault_free s ∧ ∀ i r, t_subscriptions (sql_db s) !! i = Some r → is_Ok (decode i r).

Lemma sql_list_works (cmp : I * SubscriptionRec → I * SubscriptionRec → comparison) a s e :
  let m := l ← query (λ d, map (λ x, select_subscription x.1 x.2)
                 (sort_by cmp (rows (λ _ r, bool_decide (pr_mailbox_address r = a)) (t_subscriptions d))));
           of_result (collect (map conv l)) in
  sql_subs_work s → is_Ok (m (s, e)).1 ∧ sql_subs_work (m (s, e)).2.1.
Proof.
  cbn zeta. intros [Hf Hd]. unfold query, mbind, M_bind. rewrite stmt_run, Hf. cbn. split.
  - rewrite map_map. apply collect_map_Ok. intros [i r]. rewrite sort_by_elem, elem_of_rows. intros [Hi _]. by apply Hd.
  - split; [intros n; apply (Hf (S n))|done].
Qed.
Lemma sql_delete_works a ep s e :
  sql_subs_work s →
  is_Ok (db_delete_subscription a ep (s, e)).1 ∧ sql_subs_work (db_delete_subscription a ep (s, e)).2.1.
Proof.
  intros [Hf Hd]. unfold db_delete_subscription, exec, mbind, M_bind. rewrite stmt_run, Hf. cbn.
  split; [done|]. split; [intros n; apply (Hf (S n))|]. cbn. intros i r. unfold without.
  rewrite map_lookup_filter_Some. intros [Hi _]. by apply Hd.
Qed.

(** What writing one row for an endpoint changes. *)
Definition writes_target a k ep p256dh auth (d d' : Db I) : Prop :=
  ∃ i t, t_subscriptions d' = <[i := mkSubscriptionRec a (SubscriptionKind_as_str k) ep p256dh auth t]> (t_subscriptions d) ∧
    ∀ r, t_subscriptions d !! i = Some r → same_endpoint a ep i r = true.
Lemma writes_target_subs a k ep p256dh auth s s' :
  writes_target a k ep p256dh auth (sql_db s) (sql_db s') ∨ sql_db s' = sql_db s →
  (∀ p, sql_subscribed s' p → sql_subscribed s p ∨ is_target a k ep p256dh auth p) ∧
  (∀ p, sql_subscribed s p → sql_subscribed s' p ∨ at_endpoint a ep p).
Proof.
  unfold sql_subscribed. intros [(i & t & -> & Hold)| ->]; [|by split; auto]. split.
  - intros p (j & r & [[<- <-]|[Hne Hj]]%lookup_insert_Some & Hp); [right|left; eauto]. by eapply decode_target.
  - intros p (j & r & Hj & Hp). destruct (decide (j = i)) as [->|Hne]; [right|left].
    + apply Hold, same_endpoint_true in Hj as [Ha He]. apply decode_fields in Hp as [Hpa Hpe].
      unfold at_endpoint. by rewrite Hpa, Hpe.
    + exists j, r. split; [|done]. by rewrite lookup_insert_ne.
Qed.
Lemma head_writes a k ep p256dh auth (d d' : Db I) i r :
  head (rows (same_endpoint a ep) (t_subscriptions d)) = Some (i, r) →
  t_subscriptions d' = <[i := mkSubscriptionRec (pr_mailbox_address r) (SubscriptionKind_as_str k) (pr_endpoint r)
                                p256dh auth (pr_created_at r)]> (t_subscriptions d) →
  writes_target a k ep p256dh auth d d'.
Proof.
  intros [Hi Hs]%rows_head Hd. pose proof Hs as [Ha He]%same_endpoint_true. exists i, (pr_created_at r).
  rewrite Hd, Ha, He. split; [done|]. intros r' Hr'. congruence.
Qed.
Lemma insert_writes a k ep p256dh auth (d d' : Db I) i t :
  sql_insert_subscription i (mkSubscriptionRec a (SubscriptionKind_as_str k) ep p256dh auth t) d = Ok (tt, d') →
  writes_target a k ep p256dh auth d d' ∧
  t_subscriptions d' !! i = Some (mkSubscriptionRec a (SubscriptionKind_as_str k) ep p256dh auth t).
Proof.
  unfold sql_insert_subscription, insert_row. destruct (t_subscriptions d !! i) eqn:Hi; [done|].
  repeat case_bool_decide; try done. intros [= <-]. cbn. split; [|by rewrite lookup_insert_eq].
  exists i, t. split; [done|]. intros r Hr. congruence.
Qed.

Lemma alter_insert {R} (f : R → R) i r (t : gmap I R) : t !! i = Some r → alter f i t = <[i := f r]> t.
Proof.
  intros Hi. apply map_eq. intros j. destruct (decide (j = i)) as [->|Hne].
  - by rewrite lookup_alter_eq, lookup_insert_eq, Hi.
  - by rewrite lookup_alter_ne, lookup_insert_ne by done.
Qed.
(** Counting the subscriptions of the mailbox changes nothing. *)
Lemma cap_check_inv (p : I → SubscriptionRec → bool) n s e s' e' :
  (if bool_decide (0 < n) then
     count ← query (λ d : Db I, count_rows p (t_subscriptions d));
     if bool_decide (n ≤ count) then throw (SubscriptionLimit n) else mret tt
   else mret tt) (s, e) = (Ok tt, (s', e')) → sql_db s' = sql_db s ∧ e' = e.
Proof.
  case_bool_decide; [|by intros [= <- <-]].
  intros (cnt & [s1 e1] & ([= _ Hd] & _ & ->)%stmt_inv & Hc)%bind_inv. case_bool_decide; [done|].
  injection Hc as <- <-. done.
Qed.

Lemma sql_get_mailbox_subs a s e p :
  sql_subscribed (db_get_mailbox a (s, e)).2.1 p ↔ sql_subscribed s p.
Proof. rewrite db_get_mailbox_query. unfold query. rewrite stmt_run. by destruct (sql_faults s 0%nat). Qed.
End sql_subs.

Section sqlite.
Context `{UuidText}.

Lemma lite_decode_fields i r p :
  PushSubscription_try_from (select_subscription i r) = Ok p → ps_mailbox_address p = pr_mailbox_address r ∧ ps_endpoint p = pr_endpoint r.
Proof. unfold PushSubscription_try_from. repeat case_match; by intros [= <-]. Qed.
Lemma lite_decode_target i a k ep p256dh auth t p :
  PushSubscription_try_from
    (select_subscription i (mkSubscriptionRec a (SubscriptionKind_as_str k) ep p256dh auth t)) = Ok p →
  is_target a k ep p256dh auth p.
Proof.
  unfold PushSubscription_try_from. cbn. rewrite SubscriptionKind_from_as.
  destruct (parse_uuid i); [|done]. cbn. by intros [= <-].
Qed.
Abbreviation lite_subscribed := (sql_subscribed PushSubscription_try_from).

Lemma lite_add_sub a k ep p256dh auth n s e :
  let r := lite_add_subscription a k ep p256dh auth n (s, e) in
  (∀ p, lite_subscribed r.2.1 p → lite_subscribed s p ∨ is_target a k ep p256dh auth p) ∧
  (∀ p, lite_subscribed s p → lite_subscribed r.2.1 p ∨ at_endpoint a ep p) ∧
  ∀ sub, r.1 = Ok sub → is_target a k ep p256dh auth sub ∧ (uuids e → lite_subscribed r.2.1 sub).
Proof.
  cbn zeta. rewrite (assoc (∧)).
  assert (∀ s', writes_target a k ep p256dh auth (sql_db s) (sql_db s') ∨ sql_db s' = sql_db s →
    (∀ p, lite_subscribed s' p → lite_subscribed s p ∨ is_target a k ep p256dh auth p) ∧
    (∀ p, lite_subscribed s p → lite_subscribed s' p ∨ at_endpoint a ep p)) as Hw
    by (intros s'; apply writes_target_subs; [apply lite_decode_fields|apply lite_decode_target]).
  destruct (lite_add_subscription a k ep p256dh auth n (s, e)) as [res [s' e']] eqn:Hr. cbn [fst snd].
  unfold lite_add_subscription in Hr. unfold mbind at 1, M_bind at 1 in Hr.
  destruct (transaction _ (s, e)) as [[row|er] [s1 e1]] eqn:Ht.
  2: { apply transaction_err in Ht. injection Hr as <- <- <-. split; [|done]. apply Hw. by right. }
  apply transaction_inv in Ht as (s0 & s2 & Ht & Hd0 & _ & Hd1 & _).
  apply bind_inv in Ht as (old & [s3 e3] & ([= <- Hd3] & _ & ->)%stmt_inv & Ht). rewrite Hd0 in *.
  destruct (head (rows _ _)) as [[i r]|] eqn:Hh; cbn [fmap option_fmap option_map fst snd] in Ht.
  - apply bind_inv in Ht as ([] & [s4 e4] & (Hd4 & _ & ->)%exec_inv & Ht). injection Ht as <- <- <-.
    injection Hd4 as Hd4. rewrite <-Hd3 in Hd4. pose proof Hh as [Hi Hs]%rows_head.
    assert (t_subscriptions (sql_db s1) = <[i := mkSubscriptionRec (pr_mailbox_address r) (SubscriptionKind_as_str k)
      (pr_endpoint r) p256dh auth (pr_created_at r)]> (t_subscriptions (sql_db s))) as Hu.
    { rewrite Hd1, <-Hd4. cbn. by rewrite (alter_insert _ _ r). }
    assert (sql_db s' = sql_db s1 ∧ ∀ sub, res = Ok sub → is_target a k ep p256dh auth sub ∧
      PushSubscription_try_from (select_subscription i (mkSubscriptionRec (pr_mailbox_address r)
        (SubscriptionKind_as_str k) (pr_endpoint r) p256dh auth (pr_created_at r))) = Ok sub) as [Hs1 Hres].
    { apply same_endpoint_true in Hs as [<- <-]. revert Hr. unfold PushSubscription_try_from. cbn.
      rewrite SubscriptionKind_from_as. destruct (parse_uuid i); cbn; [|by intros [= <- <- <-]].
      destruct (lift_str _); cbn; [|by intros [= <- <- <-]].
      intros [= <- <- <-]. split; [done|]. by intros sub [= <-]. }
    split; [apply Hw; left; rewrite Hs1; by eapply head_writes|]. intros sub [Ht Hp]%Hres. split; [done|].
    intros _. exists i. eexists. rewrite Hs1, Hu, lookup_insert_eq. done.
  - apply bind_inv in Ht as ([] & [s4 e4] & Hc & Ht).
    apply cap_check_inv in Hc as [Hd4 ->].
    apply bind_inv in Ht as (u & [s5 e5] & [= <- <- <-] & Ht).
    apply bind_inv in Ht as (t & [s6 e6] & [= <- <- <-] & Ht).
    apply bind_inv in Ht as ([] & [s7 e7] & (Hi & _ & ->)%stmt_inv & Ht). injection Ht as <- <- <-.
    injection Hr as <- <- <-. rewrite Hd4, <-Hd3, <-Hd1 in Hi. apply insert_writes in Hi as [Hwr Hi].
    split; [apply Hw; by left|]. intros sub [= <-]. split; [by repeat split|]. intros Hu.
    eexists _, _. split; [exact Hi|]. unfold PushSubscription_try_from. cbn.
    unfold parse_uuid. rewrite uuid_parse_to_string by apply Hu. cbn. by rewrite SubscriptionKind_from_as.
Qed.

#[export] Instance SqliteStore_Subs : SubscriptionLaws SqliteStore := {|
  subscribed := lite_subscribed;
  subs_work := sql_subs_work PushSubscription_try_from;
  law_list_works := sql_list_works PushSubscription_try_from _;
  law_delete_works := sql_delete_works PushSubscription_try_from;
  law_add_sub := lite_add_sub;
  law_list_subs := sql_list_subs _ lite_decode_fields _;
  law_delete_sub := sql_delete_sub _ lite_decode_fields;
  law_get_mailbox_subs := sql_get_mailbox_subs _;
|}.

(** Rows of a consistent database decode. *)
Lemma lite_subs_work s : fault_free s → db_wf lite_id_ok (sql_db s) → sql_subs_work PushSubscription_try_from s.
Proof.
  intros Hf Hd. split; [done|]. intros i r (Hi%parse_uuid_ok & _ & Hk)%(dw_subscriptions _ _ Hd).
  unfold PushSubscription_try_from. cbn. destruct (parse_uuid i); [|done]. unfold lift_str.
  by destruct (SubscriptionKind_from_str _).
Qed.
End sqlite.

Lemma pg_decode_fields i r p :
  pg_PushSubscription_try_from (select_subscription i r) = Ok p → ps_mailbox_address p = pr_mailbox_address r ∧ ps_endpoint p = pr_endpoint r.
Proof. unfold pg_PushSubscription_try_from. repeat case_match; by intros [= <-]. Qed.
Lemma pg_decode_target i a k ep p256dh auth t p :
  pg_PushSubscription_try_from
    (select_subscription i (mkSubscriptionRec a (SubscriptionKind_as_str k) ep p256dh auth t)) = Ok p →
  is_target a k ep p256dh auth p.
Proof. unfold pg_PushSubscription_try_from. cbn. rewrite SubscriptionKind_from_as. cbn. by intros [= <-]. Qed.
Abbreviation pg_subscribed := (sql_subscribed pg_PushSubscription_try_from).

(** The upsert writes the row it answers. *)
Lemma upsert_writes id a k ep p256dh auth t (d d' : Db Uuid) row :
  pg_upsert_subscription id (mkSubscriptionRec a (SubscriptionKind_as_str k) ep p256dh auth t) d = Ok (row, d') →
  writes_target a k ep p256dh auth d d' ∧ ∃ i t',
    let r := mkSubscriptionRec a (SubscriptionKind_as_str k) ep p256dh auth t' in
    row = select_subscription i r ∧ t_subscriptions d' !! i = Some r.
Proof.
  unfold pg_upsert_subscription. cbn [pr_mailbox_address pr_endpoint pr_kind pr_p256dh pr_auth].
  destruct (head (rows _ _)) as [[i r]|] eqn:Hh.
  - intros [= <- <-]. pose proof Hh as [_ [Ha He]%same_endpoint_true]%rows_head. split; [by eapply head_writes|].
    exists i, (pr_created_at r). cbn. rewrite Ha, He, lookup_insert_eq. done.
  - destruct (sql_insert_subscription _ _ d) as [[[] d1]|] eqn:Hi; [|done]. intros [= <- <-].
    apply insert_writes in Hi as [? ?]. split; [done|]. by exists id, t.
Qed.
Lemma pg_add_sub a k ep p256dh auth n s e :
  let r := pg_add_subscription a k ep p256dh auth n (s, e) in
  (∀ p, pg_subscribed r.2.1 p → pg_subscribed s p ∨ is_target a k ep p256dh auth p) ∧
  (∀ p, pg_subscribed s p → pg_subscribed r.2.1 p ∨ at_endpoint a ep p) ∧
  ∀ sub, r.1 = Ok sub → is_target a k ep p256dh auth sub ∧ (uuids e → pg_subscribed r.2.1 sub).
Proof.
  cbn zeta. rewrite (assoc (∧)).
  assert (∀ s', writes_target a k ep p256dh auth (sql_db s) (sql_db s') ∨ sql_db s' = sql_db s →
    (∀ p, pg_subscribed s' p → pg_subscribed s p ∨ is_target a k ep p256dh auth p) ∧
    (∀ p, pg_subscribed s p → pg_subscribed s' p ∨ at_endpoint a ep p)) as Hw
    by (intros s'; apply writes_target_subs; [apply pg_decode_fields|apply pg_decode_target]).
  destruct (pg_add_subscription a k ep p256dh auth n (s, e)) as [res [s' e']] eqn:Hr. cbn [fst snd].
  unfold pg_add_subscription in Hr. unfold mbind at 1, M_bind at 1 in Hr.
  destruct (transaction _ (s, e)) as [[row|er] [s1 e1]] eqn:Ht.
  2: { apply transaction_err in Ht. injection Hr as <- <- <-. split; [|done]. apply Hw. by right. }
  apply transaction_inv in Ht as (s0 & s2 & Ht & Hd0 & _ & Hd1 & _).
  apply bind_inv in Ht as (t & [s3 e3] & [= <- <- <-] & Ht).
  apply bind_inv in Ht as ([] & [s4 e4] & [Hd4 ->]%cap_check_inv & Ht).
  apply bind_inv in Ht as (u & [s5 e5] & [= <- <- <-] & (Hu & _ & ->)%stmt_inv).
  rewrite Hd4, Hd0, <-Hd1 in Hu. apply upsert_writes in Hu as (Hwr & i & t & -> & Hi).
  assert (sql_db s' = sql_db s1 ∧ pg_PushSubscription_try_from (select_subscription i (mkSubscriptionRec a
    (SubscriptionKind_as_str k) ep p256dh auth t)) = res) as [Hs1 Hres] by by injection Hr as <- <- <-.
  split; [apply Hw; left; by rewrite Hs1|]. intros sub ->. split; [by eapply pg_decode_target|].
  intros _. exists i. eexists. rewrite Hs1. done.
Qed.

#[export] Instance PostgresStore_Subs : SubscriptionLaws PostgresStore := {|
  subscribed := pg_subscribed;
  subs_work := sql_subs_work pg_PushSubscription_try_from;
  law_list_works := sql_list_works pg_PushSubscription_try_from _;
  law_delete_works := sql_delete_works pg_PushSubscription_try_from;
  law_add_sub := pg_add_sub;
  law_list_subs := sql_list_subs _ pg_decode_fields _;
  law_delete_sub := sql_delete_sub _ pg_decode_fields;
  law_get_mailbox_subs := sql_get_mailbox_subs _;
|}.
Lemma pg_subs_work s : fault_free s → db_wf pg_id_ok (sql_db s) → sql_subs_work pg_PushSubscription_try_from s.
Proof.
  intros Hf Hd. split; [done|]. intros i r (_ & _ & Hk)%(dw_subscriptions _ _ Hd).
  unfold pg_PushSubscription_try_from, lift_str. cbn. by destruct (SubscriptionKind_from_str _).
Qed.

(** ** The guarantees *)

(** C27: delivering an event prunes exactly the dead endpoints. Whatever the push services
    answer, no subscription is added or altered; one survives unless the service of a
    subscription at the same endpoint of the event's mailbox declared it gone; and when
    the store answers, none declared gone survives. This holds of every backend; the
    in-memory store always answers, a database does when no round trip fails and its rows
    decode, which those of a consistent database do. *)
Theorem deliver_prunes_gone {S} `{SubscriptionLaws S} senders event s e :
  let s' := (deliver senders event (s, e)).2.1 in
  (∀ p, subscribed s' p → subscribed s p) ∧
  (∀ p, subscribed s p → ¬ endpoint_gone senders event s p → subscribed s' p) ∧
  (subs_work s → ∀ p, endpoint_gone senders event s p → ¬ subscribed s' p).
Proof. apply deliver_subs. Qed.

Definition demo_sub (ep : str) : PushSubscription :=
  mkPushSubscription 1 (lit "a@x.io") Apns ep [] [] 5.
Definition demo_store : MemoryStore :=
  set_subs [demo_sub (lit "dead"); demo_sub (lit "live")] new.
Definition demo_senders : Senders :=
  mkSenders None (Some (λ p _, if bool_decide (ps_endpoint p = lit "dead") then Gone else Delivered)).
Definition demo_event : MailEvent := mkMailEvent (lit "a@x.io") 1 (lit "s@y.io") None 7 false None.

(** The same two subscriptions in a database without failures. *)
Definition demo_subscribing : list op :=
  [OpCreateMailbox (lit "a@x.io") (lit "x.io") 99 None None;
   OpSubscribe (lit "a@x.io") Apns (lit "dead") [] [] 5; OpSubscribe (lit "a@x.io") Apns (lit "live") [] [] 5].
Definition lite_subs : SqliteStore * Env :=
  @run_ops _ (@SqliteStore_Store hex_UuidText) demo_subscribing
    (lite_with_quotas UNLIMITED (lite_new (λ _, false)), sql_demo_env).
Definition lite_dead : PushSubscription := mkPushSubscription 10 (lit "a@x.io") Apns (lit "dead") [] [] 1001.

Lemma lite_subs_answer : @subs_work _ _ (@SqliteStore_Subs hex_UuidText) lite_subs.1.
Proof.
  apply lite_subs_work; [intros n; vm_compute; reflexivity|].
  assert (sql_wf (@lite_id_ok hex_UuidText) lite_subs) as [Hd _]; [|exact Hd].
  apply (run_ops_preserves (sql_wf (@lite_id_ok hex_UuidText))); [apply lite_keep_op, lite_key_ok|].
  split; [apply db_wf_empty|apply sql_demo_uuids].
Qed.
Lemma lite_dead_subscribed : @subscribed _ _ (@SqliteStore_Subs hex_UuidText) lite_subs.1 lite_dead.
Proof.
  exists (hex_text 32 10), (mkSubscriptionRec (lit "a@x.io") (lit "apns") (lit "dead") [] [] 1001).
  split; vm_compute; reflexivity.
Qed.
Lemma demo_gone {S} `{SubscriptionLaws S} (s : S) p :
  subscribed s p → ps_mailbox_address p = lit "a@x.io" → ps_kind p = Apns → ps_endpoint p = lit "dead" →
  endpoint_gone demo_senders demo_event s p.
Proof.
  intros Hp Ha Hk He. exists p, (λ p _, if bool_decide (ps_endpoint p = lit "dead") then Gone else Delivered).
  rewrite Hk, He, bool_decide_true by done. by repeat split.
Qed.

Lemma deliver_prunes_gone_witness :
  let s' := (deliver demo_senders demo_event (demo_store, demo_env)).2.1 in
  (¬ subscribed s' (demo_sub (lit "dead")) ∧ subscribed s' (demo_sub (lit "live"))) ∧
  ¬ @subscribed _ _ (@SqliteStore_Subs hex_UuidText)
      (@deliver _ (@SqliteStore_Store hex_UuidText) demo_senders demo_event lite_subs).2.1 lite_dead.
Proof.
  destruct (deliver_prunes_gone demo_senders demo_event demo_store demo_env) as (_ & H2 & H3).
  split; [split|].
  - apply (H3 I), demo_gone; [left|done..].
  - apply H2; [right; left|]. intros (p & send & Hp & _ & Hk & Hg & Hat). cbn in Hp.
    apply elem_of_cons in Hp as [->|Hp]; [by destruct Hat|].
    apply list_elem_of_singleton in Hp as ->. injection Hk as <-. vm_compute in Hg. done.
  - destruct (@deliver_prunes_gone _ _ (@SqliteStore_Subs hex_UuidText) demo_senders demo_event lite_subs.1 lite_subs.2)
      as (_ & _ & H4). rewrite <-surjective_pairing in H4.
    apply (H4 lite_subs_answer), demo_gone; [apply lite_dead_subscribed|done..].
Defined.

(** The events received before the bus closes, each with the position it was received at. *)
Fixpoint delivered_from (n : nat) (l : list recv) : list (nat * MailEvent) :=
  match l with
  | [] | Closed :: _ => []
  | Event ev :: l => (n, ev) :: delivered_from (S n) l
  | Lagged _ :: l => delivered_from (S n) l
  end.

Lemma deliver_ok {S} `{Store S} senders event w : (deliver senders event w).1 = Ok tt.
Proof.
  unfold deliver, mbind, M_bind, try. destruct (list_subscriptions _ w) as [[l|er] w1]; [|done].
  case_bool_decide; [done|]. generalize (send_all senders (payload_of event) l) as rs. clear l H0.
  intros rs. revert w1. induction rs as [|[q o] rs IH]; intros w1; [done|]. cbn [prune].
  case_bool_decide; unfold mbind, M_bind, try; [|apply IH].
  destruct (delete_subscription _ _ w1) as [? w2]. apply IH.
Qed.

(** C28: the worker lives as long as the bus. Every event received before the bus closes is
    delivered, in order, each with what the push services answer at that moment; missed
    events, failing stores and failing services never stop it. *)
Theorem push_worker_delivers_all {S} `{Store S} senders l w :
  run senders l w =
  (Ok tt, foldl (λ w x, (deliver (senders x.1) x.2 w).2) w (delivered_from 0 l)).
Proof.
  enough (∀ n f w, (∀ i, f i = senders (n + i)%nat) → run f l w =
    (Ok tt, foldl (λ w x, (deliver (senders x.1) x.2 w).2) w (delivered_from n l))) as Hgen
    by by apply (Hgen 0%nat).
  induction l as [|[ev|k|] l IH]; intros n f v Hf; [done| | |done]; cbn [run delivered_from foldl fst snd].
  - pose proof (deliver_ok (f 0%nat) ev v) as Hok. unfold mbind, M_bind.
    destruct (deliver (f 0%nat) ev v) as [r v'] eqn:Hr. cbn in Hok. subst r.
    rewrite <-(Nat.add_0_r n), <-Hf, Hr at 1. cbn [snd]. apply IH. intros i. unfold shift. rewrite Hf. f_equal. lia.
  - apply IH. intros i. unfold shift. rewrite Hf. f_equal. lia.
Qed.
