(* ===== verification/Api.v ===== *)
(** * Api: the state, errors, tokens and gates of the HTTP handlers

    [src/api/mod.rs] (state and errors), [src/api/auth.rs] (owner tokens),
    [src/api/entitlements.rs] and [src/entitlements.rs] (client tokens and tiers). A
    handler is a computation on the application world that ends in a response or an
    [ApiError]. Hashing, base64 and JSON web tokens are third-party code: parameters,
    gathered in the class [Crypto]. *)

From S2P Require Import Prelude Str Model Config StoreSpec CustomDomains Limits Attest.

Inductive ApiError :=
| NotFound (m : str)
| Conflict (m : str)
| BadRequest (m : str)
| Unauthorized (m : str)
| TooManyRequests (m : str)
| ServiceUnavailable (m : str)
| Coded (status : Z) (code message : str)
| Internal (e : anyhow).

Definition pro_required (message : str) : ApiError := Coded 403 (lit "pro_required") message.
Definition lifetime_cap (message : str) : ApiError := Coded 403 (lit "lifetime_cap") message.
Definition mailbox_cap (message : str) : ApiError := Coded 403 (lit "mailbox_cap") message.

(** The status code of an error response. *)
Definition error_status (e : ApiError) : Z :=
  match e with
  | NotFound _ => 404
  | Conflict _ => 409
  | BadRequest _ => 400
  | Unauthorized _ => 401
  | TooManyRequests _ => 429
  | ServiceUnavailable _ => 503
  | Coded status _ _ => status
  | Internal _ => 500
  end.

(** ** Client tokens *)

Definition CLIENT_TOKEN_TTL_SECONDS : Z := 43200.
Definition KIND_UNATTESTED : str := lit "unattested".
Definition KIND_IOS : str := lit "ios".
Definition CLIENT_TOKEN_HEADER : str := lit "x-client-token".

Record ClientClaims := mkClientClaims {
  cc_kind : str;
  cc_kid : option str;
  cc_tier : Tier;
  cc_iat : Z;
  cc_exp : Z;
}.
Definition is_attested (c : ClientClaims) : bool := negb (bool_decide (cc_kind c = KIND_UNATTESTED)).

Inductive TokenError := Expired | Invalid.

(** [sha2::Sha256::digest], [URL_SAFE_NO_PAD.encode], [jsonwebtoken::encode] with HS256
    and a key, and [jsonwebtoken::decode] with HS256, a key and a leeway of 5 seconds,
    at a time: the claims, an expired signature, or another error. A digest is made of
    bytes. *)
Class Crypto := {
  sha256 : bytes → bytes;
  sha256_bytes b : Forall (λ x, 0 ≤ x < 256) (sha256 b);
  base64_url : bytes → str;
  jwt_encode : bytes → ClientClaims → result str anyhow;
  jwt_decode : bytes → str → Time → result ClientClaims bool;
}.

Definition verify_client_token `{Crypto} (signing_key : bytes) (token : str) (now : Time)
    : result ClientClaims TokenError :=
  match jwt_decode signing_key token now with
  | Ok claims => Ok claims
  | Err true => Err Expired
  | Err false => Err Invalid
  end.

(** [DateTime::timestamp]: whole seconds, rounded down. *)
Definition timestamp (t : Time) : Z := t / nanos_per_second.

(** ** Owner tokens *)

Definition TOKEN_PREFIX : str := lit "am_".
Definition DOMAIN_TOKEN_PREFIX : str := lit "amd_".

Definition hash_token `{Crypto} (token : str) : str := hex (sha256 (as_bytes token)).

Definition generate_token `{Crypto} (prefix : str) (e : Env) : (str * str) * Env :=
  let '(b, e) := env_randoms 256 32 e in
  let token := prefix ++ base64_url b in
  ((token, hash_token token), e).
Definition generate_owner_token `{Crypto} : Env → (str * str) * Env := generate_token TOKEN_PREFIX.

Definition constant_time_eq (a b : bytes) : bool :=
  if negb (bool_decide (length a = length b)) then false
  else bool_decide (fold_left (λ acc xy, Z.lor acc (Z.lxor xy.1 xy.2)) (zip a b) 0 = 0).

Definition token_matches_hash `{Crypto} (presented want_hash : str) : bool :=
  constant_time_eq (as_bytes (hash_token presented)) (as_bytes want_hash).

Definition bearer_token (headers : HeaderMap) : option str :=
  match headers (lit "authorization") with
  | None => None
  | Some value =>
      match split_once (Z.eqb 32) (trim value) with
      | None => None
      | Some (scheme, rest) =>
          if negb (eq_ignore_ascii_case scheme (lit "bearer")) then None
          else trimmed_nonempty rest
      end
  end.

(** ** The application world *)

Record App (S : Type) := mkApp {
  ap_st : S * Env;
  ap_limits : RuntimeLimits;
  ap_challenges : ChallengeStore;
}.
Arguments mkApp {S} _ _ _.
Arguments ap_st {S} _.
Arguments ap_limits {S} _.
Arguments ap_challenges {S} _.

Record VerifyRequest := mkVerifyRequest { vq_rc_app_user_id : option str }.

Record VerifyResponse := mkVerifyResponse {
  vp_client_token : str;
  vp_tier : Tier;
  vp_expires_at : Time;
}.

Section handlers.
Context {S : Type} `{Store S} `{Crypto}.
Variable config : Config.

Abbreviation AppM A := (M (App S) ApiError A).

Definition app_store {A} (m : SM S A) : M (App S) anyhow A := λ w,
  let '(r, st) := m (ap_st w) in (r, mkApp st (ap_limits w) (ap_challenges w)).
(** [store.op().await?]: an error becomes a 500. *)
Definition store_q {A} (m : SM S A) : AppM A := with_err Internal (app_store m).
Definition store_try {A} (m : SM S A) : AppM (result A anyhow) := try (app_store m).
Definition app_now : AppM Time := store_q utc_now.
(** Draw from the process's random source. *)
Definition app_random {A} (f : Env → A * Env) : AppM A := λ w,
  let '(a, e) := f (ap_st w).2 in (Ok a, mkApp ((ap_st w).1, e) (ap_limits w) (ap_challenges w)).
Definition app_limits {A} (f : RuntimeLimits → A * RuntimeLimits) : AppM A := λ w,
  let '(a, l) := f (ap_limits w) in (Ok a, mkApp (ap_st w) l (ap_challenges w)).
Definition app_challenges {A} (f : ChallengeStore → A * ChallengeStore) : AppM A := λ w,
  let '(a, c) := f (ap_challenges w) in (Ok a, mkApp (ap_st w) (ap_limits w) c).

Definition or_404 {A} (o : option A) (m : str) : AppM A :=
  match o with Some a => mret a | None => throw (NotFound m) end.

Definition mint_client_token (signing_key : bytes) (kind : str) (kid : option str) (tier : Tier)
    (ttl : Z) : AppM (str * Time) :=
  now ← app_now;
  let expires_at := now + ttl in
  let claims := mkClientClaims kind kid tier (timestamp now) (timestamp expires_at) in
  match jwt_encode signing_key claims with
  | Ok token => mret (token, expires_at)
  | Err e => throw (Internal e)
  end.

Definition client_claims (headers : HeaderMap) : AppM (option ClientClaims) :=
  match headers CLIENT_TOKEN_HEADER ≫= trimmed_nonempty with
  | None => mret None
  | Some raw =>
      match token_signing_key config with
      | None => mret None
      | Some signing_key =>
          now ← app_now;
          match verify_client_token signing_key raw now with
          | Ok claims => mret (Some claims)
          | Err Expired => throw (Coded 401 (lit "client_token_expired")
                                    (lit "client token expired, refresh it and retry"))
          | Err Invalid => throw (Coded 401 (lit "client_token_invalid")
                                    (lit "client token invalid"))
          end
      end
  end.

Definition attestation_gate (headers : HeaderMap) : AppM (option ClientClaims) :=
  claims ← client_claims headers;
  if negb (client_attestation_required config) then mret claims
  else
    match claims with
    | Some c =>
        if is_attested c then mret (Some c)
        else throw (Coded 401 (lit "attestation_required")
                      (lit "this server requires an attested client token; obtain one via POST /api/client/attest"))
    | None => throw (Coded 401 (lit "attestation_required")
                       (lit "this server requires an attested client token; obtain one via POST /api/client/attest"))
    end.

Definition client_tier (headers : HeaderMap) : AppM Tier :=
  claims ← client_claims headers;
  mret (match claims with Some c => cc_tier c | None => Free end).

Definition enforced_tier (headers : HeaderMap) : AppM (option Tier) :=
  if negb (entitlements_enforced config) then mret None
  else tier ← client_tier headers; mret (Some tier).

Definition authorize_owner (address : str) (headers : HeaderMap) : AppM Mailbox :=
  o ← store_q (get_mailbox address);
  mailbox ← or_404 o (lit "mailbox not found");
  match bearer_token headers with
  | None => throw (Unauthorized (lit "missing bearer token"))
  | Some presented =>
      match mb_owner_token_hash mailbox with
      | None => throw (Unauthorized (lit "mailbox has no owner token"))
      | Some want =>
          if token_matches_hash presented want then mret mailbox
          else throw (Unauthorized (lit "invalid owner token"))
      end
  end.

(** [resolve_tier]: pro only from an active entitlement of the purchase verifier, which is
    a service: [None] when the server has none, [Err] when it does not answer. *)
Definition resolve_tier (is_pro : option (str → result bool anyhow)) (rc_app_user_id : option str)
    : AppM Tier :=
  match rc_app_user_id ≫= trimmed_nonempty, is_pro with
  | Some id, Some pro =>
      match pro id with
      | Ok true => mret Pro
      | Ok false => mret Free
      | Err _ => throw (ServiceUnavailable
                   (lit "entitlement verification is temporarily unavailable, retry later"))
      end
  | _, _ => mret Free
  end.

(** [POST /api/entitlements/verify]. *)
Definition verify (is_pro : option (str → result bool anyhow)) (headers : HeaderMap)
    (body : option VerifyRequest) : AppM VerifyResponse :=
  match token_signing_key config with
  | None => throw (ServiceUnavailable (lit "entitlements are not configured on this server"))
  | Some signing_key =>
      attestation_gate headers;;
      let req := default (mkVerifyRequest None) body in
      tier ← resolve_tier is_pro (vq_rc_app_user_id req);
      te ← mint_client_token signing_key KIND_UNATTESTED None tier (seconds CLIENT_TOKEN_TTL_SECONDS);
      mret (mkVerifyResponse te.1 tier te.2)
  end.
End handlers.

(** ** Lemmas *)

Lemma fold_lor_zero l acc :
  fold_left (λ acc xy, Z.lor acc (Z.lxor xy.1 xy.2)) l acc = 0 ↔
  acc = 0 ∧ Forall (λ xy : Z * Z, xy.1 = xy.2) l.
Proof.
  revert acc. induction l as [|[x y] l IH]; intros acc; cbn; [naive_solver|].
  rewrite IH, Z.lor_eq_0_iff, Z.lxor_eq_0_iff, Forall_cons. naive_solver.
Qed.

Lemma constant_time_eq_spec a b : constant_time_eq a b = bool_decide (a = b).
Proof.
  apply eq_true_iff_eq. unfold constant_time_eq. rewrite bool_decide_eq_true.
  destruct (bool_decide (length a = length b)) eqn:Hl; boolify; cbn.
  - rewrite bool_decide_eq_true, fold_lor_zero. split.
    + intros [_ Hf]. revert b Hl Hf. induction a as [|x a IH]; intros [|y b] Hl Hf; try done.
      cbn in *. apply Forall_cons in Hf as [Hxy Hf]. cbn in Hxy. subst. f_equal. auto.
    + intros ->. split; [done|]. clear Hl. induction b; cbn; constructor; done.
  - split; [done|]. by intros ->.
Qed.

Lemma hex_ascii b : Forall (λ x, 0 ≤ x < 256) b → is_ascii (hex b) = true.
Proof.
  intros Hb. unfold is_ascii, hex. apply all_true.
  assert (∀ n, 0 ≤ n < 16 → is_ascii_char (hex_digit n) = true) as Hd.
  { intros n Hn. unfold is_ascii_char, hex_digit. apply in_range_spec.
    destruct (Z.ltb_spec n 10); lia. }
  induction Hb as [|x b Hx Hb IH]; cbn; [intros c Hc; by apply not_elem_of_nil in Hc|].
  intros c Hc. apply elem_of_cons in Hc as [->|Hc]; [apply Hd; lia_div|].
  apply elem_of_cons in Hc as [->|Hc]; [apply Hd; lia_div|by apply IH].
Qed.

Lemma as_bytes_inj s t : valid_str s = true → valid_str t = true → as_bytes s = as_bytes t → s = t.
Proof.
  intros Hs Ht Heq. apply (f_equal from_utf8_lossy) in Heq.
  by rewrite !from_utf8_lossy_as_bytes in Heq.
Qed.

Section tokens.
Context `{Crypto}.

Lemma hash_token_valid t : valid_str (hash_token t) = true.
Proof. apply is_ascii_valid, hex_ascii, sha256_bytes. Qed.

(** The constant-time comparison of hashes is equality. *)
Lemma token_matches_hash_spec presented want :
  valid_str want = true → token_matches_hash presented want = bool_decide (hash_token presented = want).
Proof.
  intros Hw. unfold token_matches_hash. rewrite constant_time_eq_spec.
  apply bool_decide_ext. split; [|by intros ->]. apply as_bytes_inj; [apply hash_token_valid|done].
Qed.
End tokens.
