(* ===== verification/ApiAddresses.v ===== *)
(** * ApiAddresses: mailbox, message and custom-domain endpoints

    [src/api/addresses.rs], the owner-gated part of [src/api/messages.rs], and
    [src/api/custom_domains.rs], against the [Store] interface. *)

From S2P Require Import Prelude Str Model Config StoreSpec CustomDomains Limits Api.

Definition LOCAL_PART_CHARSET : str := lit "abcdefghijklmnopqrstuvwxyz0123456789".
Definition RANDOM_LOCAL_PART_LEN : nat := 10%nat.
Definition MAX_LOCAL_PART_LEN : Z := 64.
Definition RANDOM_CREATE_ATTEMPTS : nat := 5%nat.

Definition random_local_part (e : Env) : str * Env :=
  let '(l, e) := env_randoms (len LOCAL_PART_CHARSET) RANDOM_LOCAL_PART_LEN e in
  (map (λ i, nth (Z.to_nat i) LOCAL_PART_CHARSET 0) l, e).

Definition is_sep (b : Z) : bool := (b =? 46) || (b =? 95) || (b =? 45).
Definition is_valid_local_part (local : str) : bool :=
  if bool_decide (local = []) || bool_decide (MAX_LOCAL_PART_LEN < str_len local) then false
  else if negb (all (λ b, is_ascii_lowercase b || is_ascii_digit b || is_sep b) (as_bytes local))
  then false
  else negb (is_sep (default 0 (head (as_bytes local)))) && negb (is_sep (default 0 (last (as_bytes local)))).

(** [date_naive]: the day of a timestamp. *)
Definition date_naive (t : Time) : Z := t / days 1.

Record CreateAddressRequest := mkCreateAddressRequest {
  car_local_part : option str;
  car_domain : option str;
}.
Record CreateAddressResponse := mkCreateAddressResponse {
  cr_mailbox : Mailbox;
  cr_owner_token : str;
}.

Record RotateTokenResponse := mkRotateTokenResponse { rt_owner_token : str }.

(** The query of a listing, the answer of a cleared inbox, a claim. *)
Record ListQuery := mkListQuery { lq_limit : option Z; lq_since : option Uuid }.
Record ClearInboxResponse := mkClearInboxResponse { cl_deleted : Z }.
Record CreateDomainRequest := mkCreateDomainRequest { cdq_domain : str }.

Section endpoints.
Context {S : Type} `{Store S} `{Crypto} `{ParseIp}.
Variable config : Config.

Abbreviation AppM A := (M (App S) ApiError A).

(** ** Custom-domain authorization *)

Definition authorize_domain (domain : str) (headers : HeaderMap) : AppM CustomDomain :=
  let domain := to_ascii_lowercase (trim_end_matches 46 (trim domain)) in
  o ← store_q (get_custom_domain domain);
  record ← or_404 o (lit "domain not found");
  match bearer_token headers with
  | None => throw (Unauthorized (lit "missing bearer token"))
  | Some presented =>
      if token_matches_hash presented (cd_claim_token_hash record) then mret record
      else throw (Unauthorized (lit "invalid claim token"))
  end.

Definition authorize_mailbox_on_custom_domain (domain : str) (headers : HeaderMap) : AppM unit :=
  o ← store_q (get_custom_domain domain);
  match o with
  | None => throw (BadRequest (lit "unknown domain: " ++ domain))
  | Some record =>
      match bearer_token headers with
      | None => throw (Unauthorized (lit "custom domains require their claim token"))
      | Some presented =>
          if negb (token_matches_hash presented (cd_claim_token_hash record))
          then throw (Unauthorized (lit "invalid claim token"))
          else if negb (bool_decide (cd_status record = Verified))
          then throw (BadRequest (lit "domain not verified: " ++ domain))
          else mret tt
      end
  end.

(** ** [POST /api/addresses] *)

(** The domain of the new mailbox. [config.domains[0]] of an empty list would panic; the
    configuration is refused at startup when no domain is given. *)
Definition resolve_domain (policy : option TierPolicy) (headers : HeaderMap) (domain : option str)
    : AppM str :=
  match domain with
  | None => mret (default [] (head (domains config)))
  | Some d =>
      let d := to_ascii_lowercase (trim d) in
      match list_find (λ x, x = d) (domains config) with
      | Some (index, _) =>
          match policy with
          | Some policy =>
              if bool_decide (0 < domain_count policy)
                 && bool_decide (domain_count policy ≤ Z.of_nat index)
              then throw (pro_required (lit "domain requires a higher tier: " ++ d))
              else mret d
          | None => mret d
          end
      | None =>
          if custom_domains_enabled config then
            (match policy with
             | Some policy =>
                 if negb (custom_domains policy)
                 then throw (pro_required (lit "custom domains require a higher tier"))
                 else mret tt
             | None => mret tt
             end);;
            authorize_mailbox_on_custom_domain d headers;;
            mret d
          else throw (BadRequest (lit "unknown domain: " ++ d))
      end
  end.

Definition resolve_local (policy : option TierPolicy) (local_part : option str)
    : AppM (option str) :=
  match local_part with
  | None => mret None
  | Some local_part =>
      let local := to_ascii_lowercase (trim local_part) in
      if negb (is_valid_local_part local) then
        throw (BadRequest (lit "local_part must be 1-64 chars of a-z, 0-9, '.', '_' or '-' and not start/end with a separator"))
      else if is_reserved_local_part config local then
        throw (BadRequest (lit "local_part is reserved: " ++ local))
      else
        match policy with
        | Some policy =>
            if negb (custom_local_parts policy)
            then throw (pro_required (lit "custom local parts require a higher tier"))
            else mret (Some local)
        | None => mret (Some local)
        end
  end.

Definition device_cap (policy : option TierPolicy) (device_hash : option str) : AppM unit :=
  match policy, device_hash with
  | Some policy, Some hash =>
      if bool_decide (0 < active_mailboxes policy) then
        t ← app_now;
        active ← store_q (count_active_mailboxes_by_device hash t);
        if bool_decide (active_mailboxes policy ≤ active) then
          throw (mailbox_cap (lit "this tier allows " ++ fmt_int (active_mailboxes policy)
                                ++ lit " active mailboxes per device"))
        else mret tt
      else mret tt
  | _, _ => mret tt
  end.

(** The retry loop for a random local part. *)
Fixpoint create_random (n : nat) (domain : str) (expires_at : Time) (device_hash : option str)
    : AppM CreateAddressResponse :=
  match n with
  | O => throw (Internal (Anyhow (lit "could not allocate a unique random address after 5 attempts")))
  | Datatypes.S n =>
      tok ← app_random generate_owner_token;
      local ← app_random random_local_part;
      let address := local ++ lit "@" ++ domain in
      r ← store_try (create_mailbox address domain expires_at (Some tok.2) device_hash);
      match r with
      | Ok mailbox => mret (mkCreateAddressResponse mailbox tok.1)
      | Err e => if is_unique_violation e then create_random n domain expires_at device_hash
                 else throw (Internal e)
      end
  end.

Definition create (peer : IpAddr) (headers : HeaderMap) (body : option CreateAddressRequest)
    : AppM CreateAddressResponse :=
  let req := default (mkCreateAddressRequest None None) body in
  client ← attestation_gate config headers;
  let policy :=
    if entitlements_enforced config
    then Some (tier_policy config (match client with Some c => cc_tier c | None => Free end))
    else None in
  let device_hash := hash_token <$> (client ≫= cc_kid) in
  domain ← resolve_domain policy headers (car_domain req);
  local ← resolve_local policy (car_local_part req);
  device_cap policy device_hash;;
  let ip := client_ip headers peer (api_trust_proxy_headers config) in
  t ← app_now;
  allowed ← app_limits (note_address_created ip (date_naive t));
  if negb allowed then throw (TooManyRequests (lit "daily address creation limit reached"))
  else
    let ttl := mailbox_ttl config in
    t ← app_now;
    let expires_at := t + ttl in
    match local with
    | Some local =>
        tok ← app_random generate_owner_token;
        let address := local ++ lit "@" ++ domain in
        r ← store_try (create_mailbox address domain expires_at (Some tok.2) device_hash);
        match r with
        | Ok mailbox => mret (mkCreateAddressResponse mailbox tok.1)
        | Err e => if is_unique_violation e
                   then throw (Conflict (lit "address already exists: " ++ address))
                   else throw (Internal e)
        end
    | None => create_random RANDOM_CREATE_ATTEMPTS domain expires_at device_hash
    end.

(** ** The other address endpoints *)

Definition get (address : str) : AppM Mailbox :=
  let address := to_ascii_lowercase address in
  o ← store_q (get_mailbox address);
  or_404 o (lit "mailbox not found").

Definition extend (address : str) (headers : HeaderMap) : AppM Mailbox :=
  let address := to_ascii_lowercase address in
  attestation_gate config headers;;
  mailbox ← authorize_owner address headers;
  t ← app_now;
  let new_expiry := t + mailbox_ttl config in
  tier ← enforced_tier config headers;
  (match tier with
   | Some tier =>
       let policy := tier_policy config tier in
       if bool_decide (0 < max_lifetime_seconds policy)
          && bool_decide (seconds (as_i64 (max_lifetime_seconds policy))
                          < new_expiry - mb_created_at mailbox)
       then throw (lifetime_cap (lit "extending would exceed this tier's max mailbox lifetime of "
                                   ++ fmt_int (max_lifetime_seconds policy) ++ lit "s"))
       else mret tt
   | None => mret tt
   end);;
  o ← store_q (extend_mailbox address new_expiry);
  or_404 o (lit "mailbox not found").

Definition delete (address : str) (headers : HeaderMap) : AppM unit :=
  let address := to_ascii_lowercase address in
  attestation_gate config headers;;
  authorize_owner address headers;;
  existed ← store_q (delete_mailbox address);
  if (existed : bool) then mret tt else throw (NotFound (lit "mailbox not found")).

Definition rotate (address : str) (headers : HeaderMap) : AppM RotateTokenResponse :=
  let address := to_ascii_lowercase address in
  attestation_gate config headers;;
  authorize_owner address headers;;
  tok ← app_random generate_owner_token;
  existed ← store_q (rotate_owner_token address tok.2);
  if (existed : bool) then mret (mkRotateTokenResponse tok.1) else throw (NotFound (lit "mailbox not found")).

(** ** Messages *)

Definition DEFAULT_PAGE_SIZE : Z := 50.
Definition MAX_PAGE_SIZE : Z := 200.

Definition messages_list (address : str) (query : ListQuery) : AppM (list MessageSummary) :=
  let address := to_ascii_lowercase address in
  o ← store_q (get_mailbox address);
  or_404 o (lit "mailbox not found");;
  let limit := Z.max 1 (Z.min MAX_PAGE_SIZE (default DEFAULT_PAGE_SIZE (lq_limit query))) in
  store_q (list_messages address limit (lq_since query)).

Definition messages_get (address : str) (id : Uuid) : AppM StoredMessage :=
  o ← store_q (get_message (to_ascii_lowercase address) id);
  or_404 o (lit "message not found").

Definition messages_mark_read (address : str) (id : Uuid) : AppM unit :=
  b ← store_q (mark_seen (to_ascii_lowercase address) id);
  if (b : bool) then mret tt else throw (NotFound (lit "message not found")).

Definition messages_clear (address : str) (headers : HeaderMap) : AppM ClearInboxResponse :=
  let address := to_ascii_lowercase address in
  attestation_gate config headers;;
  authorize_owner address headers;;
  deleted ← store_q (delete_all_messages address);
  mret (mkClearInboxResponse deleted).

Definition messages_delete (address : str) (id : Uuid) (headers : HeaderMap) : AppM unit :=
  let address := to_ascii_lowercase address in
  attestation_gate config headers;;
  authorize_owner address headers;;
  b ← store_q (delete_message address id);
  if (b : bool) then mret tt else throw (NotFound (lit "message not found")).

(** ** Custom domains *)

Record CustomDomainResponse := mkCustomDomainResponse {
  cdr_domain : str;
  cdr_status : CustomDomainStatus;
  cdr_txt_record : str;
  cdr_mx_target : str;
  cdr_claim_token : option str;
  cdr_verified_at : option Time;
  cdr_checks : option (list DnsCheck);
}.
Definition domain_response (record : CustomDomain) : CustomDomainResponse :=
  mkCustomDomainResponse (cd_domain record) (cd_status record) (txt_value (cd_txt_token record))
    (to_ascii_lowercase (smtp_hostname config)) None (cd_verified_at record) None.

Definition domain_create (peer : IpAddr) (headers : HeaderMap) (req : CreateDomainRequest)
    : AppM CustomDomainResponse :=
  attestation_gate config headers;;
  tier ← enforced_tier config headers;
  (match tier with
   | Some tier => if negb (custom_domains (tier_policy config tier))
                  then throw (pro_required (lit "custom domains require a higher tier")) else mret tt
   | None => mret tt
   end);;
  domain ← of_result (map_err BadRequest (validate_claimable config (cdq_domain req)));
  let ip := client_ip headers peer (api_trust_proxy_headers config) in
  t ← app_now;
  allowed ← app_limits (note_domain_created ip (date_naive t));
  if negb allowed then throw (TooManyRequests (lit "daily custom-domain limit reached"))
  else
    tok ← app_random (generate_token DOMAIN_TOKEN_PREFIX);
    txt_token ← app_random generate_txt_token;
    r ← store_try (create_custom_domain domain tok.2 txt_token);
    match r with
    | Ok record =>
        let resp := domain_response record in
        mret (mkCustomDomainResponse (cdr_domain resp) (cdr_status resp) (cdr_txt_record resp)
                (cdr_mx_target resp) (Some tok.1) (cdr_verified_at resp) (cdr_checks resp))
    | Err e => if is_unique_violation e
               then throw (Conflict (lit "domain already claimed: " ++ domain))
               else throw (Internal e)
    end.

Definition domain_get (domain : str) (headers : HeaderMap) : AppM CustomDomainResponse :=
  record ← authorize_domain domain headers;
  mret (domain_response record).

Definition domain_verify (dns : DomainDns) (domain : str) (headers : HeaderMap)
    : AppM CustomDomainResponse :=
  attestation_gate config headers;;
  record ← authorize_domain domain headers;
  t ← app_now;
  allowed ← app_limits (try_begin_domain_verify (cd_domain record) t);
  if negb allowed
  then throw (TooManyRequests (lit "verification already ran moments ago, retry shortly"))
  else
    r ← store_q (check_and_record dns config record);
    let '(checks, status, verified_at) := r in
    let resp := domain_response record in
    mret (mkCustomDomainResponse (cdr_domain resp) status (cdr_txt_record resp)
            (cdr_mx_target resp) None verified_at (Some checks)).

Definition domain_delete (domain : str) (headers : HeaderMap) : AppM unit :=
  attestation_gate config headers;;
  record ← authorize_domain domain headers;
  b ← store_q (delete_custom_domain (cd_domain record));
  if (b : bool) then mret tt else throw (NotFound (lit "domain not found")).
End endpoints.
