(* ===== verification/ApiLaws.v ===== *)
(** * ApiLaws: what the HTTP handlers guarantee

    Proved against the laws of the [Store] interface: the gates decide who may change a
    mailbox or a domain, creation hands out exactly one new mailbox whose token is the
    one returned, rotation revokes the previous token, tiers cap lifetimes and devices. *)

From S2P Require Import Prelude Str Model Config StoreSpec CustomDomains Attest.
From S2P Require Import Limits Api ApiAddresses MemoryStore MemoryStoreLaws MemoryMessages MemoryClaims.

Section laws.
Context {S : Type} `{SL : StoreLaws S} `{Crypto} `{ParseIp}.
Variable config : Config.

Implicit Types w : App S.
Abbreviation aview w := (view (ap_st w).1).

(** ** Running handlers *)

Lemma store_q_run {A} (m : SM S A) w :
  store_q m w = (map_err Internal (m (ap_st w)).1, mkApp (m (ap_st w)).2 (ap_limits w) (ap_challenges w)).
Proof. unfold store_q, with_err, app_store. by destruct (m (ap_st w)) as [[]]. Qed.
Lemma store_try_run {A} (m : SM S A) w :
  store_try m w = (Ok (m (ap_st w)).1, mkApp (m (ap_st w)).2 (ap_limits w) (ap_challenges w)).
Proof. unfold store_try, try, app_store. by destruct (m (ap_st w)) as [[]]. Qed.
Lemma app_now_run w :
  app_now w = (Ok (e_clock (ap_st w).2 0%nat),
               mkApp ((ap_st w).1, (env_now (ap_st w).2).2) (ap_limits w) (ap_challenges w)).
Proof. unfold app_now. rewrite store_q_run. by destruct (ap_st w). Qed.

(** Between two worlds the process only read its clock: the readings of the second are
    the later readings of the first. *)
Definition ticks w w' : Prop :=
  ∃ n, ∀ k, e_clock (ap_st w').2 k = e_clock (ap_st w).2 (n + k)%nat.
Lemma ticks_same w w' : e_clock (ap_st w').2 = e_clock (ap_st w).2 → ticks w w'.
Proof. intros Heq. exists 0%nat. intros k. by rewrite Heq. Qed.
#[local] Instance ticks_preorder : PreOrder ticks.
Proof.
  split; [intros w; by apply ticks_same|].
  intros w1 w2 w3 [n Hn] [m Hm]. exists (n + m)%nat. intros k. rewrite Hm, Hn. f_equal. lia.
Qed.

(** A computation that leaves the tables of the store alone, and of the environment reads
    the clock and the random source only. *)
Definition quiet {A} (m : M (App S) ApiError A) : Prop :=
  ∀ w, aview (m w).2 = aview w ∧ ticks w (m w).2.
Lemma quiet_ret {A} (a : A) : quiet (mret a).
Proof. done. Qed.
Lemma quiet_throw {A} e : quiet (throw e : M (App S) ApiError A).
Proof. done. Qed.
Lemma quiet_bind {A B} (m : M (App S) ApiError A) (k : A → M (App S) ApiError B) :
  quiet m → (∀ a, quiet (k a)) → quiet (m ≫= k).
Proof.
  intros Hm Hk w. unfold mbind, M_bind. specialize (Hm w) as [Hv Ht].
  destruct (m w) as [[a|e] w1]; cbn in *; [|done]. destruct (Hk a w1) as [-> ?].
  split; [done|]. by etrans.
Qed.
Lemma quiet_now : quiet app_now.
Proof. intros w. rewrite app_now_run. split; [done|]. by exists 1%nat. Qed.
Lemma quiet_random {A} (f : Env → A * Env) :
  (∀ e, e_clock (f e).2 = e_clock e) → quiet (app_random f).
Proof.
  intros Hf w. unfold app_random. specialize (Hf (ap_st w).2). destruct (f (ap_st w).2).
  split; [done|]. by apply ticks_same.
Qed.
Lemma quiet_limits {A} (f : RuntimeLimits → A * RuntimeLimits) : quiet (app_limits f).
Proof.
  intros w. unfold app_limits. destruct (f (ap_limits w)). split; [done|]. by apply ticks_same.
Qed.
Lemma quiet_or_404 {A} (o : option A) m : quiet (or_404 o m).
Proof. by destruct o. Qed.
Lemma quiet_reads {A} (m : SM S A) f : reads view m f → quiet (store_q m).
Proof.
  intros Hr w. rewrite store_q_run. cbn. destruct (reads_run m f (ap_st w) Hr) as (? & Henv & _).
  split; [done|]. apply ticks_same. cbn. by rewrite Henv.
Qed.
Lemma generate_token_clock prefix e : e_clock (generate_token prefix e).2 = e_clock e.
Proof.
  unfold generate_token. pose proof (env_randoms_clock 256 32 e) as Hr. by destruct (env_randoms 256 32 e).
Qed.
Lemma quiet_token prefix : quiet (app_random (generate_token prefix)).
Proof. apply quiet_random, generate_token_clock. Qed.
Lemma quiet_local : quiet (app_random random_local_part).
Proof.
  apply quiet_random. intros e. unfold random_local_part.
  pose proof (env_randoms_clock (len LOCAL_PART_CHARSET) RANDOM_LOCAL_PART_LEN e) as Hr.
  by destruct (env_randoms _ _ e).
Qed.
#[local] Hint Resolve quiet_ret quiet_throw quiet_bind quiet_now quiet_token quiet_local
  quiet_limits quiet_or_404 : rust.
#[local] Hint Extern 2 (quiet (match ?x with _ => _ end)) => destruct x : rust.
#[local] Hint Extern 1 (quiet (store_q (get_mailbox _))) =>
  eapply quiet_reads, law_get_mailbox : rust.
#[local] Hint Extern 1 (quiet (store_q (get_custom_domain _))) =>
  eapply quiet_reads, law_get_custom_domain : rust.
#[local] Hint Extern 1 (quiet (store_q (count_active_mailboxes_by_device _ _))) =>
  eapply quiet_reads, law_count_active : rust.

Lemma quiet_claims h : quiet (client_claims config h).
Proof. unfold client_claims. auto 10 with rust. Qed.
#[local] Hint Resolve quiet_claims : rust.
Lemma quiet_gate h : quiet (attestation_gate config h).
Proof. unfold attestation_gate. auto 10 with rust. Qed.
Lemma quiet_enforced h : quiet (enforced_tier config h).
Proof. unfold enforced_tier, client_tier. auto 10 with rust. Qed.
Lemma quiet_authorize a h : quiet (authorize_owner a h).
Proof. unfold authorize_owner. auto 12 with rust. Qed.
Lemma quiet_authorize_mailbox d h : quiet (authorize_mailbox_on_custom_domain d h).
Proof. unfold authorize_mailbox_on_custom_domain. auto 12 with rust. Qed.
#[local] Hint Resolve quiet_gate quiet_enforced quiet_authorize quiet_authorize_mailbox : rust.

(** The next step of a handler that succeeded: the step itself succeeded, and left the
    tables alone when it is quiet. *)
Lemma quiet_run {A} (m : M (App S) ApiError A) w r w' :
  quiet m → m w = (r, w') → aview w' = aview w ∧ ticks w w'.
Proof. intros Hm Hmw. specialize (Hm w). by rewrite Hmw in Hm. Qed.
Lemma quiet_step {A B} (m : M (App S) ApiError A) (k : A → M (App S) ApiError B) w b w'' :
  quiet m → (m ≫= k) w = (Ok b, w'') →
  ∃ a w', m w = (Ok a, w') ∧ (aview w' = aview w ∧ ticks w w') ∧ k a w' = (Ok b, w'').
Proof.
  intros Hm (a & w' & Hmw & Hk)%bind_inv. exists a, w'. split_and!; try done;
    by eapply quiet_run.
Qed.
(** A step that changes the tables is the second one when the first is quiet. *)
Lemma quiet_first {A B} (m : M (App S) ApiError A) (k : A → M (App S) ApiError B) w :
  quiet m → aview ((m ≫= k) w).2 ≠ aview w →
  ∃ a w', m w = (Ok a, w') ∧ aview w' = aview w ∧ aview (k a w').2 ≠ aview w'.
Proof.
  intros Hm. destruct (Hm w) as [Hv _]. unfold mbind, M_bind.
  destruct (m w) as [[a|e] w'] eqn:Hmw; cbn in *.
  - rewrite <-Hv. intros Hne. eauto.
  - congruence.
Qed.

(** ** The owner gate *)

(** The request carries the owner token of the mailbox at [a]. *)
Definition owner_proved (v : AbsStore) (a : str) (headers : HeaderMap) : Prop :=
  ∃ mb token want, ab_mailboxes v !! a = Some mb ∧ bearer_token headers = Some token ∧
    mb_owner_token_hash mb = Some want ∧ token_matches_hash token want = true.

Lemma authorize_owner_ok a h w mb w' :
  authorize_owner a h w = (Ok mb, w') →
  ab_mailboxes (aview w) !! a = Some mb ∧ owner_proved (aview w) a h ∧ aview w' = aview w.
Proof.
  intros Hr. destruct (quiet_run _ _ _ _ (quiet_authorize a h) Hr) as [Hq _].
  unfold authorize_owner in Hr. apply bind_inv in Hr as (o & w1 & Hg & Hr).
  rewrite store_q_run in Hg. destruct (reads_run _ _ (ap_st w) (law_get_mailbox a)) as (_ & _ & Ho).
  destruct (get_mailbox a (ap_st w)) as [[o'|] st1]; [|done]. cbn in Hg. injection Hg as <- <-.
  specialize (Ho o' eq_refl). cbn in Ho. apply bind_inv in Hr as (mb' & w2 & H404 & Hr).
  unfold or_404 in H404. destruct o' as [m|]; [|done]. injection H404 as <- <-.
  destruct (bearer_token h) as [tok|] eqn:Ht; [|done].
  destruct (mb_owner_token_hash m) as [want|] eqn:Hw; [|done].
  destruct (token_matches_hash tok want) eqn:Hm; [|done]. injection Hr as <- _.
  split_and!; [done| |done]. exists m, tok, want. done.
Qed.

(** The gate for clients: an attested token when the server requires one. *)
Definition client_proved (c : option ClientClaims) : Prop :=
  client_attestation_required config = true → ∃ cl, c = Some cl ∧ is_attested cl = true.
Lemma gate_ok h w c w' : attestation_gate config h w = (Ok c, w') → client_proved c.
Proof.
  intros (cl & w1 & _ & Hg)%bind_inv Hreq. rewrite Hreq in Hg. cbn in Hg.
  destruct cl as [cl|]; [|done]. destruct (is_attested cl) eqn:Ha; [|done]. injection Hg as <- _. eauto.
Qed.

(** Everything but mailbox [a] is the same. *)
Definition only_mailbox (a : str) (v v' : AbsStore) : Prop :=
  ab_domains v' = ab_domains v ∧ ab_devices v' = ab_devices v ∧
  ∀ b, b ≠ a → ab_mailboxes v' !! b = ab_mailboxes v !! b.

Lemma store_q_updates {A} (m : SM S A) f g w :
  updates view m f g → aview (store_q m w).2 = g (aview w) ∨ aview (store_q m w).2 = aview w.
Proof.
  intros Hu. rewrite store_q_run. cbn. specialize (Hu (ap_st w).1 (ap_st w).2).
  rewrite <-surjective_pairing in Hu. destruct (m (ap_st w)) as [[a|e] [s' e']]; cbn.
  - left. by destruct Hu.
  - destruct Hu; auto.
Qed.

(** The last step of an owner-gated handler: one update of the mailbox, then quiet. *)
Lemma gated_update {A B} (m : SM S A) f g (k : A → M (App S) ApiError B) a w :
  updates view m f g → (∀ v, only_mailbox a v (g v)) → (∀ x, quiet (k x)) →
  only_mailbox a (aview w) (aview ((x ← store_q m; k x) w).2).
Proof.
  intros Hu Hg Hk. pose proof (store_q_updates m f g w Hu) as Hs. unfold mbind, M_bind.
  assert (∀ v, only_mailbox a v v) as Hrefl by by repeat split.
  destruct (store_q m w) as [[x|e] w1]; cbn in *; [rewrite (proj1 (Hk x w1))|];
    destruct Hs as [-> | ->]; auto.
Qed.
Lemma alter_only g a v : only_mailbox a v (set_mailboxes (alter g a) v).
Proof. repeat split. intros b Hb. cbn. by rewrite lookup_alter_ne. Qed.
Lemma delete_only a v : only_mailbox a v (set_mailboxes (base.delete a) v).
Proof. repeat split. intros b Hb. cbn. by rewrite lookup_delete_ne. Qed.

(** C4: nobody changes a mailbox without its owner token. Whenever extending, deleting
    or rotating changes the store at all, the request carried a bearer token whose hash
    is the one recorded on that mailbox (and an attested client token where the server
    requires one), and nothing but that mailbox changed. *)
Theorem mutations_need_owner address headers w :
  let a := to_ascii_lowercase address in
  let allowed (w' : App S) := aview w' ≠ aview w →
    owner_proved (aview w) a headers ∧ only_mailbox a (aview w) (aview w') ∧
    ∃ c w1, attestation_gate config headers w = (Ok c, w1) ∧ client_proved c in
  allowed (extend config address headers w).2 ∧
  allowed (delete config address headers w).2 ∧
  allowed (rotate config address headers w).2.
Proof.
  cbn zeta. set (a := to_ascii_lowercase address).
  assert (∀ B (k : Mailbox → M (App S) ApiError B),
    (∀ mb w1, only_mailbox a (aview w1) (aview (k mb w1).2)) →
    aview ((attestation_gate config headers;; mb ← authorize_owner a headers; k mb) w).2 ≠ aview w →
    owner_proved (aview w) a headers ∧
    only_mailbox a (aview w)
      (aview ((attestation_gate config headers;; mb ← authorize_owner a headers; k mb) w).2) ∧
    ∃ c w1, attestation_gate config headers w = (Ok c, w1) ∧ client_proved c) as Hgen.
  { intros B k Hk Hne. destruct (quiet_first _ _ _ (quiet_gate headers) Hne) as (c & w1 & Hg & Hv1 & Hne1).
    rewrite (bind_ok _ _ _ _ _ Hg).
    destruct (quiet_first _ _ _ (quiet_authorize a headers) Hne1) as (mb & w2 & Hau & Hv2 & _).
    rewrite (bind_ok _ _ _ _ _ Hau). apply authorize_owner_ok in Hau as (_ & Hop & _). rewrite Hv1 in *.
    split; [done|]. split; [rewrite <-Hv2; apply Hk|]. exists c, w1. split; [done|]. by eapply gate_ok. }
  assert (∀ {A B} (m : M (App S) ApiError A) (k : A → M (App S) ApiError B) w1, quiet m →
    (∀ x w2, only_mailbox a (aview w2) (aview (k x w2).2)) →
    only_mailbox a (aview w1) (aview ((m ≫= k) w1).2)) as Hqb.
  { intros A B m k w1 Hq Hk. destruct (Hq w1) as [Hv _]. unfold mbind, M_bind.
    destruct (m w1) as [[x|e] w2]; cbn in *; rewrite <-Hv; [apply Hk|by repeat split]. }
  unfold extend, delete, rotate. fold a. cbn zeta. split_and!.
  - apply Hgen. intros mb w1. apply Hqb; [apply quiet_now|]. intros t w2.
    apply Hqb; [apply quiet_enforced|]. intros tier w3.
    apply Hqb; [destruct tier; auto 10 with rust|]. intros ? w4.
    eapply gated_update; [apply law_extend_mailbox|intros v; apply alter_only|intros ?; apply quiet_or_404].
  - apply Hgen. intros mb w1. eapply gated_update; [apply law_delete_mailbox|apply delete_only|].
    intros []; auto with rust.
  - apply Hgen. intros mb w1. apply Hqb; [apply quiet_token|]. intros tok w2.
    eapply gated_update; [apply law_rotate_owner_token|intros v; apply alter_only|].
    intros []; auto with rust.
Qed.

(** A fresh token comes with its own hash. *)
Lemma generate_token_hash prefix e : (generate_token prefix e).1.2 = hash_token (generate_token prefix e).1.1.
Proof. unfold generate_token. by destruct (env_randoms 256 32 e). Qed.
Lemma app_random_run {A} (f : Env → A * Env) w :
  app_random f w = (Ok (f (ap_st w).2).1, mkApp ((ap_st w).1, (f (ap_st w).2).2) (ap_limits w) (ap_challenges w)).
Proof. unfold app_random. by destruct (f (ap_st w).2). Qed.
Lemma app_random_ok {A} (f : Env → A * Env) w x w' :
  app_random f w = (Ok x, w') → x = (f (ap_st w).2).1 ∧ (ap_st w').1 = (ap_st w).1.
Proof. rewrite app_random_run. by intros [= <- <-]. Qed.
Lemma owner_token_ok w tok w' :
  app_random generate_owner_token w = (Ok tok, w') → tok.2 = hash_token tok.1.
Proof. intros [-> _]%app_random_ok. apply generate_token_hash. Qed.

(** What a successful update of the store does to the tables. *)
Lemma store_q_ok {A} (m : SM S A) f g w x w' :
  updates view m f g → store_q m w = (Ok x, w') → x = f (aview w) ∧ aview w' = g (aview w).
Proof.
  intros Hu. rewrite store_q_run. specialize (Hu (ap_st w).1 (ap_st w).2).
  rewrite <-surjective_pairing in Hu. destruct (m (ap_st w)) as [[a|e] [s' e']]; cbn; [|done].
  by intros [= <- <-].
Qed.
Lemma rotate_ok address headers w token w' :
  rotate config address headers w = (Ok (mkRotateTokenResponse token), w') →
  ∃ w1 mb, ab_mailboxes (aview w1) !! to_ascii_lowercase address = Some mb ∧
    ab_mailboxes (aview w') !! to_ascii_lowercase address =
      Some (with_owner_hash (Some (hash_token token)) mb).
Proof.
  intros Hrot. unfold rotate in Hrot. set (a := to_ascii_lowercase address) in *.
  apply quiet_step in Hrot as (c & v1 & _ & _ & Hrot); [|apply quiet_gate].
  apply quiet_step in Hrot as (m0 & v2 & _ & _ & Hrot); [|apply quiet_authorize].
  apply bind_inv in Hrot as (tok & v3 & Htok & Hrot).
  apply owner_token_ok in Htok.
  apply bind_inv in Hrot as (b & v4 & Hr & Hret).
  destruct (store_q_ok _ _ _ _ _ _ (law_rotate_owner_token a tok.2) Hr) as [-> Hv].
  case_bool_decide as Hsome; [|done]. injection Hret as <- <-. destruct Hsome as [m Hm].
  exists v3, m. split; [done|]. rewrite Hv, <-Htok. cbn. by rewrite lookup_alter_eq, Hm.
Qed.

(** Rotating revokes. After a rotation has answered a new token, a request is
    authorized for the mailbox only with a bearer token that has the hash of that very
    token: the old one is dead. *)
Theorem rotate_revokes address headers w token w' headers' w1 mb w2 :
  rotate config address headers w = (Ok (mkRotateTokenResponse token), w') →
  aview w1 = aview w' →
  authorize_owner (to_ascii_lowercase address) headers' w1 = (Ok mb, w2) →
  mb_owner_token_hash mb = Some (hash_token token) ∧
  ∃ presented, bearer_token headers' = Some presented ∧ hash_token presented = hash_token token.
Proof.
  intros (v & mb0 & _ & Hmb0)%rotate_ok Hv (Hmb & (mb' & pres & want & H1 & H2 & H3 & H4) & _)%authorize_owner_ok.
  rewrite Hv in Hmb, H1. rewrite Hmb0 in Hmb, H1. injection Hmb as <-. injection H1 as <-.
  injection H3 as <-. split; [done|]. exists pres. split; [done|].
  rewrite token_matches_hash_spec in H4 by apply hash_token_valid. by apply bool_decide_eq_true in H4.
Qed.

(** ** Creating a mailbox *)

(** The tier policy and the device the client's token stand for. *)
Definition client_policy (client : option ClientClaims) : option TierPolicy :=
  if entitlements_enforced config
  then Some (tier_policy config (match client with Some c => cc_tier c | None => Free end))
  else None.
Definition client_device (client : option ClientClaims) : option str :=
  hash_token <$> (client ≫= cc_kid).

(** A configured domain within the tier's count, or a verified custom domain whose claim
    token the request carries. *)
Definition domain_allowed (policy : option TierPolicy) (v : AbsStore) (headers : HeaderMap)
    (d : str) : Prop :=
  (∃ i, domains config !! i = Some d ∧
     ∀ p, policy = Some p → 0 < domain_count p → Z.of_nat i < domain_count p) ∨
  (custom_domains_enabled config = true ∧
   (∀ p, policy = Some p → custom_domains p = true) ∧
   ∃ record token, ab_domains v !! d = Some record ∧ cd_status record = Verified ∧
     bearer_token headers = Some token ∧
     token_matches_hash token (cd_claim_token_hash record) = true).

Definition domain_requested (req : option str) (d : str) : Prop :=
  match req with
  | Some r => d = to_ascii_lowercase (trim r)
  | None => head (domains config) = Some d
  end.

(** A requested local part is used as given and must be free to use; otherwise any valid
    one will do. *)
Definition local_allowed (policy : option TierPolicy) (req : option str) (local : str) : Prop :=
  is_valid_local_part local = true ∧
  ∀ r, req = Some r →
    local = to_ascii_lowercase (trim r) ∧ is_reserved_local_part config local = false ∧
    ∀ p, policy = Some p → custom_local_parts p = true.

Lemma authorize_mailbox_ok d h w u w' :
  authorize_mailbox_on_custom_domain d h w = (Ok u, w') →
  ∃ record token, ab_domains (aview w) !! d = Some record ∧ cd_status record = Verified ∧
     bearer_token h = Some token ∧ token_matches_hash token (cd_claim_token_hash record) = true.
Proof.
  unfold authorize_mailbox_on_custom_domain. intros (o & w1 & Hg & Hr)%bind_inv.
  rewrite store_q_run in Hg.
  destruct (reads_run _ _ (ap_st w) (law_get_custom_domain d)) as (_ & _ & Ho).
  destruct (get_custom_domain d (ap_st w)) as [[o'|] st1]; [|done]. cbn in Hg. injection Hg as <- <-.
  rewrite <-(Ho o' eq_refl). destruct o' as [rec|]; [|done].
  destruct (bearer_token h) as [tok|]; [|done].
  destruct (token_matches_hash tok _) eqn:Hm; [|done]. cbn in Hr.
  case_bool_decide as Hst; [|done]. by exists rec, tok.
Qed.

Lemma quiet_resolve_domain policy h d : quiet (resolve_domain config policy h d).
Proof.
  unfold resolve_domain. destruct d as [d|]; [|auto with rust].
  destruct (list_find _ _) as [[i x]|]; destruct policy as [p|]; auto 10 with rust.
Qed.
Lemma quiet_resolve_local policy l : quiet (resolve_local config policy l).
Proof. unfold resolve_local. destruct l, policy; auto 10 with rust. Qed.
Lemma quiet_device_cap policy h : quiet (device_cap policy h).
Proof. unfold device_cap. destruct policy, h; auto 10 with rust. Qed.

Lemma resolve_domain_ok policy h req w d w' :
  domains config ≠ [] → resolve_domain config policy h req w = (Ok d, w') →
  domain_requested req d ∧ domain_allowed policy (aview w) h d.
Proof.
  intros Hne. unfold resolve_domain, domain_requested. destruct req as [r|].
  2:{ destruct (domains config) as [|d0 ds] eqn:Hd; [done|]. intros [= <- <-]. split; [done|].
      left. exists 0%nat. rewrite Hd. split; [done|]. cbn. lia. }
  set (d' := to_ascii_lowercase (trim r)). destruct (list_find _ _) as [[i x]|] eqn:Hf.
  - apply list_find_Some in Hf as (Hi & -> & _). intros Hr.
    assert (d = d' ∧ ∀ p, policy = Some p → 0 < domain_count p → Z.of_nat i < domain_count p) as [-> Hp].
    { destruct policy as [p|]; [|by injection Hr as <- _].
      destruct (_ && _) eqn:Hc in Hr; [done|]. injection Hr as <- _. split; [done|].
      intros p' [= <-] Hpos. apply andb_false_iff in Hc as [Hc|Hc]; boolify; lia. }
    split; [done|]. left. eauto.
  - destruct (custom_domains_enabled config) eqn:Hen; [|done]. intros (u & w1 & Hp & Hr)%bind_inv.
    apply bind_inv in Hr as (u2 & w2 & Ha & Hr). injection Hr as <- _. split; [done|]. right.
    assert (w1 = w ∧ ∀ p, policy = Some p → custom_domains p = true) as [-> Hpol].
    { destruct policy as [p|]; [|by injection Hp as _ <-].
      destruct (custom_domains p) eqn:Hcp; [|done]. injection Hp as _ <-. naive_solver. }
    split_and!; [done|done|]. by eapply authorize_mailbox_ok.
Qed.

Lemma resolve_local_ok policy req w l w' :
  resolve_local config policy req w = (Ok l, w') →
  match l with
  | Some local => local_allowed policy req local
  | None => req = None
  end.
Proof.
  unfold resolve_local. destruct req as [r|]; [|by intros [= <- <-]].
  set (l' := to_ascii_lowercase (trim r)).
  destruct (is_valid_local_part l') eqn:Hv; [|done]. cbn.
  destruct (is_reserved_local_part config l') eqn:Hres; [done|]. intros Hr.
  assert (l = Some l' ∧ ∀ p, policy = Some p → custom_local_parts p = true) as [-> Hp].
  { destruct policy as [p|]; [|by injection Hr as <- _].
    destruct (custom_local_parts p) eqn:Hc; [|done]. injection Hr as <- _. naive_solver. }
  split; [done|]. intros r' [= <-]. done.
Qed.

Lemma random_local_part_valid e : is_valid_local_part (random_local_part e).1 = true.
Proof.
  unfold random_local_part.
  destruct (env_randoms_range (len LOCAL_PART_CHARSET) RANDOM_LOCAL_PART_LEN e) as [Hlen Hran]; [done|].
  destruct (env_randoms _ _ e) as [l e']. cbn [fst] in *.
  set (s := map _ l). assert (length s = 10%nat) as Hs by (unfold s; by rewrite length_map).
  assert (∀ c, c ∈ s → is_ascii_lowercase c || is_ascii_digit c = true) as Hc.
  { intros c (i & -> & Hi)%list_elem_of_fmap. rewrite Forall_forall in Hran. specialize (Hran i Hi).
    assert (all (λ c, is_ascii_lowercase c || is_ascii_digit c) LOCAL_PART_CHARSET = true) as Hall by done.
    rewrite all_true in Hall. apply Hall, list_elem_of_In, nth_In. lia. }
  assert (∀ c, c ∈ s → is_ascii_char c = true ∧ is_sep c = false) as Ha.
  { intros c [Hr|Hr]%Hc%orb_true_iff; apply in_range_spec in Hr; unfold is_sep; split;
      first [apply in_range_spec; lia | rewrite !orb_false_iff, !Z.eqb_neq; lia]. }
  assert (is_ascii s = true) as Hasc by (apply all_true; intros c Hin; by apply Ha).
  unfold is_valid_local_part. rewrite str_len_ascii, as_bytes_ascii, Hs by done.
  rewrite bool_decide_false by (by destruct s). rewrite bool_decide_false by done. cbn [orb].
  assert (all (λ b, is_ascii_lowercase b || is_ascii_digit b || is_sep b) s = true) as ->.
  { apply all_true. intros c Hin. by rewrite (Hc c Hin). }
  cbn [negb].
  destruct (head s) as [x|] eqn:Hh; [|by destruct s]. destruct (last s) as [y|] eqn:Hl; [|apply last_None in Hl; by rewrite Hl in Hs].
  apply head_Some_elem_of in Hh. apply last_Some_elem_of in Hl.
  cbn. by rewrite (proj2 (Ha x Hh)), (proj2 (Ha y Hl)).
Qed.

(** The mailbox of the response is new, on file, and owned by the token answered. *)
Definition allocated w w' (local domain : str) (x : Time) (dev : option str)
    (resp : CreateAddressResponse) : Prop :=
  let address := local ++ lit "@" ++ domain in
  ab_mailboxes (aview w) !! address = None ∧
  aview w' = set_mailboxes (insert address (cr_mailbox resp)) (aview w) ∧
  ∃ t, cr_mailbox resp = mkMailbox address domain t x (Some (hash_token (cr_owner_token resp))) dev.

Lemma create_mailbox_run a d x h dev w :
  let r := create_mailbox a d x h dev (ap_st w) in
  let w' := mkApp r.2 (ap_limits w) (ap_challenges w) in
  match r.1 with
  | Ok mb => ab_mailboxes (aview w) !! a = None ∧ (∃ t, mb = mkMailbox a d t x h dev) ∧
             aview w' = set_mailboxes (insert a mb) (aview w)
  | Err er => aview w' = aview w
  end.
Proof.
  cbn zeta. pose proof (law_create_mailbox a d x h dev (ap_st w).1 (ap_st w).2) as L.
  rewrite <-surjective_pairing in L. destruct (create_mailbox _ _ _ _ _ _) as [[mb|er] [s' e']]; cbn in *; [done|].
  by destruct L.
Qed.

Lemma create_random_ok n domain x dev w resp w' :
  create_random n domain x dev w = (Ok resp, w') →
  ∃ local, is_valid_local_part local = true ∧ allocated w w' local domain x dev resp.
Proof.
  revert w. induction n as [|n IH]; intros w; [done|]. cbn [create_random].
  intros (tok & w1 & Htok & [Hv1 _] & Hr)%quiet_step; [|apply quiet_token].
  apply owner_token_ok in Htok.
  apply quiet_step in Hr as (local & w2 & Hl & [Hv2 _] & Hr); [|apply quiet_local].
  apply app_random_ok in Hl as [Hl _]. rewrite Hv1 in Hv2.
  apply bind_inv in Hr as (r & w3 & Hc & Hr). rewrite store_try_run in Hc.
  set (a := local ++ lit "@" ++ domain) in *.
  pose proof (create_mailbox_run a domain x (Some tok.2) dev w2) as L. cbn zeta in L.
  destruct (create_mailbox a domain x (Some tok.2) dev (ap_st w2)) as [[mb|er] st].
  - cbn in L. injection Hc as <- <-. injection Hr as <- <-. destruct L as (Hn & (t & ->) & Hv).
    exists local. split; [rewrite Hl; apply random_local_part_valid|]. unfold allocated. fold a.
    rewrite <-Hv2. split_and!; [done|done|]. exists t. cbn. by rewrite Htok.
  - cbn [fst snd] in L. injection Hc as <- <-. cbn in Hr. destruct (is_unique_violation er); [|done].
    apply IH in Hr as (l' & Hval & Hal). exists l'. split; [done|]. unfold allocated in *.
    by rewrite L, Hv2 in Hal.
Qed.

Lemma allocated_view w1 w2 w' l d x dev resp :
  aview w1 = aview w2 → allocated w1 w' l d x dev resp → allocated w2 w' l d x dev resp.
Proof. unfold allocated. by intros ->. Qed.

Lemma app_now_ok w t w' : app_now w = (Ok t, w') → t = e_clock (ap_st w).2 0%nat.
Proof. rewrite app_now_run. by intros [= <- _]. Qed.
Lemma ticks_read w w' : ticks w w' → ∃ n, e_clock (ap_st w').2 0%nat = e_clock (ap_st w).2 n.
Proof. intros [n Hn]. exists n. rewrite Hn. f_equal. lia. Qed.

(** The last part of [create]: allocation under the local part asked for, or under a
    random one. *)
Lemma create_requested_ok local domain x dev w resp w' :
  (tok ← app_random generate_owner_token;
   let address := local ++ lit "@" ++ domain in
   r ← store_try (create_mailbox address domain x (Some tok.2) dev);
   match r with
   | Ok mailbox => mret (mkCreateAddressResponse mailbox tok.1)
   | Err e => if is_unique_violation e
              then throw (Conflict (lit "address already exists: " ++ address))
              else throw (Internal e)
   end) w = (Ok resp, w') →
  allocated w w' local domain x dev resp.
Proof.
  intros (tok & w1 & Htok & [Hv1 _] & Hr)%quiet_step; [|apply quiet_token].
  apply owner_token_ok in Htok. cbn zeta in Hr. set (a := local ++ lit "@" ++ domain) in *.
  apply bind_inv in Hr as (r & w3 & Hc & Hr). rewrite store_try_run in Hc.
  pose proof (create_mailbox_run a domain x (Some tok.2) dev w1) as L. cbn zeta in L.
  destruct (create_mailbox a domain x (Some tok.2) dev (ap_st w1)) as [[mb|er] st].
  - cbn in L. injection Hc as <- <-. injection Hr as <- <-. destruct L as (Hn & (t & ->) & Hv).
    unfold allocated. fold a. rewrite <-Hv1. split_and!; [done|done|]. exists t. cbn. by rewrite Htok.
  - injection Hc as <- <-. cbn in Hr. by destruct (is_unique_violation er).
Qed.

Lemma create_inv peer headers body w resp w' :
  create config peer headers body w = (Ok resp, w') →
  let req := default (mkCreateAddressRequest None None) body in
  ∃ client w1 w2 w3 w4 domain local n,
    let policy := client_policy client in
    attestation_gate config headers w = (Ok client, w1) ∧ aview w1 = aview w ∧
    resolve_domain config policy headers (car_domain req) w1 = (Ok domain, w2) ∧
    (device_cap policy (client_device client) w3 = (Ok tt, w4) ∧ aview w3 = aview w ∧ ticks w w3) ∧
    local_allowed policy (car_local_part req) local ∧
    allocated w w' local domain (e_clock (ap_st w).2 n + mailbox_ttl config)
      (client_device client) resp.
Proof.
  unfold create. cbn zeta. set (req := default _ body).
  intros (client & w1 & Hg & [Hv1 Ht1] & Hr)%quiet_step; [|apply quiet_gate].
  fold (client_policy client) (client_device client) in Hr.
  apply quiet_step in Hr as (domain & w2 & Hd & [Hv2 Ht2] & Hr); [|apply quiet_resolve_domain].
  apply quiet_step in Hr as (l & w3 & Hl & [Hv3 Ht3] & Hr); [|apply quiet_resolve_local].
  apply quiet_step in Hr as ([] & w4 & Hc & [Hv4 Ht4] & Hr); [|apply quiet_device_cap].
  apply quiet_step in Hr as (t & w5 & _ & [Hv5 Ht5] & Hr); [|apply quiet_now].
  apply quiet_step in Hr as (b & w6 & _ & [Hv6 Ht6] & Hr); [|apply quiet_limits].
  destruct b; [|done]. cbn [negb] in Hr.
  apply quiet_step in Hr as (t' & w7 & Hnow & [Hv7 Ht7] & Hr); [|apply quiet_now].
  assert (ticks w w3) as Hw3 by (by trans w1; [|trans w2]).
  assert (aview w3 = aview w) as Hvw3 by congruence.
  assert (aview w7 = aview w) as Hvw7 by congruence.
  assert (ticks w w6) as [n Hn]%ticks_read by (by trans w3; [|trans w4; [|trans w5]]).
  apply app_now_ok in Hnow. rewrite Hn in Hnow. subst t'.
  assert (∃ local, local_allowed (client_policy client) (car_local_part req) local ∧
    allocated w7 w' local domain (e_clock (ap_st w).2 n + mailbox_ttl config) (client_device client) resp)
    as (local & Hla & Hal).
  { apply resolve_local_ok in Hl. destruct l as [local|].
    - exists local. split; [done|]. by apply create_requested_ok.
    - apply create_random_ok in Hr as (local & Hval & Hal). exists local. split; [|done].
      split; [done|]. rewrite Hl. done. }
  exists client, w1, w2, w3, w4, domain, local, n. cbn zeta. split_and!; try done.
  by eapply allocated_view.
Qed.

(** C5: creating a mailbox. When [create] answers, the client passed the attestation
    gate; the domain is the one asked for (the first configured one by default) and one
    the tier or the domain's claim token allows; the local part is valid, and the one
    asked for, not reserved, when one was asked for; the address was free and is now on
    file with exactly this mailbox, nothing else having changed; the mailbox expires the
    configured lifetime after a reading of the clock, is bound to the client's device and
    records the hash of the owner token in the response. *)
Theorem create_sound peer headers body w resp w' :
  domains config ≠ [] →
  create config peer headers body w = (Ok resp, w') →
  let req := default (mkCreateAddressRequest None None) body in
  let mb := cr_mailbox resp in
  ∃ client local n,
    (∃ w1, attestation_gate config headers w = (Ok client, w1)) ∧ client_proved client ∧
    mb_address mb = local ++ lit "@" ++ mb_domain mb ∧
    domain_requested (car_domain req) (mb_domain mb) ∧
    domain_allowed (client_policy client) (aview w) headers (mb_domain mb) ∧
    local_allowed (client_policy client) (car_local_part req) local ∧
    ab_mailboxes (aview w) !! mb_address mb = None ∧
    aview w' = set_mailboxes (insert (mb_address mb) mb) (aview w) ∧
    mb_expires_at mb = e_clock (ap_st w).2 n + mailbox_ttl config ∧
    mb_creator_device_hash mb = client_device client ∧
    mb_owner_token_hash mb = Some (hash_token (cr_owner_token resp)).
Proof.
  intros Hne Hcr. apply create_inv in Hcr as
    (client & w1 & w2 & _ & _ & domain & local & n & Hg & Hv1 & Hd & _ & Hl & Hn & Hv & t & Hmb).
  destruct (resolve_domain_ok _ _ _ _ _ _ Hne Hd) as [Hreq Hall]. rewrite Hv1 in Hall.
  cbn zeta. rewrite Hv, Hmb. exists client, local, n. cbn.
  split_and!; try done; [by exists w1|by eapply gate_ok].
Qed.

(** ** Caps of a tier *)

(** The mailboxes a device has that are live at a time. *)
Definition device_live (h : str) (t : Time) (v : AbsStore) : gmap str Mailbox :=
  filter (λ p, mb_creator_device_hash p.2 = Some h ∧ t < mb_expires_at p.2) (ab_mailboxes v).

Lemma device_live_insert h t a mb v :
  Z.of_nat (size (device_live h t (set_mailboxes (insert a mb) v))) ≤ Z.of_nat (size (device_live h t v)) + 1.
Proof.
  assert (device_live h t (set_mailboxes (insert a mb) v) ⊆ <[a := mb]> (device_live h t v)) as Hsub.
  { unfold device_live, set_mailboxes. cbn. apply map_subseteq_spec. intros b m [Hb HP]%map_lookup_filter_Some.
    destruct (decide (b = a)) as [->|Hne]; [by rewrite lookup_insert_eq in *|].
    rewrite lookup_insert_ne in * by done. by apply map_lookup_filter_Some. }
  apply map_subseteq_size in Hsub. rewrite map_size_insert in Hsub. 
  destruct (device_live h t v !! a); cbn in Hsub; lia.
Qed.

Lemma device_cap_ok p h w u w' :
  0 < active_mailboxes p → device_cap (Some p) (Some h) w = (Ok u, w') →
  Z.of_nat (size (device_live h (e_clock (ap_st w).2 0%nat) (aview w))) < active_mailboxes p.
Proof.
  intros Hpos. unfold device_cap. rewrite bool_decide_true by done.
  intros (t & w1 & Hnow & [Hv _] & Hr)%quiet_step; [|apply quiet_now]. apply app_now_ok in Hnow.
  apply bind_inv in Hr as (n & w2 & Hn & Hr). rewrite store_q_run in Hn.
  destruct (reads_run _ _ (ap_st w1) (law_count_active h t)) as (_ & _ & Ho).
  destruct (count_active_mailboxes_by_device h t (ap_st w1)) as [[n'|] st1]; [|done].
  cbn in Hn. injection Hn as <- <-. specialize (Ho n' eq_refl). cbn in Ho.
  case_bool_decide as Hc; [done|]. rewrite Hv in Ho. unfold device_live. rewrite <-Hnow, <-Ho. lia.
Qed.

(** The device cap. On a tier that allows [k > 0] active mailboxes per device, when
    an attested device has been given a new mailbox it has at most [k] live ones, at a
    time read from the clock while serving the request. *)
Theorem create_device_cap peer headers body w resp w' client w1 p h :
  create config peer headers body w = (Ok resp, w') →
  attestation_gate config headers w = (Ok client, w1) →
  client_policy client = Some p → client_device client = Some h → 0 < active_mailboxes p →
  ∃ n, Z.of_nat (size (device_live h (e_clock (ap_st w).2 n) (aview w'))) ≤ active_mailboxes p.
Proof.
  intros Hcr Hg Hp Hd Hpos. apply create_inv in Hcr as
    (client' & w1' & w2 & w3 & w4 & domain & local & n & Hg' & _ & _ & (Hc & Hv3 & Ht3) & _ & _ & Hv & _).
  rewrite Hg in Hg'. injection Hg' as <- <-. rewrite Hp, Hd in Hc.
  apply device_cap_ok in Hc; [|done]. apply ticks_read in Ht3 as [m Hm]. rewrite Hm, Hv3 in Hc.
  exists m. rewrite Hv. pose proof (device_live_insert h (e_clock (ap_st w).2 m)
    (local ++ lit "@" ++ domain) (cr_mailbox resp) (aview w)). lia.
Qed.

(** Extending a mailbox. When [extend] answers, the owner's token was presented, the
    mailbox on file (and answered) is the old one with a new expiry, the configured
    lifetime after a reading of the clock, and nothing else changed; where tiers are
    enforced and the client's tier has a maximal lifetime, the mailbox does not outlive
    it counted from its creation. *)
Theorem extend_sound address headers w mb' w' :
  extend config address headers w = (Ok mb', w') →
  let a := to_ascii_lowercase address in
  ∃ mb n, ab_mailboxes (aview w) !! a = Some mb ∧ owner_proved (aview w) a headers ∧
    mb' = with_expiry (e_clock (ap_st w).2 n + mailbox_ttl config) mb ∧
    aview w' = set_mailboxes (insert a mb') (aview w) ∧
    (entitlements_enforced config = true →
     ∃ tier w1 w2, client_tier config headers w1 = (Ok tier, w2) ∧
       (0 < max_lifetime_seconds (tier_policy config tier) →
        mb_expires_at mb' - mb_created_at mb'
          ≤ seconds (as_i64 (max_lifetime_seconds (tier_policy config tier))))).
Proof.
  cbn zeta. set (a := to_ascii_lowercase address). unfold extend. fold a. cbn zeta.
  intros (c & w1 & _ & [Hv1 Ht1] & Hr)%quiet_step; [|apply quiet_gate].
  apply quiet_step in Hr as (mb & w2 & Hau & [Hv2 Ht2] & Hr); [|apply quiet_authorize].
  apply authorize_owner_ok in Hau as (Hmb & Hop & _). rewrite Hv1 in *.
  apply quiet_step in Hr as (t & w3 & Hnow & [Hv3 Ht3] & Hr); [|apply quiet_now].
  apply app_now_ok in Hnow. assert (ticks w w2) as [n Hn]%ticks_read by (by trans w1).
  rewrite Hn in Hnow. subst t. set (x := e_clock (ap_st w).2 n + mailbox_ttl config) in *.
  apply quiet_step in Hr as (tier & w4 & Htier & [Hv4 _] & Hr); [|apply quiet_enforced].
  apply quiet_step in Hr as ([] & w5 & Hcap & [Hv5 _] & Hr); [|destruct tier; auto 10 with rust].
  apply bind_inv in Hr as (o & w6 & Hext & H404).
  destruct (store_q_ok _ _ _ _ _ _ (law_extend_mailbox a x) Hext) as [-> Hv6].
  assert (aview w5 = aview w) as Hvw by congruence. rewrite Hvw, Hmb in *.
  injection H404 as <- <-. exists mb, n. split_and!; try done.
  - rewrite Hv6. unfold set_mailboxes. cbn. f_equal. apply map_eq. intros b.
    destruct (decide (a = b)) as [<-|]; [by rewrite lookup_alter_eq, lookup_insert_eq, Hmb|].
    by rewrite lookup_alter_ne, lookup_insert_ne.
  - intros Henf. unfold enforced_tier in Htier. rewrite Henf in Htier. cbn in Htier.
    apply bind_inv in Htier as (tr & w7 & Htr & Hret). injection Hret as <- _.
    exists tr, w3, w7. split; [done|]. intros Hpos. rewrite bool_decide_true in Hcap by done.
    cbn [andb] in Hcap. case_bool_decide; [done|]. cbn. lia.
Qed.
End laws.

(** ** Concrete runs *)

(** A toy digest and a verifier that knows one token. *)
#[refine] Definition demo_crypto : Crypto := {|
  sha256 := map (λ x, x mod 256);
  base64_url := hex;
  jwt_encode := λ _ _, Ok (lit "jwt");
  jwt_decode := λ _ token _,
    if bool_decide (token = lit "attested")
    then Ok (mkClientClaims KIND_IOS (Some (lit "kid")) Free 0 0) else Err false;
|}.
Proof. intros b. apply Forall_map, Forall_true. intros x. by apply Z.mod_pos_bound. Defined.
#[local] Existing Instance demo_crypto.
#[local] Instance demo_parse_ip : ParseIp := λ _, None.

Definition demo_api_config : Config := Config_with false true true (Some [1]) (lit "T") Config_default.
Definition demo_app : App MemoryStore :=
  mkApp (with_quotas (mkMailboxQuotas 2 100) new, demo_env) (from_config demo_api_config)
    ChallengeStore_default.
Definition demo_headers (bearer : str) : HeaderMap := λ name,
  if bool_decide (name = CLIENT_TOKEN_HEADER) then Some (lit "attested")
  else if bool_decide (name = lit "authorization") then Some (lit "Bearer " ++ bearer) else None.
Definition is_ok {A E} (r : result A E) : bool := match r with Ok _ => true | Err _ => false end.

Definition demo_create : result CreateAddressResponse ApiError * App MemoryStore :=
  create demo_api_config [10; 0; 0; 1] (demo_headers []) None demo_app.
Definition demo_token : str :=
  match demo_create.1 with Ok resp => cr_owner_token resp | Err _ => [] end.
Definition demo_addr : str :=
  match demo_create.1 with Ok resp => mb_address (cr_mailbox resp) | Err _ => [] end.

Lemma create_sound_witness :
  ∃ resp w', demo_create = (Ok resp, w') ∧
    mailboxes (ap_st w').1 !! mb_address (cr_mailbox resp) = Some (cr_mailbox resp) ∧
    mb_owner_token_hash (cr_mailbox resp) = Some (hash_token (cr_owner_token resp)).
Proof.
  assert (is_ok demo_create.1 = true) as Hok by (vm_compute; reflexivity).
  destruct demo_create as [[resp|e] w'] eqn:Hc; [|discriminate]. exists resp, w'. split; [reflexivity|].
  destruct (create_sound demo_api_config [10; 0; 0; 1] (demo_headers []) None demo_app resp w')
    as (client & local & n & _ & _ & _ & _ & _ & _ & _ & Hv & _ & _ & Hh); [done|exact Hc|].
  split; [|exact Hh]. apply (f_equal ab_mailboxes) in Hv. cbn in Hv. rewrite Hv. apply lookup_insert_eq.
Defined.

Lemma create_device_cap_witness :
  ∃ n, Z.of_nat (size (device_live (hash_token (lit "kid")) (e_clock demo_env n)
                         (view (ap_st demo_create.2).1))) ≤ 5.
Proof.
  assert (is_ok demo_create.1 = true) as Hok by (vm_compute; reflexivity).
  destruct demo_create as [[resp|e] w'] eqn:Hc; [|discriminate].
  apply (create_device_cap demo_api_config [10; 0; 0; 1] (demo_headers []) None demo_app resp w'
    (Some (mkClientClaims KIND_IOS (Some (lit "kid")) Free 0 0))
    (attestation_gate demo_api_config (demo_headers []) demo_app).2 (free_tier Config_default));
    [exact Hc|vm_compute; reflexivity|reflexivity|reflexivity|reflexivity].
Defined.

Lemma extend_sound_witness :
  ∃ mb' w', extend demo_api_config demo_addr (demo_headers demo_token) demo_create.2 = (Ok mb', w') ∧
    mailboxes (ap_st w').1 !! to_ascii_lowercase demo_addr = Some mb'.
Proof.
  assert (is_ok (extend demo_api_config demo_addr (demo_headers demo_token) demo_create.2).1 = true)
    as Hok by (vm_compute; reflexivity).
  destruct (extend _ _ _ _) as [[mb'|e] w'] eqn:He; [|discriminate]. exists mb', w'. split; [reflexivity|].
  destruct (extend_sound _ _ _ _ _ _ He) as (mb & n & _ & _ & _ & Hv & _).
  apply (f_equal ab_mailboxes) in Hv. cbn in Hv. rewrite Hv. apply lookup_insert_eq.
Defined.

Lemma rotate_revokes_witness :
  ∃ token w' mb w2,
    rotate demo_api_config demo_addr (demo_headers demo_token) demo_create.2 = (Ok (mkRotateTokenResponse token), w') ∧
    authorize_owner (to_ascii_lowercase demo_addr) (demo_headers token) w' = (Ok mb, w2) ∧
    mb_owner_token_hash mb = Some (hash_token token).
Proof.
  pose (r := rotate demo_api_config demo_addr (demo_headers demo_token) demo_create.2).
  pose (token := match r.1 with Ok token => rt_owner_token token | Err _ => [] end).
  pose (r2 := authorize_owner (to_ascii_lowercase demo_addr) (demo_headers token) r.2).
  assert (is_ok r.1 && is_ok r2.1 = true) as Hok by (vm_compute; reflexivity).
  destruct r as [[[tok]|e] w'] eqn:Hr; [|discriminate]. cbn in token.
  destruct r2 as [[mb|e] w2] eqn:Hr2; [|discriminate]. exists tok, w', mb, w2.
  split; [exact Hr|]. split; [exact Hr2|].
  apply (rotate_revokes _ _ _ _ _ _ (demo_headers tok) w' mb w2 Hr eq_refl Hr2).
Defined.
