(* ===== verification/ApiClient.v ===== *)
(** * ApiClient: device attestation ([src/api/client.rs], the rest of [src/attest.rs])

    Issuing challenges, attesting a device, and refreshing a client token with an
    assertion. The verification of attestations and assertions and the CBOR decoder are
    third-party code, gathered in the class [AppAttest]; what the endpoints do around
    them, challenges, counters and tokens included, is modelled. *)

From S2P Require Import Prelude Str Model Config StoreSpec Limits Attest Api ApiLaws.
From S2P Require Import MemoryStore MemoryStoreLaws.

Definition MAX_ATTESTATION_B64_LEN : Z := 32768.
Definition MAX_ASSERTION_B64_LEN : Z := 1024.
Definition MAX_KEY_ID_LEN : Z := 64.

(** The [appattest], [base64] and [minicbor] crates; an error is its message. A decoder
    step answers the item and the decoder past it. *)
Class AppAttest := {
  Attestation : Type;
  attestation_decode_base64 : str → result bytes str;
  attestation_from_cbor : bytes → result Attestation str;
  attestation_verify : Attestation → str → str → str → bytes → result (bytes * bytes) str;
  base64_decode : str → result bytes str;
  Assertion : Type;
  from_assertion : bytes → result Assertion str;
  assertion_check : Assertion → bytes → str → str → bytes → Z → str → result unit str;
  Decoder : Type;
  decoder_new : bytes → Decoder;
  decoder_map : Decoder → option (option Z * Decoder);
  decoder_str : Decoder → option (str * Decoder);
  decoder_bytes : Decoder → option (bytes * Decoder);
  decoder_skip : Decoder → option Decoder;
  APPLE_ROOT_CA_PEM : bytes;
}.

Section attest.
Context `{AppAttest} `{Crypto}.

Definition verify_attestation (app_id : str) (root_pem : bytes) (challenge key_id attestation_b64 : str)
    : result bytes str :=
  if bool_decide (MAX_ATTESTATION_B64_LEN < str_len attestation_b64)
  then Err (lit "attestation too large")
  else
    match attestation_decode_base64 attestation_b64 with
    | Err e => Err (lit "attestation base64: " ++ e)
    | Ok cbor =>
        match attestation_from_cbor cbor with
        | Err e => Err (lit "attestation cbor: " ++ e)
        | Ok attestation =>
            match attestation_verify attestation challenge app_id key_id root_pem with
            | Err e => Err (lit "attestation rejected: " ++ e)
            | Ok (public_key, _) => Ok public_key
            end
        end
    end.

Definition from_be_bytes (b : bytes) : Z := fold_left (λ acc x, acc * 256 + x) b 0.

Fixpoint find_counter (entries : nat) (d : Decoder) : result Z str :=
  match entries with
  | O => Err (lit "assertion missing authenticatorData")
  | S entries =>
      match decoder_str d with
      | None => Err (lit "assertion map key")
      | Some (key, d) =>
          if bool_decide (key = lit "authenticatorData") then
            match decoder_bytes d with
            | None => Err (lit "authenticatorData bytes")
            | Some (auth_data, _) =>
                if bool_decide (37 ≤ length auth_data)%nat
                then Ok (from_be_bytes (take 4 (drop 33 auth_data)))
                else Err (lit "authenticatorData too short")
            end
          else
            match decoder_skip d with
            | None => Err (lit "assertion map value")
            | Some d => find_counter entries d
            end
      end
  end.

Definition assertion_counter (cbor : bytes) : result Z str :=
  match decoder_map (decoder_new cbor) with
  | None => Err (lit "assertion is not a cbor map")
  | Some (entries, d) => find_counter (Z.to_nat (default 0 entries)) d
  end.

Definition verify_assertion (app_id challenge assertion_b64 : str) (public_key : bytes)
    (previous_counter : Z) : result Z str :=
  if bool_decide (MAX_ASSERTION_B64_LEN < str_len assertion_b64)
  then Err (lit "assertion too large")
  else
    match base64_decode assertion_b64 with
    | Err e => Err (lit "assertion base64: " ++ e)
    | Ok cbor =>
        if negb (in_range 0 u32_max previous_counter)
        then Err (lit "stored counter out of range")
        else
          match assertion_counter cbor with
          | Err e => Err e
          | Ok new_counter =>
              let client_data_hash := sha256 (as_bytes challenge) in
              match from_assertion cbor with
              | Err e => Err (lit "assertion cbor: " ++ e)
              | Ok assertion =>
                  match assertion_check assertion client_data_hash challenge app_id public_key
                          previous_counter challenge with
                  | Err e => Err (lit "assertion rejected: " ++ e)
                  | Ok _ => Ok new_counter
                  end
              end
          end
    end.
End attest.

Record ChallengeResponse := mkChallengeResponse { chr_challenge : str; chr_expires_in : Z }.

Record ClientTokenResponse := mkClientTokenResponse {
  ctr_client_token : str;
  ctr_tier : Tier;
  ctr_expires_at : Time;
}.

Record AttestRequest := mkAttestRequest {
  ar_key_id : str;
  ar_attestation : str;
  ar_challenge : str;
  ar_rc_app_user_id : option str;
}.
Record AssertRequest := mkAssertRequest {
  as_key_id : str;
  as_assertion : str;
  as_challenge : str;
  as_rc_app_user_id : option str;
}.

Section client.
Context {S : Type} `{Store S} `{Crypto} `{AppAttest}.
Variable config : Config.
Variable is_pro : option (str → result bool anyhow).

Abbreviation AppM A := (M (App S) ApiError A).

Definition require_configured : AppM str :=
  of_result (ok_or (app_attest_app_id config)
    (ServiceUnavailable (lit "app attestation is not configured on this server"))).
Definition root_pem : bytes := default APPLE_ROOT_CA_PEM (app_attest_root_pem config).

Definition validate_key_id (key_id : str) : AppM unit :=
  if bool_decide (key_id = []) || bool_decide (MAX_KEY_ID_LEN < str_len key_id)
  then throw (BadRequest (lit "invalid key_id")) else mret tt.

(** [ChallengeStore::issue] and [consume] on the server's store, at the instant they read. *)
Definition issue : AppM str :=
  b ← app_random (env_randoms 256 32);
  let challenge := base64_url b in
  t ← app_now;
  app_challenges (λ c, (challenge, issue_at challenge t c)).
Definition consume_challenge (challenge : str) : AppM unit :=
  t ← app_now;
  live ← app_challenges (consume_at challenge t);
  if negb live
  then throw (Coded 400 (lit "invalid_challenge")
                (lit "challenge unknown, expired, or already used; request a new one"))
  else mret tt.

Definition mint (key_id : str) (rc_app_user_id : option str) : AppM ClientTokenResponse :=
  match token_signing_key config with
  | None => throw (ServiceUnavailable (lit "token signing is not configured"))
  | Some signing_key =>
      tier ← resolve_tier is_pro rc_app_user_id;
      te ← mint_client_token signing_key KIND_IOS (Some key_id) tier (seconds CLIENT_TOKEN_TTL_SECONDS);
      mret (mkClientTokenResponse te.1 tier te.2)
  end.

(** [POST /api/client/challenge]. *)
Definition challenge : AppM ChallengeResponse :=
  require_configured;;
  c ← issue;
  mret (mkChallengeResponse c CHALLENGE_TTL_SECONDS).

(** [POST /api/client/attest]. *)
Definition attest (req : AttestRequest) : AppM ClientTokenResponse :=
  app_id ← require_configured;
  validate_key_id (ar_key_id req);;
  consume_challenge (ar_challenge req);;
  public_key ← of_result (map_err (Coded 400 (lit "invalid_attestation"))
    (verify_attestation app_id root_pem (ar_challenge req) (ar_key_id req) (ar_attestation req)));
  t ← app_now;
  store_q (upsert_attested_device (ar_key_id req) public_key t);;
  mint (ar_key_id req) (ar_rc_app_user_id req).

(** [POST /api/client/assert]. *)
Definition assert (req : AssertRequest) : AppM ClientTokenResponse :=
  app_id ← require_configured;
  validate_key_id (as_key_id req);;
  consume_challenge (as_challenge req);;
  device ← store_q (get_attested_device (as_key_id req));
  match device with
  | None => throw (Coded 401 (lit "attestation_required")
                     (lit "unknown key id, attest this device first"))
  | Some device =>
      new_counter ← of_result (map_err (Coded 400 (lit "invalid_assertion"))
        (verify_assertion app_id (as_challenge req) (as_assertion req) (ad_public_key device)
           (ad_counter device)));
      t ← app_now;
      advanced ← store_q (advance_attested_device_counter (as_key_id req) new_counter t);
      if negb advanced
      then throw (Coded 400 (lit "invalid_assertion")
                    (lit "assertion counter conflict, retry with a fresh challenge"))
      else mint (as_key_id req) (as_rc_app_user_id req)
  end.
End client.

(** ** What a refreshed token proves *)

Section laws.
Context {S : Type} `{SL : StoreLaws S} `{Crypto} `{AppAttest}.
Variable config : Config.
Variable is_pro : option (str → result bool anyhow).

Implicit Types w : App S.
Abbreviation aview w := (view (ap_st w).1).

(** A computation that leaves the challenges alone. *)
Definition calm {A} (m : M (App S) ApiError A) : Prop :=
  ∀ w, ap_challenges (m w).2 = ap_challenges w.
Lemma calm_ret {A} (a : A) : calm (mret a).
Proof. done. Qed.
Lemma calm_throw {A} e : calm (throw e : M (App S) ApiError A).
Proof. done. Qed.
Lemma calm_bind {A B} (m : M (App S) ApiError A) (k : A → M (App S) ApiError B) :
  calm m → (∀ a, calm (k a)) → calm (m ≫= k).
Proof.
  intros Hm Hk w. unfold mbind, M_bind. specialize (Hm w).
  destruct (m w) as [[a|e] w1]; cbn in *; [|done]. by rewrite (Hk a w1).
Qed.
Lemma calm_store {A} (m : SM S A) : calm (store_q m).
Proof. intros w. by rewrite store_q_run. Qed.
Lemma calm_run {A} (m : M (App S) ApiError A) w r w' :
  calm m → m w = (r, w') → ap_challenges w' = ap_challenges w.
Proof. intros Hm Hmw. specialize (Hm w). by rewrite Hmw in Hm. Qed.
#[local] Hint Resolve calm_ret calm_throw calm_bind calm_store quiet_ret quiet_throw quiet_bind
  quiet_now : rust.
#[local] Hint Extern 2 (calm (match ?x with _ => _ end)) => destruct x : rust.
#[local] Hint Extern 2 (quiet (match ?x with _ => _ end)) => destruct x : rust.

Lemma quiet_resolve_tier o : quiet (resolve_tier is_pro o : M (App S) _ _).
Proof. unfold resolve_tier. destruct (o ≫= _), is_pro; auto with rust. Qed.
Lemma calm_resolve_tier o : calm (resolve_tier is_pro o).
Proof. unfold resolve_tier. destruct (o ≫= _), is_pro; auto with rust. Qed.
Lemma quiet_mint_token key kind kid tier ttl :
  quiet (mint_client_token key kind kid tier ttl : M (App S) _ _).
Proof. unfold mint_client_token. auto with rust. Qed.
Lemma calm_mint_token key kind kid tier ttl : calm (mint_client_token key kind kid tier ttl).
Proof. unfold mint_client_token. apply calm_bind; [apply calm_store|]. auto with rust. Qed.

(** The token a device gets: an attested one, bound to its key, signed by the server, for
    the lifetime of client tokens. *)
Definition device_token (key_id token : str) (tier : Tier) (expires : Time) : Prop :=
  ∃ signing_key issued_at, token_signing_key config = Some signing_key ∧
    expires = issued_at + seconds CLIENT_TOKEN_TTL_SECONDS ∧
    jwt_encode signing_key (mkClientClaims KIND_IOS (Some key_id) tier
      (timestamp issued_at) (timestamp expires)) = Ok token.

Lemma mint_ok key_id rc w token tier x w' :
  mint config is_pro key_id rc w = (Ok (mkClientTokenResponse token tier x), w') →
  aview w' = aview w ∧ ap_challenges w' = ap_challenges w ∧ device_token key_id token tier x.
Proof.
  unfold mint. destruct (token_signing_key config) as [key|] eqn:Hkey; [|done].
  intros (tier' & w1 & Ht & [Hv1 _] & Hr)%quiet_step; [|apply quiet_resolve_tier].
  apply (calm_run _ _ _ _ (calm_resolve_tier rc)) in Ht as Hc1.
  apply quiet_step in Hr as ([tok x'] & w2 & Hm & [Hv2 _] & Hr); [|apply quiet_mint_token].
  apply (calm_run _ _ _ _ (calm_mint_token _ _ _ _ _)) in Hm as Hc2.
  injection Hr as -> -> -> ->. split; [congruence|]. split; [congruence|].
  unfold mint_client_token in Hm. apply bind_inv in Hm as (t & w3 & _ & Hm). cbn zeta in Hm.
  destruct (jwt_encode _ _) as [tok'|] eqn:Hj; [|done]. injection Hm as -> <- _.
  by exists key, t.
Qed.

Lemma consume_ok c w u w' :
  consume_challenge c w = (Ok u, w') →
  aview w' = aview w ∧
  (consume_at c (e_clock (ap_st w).2 0%nat) (ap_challenges w)).1 = true ∧
  ap_challenges w' = (consume_at c (e_clock (ap_st w).2 0%nat) (ap_challenges w)).2.
Proof.
  unfold consume_challenge. intros (t & w1 & Ht & [Hv _] & Hr)%quiet_step; [|apply quiet_now].
  apply (calm_run _ _ _ _ (calm_store _)) in Ht as Hc. apply app_now_ok in Ht. subst t.
  rewrite <-Hc. apply bind_inv in Hr as (b & w2 & Hb & Hr). unfold app_challenges in Hb.
  destruct (consume_at _ _ _) as [b' ch]. injection Hb as <- <-. destruct b'; [|done].
  by injection Hr as _ <-.
Qed.

Lemma advance_ok key n t w w' :
  store_q (advance_attested_device_counter key n t) w = (Ok true, w') →
  ∃ d, ab_devices (aview w) !! key = Some d ∧ ad_counter d < n ∧
    aview w' = set_devices (insert key (with_counter n t d)) (aview w).
Proof.
  intros Ha. destruct (store_q_ok _ _ _ _ _ _ (law_advance key n t) Ha) as [Hb Hv].
  destruct (ab_devices (aview w) !! key) as [d|]; [|done]. exists d. rewrite <-Hb in Hv.
  split; [done|]. split; [by apply Z.ltb_lt|done].
Qed.

Lemma assert_inv req w token tier x w' :
  assert config is_pro req w = (Ok (mkClientTokenResponse token tier x), w') →
  let now := e_clock (ap_st w).2 0%nat in
  ∃ app_id d n t, app_attest_app_id config = Some app_id ∧
    (consume_at (as_challenge req) now (ap_challenges w)).1 = true ∧
    ap_challenges w' = (consume_at (as_challenge req) now (ap_challenges w)).2 ∧
    ab_devices (aview w) !! as_key_id req = Some d ∧
    verify_assertion app_id (as_challenge req) (as_assertion req) (ad_public_key d) (ad_counter d) = Ok n ∧
    ad_counter d < n ∧ device_token (as_key_id req) token tier x ∧
    aview w' = set_devices (insert (as_key_id req) (with_counter n t d)) (aview w).
Proof.
  cbn zeta. unfold assert. intros (app_id & w0 & Hid & Hr)%bind_inv. unfold require_configured, ok_or in Hid.
  destruct (app_attest_app_id config) as [id|]; [|done]. injection Hid as <- <-.
  apply bind_inv in Hr as ([] & w1 & Hk & Hr). unfold validate_key_id in Hk.
  destruct (_ || _) in Hk; [done|]. injection Hk as <-.
  apply bind_inv in Hr as ([] & w2 & Hc & Hr). apply consume_ok in Hc as (Hv2 & Hlive & Hc2).
  apply bind_inv in Hr as (o & w3 & Hd & Hr).
  apply (calm_run _ _ _ _ (calm_store _)) in Hd as Hc3. rewrite store_q_run in Hd.
  destruct (reads_run _ _ (ap_st w2) (law_get_attested_device (as_key_id req))) as (Hv3 & _ & Ho).
  destruct (get_attested_device (as_key_id req) (ap_st w2)) as [[o'|] st]; [|done].
  cbn in Hd. injection Hd as <- <-. specialize (Ho o' eq_refl). cbn in Hv3, Ho, Hc3. subst o'.
  destruct (ab_devices (aview w2) !! as_key_id req) as [d|] eqn:Hdev; [|done].
  apply bind_inv in Hr as (n & w4 & Hn & Hr). destruct (verify_assertion _ _ _ _ _) as [n'|] eqn:Hver; [|done].
  injection Hn as -> <-. apply quiet_step in Hr as (t & w5 & Ht & [Hv5 _] & Hr); [|apply quiet_now].
  apply (calm_run _ _ _ _ (calm_store _)) in Ht as Hc5.
  apply bind_inv in Hr as (b & w6 & Hadv & Hr). apply (calm_run _ _ _ _ (calm_store _)) in Hadv as Hc6.
  destruct b; [|done]. apply advance_ok in Hadv as (d' & Hd' & Hlt & Hv6).
  apply mint_ok in Hr as (Hv7 & Hc7 & Htok).
  cbn in Hv5, Hc5. rewrite Hv5, Hv3 in Hd', Hv6. rewrite Hdev in Hd'. injection Hd' as <-.
  rewrite Hv2 in Hdev, Hv6. exists id, d, n, t. split_and!; try done; congruence.
Qed.

(** The counter an assertion carries does not depend on anything but its bytes. *)
Lemma verify_assertion_counter id1 id2 c1 c2 b64 k1 k2 p1 p2 n1 n2 :
  verify_assertion id1 c1 b64 k1 p1 = Ok n1 → verify_assertion id2 c2 b64 k2 p2 = Ok n2 → n1 = n2.
Proof.
  unfold verify_assertion. case_bool_decide; [done|]. destruct (base64_decode b64) as [cbor|]; [|done].
  destruct (negb (in_range _ _ p1)), (negb (in_range _ _ p2)); try done.
  destruct (assertion_counter cbor); [|done]. destruct (from_assertion cbor); [|done].
  destruct (assertion_check _ _ _ id1 _ _ _), (assertion_check _ _ _ id2 _ _ _); try done. congruence.
Qed.

(** C35: refreshing a client token proves possession of an attested device, once. When
    [assert] answers a token, App Attest is configured, the challenge was live and is now
    used up, the device was attested before, its assertion was verified with the key on
    file and carries a counter greater than the recorded one, which it replaces, nothing
    else having changed; the token is signed, attested and bound to that device. And the
    same assertion never earns another token, with whatever challenge it is presented. *)
Theorem assert_sound req w token tier x w' :
  assert config is_pro req w = (Ok (mkClientTokenResponse token tier x), w') →
  (∃ app_id d n t, app_attest_app_id config = Some app_id ∧
    (consume_at (as_challenge req) (e_clock (ap_st w).2 0%nat) (ap_challenges w)).1 = true ∧
    issued (ap_challenges w') !! as_challenge req = None ∧
    ab_devices (aview w) !! as_key_id req = Some d ∧
    verify_assertion app_id (as_challenge req) (as_assertion req) (ad_public_key d) (ad_counter d) = Ok n ∧
    ad_counter d < n ∧ device_token (as_key_id req) token tier x ∧
    aview w' = set_devices (insert (as_key_id req) (with_counter n t d)) (aview w)) ∧
  ∀ req' w1 r, as_key_id req' = as_key_id req → as_assertion req' = as_assertion req →
    aview w1 = aview w' → (assert config is_pro req' w1).1 ≠ Ok r.
Proof.
  intros Ha. apply assert_inv in Ha as (id & d & n & t & Hid & Hlive & Hch & Hd & Hver & Hlt & Htok & Hv).
  split.
  - exists id, d, n, t. split_and!; try done. rewrite Hch. cbn. apply lookup_delete_eq.
  - intros req' w1 [tok' tier' x'] Hk Has Hv1 Hr.
    destruct (assert config is_pro req' w1) as [r w2] eqn:Ha. cbn in Hr. subst r.
    apply assert_inv in Ha as (id' & d' & n' & t' & _ & _ & _ & Hd' & Hver' & Hlt' & _).
    rewrite Hv1, Hv, Hk in Hd'. cbn in Hd'. rewrite lookup_insert_eq in Hd'. injection Hd' as <-.
    rewrite Has in Hver'. assert (n' = n) as -> by exact (verify_assertion_counter _ _ _ _ _ _ _ _ _ _ _ Hver' Hver).
    cbn in Hlt'. lia.
Qed.

(** Attesting a device: the challenge was live and is used up, the attestation was verified
    for this key, and the key is on file: a new device with the verified public key and a
    counter of zero, or the one already known, key and counter unchanged. *)
Theorem attest_sound req w token tier x w' :
  attest config is_pro req w = (Ok (mkClientTokenResponse token tier x), w') →
  ∃ app_id pk t, app_attest_app_id config = Some app_id ∧
    (consume_at (ar_challenge req) (e_clock (ap_st w).2 0%nat) (ap_challenges w)).1 = true ∧
    verify_attestation app_id (root_pem config) (ar_challenge req) (ar_key_id req) (ar_attestation req) = Ok pk ∧
    device_token (ar_key_id req) token tier x ∧
    aview w' = set_devices (insert (ar_key_id req)
      match ab_devices (aview w) !! ar_key_id req with
      | Some d => with_last_seen t d
      | None => mkAttestedDevice (ar_key_id req) pk 0 t t
      end) (aview w).
Proof.
  unfold attest. intros (app_id & w0 & Hid & Hr)%bind_inv. unfold require_configured, ok_or in Hid.
  destruct (app_attest_app_id config) as [id|]; [|done]. injection Hid as <- <-.
  apply bind_inv in Hr as ([] & w1 & Hk & Hr). unfold validate_key_id in Hk.
  destruct (_ || _) in Hk; [done|]. injection Hk as <-.
  apply bind_inv in Hr as ([] & w2 & Hc & Hr). apply consume_ok in Hc as (Hv2 & Hlive & _).
  apply bind_inv in Hr as (pk & w3 & Hpk & Hr). destruct (verify_attestation _ _ _ _ _) as [pk'|] eqn:Hver; [|done].
  injection Hpk as -> <-. apply quiet_step in Hr as (t & w4 & _ & [Hv4 _] & Hr); [|apply quiet_now].
  apply bind_inv in Hr as (d & w5 & Hup & Hr).
  destruct (store_q_ok _ _ _ _ _ _ (law_upsert_attested_device (ar_key_id req) pk t) Hup) as [_ Hv5].
  apply mint_ok in Hr as (Hv6 & _ & Htok). exists id, pk, t. split_and!; try done.
  by rewrite Hv6, Hv5, Hv4, Hv2.
Qed.
End laws.

(** ** A concrete run *)

(** A decoder of one-entry maps, and a verifier that accepts what decodes. *)
#[local] Instance demo_attest : AppAttest := {|
  Attestation := unit;
  attestation_decode_base64 := λ s, Ok s;
  attestation_from_cbor := λ _, Ok tt;
  attestation_verify := λ _ _ _ _ _, Ok ([4], []);
  base64_decode := λ s, Ok s;
  Assertion := unit;
  from_assertion := λ _, Ok tt;
  assertion_check := λ _ _ _ _ _ _ _, Ok tt;
  Decoder := bytes;
  decoder_new := λ b, b;
  decoder_map := λ d, Some (Some 1, d);
  decoder_str := λ d, Some (lit "authenticatorData", d);
  decoder_bytes := λ d, Some (d, []);
  decoder_skip := λ d, Some d;
  APPLE_ROOT_CA_PEM := [];
|}.
#[local] Existing Instance demo_crypto.

Definition demo_issued : result ChallengeResponse ApiError * App MemoryStore :=
  challenge demo_api_config
    (mkApp (mem_upsert_attested_device (lit "kid") [4] 1 (ap_st demo_app)).2 (ap_limits demo_app)
       (ap_challenges demo_app)).
Definition demo_request : AssertRequest :=
  mkAssertRequest (lit "kid") (List.repeat 0 33 ++ [0; 0; 0; 5])
    (match demo_issued.1 with Ok c => chr_challenge c | Err _ => [] end) None.

Lemma assert_sound_witness :
  ∃ token tier x w', assert demo_api_config None demo_request demo_issued.2 = (Ok (mkClientTokenResponse token tier x), w') ∧
    issued (ap_challenges w') !! as_challenge demo_request = None ∧
    (∀ r, (assert demo_api_config None demo_request w').1 ≠ Ok r).
Proof.
  assert (is_ok (assert demo_api_config None demo_request demo_issued.2).1 = true)
    as Hok by (vm_compute; reflexivity).
  destruct (assert _ _ _ _) as [[[token tier x]|e] w'] eqn:Ha; [|discriminate].
  exists token, tier, x, w'. split; [reflexivity|].
  destruct (assert_sound _ _ _ _ _ _ _ _ Ha) as [(app_id & d & n & t & _ & _ & Hi & _) Hreplay].
  split; [exact Hi|]. intros r. apply Hreplay; reflexivity.
Defined.
