(* ===== verification/ApiDownloads.v ===== *)
(** * ApiDownloads: raw messages and attachments ([src/api/messages.rs])

    The two download endpoints and the headers they build from what a stranger put in a
    mail. The header type of the [http] crate is third-party code: the class [HeaderValue],
    with what its documentation promises. *)

From S2P Require Import Prelude Str Model Config StoreSpec Limits Api ApiLaws.
From S2P Require Import MemoryStore MemoryMessages MemoryClaims MemoryStoreLaws Attest.

Definition visible (c : Z) : bool := in_range 32 126 c.

(** [HeaderValue::from_str] refuses what may not stand in a header; visible ASCII may. *)
Class HeaderValue := {
  header_from_str : str → option str;
  header_from_str_same s v : header_from_str s = Some v → v = s;
  header_from_str_visible s : all visible s = true → header_from_str s = Some s;
}.

Definition ACTIVE_TYPES : list str :=
  [lit "text/html"; lit "application/xhtml+xml"; lit "image/svg+xml"; lit "text/xml";
   lit "application/xml"].
Definition OCTET_STREAM : str := lit "application/octet-stream".

Definition forced_octet_stream (content_type : str) : bool :=
  let essence := to_ascii_lowercase (trim (default [] (head (split 59 content_type)))) in
  bool_decide (essence ∈ ACTIVE_TYPES).

Definition HEX : str := lit "0123456789ABCDEF".
Definition attr_char (b : Z) : bool :=
  is_ascii_alphanumeric b || bool_decide (b ∈ lit "!#$&+-.^_`|~").
Definition rfc5987_byte (b : Z) : str :=
  if attr_char b then [b]
  else [37; nth (Z.to_nat (Z.shiftr b 4)) HEX 0; nth (Z.to_nat (Z.land b 15)) HEX 0].
Definition rfc5987_encode (name : str) : str := concat (map rfc5987_byte (as_bytes name)).

Definition safe_filename (name : option str) : str :=
  let cleaned :=
    retain (λ c, negb (is_control c) && negb (c =? 34) && negb (c =? 92) && is_ascii_char c)
      (default [] name) in
  let cleaned := trim cleaned in
  if bool_decide (cleaned = []) then lit "attachment" else cleaned.

Definition content_disposition (name : option str) : str :=
  let value := lit "attachment; filename=" ++ [34] ++ safe_filename name ++ [34] in
  match name with
  | Some raw =>
      if negb (is_ascii raw) then value ++ lit "; filename*=UTF-8''" ++ rfc5987_encode raw
      else value
  | None => value
  end.

Abbreviation Headers := (list (str * str)) (only parsing).

Section downloads.
Context {S : Type} `{Store S} `{HeaderValue} `{UuidText}.

Definition get_raw (address : str) (id : Uuid) : M (App S) ApiError (Headers * bytes) :=
  let address := to_ascii_lowercase address in
  o ← store_q (get_raw_message address id);
  raw ← or_404 o (lit "raw message not available (missing, or raw retention is disabled)");
  let headers := [(lit "content-type", lit "message/rfc822");
                  (lit "x-content-type-options", lit "nosniff")] in
  let disposition := lit "attachment; filename=" ++ [34] ++ uuid_to_string id ++ lit ".eml" ++ [34] in
  let headers := headers ++ match header_from_str disposition with
                            | Some value => [(lit "content-disposition", value)]
                            | None => []
                            end in
  mret (headers, raw).

Definition get_attachment_h (address : str) (id attachment_id : Uuid)
    : M (App S) ApiError (Headers * bytes) :=
  let address := to_ascii_lowercase address in
  o ← store_q (get_attachment address id attachment_id);
  att ← or_404 o (lit "attachment not found");
  let content_type :=
    if forced_octet_stream (at_content_type att) then OCTET_STREAM
    else default OCTET_STREAM (header_from_str (at_content_type att)) in
  let headers := [(lit "x-content-type-options", lit "nosniff");
                  (lit "content-type", content_type)] in
  let headers := headers ++ match header_from_str (content_disposition (at_filename att)) with
                            | Some value => [(lit "content-disposition", value)]
                            | None => []
                            end in
  mret (headers, at_content att).
End downloads.

(** ** Reading the extended file name back *)

Definition hex_value (c : Z) : Z := if is_ascii_digit c then c - 48 else c - 55.
(** The decoder of a client: percent escapes, everything else literal. *)
Fixpoint rfc5987_decode (s : str) : bytes :=
  match s with
  | 37 :: h :: l :: s => hex_value h * 16 + hex_value l :: rfc5987_decode s
  | c :: s => c :: rfc5987_decode s
  | [] => []
  end.

Definition byte (b : Z) : Prop := 0 ≤ b < 256.


Lemma as_bytes_range s : valid_str s = true → Forall byte (as_bytes s).
Proof.
  unfold valid_str, as_bytes. induction s as [|c s IH]; cbn; [constructor|]. intros [Hc Hs]%andb_prop.
  apply Forall_app. split; [|by apply IH]. clear IH Hs.
  assert (0 ≤ c ≤ 1114111) as Hr by (apply orb_true_iff in Hc as [H|H]; apply in_range_spec in H; lia).
  unfold utf8_encode_char, byte. repeat case_match; repeat constructor;
    try (apply Z.ltb_lt in H); lia_div.
Qed.

(** A property of every byte, decided by trying them all. *)
Lemma byte_decide (p : Z → bool) :
  all p (map Z.of_nat (seq 0 256)) = true → ∀ b, byte b → p b = true.
Proof.
  rewrite all_true. intros Hp b Hb. apply Hp, list_elem_of_fmap. exists (Z.to_nat b).
  unfold byte in Hb. split; [lia|]. apply elem_of_seq. lia.
Qed.

(** Characters that keep within a parameter of a header: no space, quote, comma or
    semicolon. *)
Definition quiet (c : Z) : bool := visible c && negb (bool_decide (c ∈ [32; 34; 44; 59])).

Lemma rfc5987_byte_ok b :
  byte b → all quiet (rfc5987_byte b) = true ∧
  ∀ s, rfc5987_decode (rfc5987_byte b ++ s) = b :: rfc5987_decode s.
Proof.
  intros Hb. split.
  { exact (byte_decide (λ b, all quiet (rfc5987_byte b)) ltac:(vm_compute; reflexivity) b Hb). }
  intros s. unfold rfc5987_byte.
  pose proof (byte_decide (λ b, if attr_char b then negb (b =? 37) else
    hex_value (nth (Z.to_nat (Z.shiftr b 4)) HEX 0) * 16 + hex_value (nth (Z.to_nat (Z.land b 15)) HEX 0) =? b)
    ltac:(vm_compute; reflexivity) b Hb) as Hd. cbn beta in Hd.
  destruct (attr_char b).
  - boolify. apply Z.eqb_neq in Hd. cbn. repeat case_match; done || lia.
  - apply Z.eqb_eq in Hd. cbn. by rewrite Hd.
Qed.

Lemma rfc5987_roundtrip name :
  valid_str name = true →
  all quiet (rfc5987_encode name) = true ∧ rfc5987_decode (rfc5987_encode name) = as_bytes name.
Proof.
  intros Hb%as_bytes_range. unfold rfc5987_encode.
  induction Hb as [|b l Hb Hl (IHq & IHd)]; [done|]. destruct (rfc5987_byte_ok b Hb) as (Hq & Hd).
  cbn [map concat]. rewrite all_app, Hq, Hd, IHq, IHd. done.
Qed.
Lemma quiet_visible s : all quiet s = true → all visible s = true.
Proof.
  rewrite !all_true. intros Hs c Hc. specialize (Hs c Hc). unfold quiet in Hs. by apply andb_true_iff in Hs as [? _].
Qed.

(** ** Safety of the headers *)

Definition quotable (c : Z) : bool := visible c && negb (c =? 34) && negb (c =? 92).

Lemma safe_filename_ok name : safe_filename name ≠ [] ∧ all quotable (safe_filename name) = true.
Proof.
  unfold safe_filename. case_bool_decide as Hc; [by split|]. split; [done|].
  apply all_true. intros c [_ Hk]%trim_elem%elem_of_retain.
  apply andb_prop in Hk as [[[Hctl Hq]%andb_prop Hbs]%andb_prop Hasc].
  unfold quotable. rewrite Hq, Hbs, !andb_true_r. apply negb_true_iff, orb_false_iff in Hctl as [Ha Hb].
  apply in_range_false in Ha, Hb. apply in_range_spec in Hasc. apply in_range_spec. lia.
Qed.

(** A name beyond ASCII. *)
Definition beyond_ascii (name : str) : Prop := ∃ c, c ∈ name ∧ (c < 0 ∨ 127 < c).
(** A name that can stand between quotes as it is. *)
Definition plain_name (name : str) : Prop :=
  name ≠ [] ∧ trimmed name ∧ all quotable name = true.

(** The value is [attachment] with a quoted name that cannot end early, the sender's own
    when that is plain; and then, exactly for a name beyond ASCII, the extended form, from
    which the name comes back. *)
Definition disposition_safe (name : option str) (value : str) : Prop :=
  ∃ file star, value = lit "attachment; filename=" ++ [34] ++ file ++ [34] ++ star ∧
    file ≠ [] ∧ all quotable file = true ∧
    (∀ raw, name = Some raw → plain_name raw → file = raw) ∧
    (∀ raw, name = Some raw → beyond_ascii raw →
       ∃ enc, star = lit "; filename*=UTF-8''" ++ enc ∧ all quiet enc = true ∧
              rfc5987_decode enc = as_bytes raw) ∧
    ((∀ raw, name = Some raw → ¬ beyond_ascii raw) → star = []).

Lemma is_ascii_spec s : is_ascii s = false ↔ beyond_ascii s.
Proof.
  unfold is_ascii, beyond_ascii. split.
  - intros Hs. induction s as [|c s IH]; [done|]. cbn in Hs. apply andb_false_iff in Hs as [Hc|Hs].
    + exists c. split; [left|]. apply in_range_false in Hc. lia.
    + destruct (IH Hs) as (x & Hx & ?). exists x. split; [by right|done].
  - intros (c & Hc & Hr). apply not_true_iff_false. intros Hs. rewrite all_true in Hs.
    specialize (Hs c Hc). apply in_range_spec in Hs. lia.
Qed.
Lemma safe_filename_plain raw : plain_name raw → safe_filename (Some raw) = raw.
Proof.
  intros (Hne & Ht & Hq). unfold safe_filename. cbn zeta. cbn [default id]. rewrite retain_true.
  - unfold trimmed in Ht. rewrite Ht. by rewrite bool_decide_false.
  - intros c Hc. rewrite all_true in Hq. specialize (Hq c Hc). unfold quotable, visible in Hq.
    apply andb_true_iff in Hq as [[Hv ->]%andb_true_iff ->]. apply in_range_spec in Hv.
    unfold is_control, is_ascii_char. rewrite !andb_true_r. apply andb_true_iff. split.
    + apply negb_true_iff, orb_false_iff. split; apply in_range_false; lia.
    + apply in_range_spec. lia.
Qed.

Lemma content_disposition_safe name :
  (∀ raw, name = Some raw → valid_str raw = true) →
  disposition_safe name (content_disposition name) ∧ all visible (content_disposition name) = true.
Proof.
  intros Hval. destruct (safe_filename_ok name) as [Hne Hq].
  assert (∀ star, all visible star = true →
    all visible (lit "attachment; filename=" ++ [34] ++ safe_filename name ++ [34] ++ star) = true) as Hvis.
  { intros star Hs. rewrite !all_app, Hs. replace (all visible (safe_filename name)) with true; [done|].
    symmetry. rewrite all_true in *. intros c Hc%Hq. unfold quotable in Hc. by boolify. }
  assert (∀ raw, name = Some raw → plain_name raw → safe_filename name = raw) as Hplain.
  { intros raw ->. apply safe_filename_plain. }
  unfold content_disposition. destruct name as [raw|].
  - destruct (is_ascii raw) eqn:Ha; cbn [negb].
    + assert (¬ beyond_ascii raw) as Hn by (rewrite <-is_ascii_spec; congruence).
      split; [|exact (Hvis [] eq_refl)]. exists (safe_filename (Some raw)), []. split_and!; try done.
      by intros raw' [= <-].
    + apply is_ascii_spec in Ha as Hb. destruct (rfc5987_roundtrip raw (Hval raw eq_refl)) as (He & Hd).
      rewrite <-!app_assoc. split; [|apply Hvis; by rewrite all_app, (quiet_visible _ He)].
      eexists _, _. split; [reflexivity|]. split_and!; try done.
      * intros raw' [= <-] _. by exists (rfc5987_encode raw).
      * intros Hn. by destruct (Hn raw eq_refl).
  - split; [|exact (Hvis [] eq_refl)]. exists (safe_filename None), []. by split_and!.
Qed.

(** ** Types a browser would execute *)

(** The media type a content type announces: what stands before the parameters, without
    white space around it and whatever its case. *)
Definition media_type (content_type t : str) : Prop :=
  ∃ before name after params, content_type = before ++ name ++ after ++ params ∧
    to_ascii_lowercase name = t ∧ Forall (λ c, is_whitespace c = true) (before ++ after) ∧
    (params = [] ∨ ∃ p, params = 59 :: p).
Definition executable (content_type : str) : Prop :=
  ∃ t, media_type content_type t ∧
    (t = lit "text/html" ∨ t = lit "application/xhtml+xml" ∨ t = lit "image/svg+xml" ∨
     t = lit "text/xml" ∨ t = lit "application/xml").

Lemma active_types t :
  t ∈ ACTIVE_TYPES ↔ t = lit "text/html" ∨ t = lit "application/xhtml+xml" ∨ t = lit "image/svg+xml" ∨
    t = lit "text/xml" ∨ t = lit "application/xml".
Proof. unfold ACTIVE_TYPES. set_solver. Qed.

Lemma split_head c s : ∃ rest, s = default [] (head (split c s)) ++ rest ∧ (rest = [] ∨ ∃ p, rest = c :: p).
Proof.
  pose proof (join_split c s) as Hj. destruct (split c s) as [|p [|q ps]] eqn:Hs; [by apply split_not_nil in Hs|..].
  - exists []. cbn in *. rewrite app_nil_r. split; [done|by left].
  - exists (c :: join [c] (q :: ps)). split; [by rewrite <-Hj|right; eauto].
Qed.
Lemma head_split c p rest :
  c ∉ p → (rest = [] ∨ ∃ q, rest = c :: q) → head (split c (p ++ rest)) = Some p.
Proof.
  intros Hp Hr. induction p as [|x p IH].
  - destruct Hr as [->|[q ->]]; [done|]. cbn. by rewrite Z.eqb_refl.
  - apply not_elem_of_cons in Hp as [Hne Hp]. cbn. rewrite (proj2 (Z.eqb_neq x c)) by done.
    specialize (IH Hp). destruct (split c (p ++ rest)) as [|y l]; [done|]. by injection IH as ->.
Qed.
Lemma trim_around s : ∃ b a, s = b ++ trim s ++ a ∧ Forall (λ c, is_whitespace c = true) (b ++ a).
Proof.
  destruct (drop_while_suffix is_whitespace s) as (b & Hb & Hwb).
  destruct (trim_end_by_prefix is_whitespace (drop_while is_whitespace s)) as (a & Ha & Hwa).
  exists b, a. split; [unfold trim, trim_end, trim_start, trim_start_by; by rewrite <-Ha|by apply Forall_app].
Qed.
Lemma trim_word b n a :
  Forall (λ c, is_whitespace c = true) (b ++ a) → Forall (λ c, is_whitespace c = false) n → n ≠ [] →
  trim (b ++ n ++ a) = n.
Proof.
  intros [Hb Ha]%Forall_app Hn Hne. unfold trim, trim_start, trim_start_by, trim_end, trim_end_by.
  assert (∀ w s, Forall (λ c, is_whitespace c = true) w →
    drop_while is_whitespace (w ++ s) = drop_while is_whitespace s) as Hdrop.
  { intros w s Hw. induction Hw as [|c w Hc Hw IH]; [done|]. cbn. by rewrite Hc. }
  rewrite Hdrop by done. rewrite (drop_while_id _ (n ++ a)).
  - rewrite rev_app_distr, Hdrop by (by apply Forall_rev). rewrite drop_while_id; [by rewrite rev_involutive|].
    intros c t Hc. rewrite Forall_forall in Hn. apply Hn, list_elem_of_In, in_rev. rewrite Hc. left. done.
  - intros c t Hc. destruct n as [|x n]; [done|]. injection Hc as -> _. by apply Forall_cons in Hn as [? _].
Qed.

(** The test of the code finds exactly these. *)
Lemma forced_octet_stream_spec content_type : forced_octet_stream content_type = true ↔ executable content_type.
Proof.
  unfold forced_octet_stream, executable. rewrite bool_decide_eq_true. split.
  - intros Ht. apply active_types in Ht as Ht'. eexists. split; [|exact Ht']. clear Ht Ht'.
    destruct (split_head 59 content_type) as (rest & Hs & Hr).
    destruct (trim_around (default [] (head (split 59 content_type)))) as (b & a & Hh & Hw).
    exists b, (trim (default [] (head (split 59 content_type)))), a, rest. split; [|done].
    rewrite Hs at 1. rewrite Hh at 1. by rewrite <-!app_assoc.
  - intros (t & (b & n & a & params & -> & <- & Hw & Hp) & Ht). apply active_types in Ht.
    assert (∀ c, c ∈ n → is_whitespace c = false ∧ c ≠ 59) as Hn.
    { assert (all (all (λ x, negb (is_whitespace x) && negb (x =? 59))) ACTIVE_TYPES = true) as Hall
        by (vm_compute; reflexivity).
      rewrite all_true in Hall. specialize (Hall _ Ht). rewrite all_true in Hall.
      intros c Hc. specialize (Hall (lower_char c) ltac:(by apply list_elem_of_fmap_2)).
      apply andb_true_iff in Hall as [Hl%negb_true_iff Hs%negb_true_iff]. apply Z.eqb_neq in Hs.
      unfold lower_char in *. destruct (is_ascii_uppercase c) eqn:Hu; [|done].
      apply in_range_spec in Hu. split; [|lia]. unfold is_whitespace.
      rewrite !orb_false_iff, !in_range_false, !Z.eqb_neq. lia. }
    assert (n ≠ []) as Hne by (intros ->; apply active_types in Ht; by destruct Ht as [?|[?|[?|[?|?]]]]).
    rewrite !(app_assoc b), (app_assoc _ a), head_split; [|intros Hin|done].
    + cbn [default id]. rewrite <-app_assoc, trim_word; [done|done| |done].
      apply Forall_forall. intros c Hc. by apply Hn.
    + rewrite !elem_of_app in Hin. rewrite Forall_forall in Hw.
      assert (is_whitespace 59 = false) as H59 by reflexivity.
      destruct Hin as [[Hin|Hin]|Hin]; [|by destruct (Hn 59 Hin)|];
        rewrite Hw in H59; try done; apply elem_of_app; auto.
Qed.

Section laws.
Context {S : Type} `{Store S} `{HeaderValue} `{UuidText}.

(** C36: downloading an attachment is safe whatever name and type the sender gave it. An
    attachment on file is always answered, with exactly its content, and sniffing is
    switched off. A type that announces HTML, XHTML, SVG or XML, in any case, with white
    space around it or parameters behind it, is served as [application/octet-stream]; any
    other type is served as it was sent, or as [application/octet-stream] when it cannot
    stand in a header. The disposition is always present and is a download under a quoted
    name that cannot break out of its quotes or of the header, the sender's own name when
    that is plain; a name beyond ASCII is followed by its encoded form, which holds no
    space, quote, comma or semicolon and from which the original name is recovered. *)
Theorem attachment_download_safe address id aid (w : App S) att :
  (get_attachment (to_ascii_lowercase address) id aid (ap_st w)).1 = Ok (Some att) →
  (∀ raw, at_filename att = Some raw → valid_str raw = true) →
  ∃ content_type disposition w',
    get_attachment_h address id aid w
    = (Ok ([(lit "x-content-type-options", lit "nosniff"); (lit "content-type", content_type);
            (lit "content-disposition", disposition)], at_content att), w') ∧
    (executable (at_content_type att) → content_type = lit "application/octet-stream") ∧
    (¬ executable (at_content_type att) →
       content_type = default (lit "application/octet-stream") (header_from_str (at_content_type att))) ∧
    disposition_safe (at_filename att) disposition.
Proof.
  intros Hatt Hval. destruct (content_disposition_safe _ Hval) as [Hsafe Hvis].
  pose (m := get_attachment (to_ascii_lowercase address) id aid).
  assert (store_q m w = (Ok (Some att), (store_q m w).2)) as Hm.
  { rewrite store_q_run. unfold m. by rewrite Hatt. }
  pose (ct := if forced_octet_stream (at_content_type att) then OCTET_STREAM
              else default OCTET_STREAM (header_from_str (at_content_type att))).
  exists ct, (content_disposition (at_filename att)), (store_q m w).2.
  split.
  { unfold get_attachment_h. rewrite (bind_ok _ _ _ _ _ Hm), (bind_ok _ _ _ att (store_q m w).2) by done.
    by rewrite (header_from_str_visible _ Hvis). }
  rewrite <-forced_octet_stream_spec. unfold ct.
  by destruct (forced_octet_stream (at_content_type att)); split_and!.
Qed.

(** A raw message on file is answered with its bytes, as a mail to download under its
    identifier. *)
Lemma raw_download address id (w : App S) raw :
  (get_raw_message (to_ascii_lowercase address) id (ap_st w)).1 = Ok (Some raw) →
  ∃ w', get_raw address id w
    = (Ok ([(lit "content-type", lit "message/rfc822"); (lit "x-content-type-options", lit "nosniff");
            (lit "content-disposition",
             lit "attachment; filename=" ++ [34] ++ uuid_to_string id ++ lit ".eml" ++ [34])], raw), w').
Proof.
  intros Hraw. pose (m := get_raw_message (to_ascii_lowercase address) id).
  assert (store_q m w = (Ok (Some raw), (store_q m w).2)) as Hm.
  { rewrite store_q_run. unfold m. by rewrite Hraw. }
  exists (store_q m w).2. unfold get_raw.
  rewrite (bind_ok _ _ _ _ _ Hm), (bind_ok _ _ _ raw (store_q m w).2) by done.
  rewrite header_from_str_visible; [done|]. rewrite !all_app.
  assert (all visible (uuid_to_string id) = true) as ->; [|by vm_compute].
  pose proof (uuid_to_string_chars id) as Hu. rewrite all_true in *. intros c Hc. apply in_range_spec.
  specialize (Hu c Hc). apply orb_true_iff in Hu as [[Hu|Hu]%orb_true_iff|Hu];
    [apply in_range_spec in Hu; lia|apply in_range_spec in Hu; lia|apply Z.eqb_eq in Hu; lia].
Qed.
End laws.

(** ** A concrete run *)

#[local, refine] Instance demo_header : HeaderValue :=
  {| header_from_str := λ s, if all visible s then Some s else None |}.
Proof.
  - intros s v. by destruct (all visible s); intros [= <-].
  - intros s Hs. by rewrite Hs.
Defined.

(** A mail with an HTML attachment whose name has a quote, a line break and an accent. *)
Definition demo_mail_att : NewMessage :=
  mkNewMessage (lit "s@y.io") None None None None 9 None
    [mkNewAttachment (Some (lit "na" ++ [34; 13; 10; 239] ++ lit "f.html")) (lit "TEXT/HTML; charset=x") [60; 62]].
Definition demo_saved : result StoredMessage anyhow * (MemoryStore * Env) :=
  mem_save_message demo_address demo_mail_att demo_start.
Definition demo_ids : Uuid * Uuid :=
  match demo_saved.1 with
  | Ok st => (sm_id st, default 0 (am_id <$> head (sm_attachments st)))
  | Err _ => (0, 0)
  end.

Lemma demo_executable : executable (lit "TEXT/HTML; charset=x").
Proof.
  exists (lit "text/html"). split; [|by left]. exists [], (lit "TEXT/HTML"), [], (lit "; charset=x").
  split_and!; [reflexivity..|constructor|]. right. by exists (lit " charset=x").
Qed.
Lemma attachment_download_safe_witness :
  ∃ disposition w',
    get_attachment_h demo_address demo_ids.1 demo_ids.2
      (mkApp demo_saved.2 (from_config Config_default) ChallengeStore_default)
    = (Ok ([(lit "x-content-type-options", lit "nosniff"); (lit "content-type", OCTET_STREAM);
            (lit "content-disposition", disposition)], [60; 62]), w') ∧
    disposition_safe (Some (lit "na" ++ [34; 13; 10; 239] ++ lit "f.html")) disposition.
Proof.
  destruct (attachment_download_safe demo_address demo_ids.1 demo_ids.2
    (mkApp demo_saved.2 (from_config Config_default) ChallengeStore_default)
    (mkAttachment (Some (lit "na" ++ [34; 13; 10; 239] ++ lit "f.html")) (lit "TEXT/HTML; charset=x") [60; 62]))
    as (ct & d & w' & Hrun & Hf & _ & Hd).
  - vm_compute. reflexivity.
  - intros raw [= <-]. vm_compute. reflexivity.
  - rewrite (Hf demo_executable) in Hrun. exists d, w'. split; [exact Hrun|exact Hd].
Defined.
