(* ===== verification/ApiMessages.v ===== *)
(** * ApiMessages: what the message endpoints answer and change

    The handlers of [src/api/messages.rs] against the inboxes of [MailLaws]: reading
    answers what is in the inbox and changes nothing, marking changes one flag, deleting
    needs the owner token and removes exactly what was named. *)

From S2P Require Import Prelude Str Model UuidHex Config StoreSpec MailSpec CustomDomains Attest.
From S2P Require Import Limits Api ApiAddresses ApiLaws ApiDownloads MemoryStore MemoryStoreLaws MemoryClaims MemoryInbox.

Section messages.
Context {S : Type} `{ML : MailLaws S} `{Crypto} `{HeaderValue} `{UuidText}.
Variable config : Config.

Implicit Types w : App S.
Abbreviation box w := (mail (ap_st w).1).
Abbreviation mwf w := (mail_wf (ap_st w)).

(** A step of a handler that keeps every inbox. *)
Definition keeps_mail {A} (m : M (App S) ApiError A) : Prop :=
  ∀ w, mwf w → mwf (m w).2 ∧ ∀ a, box (m w).2 a = box w a.

Lemma keeps_ret {A} (a : A) : keeps_mail (mret a).
Proof. done. Qed.
Lemma keeps_throw {A} e : keeps_mail (throw e : M (App S) ApiError A).
Proof. done. Qed.
Lemma keeps_bind {A B} (m : M (App S) ApiError A) (k : A → M (App S) ApiError B) :
  keeps_mail m → (∀ a, keeps_mail (k a)) → keeps_mail (m ≫= k).
Proof.
  intros Hm Hk w Hw. unfold mbind, M_bind. destruct (Hm w Hw) as [Hw1 Hb].
  destruct (m w) as [[a|e] w1]; cbn in *; [|done]. destruct (Hk a w1 Hw1) as [? Hb1].
  split; [done|]. intros b. by rewrite Hb1.
Qed.
Lemma keeps_reads {A} (m : SM S A) R : mail_reads mail mail_caps mail_wf m R → keeps_mail (store_q m).
Proof. intros Hm w Hw. rewrite store_q_run. cbn. by destruct (Hm _ Hw) as (? & _ & ? & _). Qed.
Lemma keeps_now : keeps_mail app_now.
Proof.
  intros w Hw. rewrite app_now_run. split; [|done]. destruct (ap_st w) as [s e]. by apply (law_mail_clock s e _ 1).
Qed.
Lemma keeps_or_404 {A} (o : option A) m : keeps_mail (or_404 o m).
Proof. by destruct o. Qed.
#[local] Hint Resolve keeps_ret keeps_throw keeps_bind keeps_now keeps_or_404 : rust.
#[local] Hint Extern 2 (keeps_mail (match ?x with _ => _ end)) => destruct x : rust.
#[local] Hint Extern 1 (keeps_mail (store_q (get_mailbox _))) =>
  eapply keeps_reads, law_mail_get_mailbox : rust.

Lemma keeps_claims h : keeps_mail (client_claims config h).
Proof. unfold client_claims. auto 10 with rust. Qed.
#[local] Hint Resolve keeps_claims : rust.
Lemma keeps_gate h : keeps_mail (attestation_gate config h).
Proof. unfold attestation_gate. auto 10 with rust. Qed.
Lemma keeps_authorize a h : keeps_mail (authorize_owner a h).
Proof. unfold authorize_owner. auto 12 with rust. Qed.

(** ** Reading *)

(** The answer of a query of the store, or its failure. *)
Lemma query_answer {A} (m : SM S A) R w :
  mail_reads mail mail_caps mail_wf m R → mwf w →
  (∃ x w', store_q m w = (Ok x, w') ∧ R (box w) x ∧ mwf w' ∧ (∀ a, box w' a = box w a)) ∨
  ∃ e w', store_q m w = (Err (Internal e), w') ∧ mwf w' ∧ ∀ a, box w' a = box w a.
Proof.
  intros Hm Hw. rewrite store_q_run. destruct (Hm _ Hw) as (Hw' & _ & Hb & _ & Hx).
  destruct (m (ap_st w)) as [[x|e] st]; cbn in *; [left|right]; do 2 eexists; eauto.
Qed.

(** A read of message [id] of mailbox [a] that answers [R], is not found exactly when
    there is no such message, or fails in the database. *)
Definition answers {A} (P : A → Prop) (missing : Prop) (r : result A ApiError) : Prop :=
  match r with
  | Ok x => P x
  | Err (NotFound _) => missing
  | Err (Internal _) => True
  | Err _ => False
  end.

Definition page_size (limit : option Z) : Z := Z.max 1 (Z.min MAX_PAGE_SIZE (default DEFAULT_PAGE_SIZE limit)).

Lemma mailbox_answer a w :
  mwf w →
  (∃ w', store_q (get_mailbox a) w = (Ok (ab_mailboxes (view (ap_st w).1) !! a), w') ∧
     mwf w' ∧ (∀ b, box w' b = box w b)) ∨
  ∃ e w', store_q (get_mailbox a) w = (Err (Internal e), w') ∧ mwf w' ∧ ∀ b, box w' b = box w b.
Proof.
  intros Hw. destruct (reads_run _ _ (ap_st w) (law_get_mailbox a)) as (_ & _ & Ho).
  destruct (keeps_reads _ _ (law_mail_get_mailbox a) w Hw) as [Hw1 Hb1]. rewrite store_q_run in *.
  destruct (get_mailbox a (ap_st w)) as [[o|er] st1]; cbn in *; [left|right; eauto].
  rewrite <-(Ho o eq_refl). eauto.
Qed.

Lemma messages_list_answer address limit since w :
  mwf w → (∀ i, since = Some i → mail_id i) →
  let a := to_ascii_lowercase address in
  let r := messages_list address (mkListQuery limit since) w in
  (mwf r.2 ∧ ∀ b, box r.2 b = box w b) ∧
  answers (λ l, is_Some (ab_mailboxes (view (ap_st w).1) !! a) ∧
      l = map mail_summary (mail_page (page_size limit) since (box w a)) ∧ len l ≤ MAX_PAGE_SIZE)
    (ab_mailboxes (view (ap_st w).1) !! a = None) r.1.
Proof.
  intros Hw Hs. cbn zeta. set (a := to_ascii_lowercase address). unfold messages_list. cbn [lq_limit lq_since]. fold a.
  destruct (mailbox_answer a w Hw) as [(w1 & Hr & Hw1 & Hb1)|(e & w1 & Hr & Hw1 & Hb1)].
  2: { by rewrite (bind_err _ _ _ _ _ Hr). }
  rewrite (bind_ok _ _ _ _ _ Hr). destruct (ab_mailboxes _ !! a) as [mb|] eqn:Hmb; [|done].
  rewrite (bind_ok _ _ w1 mb w1) by done. fold (page_size limit).
  assert (0 < page_size limit ≤ MAX_PAGE_SIZE) as Hpos by (unfold page_size, MAX_PAGE_SIZE; lia).
  destruct (query_answer _ _ w1 (law_mail_list a (page_size limit) since ltac:(lia) Hs) Hw1)
    as [(l & w2 & -> & -> & Hw2 & Hb2)|(e & w2 & -> & Hw2 & Hb2)]; cbn.
  - split; [split; [done|by intros b; rewrite Hb2]|]. rewrite Hb1. split; [done|]. split; [done|].
    rewrite length_map. unfold mail_page. rewrite bool_decide_true by lia.
    pose proof (firstn_le_length (Z.to_nat (page_size limit)) (newer since (box w a))). lia.
  - split; [split; [done|by intros b; rewrite Hb2]|done].
Qed.

(** A handler made of one query, a 404 and the rendering of what was found. *)
Lemma lookup_answer {A B} (m : SM S (option A)) R msg (k : A → M (App S) ApiError B) (P : B → Prop)
    (missing : Prop) w :
  mail_reads mail mail_caps mail_wf m R → mwf w →
  (∀ x, R (box w) (Some x) → ∃ y, (∀ w', k x w' = (Ok y, w')) ∧ P y) → (R (box w) None → missing) →
  let r := (o ← store_q m; x ← or_404 o msg; k x) w in
  (mwf r.2 ∧ ∀ b, box r.2 b = box w b) ∧ answers P missing r.1.
Proof.
  intros Hm Hw Hk Hnone. cbn zeta.
  destruct (query_answer m R w Hm Hw) as [(o & w1 & Hr & HR & Hw1 & Hb)|(e & w1 & Hr & Hw1 & Hb)].
  - rewrite (bind_ok _ _ _ _ _ Hr). destruct o as [x|]; [|by split; [|apply Hnone]].
    rewrite (bind_ok _ _ w1 x w1) by done. destruct (Hk x HR) as (y & Hy & HP). by rewrite Hy.
  - by rewrite (bind_err _ _ _ _ _ Hr).
Qed.
Lemma messages_get_bind address id w :
  messages_get address id w
  = (o ← store_q (get_message (to_ascii_lowercase address) id);
     x ← or_404 o (lit "message not found"); mret x) w.
Proof. unfold messages_get, mbind, M_bind. by destruct (store_q _ w) as [[[x|]|] w1]. Qed.

Lemma messages_get_answer address id w :
  mwf w → mail_id id →
  let a := to_ascii_lowercase address in
  let r := messages_get address id w in
  (mwf r.2 ∧ ∀ b, box r.2 b = box w b) ∧
  answers (λ st, ∃ m, find (has_id id) (box w a) = Some m ∧ shows a m st)
    (find (has_id id) (box w a) = None) r.1.
Proof.
  intros Hw Hid. cbn zeta. rewrite messages_get_bind.
  apply (lookup_answer _ _ _ _ _ _ _ (law_mail_get _ id Hid) Hw).
  - intros st Hst. exists st. split; [done|]. destruct (find _ _) as [m|]; [eauto|done].
  - by destruct (find _ _).
Qed.
Lemma get_raw_answer address id w :
  mwf w → mail_id id →
  let a := to_ascii_lowercase address in
  let r := get_raw address id w in
  (mwf r.2 ∧ ∀ b, box r.2 b = box w b) ∧
  answers (λ x, find (has_id id) (box w a) ≫= ml_raw = Some x.2)
    (find (has_id id) (box w a) ≫= ml_raw = None) r.1.
Proof.
  intros Hw Hid. apply (lookup_answer _ _ _ _ _ _ _ (law_mail_raw _ id Hid) Hw); [|done].
  intros x Hx. eexists. split; [by intros w'|]. by rewrite <-Hx.
Qed.
Lemma get_attachment_answer address id aid w :
  mwf w → mail_id id → mail_id aid →
  let a := to_ascii_lowercase address in
  let r := get_attachment_h address id aid w in
  (mwf r.2 ∧ ∀ b, box r.2 b = box w b) ∧
  answers (λ x, ∃ att, find (has_id id) (box w a) ≫= file_in aid = Some att ∧ x.2 = at_content att)
    (find (has_id id) (box w a) ≫= file_in aid = None) r.1.
Proof.
  intros Hw Hid Haid. apply (lookup_answer _ _ _ _ _ _ _ (law_mail_attachment _ id aid Hid Haid) Hw); [|done].
  intros x Hx. eexists. split; [by intros w'|]. by exists x.
Qed.

(** C18: reading mail through the API answers what the mailbox holds, whatever the backend.
    The listing is a page of at most 200 summaries, newest first, of the messages newer
    than the cursor, and is refused exactly when the mailbox does not exist; a message, its
    raw form and each of its attachments are answered exactly when the inbox of that
    address has them, under the headers a download carries. The only other answer is a
    failure of the database, and no inbox changes. *)
Theorem inbox_reads address limit since id aid w :
  mwf w → (∀ i, since = Some i → mail_id i) → mail_id id → mail_id aid →
  let a := to_ascii_lowercase address in
  let unchanged (w' : App S) := mwf w' ∧ ∀ b, box w' b = box w b in
  let listing := messages_list address (mkListQuery limit since) w in
  let message := messages_get address id w in
  let raw := get_raw address id w in
  let file := get_attachment_h address id aid w in
  (unchanged listing.2 ∧
   answers (λ l, is_Some (ab_mailboxes (view (ap_st w).1) !! a) ∧
      l = map mail_summary (mail_page (page_size limit) since (box w a)) ∧ len l ≤ MAX_PAGE_SIZE)
     (ab_mailboxes (view (ap_st w).1) !! a = None) listing.1) ∧
  (unchanged message.2 ∧
   answers (λ st, ∃ m, find (has_id id) (box w a) = Some m ∧ shows a m st)
     (find (has_id id) (box w a) = None) message.1) ∧
  (unchanged raw.2 ∧
   answers (λ x, find (has_id id) (box w a) ≫= ml_raw = Some x.2)
     (find (has_id id) (box w a) ≫= ml_raw = None) raw.1) ∧
  (unchanged file.2 ∧
   answers (λ x, ∃ att, find (has_id id) (box w a) ≫= file_in aid = Some att ∧ x.2 = at_content att)
     (find (has_id id) (box w a) ≫= file_in aid = None) file.1).
Proof.
  intros Hw Hs Hid Haid. split; [by apply messages_list_answer|].
  split; [by apply messages_get_answer|]. split; [by apply get_raw_answer|].
  by apply get_attachment_answer.
Qed.

(** ** Changing *)

Definition same_mail_as w (w' : App S) : Prop := ∀ b, box w' b = box w b.
(** Only the inbox of [a] changed, by [g]. *)
Definition inbox_becomes (a : str) (g : list Mail → list Mail) w (w' : App S) : Prop :=
  ∀ b, box w' b = if bool_decide (b = a) then g (box w a) else box w b.

(** A single update of the store, then an answer. *)
Lemma update_answer {A} (m : SM S A) a f g w :
  mail_updates mail mail_wf m a f g → mwf w →
  (∃ w', store_q m w = (Ok (f (box w a)), w') ∧ inbox_becomes a g w w') ∨
  ∃ e w', store_q m w = (Err (Internal e), w') ∧ same_mail_as w w'.
Proof.
  intros Hm Hw. rewrite store_q_run. destruct (Hm _ Hw) as (_ & Hb & Hx).
  destruct (m (ap_st w)) as [[x|e] st]; cbn in *; [left|right].
  - rewrite <-(Hx x eq_refl). eauto.
  - eauto.
Qed.

(** The two gates of the owner's handlers. *)
Definition allowed (a : str) (headers : HeaderMap) w : Prop :=
  owner_proved (view (ap_st w).1) a headers ∧
  ∃ c w1, attestation_gate config headers w = (Ok c, w1) ∧ client_proved config c.

Lemma gated_answer {A} a headers (k : M (App S) ApiError A) w :
  mwf w →
  let r := (attestation_gate config headers;; authorize_owner a headers;; k) w in
  (∃ w1, allowed a headers w ∧ mwf w1 ∧ same_mail_as w w1 ∧ r = k w1) ∨
  ∃ e, r.1 = Err e ∧ same_mail_as w r.2.
Proof.
  intros Hw. cbn zeta. destruct (keeps_gate headers w Hw) as [Hw1 Hb1].
  destruct (attestation_gate config headers w) as [[c|e] w1] eqn:Hg; cbn [snd] in *.
  2: { right. exists e. by rewrite (bind_err _ _ _ _ _ Hg). }
  rewrite (bind_ok _ _ _ _ _ Hg). destruct (keeps_authorize a headers w1 Hw1) as [Hw2 Hb2].
  destruct (authorize_owner a headers w1) as [[mb|e] w2] eqn:Ha; cbn [snd] in *.
  - left. exists w2. rewrite (bind_ok _ _ _ _ _ Ha). apply authorize_owner_ok in Ha as (_ & Ho & _).
    destruct (quiet_run _ _ _ _ (quiet_gate config headers) Hg) as [Hv _]. rewrite Hv in Ho.
    split_and!; [|done| |done].
    + split; [done|]. exists c, w1. split; [done|]. by eapply gate_ok.
    + intros b. by rewrite Hb2.
  - right. exists e. rewrite (bind_err _ _ _ _ _ Ha). split; [done|]. intros b. cbn. by rewrite Hb2.
Qed.
Lemma becomes_after a g w w1 w2 : same_mail_as w w1 → inbox_becomes a g w1 w2 → inbox_becomes a g w w2.
Proof. intros Hs Hb b. rewrite Hb. by rewrite !Hs. Qed.
Lemma same_after w w1 w2 : same_mail_as w w1 → same_mail_as w1 w2 → same_mail_as w w2.
Proof. intros Hs Hb b. by rewrite Hb, Hs. Qed.
Lemma becomes_same a g w w' : inbox_becomes a g w w' → g (box w a) = box w a → same_mail_as w w'.
Proof. intros Hb Hg b. rewrite Hb. case_bool_decide; congruence. Qed.

Lemma any_false_not {A} (p : A → bool) l x : any p l = false → x ∈ l → p x = false.
Proof. intros Ha Hx. apply not_true_iff_false. intros Hp. assert (any p l = true) by (apply any_true; eauto). congruence. Qed.

(** C17: what the API changes in an inbox, whatever the backend. Marking a message read
    sets that flag of that message and nothing else, and is refused when there is no such
    message. Deleting one message, or all, succeeds only with the owner token of that
    mailbox (and an attested client token where the server requires one); it then removes
    exactly that message, or exactly the mail of that mailbox, whose number it answers;
    when it is refused or fails no inbox changes. *)
Theorem inbox_writes address id headers w :
  mwf w → mail_id id →
  let a := to_ascii_lowercase address in
  let there := any (has_id id) (box w a) in
  let marked := messages_mark_read address id w in
  let deleted := messages_delete config address id headers w in
  let cleared := messages_clear config address headers w in
  match marked.1 with
  | Ok _ => there = true ∧ inbox_becomes a (map (λ m, if has_id id m then see m else m)) w marked.2
  | Err (NotFound _) => there = false ∧ same_mail_as w marked.2
  | Err (Internal _) => same_mail_as w marked.2
  | Err _ => False
  end ∧
  match deleted.1 with
  | Ok _ => allowed a headers w ∧ there = true ∧
            inbox_becomes a (retain (λ m, negb (has_id id m))) w deleted.2
  | Err _ => same_mail_as w deleted.2
  end ∧
  match cleared.1 with
  | Ok n => allowed a headers w ∧ cl_deleted n = len (box w a) ∧ inbox_becomes a (λ _, []) w cleared.2
  | Err _ => same_mail_as w cleared.2
  end.
Proof.
  intros Hw Hid. cbn zeta. set (a := to_ascii_lowercase address).
  assert (∀ w1, same_mail_as w w1 → any (has_id id) (box w1 a) = any (has_id id) (box w a)) as Hthere
    by (intros w1 Hb; by rewrite Hb).
  split; [|split].
  - unfold messages_mark_read. fold a.
    destruct (update_answer _ _ _ _ w (law_mail_seen a id Hid) Hw) as [(w1 & Hr & Hb)|(e & w1 & Hr & Hb)].
    + rewrite (bind_ok _ _ _ _ _ Hr). destruct (any (has_id id) (box w a)) eqn:Ha; cbn; [done|].
      split; [done|]. eapply becomes_same; [exact Hb|]. apply map_id_on. intros m Hm.
      by rewrite (any_false_not _ _ _ Ha Hm).
    + by rewrite (bind_err _ _ _ _ _ Hr).
  - unfold messages_delete. fold a. destruct (gated_answer a headers
      (b ← store_q (delete_message a id);
       if (b : bool) then mret tt else throw (NotFound (lit "message not found"))) w Hw)
      as [(w1 & Hal & Hw1 & Hs & ->)|(e & -> & Hs)]; [|done].
    destruct (update_answer _ _ _ _ w1 (law_mail_delete a id Hid) Hw1) as [(w2 & Hq & Hb)|(e & w2 & Hq & Hb)].
    + rewrite (bind_ok _ _ _ _ _ Hq), Hthere by done. apply (becomes_after _ _ _ _ _ Hs) in Hb.
      destruct (any (has_id id) (box w a)) eqn:Ha; cbn; [done|]. eapply becomes_same; [exact Hb|].
      apply retain_true. intros m Hm. by rewrite (any_false_not _ _ _ Ha Hm).
    + rewrite (bind_err _ _ _ _ _ Hq). by eapply same_after.
  - unfold messages_clear. fold a. destruct (gated_answer a headers
      (n ← store_q (delete_all_messages a); mret (mkClearInboxResponse n)) w Hw)
      as [(w1 & Hal & Hw1 & Hs & ->)|(e & -> & Hs)]; [|done].
    destruct (update_answer _ _ _ _ w1 (law_mail_delete_all a) Hw1) as [(w2 & Hq & Hb)|(e & w2 & Hq & Hb)].
    + rewrite (bind_ok _ _ _ _ _ Hq). cbn. rewrite Hs. split; [done|]. split; [done|]. by eapply becomes_after.
    + rewrite (bind_err _ _ _ _ _ Hq). by eapply same_after.
Qed.
End messages.

(** ** A concrete run: a mailbox of the in-memory store with one mail *)

#[local] Existing Instances demo_crypto demo_header hex_UuidText.

Definition demo_reader : App MemoryStore :=
  mkApp demo_saved.2 (from_config Config_default) ChallengeStore_default.

Lemma demo_reader_wf : mail_wf (ap_st demo_reader).
Proof.
  change (mem_mail_wf (run_op (OpSave demo_address demo_mail_att) demo_start)).
  apply mem_mail_wf_op, mem_mail_wf_new.
  intros i j. cbn. lia.
Qed.

Lemma inbox_reads_witness :
  ∃ m, find (has_id demo_ids.1) (mail (ap_st demo_reader).1 demo_address) = Some m ∧
    answers (shows demo_address m) False (messages_get demo_address demo_ids.1 demo_reader).1.
Proof.
  destruct (inbox_reads demo_address None None demo_ids.1 demo_ids.2 demo_reader demo_reader_wf)
    as (_ & [_ Hm] & _); [done|exact Logic.I|exact Logic.I|].
  assert (is_ok (messages_get demo_address demo_ids.1 demo_reader).1 = true) as Hok by (vm_compute; reflexivity).
  destruct (messages_get _ _ _).1 as [st|e]; [|discriminate Hok]. exact Hm.
Defined.

Lemma inbox_writes_witness :
  inbox_becomes demo_address (map (λ m, if has_id demo_ids.1 m then see m else m)) demo_reader
    (messages_mark_read demo_address demo_ids.1 demo_reader).2.
Proof.
  destruct (inbox_writes Config_default demo_address demo_ids.1 (λ _, None) demo_reader demo_reader_wf Logic.I)
    as [Hm _].
  assert (is_ok (messages_mark_read demo_address demo_ids.1 demo_reader).1 = true) as Hok by (vm_compute; reflexivity).
  destruct (messages_mark_read _ _ _).1 as [st|e]; [|discriminate Hok]. exact (proj2 Hm).
Defined.
