(* ===== verification/Delivery.v ===== *)
(** * Delivery: from the DATA command to the reader

    The composition of the SMTP receiver ([src/smtp/session.rs]) and the message endpoints
    ([src/api/messages.rs]) over any store that keeps the promises of [StoreSpec] and
    [MailSpec]: what DATA puts into the inboxes, and that the recipient reads it. *)

From S2P Require Import Prelude Str Model UuidHex Config StoreSpec MailSpec MemoryStore MemoryStoreLaws MemoryClaims MemoryInbox.
From S2P Require Import SmtpCommands SmtpIo Otp Mime Events.
From S2P Require Import SmtpSession SmtpSessionLaws Limits Attest Api ApiAddresses ApiLaws ApiDownloads.
From S2P Require Import ApiMessages.

Section inboxes.
Context {S : Type} `{ML : MailLaws S}.

(** Everything in inbox [a] is older than any reading of the clock still to come. *)
Definition older (a : str) (st : S * Env) : Prop :=
  ∀ k, Forall (λ x, ml_received x < e_clock st.2 k) (mail st.1 a).

(** Message [m] came into inbox [a] between two states. *)
Definition arrived (m : NewMessage) (a : str) (st st' : S * Env) (n : Mail) : Prop :=
  carries m n ∧ received mail_weight (mail_caps st.1) n (mail st.1 a) (mail st'.1 a) ∧
  (ml_id n ∉ map ml_id (mail st.1 a)) ∧ ∃ i, ml_received n = e_clock st.2 i.

Lemma later_trans e1 e2 e3 n k : later e1 e2 n → later e2 e3 k → later e1 e3 (n + k).
Proof. intros H1 H2 i. rewrite H2, H1. f_equal. lia. Qed.

(** A message newer than all of its inbox is at the head. *)
Lemma arrived_newest m a st st' n :
  arrived m a st st' n → older a st → ∃ l, mail st'.1 a = n :: l ∧ l `sublist_of` mail st.1 a.
Proof. intros (_ & Hr & _ & i & Hi) Ho. apply (received_newest _ _ _ _ _ Hr). rewrite Hi. apply Ho. Qed.

Lemma trace_inboxes m l st saved st' :
  save_trace m l st saved st' → NoDup l → mail_wf st →
  mail_wf st' ∧ (∃ k, later st.2 st'.2 k) ∧ (∀ b, b ∉ l → mail st'.1 b = mail st.1 b) ∧
  length saved = length l ∧
  ∀ i a stored, l !! i = Some a → saved !! i = Some stored →
    ∃ n, arrived m a st st' n ∧ shows a n stored.
Proof.
  induction 1 as [st|a l st stored st1 saved st2 Hs _ IH]; intros Hnd Hw.
  - split; [done|]. split; [by exists 0%nat|]. by split_and!.
  - apply NoDup_cons in Hnd as [Ha Hnd]. pose proof (law_mail_op (OpSave a m) st Hw) as Hw1.
    pose proof (law_mail_save a m st Hw) as Hl. cbn in Hw1. unfold call in Hw1. rewrite Hs in Hl, Hw1.
    destruct Hl as (n & i & k & Hsh & Hc & Hi & _ & Hk & Hid & Hr & Ho).
    pose proof (law_mail_caps (OpSave a m) st) as Hcap. cbn in Hcap. unfold call in Hcap. rewrite Hs in Hcap. cbn in Hcap.
    destruct (IH Hnd Hw1) as (Hw2 & [k2 Hk2] & Hout & Hlen & Hin). split; [done|].
    split; [eexists; by eapply later_trans|]. split; [|split; [by cbn; f_equal|]].
    + intros b [Hb1 Hb2]%not_elem_of_cons. by rewrite Hout, Ho.
    + intros [|j] b stored' Hb Hst; cbn in Hb, Hst.
      * injection Hb as <-. injection Hst as <-.
        exists n. split; [|done]. split; [done|]. split; [by rewrite Hout|eauto].
      * assert (b ≠ a) as Hne by (intros ->; apply Ha; by eapply list_elem_of_lookup_2).
        destruct (Hin j b stored' Hb Hst) as (n' & (Hc' & Hr' & Hid' & q & Hq) & Hsh').
        exists n'. split; [|done]. split; [done|]. rewrite <-(Ho b Hne), <-Hcap. split_and!; [done|done|].
        exists (k + q)%nat. by rewrite Hq, Hk.
Qed.
End inboxes.

Section receive.
Context {S : Type} `{ML : MailLaws S} `{MailParser} `{RegexEngine}.
Variable config : Config.
Variable available_space : str → option Z.
Hypothesis max_size_nonneg : 0 ≤ max_message_size config.

Implicit Types w : World S.
Abbreviation box w := (mail (w_st w).1).

(** What is stored for a message with these bytes from this sender. *)
Definition accepted_message (raw : bytes) (sender : option str) : NewMessage :=
  let parsed := parse_message raw (default [] sender) in
  if store_raw_message config
  then mkNewMessage (nm_mail_from parsed) (nm_subject parsed) (nm_message_date parsed)
         (nm_text_body parsed) (nm_html_body parsed) (nm_raw_size parsed) (Some raw)
         (nm_attachments parsed)
  else parsed.

(** Storing a message: the recipients before the first failure get it, each with an event
    on the bus, the others do not. *)
Lemma store_message_events raw w :
  mail_wf (w_st w) → NoDup (rcpts (w_sess w)) →
  let m := accepted_message raw (mail_from (w_sess w)) in
  let w' := (store_message config raw w).2 in
  mail_wf (w_st w') ∧ ∃ saved,
    (∀ b, b ∉ take (length saved) (rcpts (w_sess w)) → box w' b = box w b) ∧
    (∀ i a stored, rcpts (w_sess w) !! i = Some a → saved !! i = Some stored →
       ∃ n, arrived m a (w_st w) (w_st w') n ∧ shows a n stored) ∧
    w_bus w' = w_bus w ++ zip_with from_stored (rcpts (w_sess w)) saved ∧
    (length saved ≤ length (rcpts (w_sess w)))%nat ∧
    match (store_message config raw w).1 with
    | Ok (Ok n) => n = len (rcpts (w_sess w)) ∧ length saved = length (rcpts (w_sess w))
    | _ => (length saved < length (rcpts (w_sess w)))%nat
    end.
Proof.
  intros Hw Hnd. cbn zeta. unfold store_message. rewrite (bind_ok _ _ w (w_sess w) w) by done.
  cbn zeta. fold (accepted_message raw (mail_from (w_sess w))). set (m := accepted_message _ _).
  destruct (save_copies_trace (rcpts (w_sess w)) m w) as (saved & st1 & Htr & Hbus & Hs & _ & _ & Hres).
  assert (NoDup (take (length saved) (rcpts (w_sess w)))) as Hnd'.
  { eapply sublist_NoDup; [exact Hnd|apply sublist_take]. }
  destruct (trace_inboxes _ _ _ _ _ Htr Hnd' Hw) as (Hw1 & _ & Hout & Hlen & Hin).
  rewrite length_take in Hlen.
  assert (∀ i a stored, rcpts (w_sess w) !! i = Some a → saved !! i = Some stored →
    ∃ n, arrived m a (w_st w) st1 n ∧ shows a n stored) as Hin'.
  { intros i a stored Ha Hst. apply (Hin i a stored); [|done]. apply lookup_take_Some. split; [done|].
    by apply lookup_lt_Some in Hst. }
  destruct (save_copies_run (rcpts (w_sess w)) m w) as (r & st' & bus' & Hr). rewrite Hr in *.
  rewrite (bind_ok _ _ _ _ _ Hr). cbn in Hres, Hbus |- *. destruct r as [[]|e].
  - destruct Hres as [Hl ->]. split; [done|]. exists saved. split_and!; try done; lia.
  - destruct Hres as (a & Ha & Hf).
    pose proof (law_mail_op (OpSave a m) st1 Hw1) as Hw2. pose proof (law_mail_save a m st1 Hw1) as Hl.
    cbn in Hw2. unfold call in Hw2. rewrite Hf in Hw2, Hl. destruct Hl as [_ Hsame].
    split; [done|]. exists saved. apply lookup_lt_Some in Ha. split; [by intros b Hb; rewrite Hsame; auto|].
    split; [|split_and!; (done || lia)]. intros i b stored Hb Hst.
    destruct (Hin' i b stored Hb Hst) as (n & (Hc & Hrc & Hi & Ht) & Hsh). exists n. split; [|done].
    split; [done|]. by rewrite <-Hsame in Hrc.
Qed.
Lemma store_message_inboxes raw w :
  mail_wf (w_st w) → NoDup (rcpts (w_sess w)) →
  let m := accepted_message raw (mail_from (w_sess w)) in
  let stored := store_message config raw w in
  mail_wf (w_st stored.2) ∧ ∃ k,
    (∀ b, b ∉ take k (rcpts (w_sess w)) → box stored.2 b = box w b) ∧
    (∀ a, a ∈ take k (rcpts (w_sess w)) → ∃ n, arrived m a (w_st w) (w_st stored.2) n) ∧
    match stored.1 with
    | Ok (Ok n) => n = len (rcpts (w_sess w)) ∧ k = length (rcpts (w_sess w))
    | _ => (k < length (rcpts (w_sess w)))%nat
    end.
Proof.
  intros Hw Hnd. destruct (store_message_events raw w Hw Hnd) as (Hw' & saved & Hout & Hin & _ & _ & Hres).
  split; [done|]. exists (length saved). split; [done|]. split; [|done].
  intros a (i & Ha)%list_elem_of_lookup. apply lookup_take_Some in Ha as [Ha Hi].
  destruct (lookup_lt_is_Some_2 saved i Hi) as [stored Hst].
  destruct (Hin i a stored Ha Hst) as (n & Hn & _). eauto.
Qed.

(** C3: the DATA command puts the message into the inboxes. On a connection that delivers
    a dot-stuffed message in any chunks, whatever the backend and whichever of its round
    trips fail: the client is told "accepted" exactly when every recipient's inbox has got
    the message, as the parser reads exactly the lines sent; told "try again" when a save
    failed, and then the recipients before that one have it and nobody else; told "too
    large" when it is, and then no inbox changes. No other inbox changes in any case, and
    an arriving message displaces old mail only as the quotas say: nothing else appears,
    is duplicated or moves. In all cases the transaction is reset and the next command is
    read from right after the terminator. *)
Theorem data_fills_inboxes w ls tail :
  max_message_size config + 4 ≤ u64_max →
  mail_from (w_sess w) ≠ None → rcpts (w_sess w) ≠ [] → NoDup (rcpts (w_sess w)) →
  storage_has_headroom available_space config = true → c_writes (w_conn w) = None →
  data_only (w_conn w) → pending (w_conn w) = transmit ls ++ tail →
  Forall (λ l, (10 ∉ l) ∧ len (stuff l) ≤ max_message_size config + 2) ls → mail_wf (w_st w) →
  let w' := (handle_data config available_space w).2 in
  let m := accepted_message (body ls) (mail_from (w_sess w)) in
  let replied line := c_out (w_conn w') = c_out (w_conn w)
    ++ (as_bytes (lit "354 Start mail input; end with <CRLF>.<CRLF>") ++ crlf)
    ++ as_bytes line ++ crlf in
  (handle_data config available_space w).1 = Ok Continue ∧
  w_sess w' = mkSession (helo (w_sess w)) None [] (tls_active (w_sess w)) ∧
  pending (w_conn w') = tail ∧ data_only (w_conn w') ∧ mail_wf (w_st w') ∧ ∃ k,
  (∀ b, b ∉ take k (rcpts (w_sess w)) → box w' b = box w b) ∧
  (∀ a, a ∈ take k (rcpts (w_sess w)) → ∃ n, arrived m a (w_st w) (w_st w') n) ∧
  ((len (body ls) ≤ max_message_size config ∧ k = length (rcpts (w_sess w)) ∧
    replied (lit "250 2.0.0 Message accepted (" ++ fmt_int (len (rcpts (w_sess w))) ++ lit " recipient(s))")) ∨
   (len (body ls) ≤ max_message_size config ∧ (k < length (rcpts (w_sess w)))%nat ∧
    replied (lit "451 4.3.0 Could not store message, try again later")) ∨
   (max_message_size config < len (body ls) ∧ k = 0%nat ∧ replied (lit "552 5.3.4 Message too large"))).
Proof.
  intros Hu Hmf Hrc Hnd Hroom Hwr Hd Hp Hls Hw. cbn zeta.
  destruct (handle_data_run config available_space max_size_nonneg w ls tail Hu Hmf Hrc Hroom Hwr Hd Hp Hls)
    as (c' & Hp' & Hd' & _ & Ho & ->). cbn [fst snd w_sess w_st w_conn set_sess set_conn].
  split; [done|]. split; [done|]. split; [done|]. split; [done|]. revert Ho. case_bool_decide as Hsz; intros Ho.
  - destruct (store_message_inboxes (body ls) w Hw Hnd) as (Hw' & k & Hout & Hin & Hres).
    split; [done|]. exists k. split; [done|]. split; [done|].
    destruct (store_message config (body ls) w).1 as [[n|e]|e]; [|by right; left..].
    left. destruct Hres as [-> ->]. done.
  - split; [done|]. exists 0%nat. split; [done|].
    split; [by intros a ?%not_elem_of_nil|]. right. right. split; [lia|done].
Qed.
End receive.

(** ** Whole sessions *)

Section sessions.
Context {S : Type} `{ML : MailLaws S} `{MailParser} `{RegexEngine}.
Variable config : Config.
Variable tls_acceptor : option (list NetEvent → option (list NetEvent)).
Variable available_space : str → option Z.

Implicit Types w : World S.
Abbreviation box w := (mail (w_st w).1).

(** An inbox gets a message: new to it, unread, carrying what the server stores of some
    bytes from some sender, put at its place by age; of the whole exactly what the caps
    [q] allow is kept. *)
Definition arrival (q : MailboxQuotas) (l l' : list Mail) : Prop :=
  ∃ raw sender n, carries (accepted_message config raw sender) n ∧ (ml_id n ∉ map ml_id l) ∧
    received mail_weight q n l l'.

(** A step that only adds mail. *)
Definition adds_mail {A} (m : M (World S) io_error A) : Prop :=
  ∀ w, mail_wf (w_st w) →
    mail_wf (w_st (m w).2) ∧ mail_caps (w_st (m w).2).1 = mail_caps (w_st w).1 ∧
    ∀ a, rtc (arrival (mail_caps (w_st w).1)) (box w a) (box (m w).2 a).

Lemma adds_ret {A} (a : A) : adds_mail (mret a).
Proof. by intros w Hw. Qed.
Lemma adds_throw {A} e : adds_mail (throw e : M (World S) io_error A).
Proof. by intros w Hw. Qed.
Lemma adds_bind {A B} (m : M (World S) io_error A) (k : A → M (World S) io_error B) :
  adds_mail m → (∀ a, adds_mail (k a)) → adds_mail (m ≫= k).
Proof.
  intros Hm Hk w Hw. unfold mbind, M_bind. destruct (Hm w Hw) as (Hw1 & Hq & Hb).
  destruct (m w) as [[a|e] w1]; cbn in *; [|done]. destruct (Hk a w1 Hw1) as (? & Hq1 & Hb1).
  rewrite Hq in Hq1, Hb1. split_and!; [done..|]. intros b. etrans; [apply Hb|apply Hb1].
Qed.
Lemma adds_gets {A} (f : World S → A) : adds_mail (gets f).
Proof. by intros w Hw. Qed.
Lemma adds_modify (f : World S → World S) : (∀ w, w_st (f w) = w_st w) → adds_mail (modify f).
Proof. intros Hf w Hw. cbn. by rewrite Hf. Qed.
Lemma adds_io {A} (m : M Conn io_error A) : adds_mail (io m).
Proof. intros w Hw. rewrite io_run. by destruct (m (w_conn w)). Qed.
Lemma adds_now : adds_mail now.
Proof.
  intros w Hw. rewrite now_run. cbn. split; [|done]. destruct (w_st w) as [s e].
  by apply (law_mail_clock s e _ 1).
Qed.
Lemma adds_reads {A} (m : SM S A) R : mail_reads mail mail_caps mail_wf m R → adds_mail (store_call m).
Proof.
  intros Hm w Hw. rewrite store_call_run. cbn. destruct (Hm _ Hw) as (? & _ & Hb & ? & _).
  split_and!; [done..|]. intros a. by rewrite Hb.
Qed.
Lemma adds_save a raw sender : adds_mail (store_call (save_message a (accepted_message config raw sender))).
Proof.
  intros w Hw. rewrite store_call_run. cbn. set (m := accepted_message config raw sender).
  pose proof (law_mail_op (OpSave a m) _ Hw) as Hw1. pose proof (law_mail_save a m _ Hw) as Hs.
  pose proof (law_mail_caps (OpSave a m) (w_st w)) as Hq.
  cbn in Hw1, Hq. unfold call in Hw1, Hq. destruct (save_message a m (w_st w)) as [[st|e] st1]; cbn in *.
  - split_and!; [done..|]. destruct Hs as (n & _ & _ & _ & Hc & _ & _ & _ & Hid & Hr & Ho). intros b.
    destruct (decide (b = a)) as [->|Hne]; [|by rewrite Ho]. apply rtc_once. by exists raw, sender, n.
  - split_and!; [done..|]. intros b. by destruct Hs as [_ ->].
Qed.
Lemma adds_create a d t h o : adds_mail (store_call (create_mailbox a d t h o)).
Proof.
  intros w Hw. rewrite store_call_run. cbn.
  split; [exact (law_mail_op (OpCreateMailbox a d t h o) _ Hw)|].
  split; [exact (law_mail_caps (OpCreateMailbox a d t h o) _)|]. intros b.
  by rewrite <-(law_mail_frame (OpCreateMailbox a d t h o) (w_st w) b Hw eq_refl).
Qed.
#[local] Hint Resolve adds_ret adds_throw adds_bind adds_gets adds_io adds_now adds_save adds_create : rust.
#[local] Hint Extern 1 (adds_mail (modify _)) => by apply adds_modify : rust.
#[local] Hint Extern 1 (adds_mail (store_call (mailbox_is_active _ _))) =>
  eapply adds_reads, law_mail_is_active : rust.
#[local] Hint Extern 1 (adds_mail (store_call (custom_domain_is_verified _))) =>
  eapply adds_reads, law_mail_is_verified : rust.
#[local] Hint Extern 2 (adds_mail (match ?x with _ => _ end)) => destruct x : rust.

Lemma adds_rcpt addr : adds_mail (handle_rcpt config addr).
Proof.
  assert (∀ d, adds_mail (try_catch_all config d)) by (intros d; unfold try_catch_all; auto 30 with rust).
  assert (∀ b d, adds_mail (check_mailbox config b d)) by (intros b d; unfold check_mailbox; auto 30 with rust).
  assert (∀ d, adds_mail (validate_recipient config d)) by (intros d; unfold validate_recipient; auto 30 with rust).
  unfold handle_rcpt, reply, get_sess, put_sess. auto 30 with rust.
Qed.
Lemma adds_store_message raw : adds_mail (store_message config raw).
Proof.
  assert (∀ l sender, adds_mail (save_copies l (accepted_message config raw sender)))
    by (intros l sender; induction l; cbn [save_copies]; auto 30 with rust).
  unfold store_message, get_sess. apply adds_bind; [auto with rust|]. intros s. cbn zeta.
  fold (accepted_message config raw (mail_from s)). auto 30 with rust.
Qed.
#[local] Hint Resolve adds_rcpt adds_store_message : rust.
Lemma adds_data : adds_mail (handle_data config available_space).
Proof. unfold handle_data, reply, get_sess, reset_tx. auto 30 with rust. Qed.
Lemma adds_starttls : adds_mail (handle_starttls tls_acceptor).
Proof. unfold handle_starttls, reply, get_sess, put_sess, reset_tx. auto 30 with rust. Qed.
#[local] Hint Resolve adds_data adds_starttls : rust.
Lemma adds_step : adds_mail (session_step config tls_acceptor available_space).
Proof.
  unfold session_step. apply adds_bind; [auto with rust|]. intros sl.
  destruct sl.1; unfold reply; auto with rust. unfold dispatch.
  destruct (parse _); unfold reply, get_sess, put_sess, reset_tx, set_helo, write_ehlo, get_sess; auto 30 with rust.
Qed.
#[local] Hint Resolve adds_step : rust.
Lemma adds_run fuel : adds_mail (run config tls_acceptor available_space fuel).
Proof.
  assert (adds_mail (session_loop config tls_acceptor available_space fuel)).
  { induction fuel; cbn; auto with rust. }
  unfold run, reply. auto with rust.
Qed.

(** C14: the mail server only delivers. Whatever a client sends, in whatever order and
    chunks, with or without STARTTLS, whatever the backend and its failures: a whole
    session takes each inbox through a sequence of arrivals and nothing else. What arrives
    is an unread message under an identifier new to the inbox, with what the server keeps
    of some bytes from some sender, at its place by age. Nothing else changes at an
    arrival: the mail already there stays as it is, in its order, except exactly the
    messages beyond the message cap and those whose running size is beyond the byte cap;
    without caps none goes. *)
Theorem session_only_delivers fuel rest writes st bus :
  mail_wf st →
  let w' := (handle config tls_acceptor available_space fuel rest writes st bus).2 in
  mail_wf (w_st w') ∧ ∀ a, rtc (arrival (mail_caps st.1)) (mail st.1 a) (box w' a).
Proof.
  intros Hw. by destruct (adds_run fuel (mkWorld (mkSession None None [] false) (mkConn [] rest [] writes) false st bus) Hw)
    as (? & _ & ?).
Qed.
End sessions.

(** ** Reading what arrived *)

Section read.
Context {S : Type} `{ML : MailLaws S} `{MailParser} `{RegexEngine} `{Crypto} `{HeaderValue} `{UuidText}.
Variable config : Config.
Variable available_space : str → option Z.
Hypothesis max_size_nonneg : 0 ≤ max_message_size config.

Implicit Types w : World S.

(** The reader of mailbox [address] finds message [n] there: at the head of the listing,
    under its identifier, with its raw form if the server keeps it, and with each of its
    attachments; the only other answer is a failure of the database, or that the mailbox
    is gone. *)
Definition readable (raw : bytes) (address : str) (n : Mail) (app : App S) : Prop :=
  answers (λ l, ∃ k, l = mail_summary n :: k)
    (ab_mailboxes (view (ap_st app).1) !! to_ascii_lowercase address = None)
    (messages_list address (mkListQuery None None) app).1 ∧
  answers (shows (to_ascii_lowercase address) n) False (messages_get address (ml_id n) app).1 ∧
  (store_raw_message config = true →
   answers (λ x, x.2 = raw) False (get_raw address (ml_id n) app).1) ∧
  ∀ f, f ∈ ml_files n →
    answers (λ x, x.2 = f.2) False (get_attachment_h address (ml_id n) (am_id f.1) app).1.

Lemma find_head n l : find (has_id (ml_id n)) (n :: l) = Some n.
Proof. cbn. unfold has_id. by rewrite bool_decide_true. Qed.
Lemma file_found (n : Mail) f :
  NoDup (map (λ f, am_id f.1) (ml_files n)) → f ∈ ml_files n →
  file_in (am_id f.1) n = Some (mkAttachment (am_filename f.1) (am_content_type f.1) f.2).
Proof.
  intros Hnd Hf. unfold file_in.
  destruct (find (λ g, bool_decide (am_id g.1 = am_id f.1)) (ml_files n)) as [g|] eqn:Hg; cbn.
  - apply find_Some in Hg as [Hg Hid]. boolify.
    by rewrite (NoDup_map_inj (λ f, am_id f.1) (ml_files n) g f).
  - rewrite find_None in Hg. specialize (Hg f Hf). boolify. congruence.
Qed.

Lemma head_readable raw address n l app :
  mail_wf (ap_st app) → mail (ap_st app).1 (to_ascii_lowercase address) = n :: l →
  (store_raw_message config = true → ml_raw n = Some raw) → readable raw address n app.
Proof.
  intros Hw Hbox Hraw. set (a := to_ascii_lowercase address) in *.
  assert (mail_id (ml_id n)) as Hid.
  { pose proof (law_mail_ids _ a Hw) as Hids. rewrite Hbox in Hids. by apply Forall_cons in Hids as [? _]. }
  pose proof (law_mail_files _ a Hw) as Hf. rewrite Hbox in Hf. apply Forall_cons in Hf as [[Hnd Hfid] _].
  split; [|split; [|split]].
  - destruct (messages_list_answer address None None app Hw) as [_ Ha]; [done|]. fold a in Ha.
    destruct (messages_list _ _ _).1 as [x|[]]; try done. destruct Ha as (_ & -> & _). rewrite Hbox.
    unfold mail_page, newer. cbn -[take Z.to_nat]. eexists. reflexivity.
  - destruct (messages_get_answer address (ml_id n) app Hw Hid) as [_ Ha]. fold a in Ha.
    rewrite Hbox, find_head in Ha. destruct (messages_get _ _ _).1 as [x|[]]; try done.
    by destruct Ha as (m & [= <-] & Hs).
  - intros Hkeep. destruct (get_raw_answer address (ml_id n) app Hw Hid) as [_ Ha]. fold a in Ha.
    rewrite Hbox, find_head in Ha. cbn [mbind option_bind] in Ha. rewrite (Hraw Hkeep) in Ha.
    destruct (get_raw _ _ _).1 as [x|[]]; try done. cbn in Ha |- *. congruence.
  - intros f Hf. rewrite Forall_forall in Hfid.
    destruct (get_attachment_answer address (ml_id n) (am_id f.1) app Hw Hid (Hfid f Hf)) as [_ Ha]. fold a in Ha.
    rewrite Hbox, find_head in Ha. cbn [mbind option_bind] in Ha. rewrite (file_found n f Hnd Hf) in Ha.
    destruct (get_attachment_h _ _ _ _).1 as [x|[]]; try done.
    destruct Ha as (att & [= <-] & Hx). cbn in Hx |- *. congruence.
Qed.

(** Mail that was accepted is read. When DATA was answered "accepted", each recipient
    whose inbox the clock has not run behind reads the message through the API: it heads
    the listing of the mailbox, opens under its identifier with the sender, subject, date
    and bodies the parser found, downloads as exactly the bytes sent if the server keeps
    raw messages, and so does each of its attachments. *)
Theorem delivered_mail_is_read w ls tail address (app : App S) :
  max_message_size config + 4 ≤ u64_max →
  mail_from (w_sess w) ≠ None → rcpts (w_sess w) ≠ [] → NoDup (rcpts (w_sess w)) →
  storage_has_headroom available_space config = true → c_writes (w_conn w) = None →
  data_only (w_conn w) → pending (w_conn w) = transmit ls ++ tail →
  Forall (λ l, (10 ∉ l) ∧ len (stuff l) ≤ max_message_size config + 2) ls → mail_wf (w_st w) →
  len (body ls) ≤ max_message_size config →
  (∃ n, (store_message config (body ls) w).1 = Ok (Ok n)) →
  to_ascii_lowercase address ∈ rcpts (w_sess w) → older (to_ascii_lowercase address) (w_st w) →
  ap_st app = w_st (handle_data config available_space w).2 →
  ∃ n l, carries (accepted_message config (body ls) (mail_from (w_sess w))) n ∧
    mail (ap_st app).1 (to_ascii_lowercase address) = n :: l ∧
    l `sublist_of` mail (w_st w).1 (to_ascii_lowercase address) ∧ readable (body ls) address n app.
Proof.
  intros Hu Hmf Hrc Hnd Hroom Hwr Hd Hp Hls Hw Hsz [cnt Hok] Ha Hold Happ.
  destruct (handle_data_run config available_space max_size_nonneg w ls tail Hu Hmf Hrc Hroom Hwr Hd Hp Hls)
    as (c' & _ & _ & _ & _ & Hr). rewrite Hr, bool_decide_true in Happ by done.
  cbn [snd w_st set_sess set_conn] in Happ.
  destruct (store_message_inboxes config (body ls) w Hw Hnd) as (Hw' & k & _ & Hin & Hres).
  rewrite Hok in Hres. destruct Hres as [_ ->]. rewrite take_ge in Hin by done.
  destruct (Hin _ Ha) as (n & Harr). destruct (arrived_newest _ _ _ _ _ Harr Hold) as (l & Hbox & Hl).
  destruct Harr as (Hc & _). rewrite <-Happ in Hw', Hbox. exists n, l. split_and!; [done..|].
  eapply head_readable; [done|done|]. intros Hkeep. destruct Hc as [Heq _]. injection Heq as _ _ _ _ _ _ -> _.
  unfold accepted_message. by rewrite Hkeep.
Qed.
End read.

(** ** Concrete runs: a mail of one line to a mailbox of the in-memory store *)

#[local] Existing Instances demo_parser reference_engine demo_crypto demo_header hex_UuidText.

Definition demo_receiving : World MemoryStore :=
  demo_session (mkSession (Some (lit "c")) (Some (lit "s@y.io")) [demo_box] false)
    [Recv (lit "hi" ++ crlf ++ lit "."); Recv (crlf ++ lit "QUIT")].
Definition demo_received : World MemoryStore := (handle_data Config_default no_space demo_receiving).2.

Lemma demo_receiving_wf : mail_wf (w_st demo_receiving).
Proof.
  change (mem_mail_wf (run_op (OpCreateMailbox demo_box (lit "example.com") 1000000 None None)
    (with_quotas (mkMailboxQuotas 2 100) new, demo_env))).
  apply mem_mail_wf_op, mem_mail_wf_new. intros i j. cbn. lia.
Qed.
Lemma demo_line : Forall (λ l, (10 ∉ l) ∧ len (stuff l) ≤ max_message_size Config_default + 2) [lit "hi"].
Proof. repeat constructor; apply (bool_decide_unpack _); vm_compute; exact I. Qed.

Lemma data_fills_inboxes_witness :
  ∃ k, ∀ a, a ∈ take k [demo_box] → ∃ n,
    arrived (accepted_message Config_default (lit "hi" ++ crlf) (Some (lit "s@y.io"))) a
      (w_st demo_receiving) (w_st demo_received) n.
Proof.
  destruct (data_fills_inboxes Config_default no_space ltac:(done) demo_receiving [lit "hi"] (lit "QUIT")
    ltac:(done) ltac:(done) ltac:(done) ltac:(apply NoDup_singleton) ltac:(reflexivity) ltac:(reflexivity)
    ltac:(repeat constructor; done) ltac:(reflexivity) demo_line demo_receiving_wf) as (_ & _ & _ & _ & _ & k & _ & Hin & _).
  exists k. exact Hin.
Defined.

Lemma session_only_delivers_witness :
  mail_wf (w_st (handle Config_default None no_space 9 [Recv (lit "QUIT" ++ crlf)] None
    (w_st demo_receiving) []).2).
Proof.
  exact (proj1 (session_only_delivers Config_default None no_space 9 [Recv (lit "QUIT" ++ crlf)] None
    (w_st demo_receiving) [] demo_receiving_wf)).
Defined.

Lemma delivered_mail_is_read_witness :
  ∃ n, mail (w_st demo_received).1 demo_box = [n] ∧
    readable Config_default (lit "hi" ++ crlf) demo_box n
      (mkApp (w_st demo_received) (from_config Config_default) ChallengeStore_default).
Proof.
  destruct (delivered_mail_is_read Config_default no_space ltac:(done) demo_receiving [lit "hi"] (lit "QUIT")
    demo_box (mkApp (w_st demo_received) (from_config Config_default) ChallengeStore_default)
    ltac:(done) ltac:(done) ltac:(done) ltac:(apply NoDup_singleton) ltac:(reflexivity) ltac:(reflexivity)
    ltac:(repeat constructor; done) ltac:(reflexivity) demo_line demo_receiving_wf) as (n & l & _ & Hbox & Hl & Hr).
  - apply (bool_decide_unpack _). vm_compute. exact I.
  - exists 1. vm_compute. reflexivity.
  - left.
  - intros k. vm_compute. constructor.
  - reflexivity.
  - exists n. split; [|exact Hr]. apply sublist_nil_r in Hl. subst l. exact Hbox.
Defined.
