(* ===== verification/Conversation.v ===== *)
(** * Conversation: a conforming client is served

    The liveness side of the SMTP receiver ([src/smtp/session.rs]): the transcript of a
    client that greets, names a sender and recipients the server has mailboxes for, sends
    a message within the limits and leaves, on a connection that delivers it in any chunks,
    to a store in working order. One lemma per stage of the conversation; each takes the
    session from one point of the transcript to the next. *)

From S2P Require Import Prelude Str Model UuidHex Config StoreSpec MailSpec MemoryStore MemoryStoreLaws MemoryClaims MemoryInbox.
From S2P Require Import SmtpCommands SmtpIo Otp Mime Events.
From S2P Require Import SmtpSession SmtpSessionLaws Limits Attest Api ApiAddresses ApiLaws ApiDownloads.
From S2P Require Import ApiMessages Delivery Sql SqlLaws SqlInvariant SqlAtomic Working.

(** ** What the client sends and what it is answered *)

Record Letter := mkLetter {
  l_helo : str;
  l_sender : str;
  l_rcpts : list str;
  l_lines : list bytes;
}.

Definition command_line (s : str) : bytes := as_bytes s ++ crlf.
Definition mail_line (a : str) : str := envelope (lit "MAIL") (lit "FROM") [] a [].
Definition rcpt_line (a : str) : str := envelope (lit "RCPT") (lit "TO") [] a [].
Definition ehlo_line (d : str) : str := lit "EHLO " ++ d.
Definition transcript (m : Letter) : bytes :=
  command_line (ehlo_line (l_helo m)) ++ command_line (mail_line (l_sender m)) ++
  concat (map (λ a, command_line (rcpt_line a)) (l_rcpts m)) ++
  command_line (lit "DATA") ++ transmit (l_lines m) ++ command_line (lit "QUIT").

(** The line is one the parser gets whole and unchanged. *)
Definition sendable (s : str) : Prop :=
  valid_str s = true ∧ (10 ∉ s) ∧ len (as_bytes s) + 2 ≤ COMMAND_LINE_MAX.

(** The mailbox an address of the envelope stands for. *)
Definition mailbox_of (a : str) : str := strip_plus_tag (to_ascii_lowercase (trim a)).

(** The recipients in the order they came, each mailbox once. *)
Definition add_new (l : list str) (a : str) : list str :=
  if bool_decide (mailbox_of a ∈ l) then l else l ++ [mailbox_of a].
Definition deliveries (l : list str) : list str := foldl add_new [] l.

Fixpoint multiline (code : Z) (lines : list str) : bytes :=
  match lines with
  | [] => []
  | line :: lines =>
      as_bytes (fmt_int code ++ (if bool_decide (lines = []) then lit " " else lit "-") ++ line ++ crlf)
      ++ multiline code lines
  end.
Definition capabilities (config : Config) (tls : bool) : list str :=
  [smtp_hostname config ++ lit " at your service"] ++ (if tls then [lit "STARTTLS"] else [])
  ++ [lit "SIZE " ++ fmt_int (max_message_size config); lit "8BITMIME"; lit "PIPELINING";
      lit "ENHANCEDSTATUSCODES"; lit "SMTPUTF8"].

(** The whole of what the server writes when everything goes well. *)
Definition answers_to (config : Config) (tls : bool) (m : Letter) : bytes :=
  command_line (lit "220 " ++ smtp_hostname config ++ lit " ESMTP anony-mail")
  ++ multiline 250 (capabilities config tls)
  ++ command_line (lit "250 2.1.0 Sender OK")
  ++ concat (map (λ _, command_line (lit "250 2.1.5 Recipient OK")) (l_rcpts m))
  ++ (as_bytes (lit "354 Start mail input; end with <CRLF>.<CRLF>") ++ crlf)
  ++ command_line (lit "250 2.0.0 Message accepted (" ++ fmt_int (len (deliveries (l_rcpts m)))
                   ++ lit " recipient(s))")
  ++ command_line (lit "221 2.0.0 Bye").

(** ** Command lines *)

Lemma as_bytes_no_lf s : 10 ∉ s → Forall (λ c, 0 ≤ c) s → 10 ∉ as_bytes s.
Proof.
  intros Hs Hp. unfold as_bytes.
  intros (b & (c & <- & Hc)%in_map_iff & Hb)%list_elem_of_In%in_concat.
  apply list_elem_of_In in Hc, Hb. rewrite Forall_forall in Hp. specialize (Hp c Hc).
  assert (c ≠ 10) by (intros ->; done). unfold utf8_encode_char in Hb.
  repeat case_match; repeat (apply elem_of_cons in Hb as [Hb|Hb]; [lia_div|]); by apply not_elem_of_nil in Hb.
Qed.
Lemma valid_str_nonneg s : valid_str s = true → Forall (λ c, 0 ≤ c) s.
Proof.
  unfold valid_str. rewrite all_true. intros Hs. apply Forall_forall. intros c Hc%Hs.
  unfold is_char in Hc. apply orb_prop in Hc as [Hc|Hc]; apply in_range_spec in Hc; lia.
Qed.

(** Nothing to trim: text between two characters that are not blank. *)
Lemma trimmed_ends c s d :
  is_whitespace c = false → is_whitespace d = false → trimmed (c :: s ++ [d]).
Proof.
  intros Hc Hd. apply trimmed_intro.
  - by intros ? ? [= -> _].
  - intros t x Ht. change (c :: s ++ [d]) with ((c :: s) ++ [d]) in Ht. by apply app_inj_tail in Ht as [_ <-].
Qed.
Lemma parse_ehlo d :
  d ≠ [] → Forall (λ c, is_whitespace c = false) d → parse (ehlo_line d) = Ehlo d.
Proof.
  intros Hne Hd. unfold parse.
  assert (trim (ehlo_line d) = ehlo_line d) as ->.
  { destruct d as [|x l _] using rev_ind; [done|]. apply Forall_app in Hd as [_ Hx].
    unfold ehlo_line. rewrite app_assoc. apply (trimmed_ends 69 (lit "HLO " ++ l)); [done|].
    by inversion Hx. }
  unfold splitn2_whitespace. change (ehlo_line d) with (lit "EHLO" ++ 32 :: d).
  rewrite split_once_app by (done || by repeat constructor). cbn -[trim].
  pose proof (trimmed_no_whitespace d Hd) as Ht. unfold trimmed in Ht. rewrite Ht. reflexivity.
Qed.

(** ** Points of the transcript *)

(** The server has written [out]; the client still has [tail] to say. *)
Record at_point (c : Conn) (out tail : bytes) : Prop := {
  pt_out : c_out c = out;
  pt_pending : pending c = tail;
  pt_data : data_only c;
  pt_writes : c_writes c = None;
}.

Lemma reply_at {S} line (w : World S) out tail :
  at_point (w_conn w) out tail →
  ∃ c', reply line w = (Ok tt, set_conn c' w) ∧ at_point c' (out ++ command_line line) tail.
Proof. intros [<- <- Hd Hw]. eexists. split; [by apply reply_ok|]. by split. Qed.

Lemma write_multiline_ok n ls c :
  c_writes c = None →
  write_multiline n ls c = (Ok tt, mkConn (c_buf c) (c_rest c) (c_out c ++ multiline n ls) None).
Proof.
  unfold write_multiline. revert c. induction ls as [|l ls IH]; intros c Hw; cbn [write_multiline_go multiline].
  - unfold flush, write_all. by rewrite Hw.
  - unfold mbind, M_bind. unfold write_all at 1. rewrite Hw, IH by done. cbn. by rewrite <-app_assoc.
Qed.

(** ** The stages *)

Section stages.
Context {S : Type} `{ML : MailLaws S} `{!WorkingStore S} `{MailParser} `{RegexEngine}.
Variable config : Config.
Variable tls_acceptor : option (list NetEvent → option (list NetEvent)).
Variable available_space : str → option Z.

Implicit Types w : World S.
Implicit Types st : S * Env.

Abbreviation step := (session_step config tls_acceptor available_space).
Abbreviation loop := (session_loop config tls_acceptor available_space).

(** The session reads exactly the next command of the transcript. *)
Lemma step_at s w out tail :
  at_point (w_conn w) out (command_line s ++ tail) → sendable s →
  ∃ c', at_point c' out tail ∧
    step w = dispatch config tls_acceptor available_space (parse s) (set_conn c' w).
Proof.
  intros [<- Hp Hd Hw] (Hv & Hlf & Hlen).
  destruct (read_line_line COMMAND_LINE_MAX (w_conn w) (as_bytes s ++ [13]) tail Hd)
    as (c' & Hr & Hd' & Hp' & Ho & Hw').
  - rewrite Hp. unfold command_line, crlf. by rewrite <-!app_assoc.
  - intros [Hx|Hx]%elem_of_app; [|by apply list_elem_of_singleton in Hx].
    by apply as_bytes_no_lf in Hx; [|done|by apply valid_str_nonneg].
  - rewrite length_app. cbn. lia.
  - exists c'. split; [split; cbn; congruence|]. unfold session_step.
    assert (io (read_line COMMAND_LINE_MAX) w = (Ok (Line, as_bytes s ++ crlf), set_conn c' w)) as Hio.
    { rewrite io_run, Hr. cbn [fst snd]. by rewrite <-app_assoc. }
    rewrite (bind_ok _ _ _ _ _ Hio). cbn [fst snd].
    by rewrite strip_eol_crlf, from_utf8_lossy_as_bytes.
Qed.
Lemma loop_continue f w w' : step w = (Ok Continue, w') → loop (Datatypes.S f) w = loop f w'.
Proof. intros Hs. cbn [session_loop]. by rewrite (bind_ok _ _ _ _ _ Hs). Qed.

(** The store answers as at [st0]: the same mailboxes and mail, [n] readings of the clock
    later, working. *)
Record ready (k n : nat) (st0 st : S * Env) : Prop := {
  rd_view : view st.1 = view st0.1;
  rd_mail b : mail st.1 b = mail st0.1 b;
  rd_caps : mail_caps st.1 = mail_caps st0.1;
  rd_later : later st0.2 st.2 n;
  rd_wf : mail_wf st;
  rd_works : works k st;
}.
Lemma ready_refl k st : mail_wf st → works k st → ready k 0 st st.
Proof. by split. Qed.
Lemma ready_now k n st0 st : ready k n st0 st → ready k (Datatypes.S n) st0 (st.1, (env_now st.2).2).
Proof.
  intros [Hv Hm Hq Hn Hw Hk]. destruct st as [s e]. split; cbn in *; try done.
  - intros i. cbn. unfold shift. rewrite Hn. f_equal. lia.
  - by apply (law_mail_clock s e _ 1).
  - by apply (works_clock k s e _ 1).
Qed.

(** A query of a working store: the answer is [f] of what the store holds. *)
Lemma ready_query {A} k n st0 w (m : SM S A) (f : AbsStore → A) R :
  ready k n st0 (w_st w) → reads view m f → mail_reads mail mail_caps mail_wf m R →
  (is_Ok (m (w_st w)).1 ∧ works k (m (w_st w)).2) →
  ∃ st', store_call m w = (Ok (Ok (f (view st0.1))), set_st st' w) ∧ ready k n st0 st'.
Proof.
  intros [Hv Hm Hq Hn Hw _] Hr Hmr [Hok Hk]. rewrite store_call_run.
  destruct (reads_run _ _ (w_st w) Hr) as (H1 & H2 & H3). destruct (Hmr _ Hw) as (M1 & M2 & M3 & M4 & _).
  destruct (m (w_st w)) as [[x|e] st']; [|done]. cbn in *. rewrite (H3 x eq_refl), Hv.
  exists st'. split; [done|]. split; [congruence| |congruence|by rewrite M2|done|done].
  intros b. by rewrite M3.
Qed.
Lemma ready_active k n st0 a t w :
  ready k n st0 (w_st w) →
  ∃ st', store_call (mailbox_is_active a t) w = (Ok (Ok (active (view st0.1) a t)), set_st st' w) ∧
    ready k n st0 st'.
Proof.
  intros Hr. eapply (ready_query k n st0 w (mailbox_is_active a t) (λ v, active v a t)); [done|..].
  - apply law_mailbox_is_active.
  - apply law_mail_is_active.
  - apply works_is_active, Hr.
Qed.
Lemma ready_verified k n st0 d w :
  ready k n st0 (w_st w) →
  ∃ st', store_call (custom_domain_is_verified d) w = (Ok (Ok (domain_verified (view st0.1) d)), set_st st' w) ∧
    ready k n st0 st'.
Proof.
  intros Hr. eapply (ready_query k n st0 w (custom_domain_is_verified d) (λ v, domain_verified v d)); [done|..].
  - apply law_custom_domain_is_verified.
  - apply law_mail_is_verified.
  - apply works_is_verified, Hr.
Qed.

Lemma ehlo_stage d w out tail :
  at_point (w_conn w) out (command_line (ehlo_line d) ++ tail) → sendable (ehlo_line d) →
  d ≠ [] → Forall (λ c, is_whitespace c = false) d →
  ∃ c', at_point c' (out ++ multiline 250 (capabilities config
          (bool_decide (is_Some tls_acceptor) && negb (tls_active (w_sess w))))) tail ∧
    step w = (Ok Continue, set_conn c' (set_sess (mkSession (Some d) None [] (tls_active (w_sess w))) w)).
Proof.
  intros Hp Hs Hne Hd. destruct (step_at _ w _ _ Hp Hs) as (c' & [<- Hp' Hd' Hw'] & ->).
  rewrite parse_ehlo by done. cbn [dispatch]. set (w1 := set_conn c' w).
  set (s1 := mkSession (Some d) None [] (tls_active (w_sess w))).
  rewrite (bind_ok _ _ w1 tt (set_sess (mkSession (Some d) (mail_from (w_sess w)) (rcpts (w_sess w))
    (tls_active (w_sess w))) w1)) by done.
  rewrite (bind_ok _ _ _ tt (set_sess s1 w1)) by done.
  assert (write_ehlo config tls_acceptor (set_sess s1 w1)
    = (Ok tt, set_conn (mkConn (c_buf c') (c_rest c') (c_out c' ++ multiline 250 (capabilities config
          (bool_decide (is_Some tls_acceptor) && negb (tls_active (w_sess w))))) None) (set_sess s1 w1))) as He.
  { unfold write_ehlo. rewrite (bind_ok _ _ _ s1 (set_sess s1 w1)) by done. cbn zeta.
    rewrite io_run. cbn [w_conn set_sess w1 set_conn]. by rewrite write_multiline_ok. }
  rewrite (bind_ok _ _ _ _ _ He). eexists. split; [|reflexivity]. by split.
Qed.

Lemma mail_stage a w out tail :
  at_point (w_conn w) out (command_line (mail_line a) ++ tail) → sendable (mail_line a) → 62 ∉ a →
  helo (w_sess w) ≠ None → mail_from (w_sess w) = None →
  ∃ c', at_point c' (out ++ command_line (lit "250 2.1.0 Sender OK")) tail ∧
    step w = (Ok Continue, set_conn c'
      (set_sess (mkSession (helo (w_sess w)) (Some (trim a)) [] (tls_active (w_sess w))) w)).
Proof.
  intros Hp Hs Ha Hh Hm. destruct (step_at _ w _ _ Hp Hs) as (c1 & Hp1 & ->).
  unfold mail_line. rewrite (proj1 (parse_envelope (lit "MAIL") (lit "FROM") [] a [] ltac:(constructor) Ha)) by done.
  cbn [dispatch]. unfold get_sess. rewrite (bind_ok _ _ (set_conn c1 w) (w_sess w) (set_conn c1 w)) by done.
  rewrite bool_decide_false by done. rewrite bool_decide_false by (rewrite Hm; intros Hn; by apply Hn).
  set (s1 := mkSession _ (Some (trim a)) _ _).
  destruct (reply_at (lit "250 2.1.0 Sender OK") (set_sess s1 (set_conn c1 w)) out tail Hp1) as (c' & Hr & Hp').
  exists c'. split; [done|].
  erewrite bind_ok; [|erewrite bind_ok by done; exact Hr]. reflexivity.
Qed.

(** *** Recipients *)

(** The server has a mailbox for the address, live at the next [c] readings of its clock. *)
Definition deliverable (c : nat) st (a : str) : Prop :=
  (∃ domain, domain_of (to_ascii_lowercase (trim a)) = Some domain ∧ domain ≠ [] ∧
     domain_served config (view st.1) domain) ∧
  ∀ k, (k < c)%nat → active (view st.1) (mailbox_of a) (e_clock st.2 k) = true.

Lemma check_mailbox_ready c k n st0 b a w :
  ready k n st0 (w_st w) → deliverable c st0 a → (n < c)%nat →
  ∃ st', check_mailbox config b (to_ascii_lowercase (trim a)) w = (Ok (Accept (mailbox_of a)), set_st st' w) ∧
    ready k (Datatypes.S n) st0 st'.
Proof.
  intros Hr [_ Ha] Hc. unfold check_mailbox. rewrite (bind_ok _ _ _ _ _ (now_run w)).
  set (w1 := set_st _ w). fold (mailbox_of a).
  destruct (ready_active k (Datatypes.S n) st0 (mailbox_of a) (e_clock (w_st w).2 0%nat) w1) as (st' & Hq & Hr').
  { by apply ready_now. }
  rewrite (rd_later _ _ _ _ Hr 0%nat), Nat.add_0_r, Ha in Hq by done. rewrite (rd_later _ _ _ _ Hr 0%nat), Nat.add_0_r.
  rewrite (bind_ok _ _ _ _ _ Hq). by exists st'.
Qed.
Lemma validate_ready c k n st0 a w :
  ready k n st0 (w_st w) → deliverable c st0 a → (n < c)%nat →
  ∃ st', validate_recipient config (to_ascii_lowercase (trim a)) w
         = (Ok (Accept (mailbox_of a)), set_st st' w) ∧ ready k (Datatypes.S n) st0 st'.
Proof.
  intros Hr Ha Hc. pose proof Ha as [(domain & Hdom & Hne & Hserved) _]. unfold validate_recipient.
  unfold domain_of in Hdom. destruct (rsplit_once 64 _) as [[local d]|]; [|done]. injection Hdom as ->.
  rewrite bool_decide_false by done. destruct (accepts_domain config domain) eqn:Hacc.
  { by apply (check_mailbox_ready c). }
  destruct Hserved as [?|[-> Hv]]; [congruence|]. cbn [negb].
  destruct (ready_verified k n st0 domain w Hr) as (st1 & Hq & Hr1). rewrite Hv in Hq.
  rewrite (bind_ok _ _ _ _ _ Hq).
  destruct (check_mailbox_ready c k n st0 false a (set_st st1 w) Hr1 Ha Hc) as (st' & -> & Hr'). by exists st'.
Qed.

Lemma rcpt_stage c k n st0 a w out tail :
  at_point (w_conn w) out (command_line (rcpt_line a) ++ tail) → sendable (rcpt_line a) → 62 ∉ a →
  mail_from (w_sess w) ≠ None → len (rcpts (w_sess w)) < max_recipients config →
  ready k n st0 (w_st w) → deliverable c st0 a → (n < c)%nat →
  ∃ c' st', at_point c' (out ++ command_line (lit "250 2.1.5 Recipient OK")) tail ∧ ready k (Datatypes.S n) st0 st' ∧
    step w = (Ok Continue, set_conn c' (set_sess (add_rcpt (mailbox_of a) (w_sess w)) (set_st st' w))).
Proof.
  intros Hp Hs Ha Hm Hl Hr Hdel Hc. destruct (step_at _ w _ _ Hp Hs) as (c1 & Hp1 & ->).
  unfold rcpt_line. rewrite (proj2 (parse_envelope (lit "RCPT") (lit "TO") [] a [] ltac:(constructor) Ha)) by done.
  cbn [dispatch]. set (w1 := set_conn c1 w).
  assert (∃ c' st', at_point c' (out ++ command_line (lit "250 2.1.5 Recipient OK")) tail ∧ ready k (Datatypes.S n) st0 st' ∧
    handle_rcpt config (trim a) w1
    = (Ok tt, set_conn c' (set_sess (add_rcpt (mailbox_of a) (w_sess w)) (set_st st' w)))) as (c' & st' & H1 & H2 & H3).
  2: { exists c', st'. split; [done|]. split; [done|]. by rewrite (bind_ok _ _ _ _ _ H3). }
  unfold handle_rcpt, get_sess. rewrite (bind_ok _ _ w1 (w_sess w) w1) by done.
  rewrite bool_decide_false by done. rewrite bool_decide_false by lia. rewrite trim_idemp.
  destruct (validate_ready c k n st0 a w1 Hr Hdel Hc) as (st' & Hv & Hr'). rewrite (bind_ok _ _ _ _ _ Hv).
  rewrite (bind_ok _ _ (set_st st' w1) (w_sess w) (set_st st' w1)) by done.
  erewrite (bind_ok _ _ _ tt (set_sess (add_rcpt (mailbox_of a) (w_sess w)) (set_st st' w1))).
  2:{ unfold add_rcpt. case_bool_decide; [|done]. by destruct w. }
  destruct (reply_at (lit "250 2.1.5 Recipient OK") (set_sess (add_rcpt (mailbox_of a) (w_sess w)) (set_st st' w1)) out tail Hp1)
    as (c' & Hrep & Hp'). exists c', st'. split; [done|]. split; [done|]. rewrite Hrep. reflexivity.
Qed.
Lemma add_rcpt_new a s :
  add_rcpt (mailbox_of a) s = mkSession (helo s) (mail_from s) (add_new (rcpts s) a) (tls_active s).
Proof. unfold add_rcpt, add_new. case_bool_decide; by destruct s. Qed.
Lemma add_new_length l a : len (add_new l a) ≤ len l + 1.
Proof. unfold add_new. case_bool_decide; [lia|]. rewrite length_app. cbn. lia. Qed.

Lemma rcpts_stage c k n st0 l f w out tail :
  at_point (w_conn w) out (concat (map (λ a, command_line (rcpt_line a)) l) ++ tail) →
  Forall (λ a, sendable (rcpt_line a) ∧ (62 ∉ a) ∧ deliverable c st0 a) l →
  mail_from (w_sess w) ≠ None → len (rcpts (w_sess w)) + len l ≤ max_recipients config →
  ready k n st0 (w_st w) → (n + length l ≤ c)%nat →
  ∃ c' st', at_point c' (out ++ concat (map (λ _, command_line (lit "250 2.1.5 Recipient OK")) l)) tail ∧
    ready k (n + length l) st0 st' ∧
    loop (length l + f) w
    = loop f (set_conn c' (set_sess (mkSession (helo (w_sess w)) (mail_from (w_sess w))
        (foldl add_new (rcpts (w_sess w)) l) (tls_active (w_sess w))) (set_st st' w))).
Proof.
  revert n w out. induction l as [|a l IH]; intros n w out Hp Hl Hm Hlen Hr Hc.
  - exists (w_conn w), (w_st w). cbn. rewrite app_nil_r, Nat.add_0_r. by destruct w as [[] ? ? ? ?].
  - apply Forall_cons in Hl as [(Hs & Ha & Hdel) Hl]. cbn [map concat] in Hp. rewrite <-app_assoc in Hp.
    change (length (a :: l)) with (Datatypes.S (length l)) in *.
    destruct (rcpt_stage c k n st0 a w out _ Hp Hs Ha Hm ltac:(lia) Hr Hdel ltac:(lia)) as (c1 & st1 & Hp1 & Hr1 & Hstep).
    cbn [Nat.add]. rewrite (loop_continue _ _ _ Hstep). rewrite add_rcpt_new.
    destruct (IH (Datatypes.S n) (set_conn c1 (set_sess (mkSession (helo (w_sess w)) (mail_from (w_sess w))
      (add_new (rcpts (w_sess w)) a) (tls_active (w_sess w))) (set_st st1 w))) _ Hp1 Hl Hm)
      as (c' & st' & Hp' & Hr' & Hloop); [|done|lia|].
    + cbn. pose proof (add_new_length (rcpts (w_sess w)) a). lia.
    + exists c', st'. cbn [map concat]. rewrite app_assoc. split; [done|].
      rewrite <-Nat.add_succ_comm. split; [done|]. by rewrite Hloop.
Qed.
Lemma foldl_add_new l d : NoDup l → NoDup (foldl add_new l d) ∧ (l ≠ [] ∨ d ≠ [] → foldl add_new l d ≠ []).
Proof.
  revert l. induction d as [|a d IH]; intros l Hl; cbn; [naive_solver|].
  assert (NoDup (add_new l a) ∧ add_new l a ≠ []) as [H1 H2].
  { unfold add_new. case_bool_decide as Ha.
    - split; [done|]. intros ->. by apply not_elem_of_nil in Ha.
    - split; [|by destruct l]. apply NoDup_app. split_and!; [done| |apply NoDup_singleton].
      intros x Hx Hx'. apply list_elem_of_singleton in Hx'. by subst. }
  destruct (IH _ H1) as [H3 H4]. split; [done|]. auto.
Qed.
Lemma foldl_add_new_elem l d b : b ∈ foldl add_new l d → b ∈ l ∨ ∃ a, a ∈ d ∧ b = mailbox_of a.
Proof.
  revert l. induction d as [|a d IH]; intros l; cbn; [auto|]. intros [Hb|(c & Hc & ->)]%IH.
  - unfold add_new in Hb. case_bool_decide; [auto|]. apply elem_of_app in Hb as [Hb|Hb]; [auto|].
    apply list_elem_of_singleton in Hb. right. exists a. split; [left|done].
  - right. exists c. split; [by right|done].
Qed.

(** *** The message *)

Lemma save_copies_works m rc k w :
  works (length rc * Datatypes.S (length (nm_attachments m)) + k) (w_st w) →
  (∀ a, a ∈ rc → is_Some (ab_mailboxes (view (w_st w).1) !! a)) →
  (save_copies rc m w).1 = Ok (Ok tt) ∧ view (w_st (save_copies rc m w).2).1 = view (w_st w).1.
Proof.
  revert w. induction rc as [|a rc IH]; intros w Hk Ha; cbn [save_copies]; [done|].
  rewrite (bind_ok _ _ _ _ _ (store_call_run _ w)).
  destruct (works_save (length rc * Datatypes.S (length (nm_attachments m)) + k) a m (w_st w)) as [Hok Hk1].
  { replace (_ + _)%nat with (length (a :: rc) * Datatypes.S (length (nm_attachments m)) + k)%nat; [done|].
    cbn [length]. lia. }
  { apply Ha. left. }
  pose proof (law_save_message a m (w_st w).1 (w_st w).2) as Hv. rewrite <-surjective_pairing in Hv.
  destruct (save_message a m (w_st w)) as [[stored|er] st1]; [|done]. cbn [fst snd] in *.
  erewrite bind_ok by done.
  destruct (IH (set_bus (publish (from_stored a stored) (w_bus w)) (set_st st1 w))) as [H1 H2]; [done| |].
  - intros b Hb. cbn. rewrite Hv. apply Ha. by right.
  - split; [exact H1|]. etrans; [exact H2|exact Hv].
Qed.
Lemma store_message_works raw k w :
  let m := accepted_message config raw (mail_from (w_sess w)) in
  works (length (rcpts (w_sess w)) * Datatypes.S (length (nm_attachments m)) + k) (w_st w) →
  (∀ a, a ∈ rcpts (w_sess w) → is_Some (ab_mailboxes (view (w_st w).1) !! a)) →
  (store_message config raw w).1 = Ok (Ok (len (rcpts (w_sess w)))) ∧
  view (w_st (store_message config raw w).2).1 = view (w_st w).1.
Proof.
  cbn zeta. intros Hk Ha. destruct (save_copies_works _ _ _ w Hk Ha) as [H1 H2].
  unfold store_message. rewrite (bind_ok _ _ w (w_sess w) w) by done. cbn zeta.
  fold (accepted_message config raw (mail_from (w_sess w))).
  edestruct save_copies_run as (r & st' & bus' & Hr). rewrite (bind_ok _ _ _ _ _ Hr).
  rewrite Hr in H1, H2. injection H1 as ->. by split.
Qed.

(** What came of a letter to the mailboxes [d], between two states: each got it, with its
    event on the bus; nothing else changed. *)
Definition delivered (m : NewMessage) (d : list str) st st' (bus bus' : EventBus) : Prop :=
  mail_wf st' ∧ view st'.1 = view st.1 ∧ (∀ b, b ∉ d → mail st'.1 b = mail st.1 b) ∧
  ∃ saved, length saved = length d ∧ bus' = bus ++ zip_with from_stored d saved ∧
    ∀ i a stored, d !! i = Some a → saved !! i = Some stored →
      ∃ n, arrived m a st st' n ∧ shows a n stored.

Lemma arrived_ready m a k j st0 st st' n :
  ready k j st0 st → arrived m a st st' n → arrived m a st0 st' n.
Proof.
  intros Hr (Hc & Hrc & Hid & i & Hi). split; [done|].
  rewrite <-(rd_mail _ _ _ _ Hr), <-(rd_caps _ _ _ _ Hr). split_and!; [done|done|]. exists (j + i)%nat. by rewrite Hi, (rd_later _ _ _ _ Hr).
Qed.

Lemma data_stage j st0 ls w out tail :
  0 ≤ max_message_size config → max_message_size config + 4 ≤ u64_max →
  storage_has_headroom available_space config = true →
  at_point (w_conn w) out (command_line (lit "DATA") ++ transmit ls ++ tail) →
  Forall (λ l, (10 ∉ l) ∧ len (stuff l) ≤ max_message_size config + 2) ls →
  len (body ls) ≤ max_message_size config →
  mail_from (w_sess w) ≠ None → rcpts (w_sess w) ≠ [] → NoDup (rcpts (w_sess w)) →
  let m := accepted_message config (body ls) (mail_from (w_sess w)) in
  ready (length (rcpts (w_sess w)) * Datatypes.S (length (nm_attachments m))) j st0 (w_st w) →
  (∀ a, a ∈ rcpts (w_sess w) → is_Some (ab_mailboxes (view st0.1) !! a)) →
  ∃ w', step w = (Ok Continue, w') ∧ 
    at_point (w_conn w') (out ++ (as_bytes (lit "354 Start mail input; end with <CRLF>.<CRLF>") ++ crlf)
      ++ command_line (lit "250 2.0.0 Message accepted (" ++ fmt_int (len (rcpts (w_sess w))) ++ lit " recipient(s))")) tail ∧
    delivered m (rcpts (w_sess w)) st0 (w_st w') (w_bus w) (w_bus w').
Proof.
  intros Hm0 Hmax Hroom Hp Hls Hsz Hmf Hrc Hnd m Hr Hbox.
  assert (sendable (lit "DATA")) as Hs.
  { split; [reflexivity|]. split; [apply (bool_decide_unpack _); vm_compute; exact I|vm_compute; discriminate]. }
  destruct (step_at _ w _ _ Hp Hs) as (c1 & [Ho1 Hp1 Hd1 Hw1] & ->). set (w1 := set_conn c1 w).
  change (parse (lit "DATA")) with Data. cbn [dispatch].
  destruct (handle_data_run config available_space Hm0 w1 ls tail Hmax Hmf Hrc Hroom Hw1 Hd1 Hp1 Hls)
    as (c' & Hp' & Hd' & Hw' & Ho & ->). rewrite bool_decide_true in * by done.
  pose proof (store_message_conn config (body ls) c1 w) as Hcn. fold w1 in Hcn. rewrite Hcn in *. clear Hcn.
  pose proof (rd_works _ _ _ _ Hr) as Hk. rewrite <-(Nat.add_0_r (_ * _)) in Hk.
  destruct (store_message_works (body ls) 0 w Hk) as [Hres Hv].
  { intros a Ha. rewrite (rd_view _ _ _ _ Hr). by apply Hbox. }
  cbn [fst snd] in Ho. rewrite Hres in Ho.
  pose proof (store_message_total config (body ls) w) as (r & st' & bus' & Htot).
  destruct (store_message_events config (body ls) w (rd_wf _ _ _ _ Hr) Hnd)
    as (Hwf' & saved & Hout & Hin & Hbus & _ & Hlen). rewrite Hres in Hlen. destruct Hlen as [_ Hlen].
  rewrite Hlen, take_ge in Hout by done. rewrite Htot in *. cbn [snd w_st set_bus set_st w_bus] in *.
  eexists. split; [reflexivity|]. cbn [w_conn set_sess set_conn w_st w_bus set_bus set_st]. split.
  - split; [by rewrite Ho, <-Ho1|done|done|done].
  - split; [exact Hwf'|]. split; [rewrite Hv; apply (rd_view _ _ _ _ Hr)|].
    split; [intros b Hb; rewrite Hout by done; apply (rd_mail _ _ _ _ Hr)|].
    exists saved. split; [done|]. split; [exact Hbus|]. intros i a stored Ha Hst.
    destruct (Hin i a stored Ha Hst) as (n & Hn & Hsh). exists n. split; [|done].
    by eapply arrived_ready.
Qed.

Lemma quit_stage f w out :
  at_point (w_conn w) out (command_line (lit "QUIT")) →
  ∃ c', c_out c' = out ++ command_line (lit "221 2.0.0 Bye") ∧
    loop (Datatypes.S f) w = (Ok tt, set_conn c' w).
Proof.
  intros Hp. rewrite <-(app_nil_r (command_line (lit "QUIT"))) in Hp.
  assert (sendable (lit "QUIT")) as Hs.
  { split; [reflexivity|]. split; [apply (bool_decide_unpack _); vm_compute; exact I|vm_compute; discriminate]. }
  destruct (step_at _ w _ _ Hp Hs) as (c1 & Hp1 & Hstep). change (parse (lit "QUIT")) with Quit in Hstep.
  destruct (reply_at (lit "221 2.0.0 Bye") (set_conn c1 w) out [] Hp1) as (c' & Hr & [Ho _ _ _]).
  exists c'. split; [done|]. cbn [session_loop dispatch] in *.
  rewrite (bind_ok _ _ _ _ _ Hr) in Hstep. by rewrite (bind_ok _ _ _ _ _ Hstep).
Qed.

(** *** The whole conversation *)

(** The letter keeps to the protocol and to the limits of the server. *)
Record conforming st (m : Letter) : Prop := {
  cf_helo : l_helo m ≠ [] ∧ Forall (λ c, is_whitespace c = false) (l_helo m) ∧ sendable (ehlo_line (l_helo m));
  cf_sender : sendable (mail_line (l_sender m)) ∧ 62 ∉ l_sender m;
  cf_rcpts : l_rcpts m ≠ [] ∧ len (l_rcpts m) ≤ max_recipients config;
  cf_each : Forall (λ a, sendable (rcpt_line a) ∧ (62 ∉ a) ∧ deliverable (length (l_rcpts m)) st a) (l_rcpts m);
  cf_lines : Forall (λ l, (10 ∉ l) ∧ len (stuff l) ≤ max_message_size config + 2) (l_lines m);
  cf_size : len (body (l_lines m)) ≤ max_message_size config;
}.
Definition letter_message (m : Letter) : NewMessage :=
  accepted_message config (body (l_lines m)) (Some (trim (l_sender m))).

Lemma conversation_run fuel rest st bus m :
  0 ≤ max_message_size config → max_message_size config + 4 ≤ u64_max →
  storage_has_headroom available_space config = true → conforming st m →
  Forall is_data rest → concat (map event_bytes rest) = transcript m → mail_wf st →
  works (length (deliveries (l_rcpts m)) * Datatypes.S (length (nm_attachments (letter_message m)))) st →
  (length (l_rcpts m) + 4 ≤ fuel)%nat →
  let r := handle config tls_acceptor available_space fuel rest None st bus in
  r.1 = Ok tt ∧ c_out (w_conn r.2) = answers_to config (bool_decide (is_Some tls_acceptor)) m ∧
  delivered (letter_message m) (deliveries (l_rcpts m)) st (w_st r.2) bus (w_bus r.2).
Proof.
  intros Hm0 Hmax Hroom [(Hh & Hhw & Hhs) (Hms & Hma) (Hrn & Hrl) Heach Hls Hsz] Hd Hcat Hw Hk Hf. cbn zeta.
  unfold handle, run. set (w0 := mkWorld _ _ _ _ _).
  destruct (reply_at (lit "220 " ++ smtp_hostname config ++ lit " ESMTP anony-mail") w0 [] (transcript m))
    as (c1 & Hg & Hp1); [by split|]. rewrite (bind_ok _ _ _ _ _ Hg). clear Hg.
  replace fuel with (Datatypes.S (Datatypes.S (length (l_rcpts m) +
    Datatypes.S (Datatypes.S (fuel - length (l_rcpts m) - 4)))))%nat by lia.
  destruct (ehlo_stage (l_helo m) (set_conn c1 w0) _ _ Hp1 Hhs Hh Hhw) as (c2 & Hp2 & Hs2).
  rewrite (loop_continue _ _ _ Hs2). clear Hs2. set (w2 := set_conn c2 _).
  destruct (mail_stage (l_sender m) w2 _ _ Hp2 Hms Hma) as (c3 & Hp3 & Hs3); [done..|].
  rewrite (loop_continue _ _ _ Hs3). clear Hs3. set (w3 := set_conn c3 _).
  destruct (rcpts_stage (length (l_rcpts m)) _ 0 st (l_rcpts m) (Datatypes.S (Datatypes.S (fuel - length (l_rcpts m) - 4))) w3 _ _ Hp3 Heach
    ltac:(done) ltac:(cbn; lia) (ready_refl _ _ Hw Hk) ltac:(done)) as (c4 & st4 & Hp4 & Hr4 & ->).
  set (w4 := set_conn c4 _). change (foldl add_new (rcpts (w_sess w3)) (l_rcpts m)) with (deliveries (l_rcpts m)) in w4.
  destruct (foldl_add_new [] (l_rcpts m)) as [Hnd Hne]; [constructor|].
  destruct (data_stage (0 + length (l_rcpts m)) st (l_lines m) w4 _ _ Hm0 Hmax Hroom Hp4 Hls Hsz) as (w5 & Hs5 & Hp5 & Hdel);
    [done|by apply Hne; right|done|exact Hr4| |].
  { intros a [[]%not_elem_of_nil|(b & Hb & ->)]%foldl_add_new_elem. rewrite Forall_forall in Heach.
    assert (0 < length (l_rcpts m))%nat by (by destruct (l_rcpts m); [|cbn; lia]).
    destruct (Heach b Hb) as (_ & _ & _ & Hact). specialize (Hact 0%nat ltac:(lia)). unfold active in Hact.
    by destruct (ab_mailboxes _ !! _). }
  rewrite (loop_continue _ _ _ Hs5). destruct (quit_stage (fuel - length (l_rcpts m) - 4) w5 _ Hp5) as (c6 & Ho & ->).
  split; [done|]. split; [|exact Hdel]. cbn [snd w_conn set_conn]. rewrite Ho. unfold answers_to.
  rewrite <-!app_assoc. cbn [app]. rewrite andb_true_r. done.
Qed.
End stages.

(** ** Served and read *)

Section served.
Context {S : Type} `{ML : MailLaws S} `{!WorkingStore S}.
Context `{MailParser} `{RegexEngine} `{Crypto} `{HeaderValue} `{UuidText}.
Variable config : Config.
Variable tls_acceptor : option (list NetEvent → option (list NetEvent)).
Variable available_space : str → option Z.

(** C12: a conforming client is served, and its mail is read. The client greets, names a
    sender and recipients the server has live mailboxes for (in any spelling of case, with
    or without plus tags), sends a message within the limits, and leaves; its bytes come in
    any chunks, and the store is in working order. Then the session ends normally, every
    command is answered with success, byte for byte; each mailbox gets the message once,
    whatever number of its spellings were named, with one event on the bus; no other inbox
    and no mailbox changes; and the reader of each finds it through the API at the head of
    the listing, in full. *)
Theorem letter_served fuel rest (st : S * Env) bus m :
  0 ≤ max_message_size config → max_message_size config + 4 ≤ u64_max →
  storage_has_headroom available_space config = true → conforming config st m →
  Forall is_data rest → concat (map event_bytes rest) = transcript m → mail_wf st →
  works (length (deliveries (l_rcpts m)) * Datatypes.S (length (nm_attachments (letter_message config m)))) st →
  (length (l_rcpts m) + 4 ≤ fuel)%nat →
  let r := handle config tls_acceptor available_space fuel rest None st bus in
  r.1 = Ok tt ∧ c_out (w_conn r.2) = answers_to config (bool_decide (is_Some tls_acceptor)) m ∧
  delivered (letter_message config m) (deliveries (l_rcpts m)) st (w_st r.2) bus (w_bus r.2) ∧
  ∀ address (app : App S),
    to_ascii_lowercase address ∈ deliveries (l_rcpts m) → older (to_ascii_lowercase address) st →
    ap_st app = w_st r.2 →
    ∃ n l, carries (letter_message config m) n ∧ mail (ap_st app).1 (to_ascii_lowercase address) = n :: l ∧
      l `sublist_of` mail st.1 (to_ascii_lowercase address) ∧
      readable config (body (l_lines m)) address n app.
Proof.
  intros Hm0 Hmax Hroom Hcf Hd Hcat Hw Hk Hf. cbn zeta.
  destruct (conversation_run config tls_acceptor available_space fuel rest st bus m Hm0 Hmax Hroom Hcf Hd Hcat Hw Hk Hf)
    as (Hr & Ho & Hdel). split; [done|]. split; [done|]. split; [done|].
  intros address app (i & Ha)%list_elem_of_lookup Hold Happ.
  destruct Hdel as (Hw' & _ & _ & saved & Hlen & _ & Hin).
  destruct (lookup_lt_is_Some_2 saved i) as [stored Hst]; [rewrite Hlen; by eapply lookup_lt_Some|].
  destruct (Hin i _ stored Ha Hst) as (n & Harr & _). rewrite <-Happ in Hw', Harr.
  destruct (arrived_newest _ _ _ _ _ Harr Hold) as (l & Hbox & Hl). destruct Harr as (Hc & _).
  exists n, l. split_and!; [done..|]. eapply head_readable; [done|done|].
  intros Hkeep. destruct Hc as [Heq _]. injection Heq as _ _ _ _ _ _ -> _.
  unfold letter_message, accepted_message. by rewrite Hkeep.
Qed.
End served.

(** ** A letter to two spellings of one mailbox *)

#[local] Existing Instances demo_parser reference_engine demo_crypto demo_header hex_UuidText.

Definition demo_letter : Letter :=
  mkLetter (lit "client.org") (lit "s@y.io") [lit "box+news@Example.com"; demo_box] [lit "hi"; lit ".dot"].
Definition demo_chunks : list NetEvent :=
  [Recv (take 70 (transcript demo_letter)); Recv (drop 70 (transcript demo_letter))].
Definition demo_served := handle Config_default None no_space 6 demo_chunks None (w_st demo_receiving) [].

Lemma sendable_decide s :
  bool_decide (valid_str s = true ∧ (10 ∉ s) ∧ len (as_bytes s) + 2 ≤ COMMAND_LINE_MAX) = true → sendable s.
Proof. intros Hs. by apply bool_decide_eq_true in Hs. Qed.
Lemma demo_deliverable a :
  mailbox_of a = demo_box → domain_of (to_ascii_lowercase (trim a)) = Some (lit "example.com") →
  deliverable Config_default 2 (w_st demo_receiving) a.
Proof.
  intros Ha Hd. split.
  - exists (lit "example.com"). split; [done|]. split; [done|]. left. reflexivity.
  - intros [|[|k]] Hk; [| |lia]; rewrite Ha; vm_compute; reflexivity.
Qed.
Lemma demo_conforming : conforming Config_default (w_st demo_receiving) demo_letter.
Proof.
  split.
  - split; [done|]. split; [by repeat constructor|]. by apply sendable_decide.
  - split; [by apply sendable_decide|]. apply (bool_decide_unpack _). vm_compute. exact I.
  - split; [done|]. vm_compute. discriminate.
  - repeat apply Forall_cons_2; [..|by constructor]; (split; [by apply sendable_decide|]);
      (split; [apply (bool_decide_unpack _); vm_compute; exact I|]); by apply demo_deliverable.
  - repeat constructor; apply (bool_decide_unpack _); vm_compute; exact I.
  - vm_compute. discriminate.
Qed.

Lemma letter_served_witness :
  deliveries (l_rcpts demo_letter) = [demo_box] ∧ demo_served.1 = Ok tt ∧
  c_out (w_conn demo_served.2) = answers_to Config_default false demo_letter ∧
  let app := mkApp (w_st demo_served.2) (from_config Config_default) ChallengeStore_default in
  ∃ n, mail (ap_st app).1 demo_box = [n] ∧
    readable Config_default (lit "hi" ++ crlf ++ lit ".dot" ++ crlf) demo_box n app.
Proof.
  split; [reflexivity|].
  destruct (letter_served Config_default None no_space 6 demo_chunks (w_st demo_receiving) [] demo_letter
    ltac:(done) ltac:(done) ltac:(reflexivity) demo_conforming) as (Hok & Hout & _ & Hread).
  - repeat constructor; done.
  - vm_compute. reflexivity.
  - exact demo_receiving_wf.
  - exact I.
  - cbn. lia.
  - split; [exact Hok|]. split; [exact Hout|].
    intros app. destruct (Hread demo_box app) as (n & l & _ & Hbox & Hl & Hr).
    + left.
    + intros k. vm_compute. constructor.
    + reflexivity.
    + exists n. split; [|exact Hr]. apply sublist_nil_r in Hl. subst l.
      assert (to_ascii_lowercase demo_box = demo_box) as Hlow by reflexivity.
      rewrite Hlow in Hbox. exact Hbox.
Defined.
