(* ===== verification/Expiry.v ===== *)
(** * Expiry: the end of a mailbox

    The composition of the cleanup task ([src/cleanup.rs]) and the message endpoints over
    any store with [MailLaws]: what is left of a mailbox that has expired. *)

From S2P Require Import Prelude Str Model UuidHex Config StoreSpec MailSpec MemoryStore MemoryStoreLaws MemoryClaims.
From S2P Require Import MemoryInbox Cleanup Limits Attest Api ApiAddresses ApiLaws ApiDownloads ApiMessages.

Section expiry.
Context {S : Type} `{ML : MailLaws S} `{Crypto} `{HeaderValue} `{UuidText}.

Lemma frame_step o (w : S * Env) :
  mail_wf w → moves_mail o = false →
  mail_wf (run_op o w) ∧ ∀ a, mail (run_op o w).1 a = mail w.1 a.
Proof. intros Hw Ho. split; [by apply law_mail_op|]. intros a. by apply law_mail_frame. Qed.

(** The tick, as its purge and what it left. *)
Lemma tick_run s e :
  mail_wf (s, e) →
  let w1 := (purge_expired (e_clock e 0%nat) (s, (env_now e).2)).2 in
  let w' := (cleanup_tick (s, e)).2 in
  mail_wf w' ∧ (∀ a, mail w'.1 a = mail w1.1 a) ∧ ab_mailboxes (view w'.1) = ab_mailboxes (view w1.1).
Proof.
  intros Hw. cbn zeta. unfold cleanup_tick. set (t0 := e_clock e 0%nat). set (e0 := (env_now e).2).
  assert (mail_wf (s, e0)) as Hw0 by (by apply (law_mail_clock s e e0 1)).
  rewrite (bind_ok _ _ _ t0 (s, e0)) by done.
  pose proof (law_mail_op (OpPurge t0) (s, e0) Hw0) as Hw1.
  change (mail_wf (purge_expired t0 (s, e0)).2) in Hw1.
  destruct (purge_expired t0 (s, e0)) as [r1 [s1 e1]] eqn:Hp. cbn [fst snd] in *.
  rewrite (bind_ok _ _ _ r1 (s1, e1)) by (unfold try; rewrite Hp; by destruct r1).
  rewrite (bind_ok _ _ _ (e_clock e1 0%nat) (s1, (env_now e1).2)) by done.
  assert (mail_wf (s1, (env_now e1).2)) as Hw2 by (by apply (law_mail_clock s1 e1 _ 1)).
  set (t2 := e_clock e1 0%nat - DEVICE_IDLE_WINDOW).
  destruct (frame_step (OpPrune t2) _ Hw2 eq_refl) as [Hw3 Hb3]. 
  change (mail_wf (prune_attested_devices t2 (s1, (env_now e1).2)).2) in Hw3.
  change (∀ a, mail (prune_attested_devices t2 (s1, (env_now e1).2)).2.1 a = mail s1 a) in Hb3.
  destruct (try_updates _ _ _ (s1, (env_now e1).2) (law_prune t2)) as (r2 & w2 & Hr2 & Hv2).
  assert (w2 = (prune_attested_devices t2 (s1, (env_now e1).2)).2) as Hw2e.
  { unfold try in Hr2. destruct (prune_attested_devices _ _) as [r p]. cbn. congruence. }
  rewrite (bind_ok _ _ _ _ _ Hr2). destruct (law_mail_maintenance w2) as (Hw4 & _ & Hb4 & _); [by subst|].
  pose proof (law_run_maintenance w2.1 w2.2) as Hv4. rewrite <-surjective_pairing in Hv4.
  destruct (run_maintenance w2) as [r4 w4] eqn:Hm.
  rewrite (bind_ok _ _ _ r4 w4) by (unfold try; rewrite Hm; by destruct r4). cbn in *. subst w2.
  split; [done|]. split; [intros a; by rewrite Hb4, Hb3|]. rewrite Hv4. by destruct Hv2 as [->| ->].
Qed.

Lemma answers_nothing {A} (P : A → Prop) (missing : Prop) r :
  answers P missing r → (∀ x, ¬ P x) → answers (λ _, False) True r.
Proof. intros Hr HP. destruct r as [x|[]]; try done. by apply (HP x). Qed.

(** C16: an expired mailbox is gone with its mail. At a tick whose purge succeeds, exactly
    the mailboxes that have expired by then disappear, as many as it reports, and their
    inboxes are empty: the API finds neither the mailbox nor any of its messages, raw
    forms or attachments any more. Every other mailbox and inbox is as before; and when
    the purge fails, all of them are, for the next tick to try again. *)
Theorem expired_mail_is_gone s e :
  mail_wf (s, e) →
  let now := e_clock e 0%nat in
  let w' := (cleanup_tick (s, e)).2 in
  mail_wf w' ∧
  match (purge_expired now (s, (env_now e).2)).1 with
  | Ok n =>
      ab_mailboxes (view w'.1) = filter (λ p, now < mb_expires_at p.2) (ab_mailboxes (view s)) ∧
      n = Z.of_nat (size (ab_mailboxes (view s))) - Z.of_nat (size (ab_mailboxes (view w'.1))) ∧
      (∀ a, mail w'.1 a = if expired_at (view s) now a then [] else mail s a) ∧
      ∀ address limit since id aid (app : App S),
        ap_st app = w' → expired_at (view s) now (to_ascii_lowercase address) = true →
        (∀ i, since = Some i → mail_id i) → mail_id id → mail_id aid →
        answers (λ _, False) True (messages_list address (mkListQuery limit since) app).1 ∧
        answers (λ _, False) True (messages_get address id app).1 ∧
        answers (λ _, False) True (get_raw address id app).1 ∧
        answers (λ _, False) True (get_attachment_h address id aid app).1
  | Err _ => ab_mailboxes (view w'.1) = ab_mailboxes (view s) ∧ ∀ a, mail w'.1 a = mail s a
  end.
Proof.
  intros Hw. cbn zeta. destruct (tick_run s e Hw) as (Hw' & Hb & Hm). split; [done|].
  assert (mail_wf (s, (env_now e).2)) as Hw0 by (by apply (law_mail_clock s e _ 1)).
  pose proof (law_purge_expired (e_clock e 0%nat) s (env_now e).2 (law_mail_keyed _ Hw0)) as Hv.
  pose proof (law_mail_purge (e_clock e 0%nat) _ Hw0) as Hp. cbn [fst] in Hp.
  destruct (purge_expired _ _) as [[n|er] [s1 e1]]; cbn [fst snd] in *.
  - destruct Hv as [Hv Hn]. rewrite Hm. split; [by rewrite Hv|]. split; [done|].
    assert (∀ a, mail (cleanup_tick (s, e)).2.1 a
      = if expired_at (view s) (e_clock e 0%nat) a then [] else mail s a) as Hgone by (intros a; by rewrite Hb).
    split; [done|]. intros address limit since id aid app Happ Hex Hs Hid Haid.
    rewrite Hv in Hm. set (a := to_ascii_lowercase address) in *.
    assert (mail (ap_st app).1 a = []) as Hnil by (rewrite Happ, Hgone; by rewrite Hex).
    assert (ab_mailboxes (view (ap_st app).1) !! a = None) as Hnone.
    { rewrite Happ, Hm. unfold expired_at in Hex. apply map_lookup_filter_None. right. cbn. intros mb Hmb.
      rewrite Hmb in Hex. apply Z.leb_le in Hex. lia. }
    rewrite <-Happ in Hw'. destruct (messages_list_answer address limit since app Hw' Hs) as [_ Hl].
    destruct (messages_get_answer address id app Hw' Hid) as [_ Hg].
    destruct (get_raw_answer address id app Hw' Hid) as [_ Hr].
    destruct (get_attachment_answer address id aid app Hw' Hid Haid) as [_ Hf].
    fold a in Hl, Hg, Hr, Hf. rewrite Hnil in Hg, Hr, Hf. rewrite Hnone in Hl.
    split_and!; eapply answers_nothing; try eassumption; cbn.
    + by intros x [[? ?] _].
    + by intros x (m & ? & _).
    + done.
    + by intros x (att & ? & _).
  - rewrite Hm, Hv. split; [done|]. intros a. by rewrite Hb.
Qed.
End expiry.

(** ** A concrete run: the tick after the mailbox of the demonstration expires *)

#[local] Existing Instances demo_crypto demo_header hex_UuidText.

Definition demo_box_name : str := lit "box@x.io".
Definition demo_old : MemoryStore * Env :=
  run_ops [OpCreateMailbox demo_box_name (lit "x.io") 500 None None; OpSave demo_box_name (demo_msg 5)] demo_start.
Definition demo_ticked : MemoryStore * Env := (cleanup_tick demo_old).2.

Lemma expired_mail_is_gone_witness :
  length (mail demo_old.1 demo_box_name) = 1%nat ∧ mail demo_ticked.1 demo_box_name = [] ∧
  mailboxes demo_ticked.1 = filter (λ p, e_clock demo_old.2 0%nat < mb_expires_at p.2) (mailboxes demo_old.1).
Proof.
  assert (mail_wf demo_old) as Hw.
  { apply (run_ops_preserves mem_mail_wf); [apply mem_mail_wf_op|apply mem_mail_wf_new].
    intros i j. cbn. lia. }
  destruct (expired_mail_is_gone demo_old.1 demo_old.2) as [_ Hp]; [exact Hw|].
  assert (is_ok (purge_expired (e_clock demo_old.2 0%nat) (demo_old.1, (env_now demo_old.2).2)).1 = true) as Hok
    by (vm_compute; reflexivity).
  destruct (purge_expired _ _).1 as [n|er]; [|discriminate Hok]. destruct Hp as (Hm & _ & Hg & _).
  split; [vm_compute; reflexivity|]. split; [|exact Hm].
  change (mail (cleanup_tick (demo_old.1, demo_old.2)).2.1 demo_box_name = []). rewrite Hg.
  assert (expired_at (view demo_old.1) (e_clock demo_old.2 0%nat) demo_box_name = true) as Hx
    by (vm_compute; reflexivity).
  rewrite Hx. reflexivity.
Defined.
