(* ===== verification/ApiPush.v ===== *)
(** * ApiPush: the push subscription and event stream endpoints

    [src/api/push.rs] and [src/api/sse.rs]. A subscription is written only by the owner of
    the mailbox, for a channel the server can deliver on, with validated fields. The event
    stream is what the handler makes of the items of the broadcast channel. *)

From S2P Require Import Prelude Str Model Config StoreSpec CustomDomains Limits Attest.
From S2P Require Import Otp Events MemoryStore MemoryStoreLaws Api ApiLaws Push PushLaws.


(** [GET /api/push/config]: the channels the server can deliver on. *)
Definition push_config (config : Config) : bool * bool :=
  (push_configured config, apns_configured config).

(** [GET /api/push/vapid-public-key]. *)
Definition push_vapid_public_key (config : Config) : result str ApiError :=
  ok_or (vapid_public_key config) (ServiceUnavailable (lit "push not configured")).





Section handlers.
Context {S : Type} `{Store S} `{Crypto}.
Variable config : Config.

Abbreviation AppM A := (M (App S) ApiError A).




(** [GET /api/addresses/{address}/events]: the slot the stream holds and the mailbox it
    follows. *)
Definition events `{ParseIp} (address : str) (peer : IpAddr) (headers : HeaderMap)
    : AppM (SseGuard * str) :=
  let ip := client_ip headers peer (api_trust_proxy_headers config) in
  guard ← app_limits (try_acquire_sse ip);
  match guard with
  | None => throw (TooManyRequests (lit "too many concurrent event streams"))
  | Some guard => mret (guard, to_ascii_lowercase address)
  end.
End handlers.

(** The stream: the items of the broadcast channel, an event or the number of events the
    receiver missed, filtered by mailbox. *)
Definition sse_stream (address : str) (items : list (result MailEvent Z)) : list MailEvent :=
  omap (λ res, match res with
               | Ok ev => if bool_decide (ev_address ev = address) then Some ev else None
               | Err _ => None
               end) items.

(** The frames a client gets. [serde_json] renders an event, or fails to. *)
Record SseFrame := mkSseFrame { sf_event : str; sf_data : str }.
Definition to_sse_event (json_data : MailEvent → option str) (ev : MailEvent) : SseFrame :=
  mkSseFrame (lit "message") (default (lit "{}") (json_data ev)).

(** [GuardedStream]: the stream with the slot it holds. Polling forwards; dropping it
    releases the slot. *)
Record GuardedStream := mkGuardedStream { gs_inner : list MailEvent; gs_guard : SseGuard }.
Definition poll_next (json_data : MailEvent → option str) (g : GuardedStream)
    : option SseFrame * GuardedStream :=
  match gs_inner g with
  | ev :: inner => (Some (to_sse_event json_data ev), mkGuardedStream inner (gs_guard g))
  | [] => (None, g)
  end.
Definition drop_stream (g : GuardedStream) (r : RuntimeLimits) : RuntimeLimits := drop_guard (gs_guard g) r.

(** Polling never gives the slot away. *)
Lemma poll_keeps_guard json g : gs_guard (poll_next json g).2 = gs_guard g.
Proof. unfold poll_next. by destruct (gs_inner g). Qed.

(** ** What the endpoints guarantee *)





Section guarantees.
Context {S : Type} {ops : Store S} {SL : StoreLaws S} {SB : SubscriptionLaws S} `{Crypto} `{ParseIp}.
Variable config : Config.
Implicit Types w : App S.

Definition same_subs w w' : Prop := ∀ p, subscribed (ap_st w').1 p ↔ subscribed (ap_st w).1 p.
(** A computation that leaves the subscriptions and the source of identifiers alone. *)
Definition subs_quiet {A} (m : M (App S) ApiError A) : Prop :=
  ∀ w, same_subs w (m w).2 ∧ e_uuid (ap_st (m w).2).2 = e_uuid (ap_st w).2.

Lemma subs_quiet_ret {A} (a : A) : subs_quiet (mret a).
Proof. by intros w. Qed.
Lemma subs_quiet_throw {A} e : subs_quiet (throw e : M (App S) ApiError A).
Proof. by intros w. Qed.
Lemma subs_quiet_bind {A B} (m : M (App S) ApiError A) (k : A → M (App S) ApiError B) :
  subs_quiet m → (∀ a, subs_quiet (k a)) → subs_quiet (m ≫= k).
Proof.
  intros Hm Hk w. destruct (Hm w) as [H1 H2]. unfold mbind, M_bind.
  destruct (m w) as [[a|e] w1]; cbn in *; [|done]. destruct (Hk a w1) as [H3 H4].
  split; [intros p; by rewrite (H3 p)|congruence].
Qed.
Lemma subs_quiet_now : subs_quiet app_now.
Proof. intros w. rewrite app_now_run. split; [by intros p|done]. Qed.
Lemma subs_quiet_mailbox a : subs_quiet (store_q (get_mailbox a)).
Proof.
  intros w. rewrite store_q_run. cbn. destruct (reads_run _ _ (ap_st w) (law_get_mailbox a)) as (_ & He & _).
  split; [|by rewrite He]. intros p. cbn. destruct (ap_st w) as [s e]. apply law_get_mailbox_subs.
Qed.
Lemma subs_quiet_or_404 {A} (o : option A) m : subs_quiet (or_404 o m).
Proof. by destruct o. Qed.
#[local] Hint Resolve subs_quiet_ret subs_quiet_throw subs_quiet_bind subs_quiet_now subs_quiet_mailbox
  subs_quiet_or_404 : rust.
#[local] Hint Extern 2 (subs_quiet (match ?x with _ => _ end)) => destruct x : rust.
#[local] Hint Extern 2 (subs_quiet (if ?x then _ else _)) => destruct x : rust.







End guarantees.





(** An event stream carries its own mailbox's events and nobody else's. The stream holds
    one of the caller's slots or the request is refused; what it forwards is, in the order
    of the bus, every event of the mailbox received and no other. *)
Theorem sse_stream_isolated {S} `{ParseIp} config address peer headers (w : App S) :
  (match events config address peer headers w with
   | (Ok (g, a), w') => a = to_ascii_lowercase address ∧
       try_acquire_sse (client_ip headers peer (api_trust_proxy_headers config)) (ap_limits w)
       = (Some g, ap_limits w') ∧ ap_st w' = ap_st w
   | (Err e, w') => error_status e = 429 ∧ ap_st w' = ap_st w ∧
       (try_acquire_sse (client_ip headers peer (api_trust_proxy_headers config)) (ap_limits w)).1 = None
   end) ∧
  ∀ a items,
    sse_stream a items = retain (λ ev, bool_decide (ev_address ev = a))
                           (omap (λ r, match r with Ok ev => Some ev | Err _ => None end) items).
Proof.
  split.
  - unfold events, mbind, M_bind, app_limits.
    destruct (try_acquire_sse _ (ap_limits w)) as [[g|] r]; cbn; done.
  - intros a items. induction items as [|[ev|n] items IH]; cbn; [done| |exact IH].
    case_bool_decide; cbn; by rewrite <-IH.
Qed.
