(* ===== verification/LiveEvents.v ===== *)
(** * LiveEvents: from a stored message to the open event stream

    The composition of the SMTP receiver, the event bus ([src/events.rs]) and the stream of
    [src/api/sse.rs]: what a client that follows a mailbox sees when mail is stored. *)

From S2P Require Import Prelude Str Model UuidHex Config StoreSpec MailSpec MemoryStore MemoryStoreLaws MemoryClaims.
From S2P Require Import MemoryInbox SmtpCommands SmtpIo Regex Otp Mime Events SmtpSession SmtpSessionLaws.
From S2P Require Import Limits Attest Api ApiDownloads ApiMessages Delivery ApiPush.

(** ** The stream *)

Lemma sse_stream_events a items :
  sse_stream a items = retain (λ ev, bool_decide (ev_address ev = a)) (omap item_event items).
Proof.
  induction items as [|[ev|n] items IH]; cbn; [done| |exact IH]. case_bool_decide; cbn; by rewrite <-IH.
Qed.
Lemma sublist_retain_mono {A} (p : A → bool) (l k : list A) :
  l `sublist_of` k → retain p l `sublist_of` retain p k.
Proof. induction 1; cbn; [done| |]; destruct (p _); by try constructor. Qed.

(** A stream shows events of its mailbox alone, in order; all of them when it keeps up. *)
Lemma sse_stream_receives a sent items :
  receives sent items →
  sse_stream a items `sublist_of` retain (λ ev, bool_decide (ev_address ev = a)) sent ∧
  ((∀ n, Err n ∉ items) → sse_stream a items = retain (λ ev, bool_decide (ev_address ev = a)) sent).
Proof.
  intros [Hsub Hall]%receives_events. rewrite sse_stream_events. split; [by apply sublist_retain_mono|].
  intros Hn. rewrite (Hall Hn). f_equal. clear. induction sent as [|ev sent IH]; cbn; [done|by rewrite IH].
Qed.

Section live.
Context {S : Type} `{ML : MailLaws S} `{MailParser} `{RegexEngine}.
Variable config : Config.

(** One event per recipient: an address has at most one. *)
Lemma events_of_address a l saved :
  NoDup l → (length saved ≤ length l)%nat →
  let evs := retain (λ ev, bool_decide (ev_address ev = a)) (zip_with from_stored l saved) in
  (evs = [] ∧ a ∉ take (length saved) l) ∨
  ∃ i stored, l !! i = Some a ∧ saved !! i = Some stored ∧ evs = [from_stored a stored].
Proof.
  cbn zeta. revert saved. induction l as [|b l IH]; intros [|stored saved] Hnd Hl; cbn in *; try lia.
  - left. split; [done|apply not_elem_of_nil].
  - left. split; [done|apply not_elem_of_nil].
  - apply NoDup_cons in Hnd as [Hb Hnd].
    destruct (IH saved Hnd ltac:(lia)) as [[Hr Ha]|(i & st & Hi & Hs & Hr)]; rewrite Hr; case_bool_decide as Hab.
    + right. subst. by exists 0%nat, stored.
    + left. split; [done|]. apply not_elem_of_cons. split; [done|exact Ha].
    + exfalso. subst. apply Hb. by eapply list_elem_of_lookup_2.
    + right. by exists (Datatypes.S i), st.
Qed.

(** The event that announces message [n] of mailbox [a]. *)
Definition announcement (a : str) (n : Mail) : MailEvent :=
  mkMailEvent a (ml_id n) (ml_from n) (ml_subject n) (ml_received n)
    (negb (bool_decide (ml_files n = []))) (extract (ml_subject n) (ml_text n)).

Lemma from_stored_announces a n stored : shows a n stored → from_stored a stored = announcement a n.
Proof.
  intros [-> Hp]. unfold from_stored, announcement. cbn. f_equal. f_equal. apply bool_decide_ext.
  split; intros He.
  - rewrite He in Hp. apply Permutation_nil, map_eq_nil in Hp. exact Hp.
  - rewrite He in Hp. cbn in Hp. by apply Permutation_nil_r in Hp.
Qed.

(** C13: mail shows up live. A client that follows a mailbox while a message is stored sees
    at most one event, whoever else the message goes to: the event of the message that
    arrived in this very inbox, with its identifier, sender, subject, time of arrival,
    whether it has attachments and the one-time code found in it. It sees none only when
    the inbox is unchanged, the save having failed before it or the message not being for
    it, or when the channel told it that it missed events. *)
Theorem live_mail_announced raw (w : World S) a items :
  mail_wf (w_st w) → NoDup (rcpts (w_sess w)) →
  let m := accepted_message config raw (mail_from (w_sess w)) in
  let w' := (store_message config raw w).2 in
  receives (sent_since (EventBus_subscribe (w_bus w)) (w_bus w')) items →
  match sse_stream a items with
  | [] => mail (w_st w').1 a = mail (w_st w).1 a ∨ ∃ missed, Err missed ∈ items
  | [ev] => ∃ n, arrived m a (w_st w) (w_st w') n ∧ ev = announcement a n
  | _ => False
  end.
Proof.
  intros Hw Hnd. cbn zeta. destruct (store_message_events config raw w Hw Hnd) as (_ & saved & Hout & Hin & -> & Hl & _).
  unfold sent_since, EventBus_subscribe. rewrite drop_app_length. intros [Hsub Hall]%(sse_stream_receives a).
  destruct (events_of_address a _ saved Hnd Hl) as [[He Ha]|(i & stored & Hi & Hs & He)]; rewrite He in Hsub, Hall.
  - apply sublist_nil_r in Hsub as ->. left. by apply Hout.
  - destruct (decide (sse_stream a items = [])) as [Hnil|Hne].
    + rewrite Hnil in *. right. destruct (decide (Exists (λ x, item_event x = None) items)) as [Hx|Hx].
      * apply Exists_exists in Hx as ([ev|k] & Hk & Hn); [done|]. by exists k.
      * exfalso. discriminate Hall. intros k Hk. apply Hx, Exists_exists. by exists (Err k).
    + destruct (sse_stream a items) as [|ev l]; [done|].
      inversion Hsub as [|? ? ? Hn|? ? ? Hn]; subst; apply sublist_nil_r in Hn; [|done]. subst.
      destruct (Hin i a stored Hi Hs) as (n & Harr & Hsh). exists n. split; [done|].
      by apply from_stored_announces.
Qed.
End live.

(** ** A concrete run *)

#[local] Existing Instances demo_parser reference_engine.

Definition demo_storing : World MemoryStore := (store_message Config_default (lit "hi" ++ crlf) demo_receiving).2.
Definition demo_items : list (result MailEvent Z) :=
  map Ok (sent_since (EventBus_subscribe (w_bus demo_receiving)) (w_bus demo_storing)).

Lemma live_mail_announced_witness :
  ∃ ev n, sse_stream demo_box demo_items = [ev] ∧ ev = announcement demo_box n ∧
    arrived (accepted_message Config_default (lit "hi" ++ crlf) (Some (lit "s@y.io"))) demo_box
      (w_st demo_receiving) (w_st demo_storing) n.
Proof.
  assert (receives (sent_since (EventBus_subscribe (w_bus demo_receiving)) (w_bus demo_storing)) demo_items) as Hr.
  { unfold demo_items. induction (sent_since _ _); by constructor. }
  pose proof (live_mail_announced Config_default (lit "hi" ++ crlf) demo_receiving demo_box demo_items
    demo_receiving_wf ltac:(apply NoDup_singleton) Hr) as Hl.
  assert (length (sse_stream demo_box demo_items) = 1%nat) as Hlen by (vm_compute; reflexivity).
  destruct (sse_stream demo_box demo_items) as [|ev [|]]; try discriminate Hlen.
  destruct Hl as (n & Ha & He). exists ev, n. split; [reflexivity|]. split; [exact He|exact Ha].
Defined.
