(* ===== verification/ApiRouter.v ===== *)
(** * ApiRouter: routes, middleware and the service endpoints ([src/api/mod.rs])

    The application state, the router with its layers, the probes and the rendering of
    errors; with the routes of [src/api/docs.rs] and [src/api/legal.rs]. The router of the
    [axum] crate, the rate limiter of [tower_governor] and the header type are third-party
    code: classes that state what their documentation promises. Building a router panics
    in the cases those libraries name, so it is a partial function. *)

From S2P Require Import Prelude Str Model Config StoreSpec CustomDomains Limits Attest Api.
From S2P Require Import ApiDownloads.

(** ** Routes *)

Inductive Method := GET | POST | DELETE.
#[global] Instance Method_eq_dec : EqDecision Method.
Proof. solve_decision. Defined.

(** The handlers the routes name, by module and function. *)
Inductive Handler :=
| h_health | h_ready | h_capabilities
| addresses_list_domains | addresses_create | addresses_get | addresses_delete
| addresses_extend | addresses_rotate
| messages_list | messages_clear | messages_get | messages_delete | messages_mark_read
| messages_get_raw | messages_get_attachment
| push_config | push_vapid_public_key | push_subscribe | push_unsubscribe
| custom_domains_create | custom_domains_get | custom_domains_delete | custom_domains_verify
| entitlements_verify | client_challenge | client_attest | client_assert
| sse_events | docs_docs | docs_openapi | legal_tos | legal_privacy | legal_support.
#[global] Instance Handler_eq_dec : EqDecision Handler.
Proof. solve_decision. Defined.

Inductive KeyExtractor := SmartIpKeyExtractor | PeerIpKeyExtractor.

(** [CorsLayer] as the source configures it: any header, and these methods and origins. *)
Inductive AllowOrigin := AnyOrigin | OriginList (l : list str).
Record CorsLayer := mkCorsLayer { allow_methods : list Method; allow_origin : AllowOrigin }.

(** The layers; a governor is what its builder was given, a timeout answers 408. *)
Inductive Layer :=
| GovernorLayer (key : KeyExtractor) (period : Z) (burst : Z)
| TimeoutLayer (status : Z) (timeout : Z)
| TraceLayer
| Cors (c : CorsLayer).

(** A route with its layers, the outermost first. *)
Record Endpoint := mkEndpoint {
  ep_path : str;
  ep_method : Method;
  ep_handler : Handler;
  ep_layers : list Layer;
}.
Definition add_layer (l : Layer) (e : Endpoint) : Endpoint :=
  mkEndpoint (ep_path e) (ep_method e) (ep_handler e) (l :: ep_layers e).
Definition on_path (path : str) (ms : list (Method * Handler)) : list Endpoint :=
  map (λ x, mkEndpoint path x.1 x.2 []) ms.

(** Two paths that cannot overlap: they part at a segment, literal against literal or
    literal against parameter, or one is longer; parameters in the same place must have
    the same name. *)
Definition is_param (segment : str) : bool := match segment with c :: _ => c =? 123 | [] => false end.
Fixpoint part (p q : list str) : bool :=
  match p, q with
  | [], [] => false
  | [], _ :: _ | _ :: _, [] => true
  | s :: p, t :: q =>
      if bool_decide (s = t) then part p q else negb (is_param s && is_param t)
  end.
Definition compatible (p q : str) : bool := part (split 47 p) (split 47 q).

(** [axum::Router]: [route] and [merge] panic ([None]) on overlapping routes; [layer] wraps
    the routes added so far. *)
Class Axum (R : Type) := {
  Router_new : R;
  route : str → list (Method * Handler) → R → option R;
  merge : R → R → option R;
  layer : Layer → R → R;
  endpoints : R → list Endpoint;
  endpoints_new : endpoints Router_new = [];
  endpoints_route path ms r :
    forallb (λ e, compatible path (ep_path e)) (endpoints r) = true → NoDup (map fst ms) →
    ∃ r', route path ms r = Some r' ∧ endpoints r' = endpoints r ++ on_path path ms;
  endpoints_merge r1 r2 :
    forallb (λ e, forallb (λ f, compatible (ep_path f) (ep_path e)) (endpoints r2)) (endpoints r1) = true →
    ∃ r', merge r1 r2 = Some r' ∧ endpoints r' = endpoints r1 ++ endpoints r2;
  endpoints_layer l r : endpoints (layer l r) = map (add_layer l) (endpoints r);
}.

(** [GovernorConfigBuilder::finish]: [None] when the burst or the period is zero. *)
Class Governor := {
  governor_finish : KeyExtractor → Z → Z → bool;
  governor_finish_spec key period burst :
    0 ≤ period → 0 ≤ burst → governor_finish key period burst = bool_decide (0 < period ∧ 0 < burst);
}.

Section router.
Context {R : Type} `{Axum R} `{Governor} `{HeaderValue}.

(** [governor_layer]: the [expect] on the builder panics. *)
Definition governor_layer (key_extractor : KeyExtractor) (period burst : Z) : option Layer :=
  if governor_finish key_extractor period burst then Some (GovernorLayer key_extractor period burst)
  else None.

Definition build_cors (config : Config) : CorsLayer :=
  let methods := [GET; POST; DELETE] in
  if cors_allow_any config then mkCorsLayer methods AnyOrigin
  else mkCorsLayer methods (OriginList (omap header_from_str (cors_allowed_origins config))).

(** [docs::router], [legal::router]. *)
Definition docs_router : option R :=
  r ← route (lit "/docs") [(GET, docs_docs)] Router_new;
  route (lit "/openapi.json") [(GET, docs_openapi)] r.
Definition legal_router : option R :=
  r ← route (lit "/tos") [(GET, legal_tos)] Router_new;
  r ← route (lit "/privacy") [(GET, legal_privacy)] r;
  route (lit "/support") [(GET, legal_support)] r.

Definition when (b : bool) (f : R → option R) (r : R) : option R := if b then f r else Some r.

(** Durations are in nanoseconds; [Duration::from_millis] of an integer quotient. *)
Definition millis (n : Z) : Z := n * 1000000.
Definition create_period (config : Config) : Z :=
  millis (60000 / Z.max (create_rate_limit_per_minute config) 1).
Definition general_period (config : Config) : Z :=
  millis (1000 / Z.max (api_rate_limit_per_second config) 1).
Definition create_limited (config : Config) : bool :=
  bool_decide (0 < create_rate_limit_per_minute config) && bool_decide (0 < create_rate_limit_burst config).
Definition general_limited (config : Config) : bool :=
  bool_decide (0 < api_rate_limit_per_second config) && bool_decide (0 < api_rate_limit_burst config).

(** The routes under the stricter budget. *)
Definition create_route (config : Config) (key_extractor : KeyExtractor) : option R :=
  r ← route (lit "/api/addresses") [(POST, addresses_create)] Router_new;
  r ← route (lit "/api/entitlements/verify") [(POST, entitlements_verify)] r;
  r ← route (lit "/api/client/challenge") [(POST, client_challenge)] r;
  r ← route (lit "/api/client/attest") [(POST, client_attest)] r;
  r ← route (lit "/api/client/assert") [(POST, client_assert)] r;
  r ← when (custom_domains_enabled config)
        (route (lit "/api/custom-domains") [(POST, custom_domains_create)]) r;
  when (create_limited config)
    (λ r, l ← governor_layer key_extractor (create_period config) (create_rate_limit_burst config);
          Some (layer l r)) r.

(** The routes of a mailbox, its messages and its subscriptions. *)
Definition mailbox_routes : option R :=
  r ← route (lit "/healthz") [(GET, h_health)] Router_new;
  r ← route (lit "/readyz") [(GET, h_ready)] r;
  r ← route (lit "/api/capabilities") [(GET, h_capabilities)] r;
  r ← route (lit "/api/domains") [(GET, addresses_list_domains)] r;
  r ← route (lit "/api/addresses/{address}") [(GET, addresses_get); (DELETE, addresses_delete)] r;
  r ← route (lit "/api/addresses/{address}/extend") [(POST, addresses_extend)] r;
  r ← route (lit "/api/addresses/{address}/rotate") [(POST, addresses_rotate)] r;
  r ← route (lit "/api/addresses/{address}/messages") [(GET, messages_list); (DELETE, messages_clear)] r;
  r ← route (lit "/api/addresses/{address}/messages/{id}") [(GET, messages_get); (DELETE, messages_delete)] r;
  r ← route (lit "/api/addresses/{address}/messages/{id}/read") [(POST, messages_mark_read)] r;
  r ← route (lit "/api/addresses/{address}/messages/{id}/raw") [(GET, messages_get_raw)] r;
  r ← route (lit "/api/addresses/{address}/messages/{id}/attachments/{attachment_id}")
        [(GET, messages_get_attachment)] r;
  r ← route (lit "/api/push/config") [(GET, push_config)] r;
  r ← route (lit "/api/push/vapid-public-key") [(GET, push_vapid_public_key)] r;
  route (lit "/api/addresses/{address}/subscriptions")
    [(POST, push_subscribe); (DELETE, push_unsubscribe)] r.

Definition custom_domain_routes (r : R) : option R :=
  r ← route (lit "/api/custom-domains/{domain}")
        [(GET, custom_domains_get); (DELETE, custom_domains_delete)] r;
  route (lit "/api/custom-domains/{domain}/verify") [(POST, custom_domains_verify)] r.

(** Everything but the event stream, under the request timeout. *)
Definition non_sse (config : Config) (key_extractor : KeyExtractor) : option R :=
  create ← create_route config key_extractor;
  r ← mailbox_routes;
  r ← merge r create;
  r ← when (custom_domains_enabled config) custom_domain_routes r;
  r ← when (api_docs_enabled config) (λ r, d ← docs_router; merge r d) r;
  r ← when (legal_pages_enabled config) (λ r, d ← legal_router; merge r d) r;
  when (negb (bool_decide (api_request_timeout config = 0)))
    (λ r, Some (layer (TimeoutLayer 408 (api_request_timeout config)) r)) r.

Definition build_router (config : Config) (key_extractor : KeyExtractor) : option R :=
  let cors := build_cors config in
  r ← non_sse config key_extractor;
  sse_route ← route (lit "/api/addresses/{address}/events") [(GET, sse_events)] Router_new;
  app ← merge r sse_route;
  app ← when (general_limited config)
          (λ r, l ← governor_layer key_extractor (general_period config) (api_rate_limit_burst config);
                Some (layer l r)) app;
  Some (layer (Cors cors) (layer TraceLayer app)).

Definition router (config : Config) : option R :=
  if api_trust_proxy_headers config then build_router config SmartIpKeyExtractor
  else build_router config PeerIpKeyExtractor.
End router.

(** ** Responses *)

(** [serde_json::Value]. *)
Inductive Json :=
| JNull
| JBool (b : bool)
| JNumber (n : Z)
| JString (s : str)
| JArray (l : list Json)
| JObject (l : list (str * Json)).

Record Response := mkResponse {
  rs_status : Z;
  rs_headers : list (str * str);
  rs_body : Json;
}.
(** [HeaderMap::insert]: the value replaces those of the same name. *)
Definition header_insert (name value : str) (h : list (str * str)) : list (str * str) :=
  retain (λ x, negb (bool_decide (x.1 = name))) h ++ [(name, value)].
(** [HeaderMap::extend] with a map of one value per name. *)
Definition header_extend (new h : list (str * str)) : list (str * str) :=
  foldl (λ h x, header_insert x.1 x.2 h) h new.
(** [(status, Json(body)).into_response()]. *)
Definition json_response (status : Z) (body : Json) : Response :=
  mkResponse status [(lit "content-type", lit "application/json")] body.
Definition error_body (m : str) : Json := JObject [(lit "error", JString m)].

Definition into_response (e : ApiError) : Response :=
  match e with
  | NotFound m => json_response 404 (error_body m)
  | Conflict m => json_response 409 (error_body m)
  | BadRequest m => json_response 400 (error_body m)
  | Unauthorized m =>
      let response := json_response 401 (error_body m) in
      mkResponse (rs_status response)
        (header_insert (lit "www-authenticate") (lit "Bearer") (rs_headers response)) (rs_body response)
  | TooManyRequests m => json_response 429 (error_body m)
  | ServiceUnavailable m => json_response 503 (error_body m)
  | Coded status code message =>
      json_response status (JObject [(lit "error", JString message); (lit "code", JString code)])
  | Internal _ => json_response 500 (error_body (lit "internal server error"))
  end.

Inductive GovernorError :=
| GTooManyRequests (wait_time : Z) (headers : option (list (str * str)))
| UnableToExtractKey
| GOther (code : Z) (msg : option str) (headers : option (list (str * str))).

Section responses.
Context `{HeaderValue}.

Definition governor_error_response (e : GovernorError) : Response :=
  match e with
  | GTooManyRequests wait_time headers =>
      let response := json_response 429
        (error_body (lit "rate limit exceeded, retry in " ++ fmt_int wait_time ++ lit "s")) in
      let h := match header_from_str (fmt_int wait_time) with
               | Some value => header_insert (lit "retry-after") value (rs_headers response)
               | None => rs_headers response
               end in
      mkResponse (rs_status response) (header_extend (default [] headers) h) (rs_body response)
  | UnableToExtractKey => json_response 500 (error_body (lit "could not determine client address"))
  | GOther code msg headers =>
      let response := json_response code (error_body (default (lit "request rejected") msg)) in
      mkResponse (rs_status response) (header_extend (default [] headers) (rs_headers response))
        (rs_body response)
  end.
End responses.

(** ** Service endpoints *)

Definition health : Response := json_response 200 (JObject [(lit "status", JString (lit "ok"))]).

(** A [TierPolicy] as serde writes it. *)
Definition tier_json (t : TierPolicy) : Json :=
  JObject [(lit "active_mailboxes", JNumber (active_mailboxes t));
           (lit "max_lifetime_seconds", JNumber (max_lifetime_seconds t));
           (lit "custom_local_parts", JBool (custom_local_parts t));
           (lit "domain_count", JNumber (domain_count t));
           (lit "custom_domains", JBool (custom_domains t))].

Definition capabilities (config : Config) : Response :=
  json_response 200 (JObject
    [(lit "apns_push", JBool (apns_configured config));
     (lit "web_push", JBool (push_configured config));
     (lit "custom_domains", JBool (custom_domains_enabled config));
     (lit "attestation", JObject
        [(lit "supported", JBool (app_attest_configured config));
         (lit "required", JBool (client_attestation_required config))]);
     (lit "entitlements", JObject
        [(lit "enforced", JBool (entitlements_enforced config));
         (lit "free", tier_json (free_tier config));
         (lit "pro", tier_json (pro_tier config))])]).

Definition ready {S} `{Store S} : M (App S) ApiError Response :=
  r ← store_try ping;
  match r with
  | Err _ => throw (ServiceUnavailable (lit "store unavailable"))
  | Ok _ => mret (json_response 200 (JObject [(lit "status", JString (lit "ready"))]))
  end.

(** [AppState::new]: the world of the handlers and the purchase verifier, if any;
    [verifier] is [RevenueCatVerifier::new], which builds an HTTP client. *)
Definition AppState_new {S V} (st : S * Env) (config : Config)
    (verifier : str → str → result V anyhow) : App S * option V :=
  (mkApp st (from_config config) ChallengeStore_default,
   match revenuecat_secret_key config with
   | Some key =>
       match verifier key (revenuecat_entitlement_id config) with
       | Ok v => Some v
       | Err _ => None
       end
   | None => None
   end).

(** ** What a router must serve *)

(** The operations of [openapi.json], in its order: the identifier, the method, the path. *)
Definition openapi_operations : list (str * (Method * str)) :=
  [(lit "healthCheck", (GET, lit "/healthz"));
   (lit "readinessCheck", (GET, lit "/readyz"));
   (lit "getCapabilities", (GET, lit "/api/capabilities"));
   (lit "listDomains", (GET, lit "/api/domains"));
   (lit "createAddress", (POST, lit "/api/addresses"));
   (lit "getMailbox", (GET, lit "/api/addresses/{address}"));
   (lit "deleteMailbox", (DELETE, lit "/api/addresses/{address}"));
   (lit "extendMailbox", (POST, lit "/api/addresses/{address}/extend"));
   (lit "rotateOwnerToken", (POST, lit "/api/addresses/{address}/rotate"));
   (lit "listMessages", (GET, lit "/api/addresses/{address}/messages"));
   (lit "clearInbox", (DELETE, lit "/api/addresses/{address}/messages"));
   (lit "getMessage", (GET, lit "/api/addresses/{address}/messages/{id}"));
   (lit "deleteMessage", (DELETE, lit "/api/addresses/{address}/messages/{id}"));
   (lit "markMessageRead", (POST, lit "/api/addresses/{address}/messages/{id}/read"));
   (lit "getRawMessage", (GET, lit "/api/addresses/{address}/messages/{id}/raw"));
   (lit "getAttachment", (GET, lit "/api/addresses/{address}/messages/{id}/attachments/{attachment_id}"));
   (lit "getPushConfig", (GET, lit "/api/push/config"));
   (lit "getVapidPublicKey", (GET, lit "/api/push/vapid-public-key"));
   (lit "subscribePush", (POST, lit "/api/addresses/{address}/subscriptions"));
   (lit "unsubscribePush", (DELETE, lit "/api/addresses/{address}/subscriptions"));
   (lit "createCustomDomain", (POST, lit "/api/custom-domains"));
   (lit "getCustomDomain", (GET, lit "/api/custom-domains/{domain}"));
   (lit "deleteCustomDomain", (DELETE, lit "/api/custom-domains/{domain}"));
   (lit "verifyCustomDomain", (POST, lit "/api/custom-domains/{domain}/verify"));
   (lit "streamEvents", (GET, lit "/api/addresses/{address}/events"));
   (lit "verifyEntitlements", (POST, lit "/api/entitlements/verify"));
   (lit "clientChallenge", (POST, lit "/api/client/challenge"));
   (lit "clientAttest", (POST, lit "/api/client/attest"));
   (lit "clientAssert", (POST, lit "/api/client/assert"))].

(** The handlers that depend on a switch of the configuration. *)
Definition enabled_with (domains docs legal : bool) (h : Handler) : bool :=
  match h with
  | custom_domains_create | custom_domains_get | custom_domains_delete | custom_domains_verify => domains
  | docs_docs | docs_openapi => docs
  | legal_tos | legal_privacy | legal_support => legal
  | _ => true
  end.
Definition enabled (config : Config) : Handler → bool :=
  enabled_with (custom_domains_enabled config) (api_docs_enabled config) (legal_pages_enabled config).
(** The page a handler answers with, by its address; these stand outside the documented
    interface. *)
Definition page_path (h : Handler) : option str :=
  match h with
  | docs_docs => Some (lit "/docs")
  | docs_openapi => Some (lit "/openapi.json")
  | legal_tos => Some (lit "/tos")
  | legal_privacy => Some (lit "/privacy")
  | legal_support => Some (lit "/support")
  | _ => None
  end.
Definition page (h : Handler) : bool := match page_path h with Some _ => true | None => false end.
(** The documented operation each handler carries out, by its identifier in
    [openapi.json]; a page carries out none. *)
Definition operation_id (h : Handler) : option str :=
  match h with
  | h_health => Some (lit "healthCheck")
  | h_ready => Some (lit "readinessCheck")
  | h_capabilities => Some (lit "getCapabilities")
  | addresses_list_domains => Some (lit "listDomains")
  | addresses_create => Some (lit "createAddress")
  | addresses_get => Some (lit "getMailbox")
  | addresses_delete => Some (lit "deleteMailbox")
  | addresses_extend => Some (lit "extendMailbox")
  | addresses_rotate => Some (lit "rotateOwnerToken")
  | messages_list => Some (lit "listMessages")
  | messages_clear => Some (lit "clearInbox")
  | messages_get => Some (lit "getMessage")
  | messages_delete => Some (lit "deleteMessage")
  | messages_mark_read => Some (lit "markMessageRead")
  | messages_get_raw => Some (lit "getRawMessage")
  | messages_get_attachment => Some (lit "getAttachment")
  | push_config => Some (lit "getPushConfig")
  | push_vapid_public_key => Some (lit "getVapidPublicKey")
  | push_subscribe => Some (lit "subscribePush")
  | push_unsubscribe => Some (lit "unsubscribePush")
  | custom_domains_create => Some (lit "createCustomDomain")
  | custom_domains_get => Some (lit "getCustomDomain")
  | custom_domains_delete => Some (lit "deleteCustomDomain")
  | custom_domains_verify => Some (lit "verifyCustomDomain")
  | entitlements_verify => Some (lit "verifyEntitlements")
  | client_challenge => Some (lit "clientChallenge")
  | client_attest => Some (lit "clientAttest")
  | client_assert => Some (lit "clientAssert")
  | sse_events => Some (lit "streamEvents")
  | docs_docs | docs_openapi | legal_tos | legal_privacy | legal_support => None
  end.
(** The handlers under the stricter budget. *)
Definition strict (h : Handler) : bool :=
  match h with
  | addresses_create | entitlements_verify | client_challenge | client_attest | client_assert
  | custom_domains_create => true
  | _ => false
  end.
Definition key_of (config : Config) : KeyExtractor :=
  if api_trust_proxy_headers config then SmartIpKeyExtractor else PeerIpKeyExtractor.

Definition create_layers (config : Config) : list Layer :=
  if create_limited config
  then [GovernorLayer (key_of config) (create_period config) (create_rate_limit_burst config)] else [].
Definition timeout_layers (config : Config) : list Layer :=
  if bool_decide (api_request_timeout config = 0) then []
  else [TimeoutLayer 408 (api_request_timeout config)].
Definition general_layers (config : Config) : list Layer :=
  if general_limited config
  then [GovernorLayer (key_of config) (general_period config) (api_rate_limit_burst config)] else [].

(** What a request meets before the handler, outermost first. *)
Definition layers_with (cors : CorsLayer) (general timeout create : list Layer) (h : Handler) : list Layer :=
  [Cors cors; TraceLayer] ++ general ++ (if bool_decide (h = sse_events) then [] else timeout) ++
  (if strict h then create else []).
Definition layers_of `{HeaderValue} (config : Config) : Handler → list Layer :=
  layers_with (build_cors config) (general_layers config) (timeout_layers config) (create_layers config).

(** The rates whose period is not rounded down to nothing. *)
Definition rates_fit (config : Config) : Prop :=
  (create_limited config = true → create_rate_limit_per_minute config ≤ 60000) ∧
  (general_limited config = true → api_rate_limit_per_second config ≤ 1000).
#[global] Instance rates_fit_dec config : Decision (rates_fit config).
Proof. apply _. Defined.

(** ** A reference router: the list of its endpoints *)

Definition list_route (path : str) (ms : list (Method * Handler)) (r : list Endpoint) : option (list Endpoint) :=
  if forallb (λ e, compatible path (ep_path e)) r && bool_decide (NoDup (map fst ms))
  then Some (r ++ on_path path ms) else None.
Definition list_merge (r1 r2 : list Endpoint) : option (list Endpoint) :=
  if forallb (λ e, forallb (λ f, compatible (ep_path f) (ep_path e)) r2) r1 then Some (r1 ++ r2) else None.

#[refine, global] Instance ListRouter : Axum (list Endpoint) := {|
  Router_new := [];
  route := list_route;
  merge := list_merge;
  layer l := map (add_layer l);
  endpoints r := r;
|}.
Proof.
  - done.
  - intros path ms r Hc Hn. exists (r ++ on_path path ms). unfold list_route.
    by rewrite Hc, bool_decide_true.
  - intros r1 r2 Hc. exists (r1 ++ r2). unfold list_merge. by rewrite Hc.
  - done.
Defined.

(** Any router library that keeps its promises builds what the reference builds. *)
Section simulation.
Context {R : Type} `{Axum R}.

Definition sim (x : option (list Endpoint)) (y : option R) : Prop :=
  ∀ l, x = Some l → ∃ r, y = Some r ∧ endpoints r = l.

Lemma sim_ret l r : endpoints r = l → sim (Some l) (Some r).
Proof. intros ? ? [= <-]. eauto. Qed.
Lemma sim_bind x y f g :
  sim x y → (∀ l r, endpoints r = l → sim (f l) (g r)) → sim (x ≫= f) (y ≫= g).
Proof.
  intros Hxy Hfg l (l1 & Hx & Hf)%bind_Some. destruct (Hxy l1 Hx) as (r1 & -> & Hr).
  exact (Hfg l1 r1 Hr l Hf).
Qed.
Lemma sim_route path ms l r : endpoints r = l → sim (route path ms l) (route path ms r).
Proof.
  intros <- l' Hl. cbn in Hl. unfold list_route in Hl.
  destruct (forallb _ _) eqn:Hc; [|done]. cbn in Hl. case_bool_decide as Hn; [|done].
  injection Hl as <-. destruct (endpoints_route path ms r Hc Hn) as (r' & -> & ?). eauto.
Qed.
Lemma sim_merge l1 r1 l2 r2 :
  endpoints r1 = l1 → endpoints r2 = l2 → sim (merge l1 l2) (merge r1 r2).
Proof.
  intros <- <- l' Hl. cbn in Hl. unfold list_merge in Hl. destruct (forallb _ _) eqn:Hc; [|done].
  injection Hl as <-. destruct (endpoints_merge r1 r2 Hc) as (r' & -> & ?). eauto.
Qed.
Lemma sim_when b f g l r :
  (∀ l r, endpoints r = l → sim (f l) (g r)) → endpoints r = l → sim (when b f l) (when b g r).
Proof. intros ? ?. destruct b; cbn; [auto|by apply sim_ret]. Qed.
Lemma sim_layer la l r : endpoints r = l → endpoints (layer la r) = layer la l.
Proof. intros <-. apply endpoints_layer. Qed.
Lemma sim_governor key p b l r `{Governor} :
  endpoints r = l →
  sim (la ← governor_layer key p b; Some (layer la l)) (la ← governor_layer key p b; Some (layer la r)).
Proof. intros Hl. destruct (governor_layer key p b); cbn; [apply sim_ret; by apply sim_layer|done]. Qed.
End simulation.

Create HintDb router.
#[export] Hint Resolve sim_ret sim_route sim_merge sim_layer sim_governor endpoints_new : router.

Ltac sim :=
  repeat first
    [ progress intros
    | apply sim_when; [|solve [auto with router]]
    | solve [auto with router]
    | apply sim_bind; [solve [auto with router] || sim|] ].

Section built.
Context {R : Type} `{Axum R} `{Governor} `{HeaderValue}.
Lemma sim_create config key :
  sim (create_route config key) (create_route (R:=R) config key).
Proof. unfold create_route. sim. Qed.
Lemma sim_mailbox : sim mailbox_routes (mailbox_routes (R:=R)).
Proof. unfold mailbox_routes. sim. Qed.
Lemma sim_domains l (r : R) : endpoints r = l → sim (custom_domain_routes l) (custom_domain_routes r).
Proof. unfold custom_domain_routes. sim. Qed.
Lemma sim_docs : sim docs_router (docs_router (R:=R)).
Proof. unfold docs_router. sim. Qed.
Lemma sim_legal : sim legal_router (legal_router (R:=R)).
Proof. unfold legal_router. sim. Qed.
#[local] Hint Resolve sim_create sim_mailbox sim_domains sim_docs sim_legal : router.
Lemma sim_non_sse config key : sim (non_sse config key) (non_sse (R:=R) config key).
Proof. unfold non_sse. sim. Qed.
#[local] Hint Resolve sim_non_sse : router.
Lemma sim_build config key : sim (build_router config key) (build_router (R:=R) config key).
Proof. unfold build_router. cbn zeta. sim. Qed.
End built.

(** ** What the reference builds *)

Section reference.
Context `{Governor} `{HeaderValue}.

Definition stack (ls : list Layer) (e : Endpoint) : Endpoint :=
  mkEndpoint (ep_path e) (ep_method e) (ep_handler e) (ls ++ ep_layers e).
Definition operation (e : Endpoint) : Method * str := (ep_method e, ep_path e).

Lemma map_add_layer la l : map (add_layer la) l = map (stack [la]) l.
Proof. by apply map_ext. Qed.
Lemma map_stack_nil l : map (stack []) l = l.
Proof. rewrite <-(map_id l) at 2. apply map_ext. by intros []. Qed.

Lemma when_layer b la (l : list Endpoint) :
  when b (λ r, Some (layer la r)) l = Some (map (stack (if b then [la] else [])) l).
Proof. destruct b; cbn; [by rewrite map_add_layer|by rewrite map_stack_nil]. Qed.
Lemma when_governor b key p n (l : list Endpoint) :
  (b = true → 0 < p ∧ 0 < n) →
  when b (λ r, la ← governor_layer key p n; Some (layer la r)) l
  = Some (map (stack (if b then [GovernorLayer key p n] else [])) l).
Proof.
  intros Hb. destruct b; cbn; [|by rewrite map_stack_nil].
  unfold governor_layer. rewrite governor_finish_spec, bool_decide_true by intuition lia.
  cbn. by rewrite map_add_layer.
Qed.

Lemma create_period_pos config :
  create_limited config = true → create_rate_limit_per_minute config ≤ 60000 ↔ 0 < create_period config.
Proof.
  unfold create_limited, create_period, millis. rewrite andb_true_iff, !bool_decide_eq_true. intros [Hp _].
  rewrite Z.max_l by lia. split; intros Hr.
  - assert (0 < 60000 / create_rate_limit_per_minute config) by (apply Z.div_str_pos; lia). lia.
  - destruct (decide (create_rate_limit_per_minute config ≤ 60000)); [done|]. rewrite Z.div_small in Hr; lia.
Qed.
Lemma general_period_pos config :
  general_limited config = true → api_rate_limit_per_second config ≤ 1000 ↔ 0 < general_period config.
Proof.
  unfold general_limited, general_period, millis. rewrite andb_true_iff, !bool_decide_eq_true. intros [Hp _].
  rewrite Z.max_l by lia. split; intros Hr.
  - assert (0 < 1000 / api_rate_limit_per_second config) by (apply Z.div_str_pos; lia). lia.
  - destruct (decide (api_rate_limit_per_second config ≤ 1000)); [done|]. rewrite Z.div_small in Hr; lia.
Qed.

(** What is asked of the endpoints: these layers on each, no method twice on a path,
    exactly the handlers switched on, each page at its own path, and outside the pages
    exactly the documented operations, each answered by the handler that carries it out. *)
Record serves (layers : Handler → list Layer) (on : Handler → bool) (domains : bool)
    (l : list Endpoint) : Prop := {
  serves_layers e : e ∈ l → ep_layers e = layers (ep_handler e);
  serves_once : NoDup (map operation l);
  serves_enabled h : h ∈ map ep_handler l ↔ on h = true;
  serves_pages e path : e ∈ l → page_path (ep_handler e) = Some path → operation e = (GET, path);
  serves_documented :
    Permutation
      (map (λ e, (operation_id (ep_handler e), operation e)) (retain (λ e, negb (page (ep_handler e))) l))
      (map (prod_map Some id)
        (retain (λ x, domains || negb (starts_with (lit "/api/custom-domains") x.2.2)) openapi_operations));
}.

Lemma layers_with_stack cors gl tl cl h :
  layers_with cors gl tl cl h =
  [Cors cors; TraceLayer] ++ gl ++ (if bool_decide (h = sse_events) then [] else tl ++ (if strict h then cl ++ [] else [])).
Proof. unfold layers_with. case_bool_decide as Hh; [by subst|]. by destruct (strict h); rewrite ?app_nil_r. Qed.

Definition all_handlers : list Handler :=
  [h_health; h_ready; h_capabilities; addresses_list_domains; addresses_create; addresses_get;
   addresses_delete; addresses_extend; addresses_rotate; messages_list; messages_clear; messages_get;
   messages_delete; messages_mark_read; messages_get_raw; messages_get_attachment; push_config;
   push_vapid_public_key; push_subscribe; push_unsubscribe; custom_domains_create; custom_domains_get;
   custom_domains_delete; custom_domains_verify; entitlements_verify; client_challenge; client_attest;
   client_assert; sse_events; docs_docs; docs_openapi; legal_tos; legal_privacy; legal_support].
Lemma handlers_on (l : list Handler) on :
  forallb (λ h, bool_decide (h ∈ l ↔ on h = true)) all_handlers = true → ∀ h, h ∈ l ↔ on h = true.
Proof.
  intros Hl h. assert (h ∈ all_handlers) as Hh by (destruct h; repeat constructor).
  rewrite forallb_forall in Hl. apply list_elem_of_In, Hl in Hh. by apply bool_decide_eq_true in Hh.
Qed.
Lemma pages_at (l : list Endpoint) :
  forallb (λ e, match page_path (ep_handler e) with
                | Some path => bool_decide (operation e = (GET, path))
                | None => true
                end) l = true →
  ∀ e path, e ∈ l → page_path (ep_handler e) = Some path → operation e = (GET, path).
Proof.
  rewrite forallb_forall. intros Hl e path He%list_elem_of_In%Hl Hp. rewrite Hp in He.
  by apply bool_decide_eq_true in He.
Qed.
End reference.

Section evaluation.
Context `{Governor} `{HeaderValue}.

(** The three conditional layers, as functions of the routes so far. *)
Definition create_step (config : Config) : list Endpoint → option (list Endpoint) :=
  when (create_limited config) (λ r,
    la ← governor_layer (key_of config) (create_period config) (create_rate_limit_burst config);
    Some (layer la r)).
Definition timeout_step (config : Config) : list Endpoint → option (list Endpoint) :=
  when (negb (bool_decide (api_request_timeout config = 0)))
    (λ r, Some (layer (TimeoutLayer 408 (api_request_timeout config)) r)).
Definition general_step (config : Config) : list Endpoint → option (list Endpoint) :=
  when (general_limited config) (λ r,
    la ← governor_layer (key_of config) (general_period config) (api_rate_limit_burst config);
    Some (layer la r)).

Lemma create_step_stack config l :
  rates_fit config → create_step config l = Some (map (stack (create_layers config)) l).
Proof.
  intros [Hc _]. apply when_governor. intros Hl. split; [by apply create_period_pos; auto|].
  apply andb_true_iff in Hl as [_ Hl]. by apply bool_decide_eq_true in Hl.
Qed.
Lemma general_step_stack config l :
  rates_fit config → general_step config l = Some (map (stack (general_layers config)) l).
Proof.
  intros [_ Hg]. apply when_governor. intros Hl. split; [by apply general_period_pos; auto|].
  apply andb_true_iff in Hl as [_ Hl]. by apply bool_decide_eq_true in Hl.
Qed.
Lemma timeout_step_stack config l : timeout_step config l = Some (map (stack (timeout_layers config)) l).
Proof. unfold timeout_step, timeout_layers. rewrite when_layer. by case_bool_decide. Qed.

Lemma build_list config :
  rates_fit config → ∃ l, build_router (R:=list Endpoint) config (key_of config) = Some l ∧
    serves (layers_of config) (enabled config) (custom_domains_enabled config) l.
Proof.
  intros Hfit. unfold build_router, non_sse, create_route. cbn zeta.
  fold (create_step config) (timeout_step config) (general_step config).
  pose proof (λ l, create_step_stack config l Hfit) as HK1. pose proof (timeout_step_stack config) as HK2.
  pose proof (λ l, general_step_stack config l Hfit) as HK3. revert HK1 HK2 HK3. unfold layers_of, enabled.
  generalize (create_step config), (timeout_step config), (general_step config), (build_cors config),
    (general_layers config), (timeout_layers config), (create_layers config).
  intros K1 K2 K3 cors gl tl cl HK1 HK2 HK3.
  destruct (custom_domains_enabled config), (api_docs_enabled config), (legal_pages_enabled config);
    (eexists; split;
      [vm_compute; rewrite HK1; vm_compute; rewrite HK2; vm_compute; rewrite HK3; reflexivity|]).
  all: split;
    [apply Forall_forall; repeat apply Forall_cons_2; try apply Forall_nil_2; rewrite layers_with_stack; reflexivity
    |apply (bool_decide_unpack _); vm_compute; exact Logic.I
    |apply handlers_on; vm_compute; reflexivity
    |apply pages_at; vm_compute; reflexivity
    |apply (bool_decide_unpack _); vm_compute; exact Logic.I].
Qed.
End evaluation.

(** ** The guarantee *)

Section guarantee.
Context {R : Type} `{Axum R} `{Governor} `{HeaderValue}.

Lemma bind_to_none {A B} (m : option A) (f : A → option B) : (∀ a, f a = None) → m ≫= f = None.
Proof. intros Hf. destruct m; [apply Hf|done]. Qed.
Lemma governor_zero key p n : p ≤ 0 → 0 ≤ p → 0 ≤ n → governor_layer key p n = None.
Proof. intros. unfold governor_layer. rewrite governor_finish_spec, bool_decide_false by lia. done. Qed.

Lemma build_panics config key : ¬ rates_fit config → build_router (R:=R) config key = None.
Proof.
  intros Hn. destruct (decide (create_limited config = true ∧ 60000 < create_rate_limit_per_minute config)) as [[Hl Hr]|Hc].
  - assert (create_route (R:=R) config key = None) as Hnone.
    { unfold create_route. do 6 (apply bind_to_none; intros ?). rewrite Hl. cbn.
      pose proof (create_period_pos config Hl). rewrite governor_zero; [done|lia| |].
      - unfold create_period, millis. pose proof (Z.div_pos 60000 (Z.max (create_rate_limit_per_minute config) 1)). lia.
      - apply andb_true_iff in Hl as [_ Hl]. apply bool_decide_eq_true in Hl. lia. }
    unfold build_router, non_sse. by rewrite Hnone.
  - destruct (decide (general_limited config = true ∧ 1000 < api_rate_limit_per_second config)) as [[Hl Hr]|Hg].
    + unfold build_router. cbn zeta. do 3 (apply bind_to_none; intros ?). rewrite Hl. cbn.
      pose proof (general_period_pos config Hl). rewrite governor_zero; [done|lia| |].
      * unfold general_period, millis. pose proof (Z.div_pos 1000 (Z.max (api_rate_limit_per_second config) 1)). lia.
      * apply andb_true_iff in Hl as [_ Hl]. apply bool_decide_eq_true in Hl. lia.
    + destruct Hn. split; intros Hl.
      * destruct (decide (create_rate_limit_per_minute config ≤ 60000)); [done|]. destruct Hc. split; [done|lia].
      * destruct (decide (api_rate_limit_per_second config ≤ 1000)); [done|]. destruct Hg. split; [done|lia].
Qed.
Lemma router_total config :
  (rates_fit config → ∃ r, router (R:=R) config = Some r ∧
     serves (layers_of config) (enabled config) (custom_domains_enabled config) (endpoints r)) ∧
  (¬ rates_fit config → router (R:=R) config = None).
Proof.
  split; unfold router.
  - intros Hfit. destruct (build_list config Hfit) as (l & Hl & Hs). apply (sim_build (R:=R)) in Hl as (r & Hr & <-).
    exists r. split; [|done]. rewrite <-Hr. unfold key_of. by destruct (api_trust_proxy_headers config).
  - intros Hn. destruct (api_trust_proxy_headers config); by apply build_panics.
Qed.
End guarantee.

(** C29: the router the server is built with. Whatever the router library, with rates that
    do not round to a zero period the router builds, with no overlapping routes; exactly the
    handlers switched on are reachable; each documented operation (less the custom-domain
    ones when that feature is off) is at its documented method and path, once, and is
    answered by the handler that carries it out, and nothing else is served but the pages
    switched on, each at its own path; every request passes CORS, tracing and the general
    limit, then the timeout unless it opens an event stream, and the stricter budget
    exactly where mailboxes, domains, tokens or challenges are created. With a general rate
    above 1000 per second or a creation rate above 60000 per minute the construction
    panics. *)
Theorem router_serves {R} `{Axum R} `{Governor} `{HeaderValue} config :
  (rates_fit config → ∃ r, router (R:=R) config = Some r ∧
     serves (layers_of config) (enabled config) (custom_domains_enabled config) (endpoints r)) ∧
  (¬ rates_fit config → router (R:=R) config = None).
Proof. apply router_total. Qed.

#[local, refine] Instance demo_governor : Governor :=
  {| governor_finish key period burst := bool_decide (0 < period ∧ 0 < burst) |}.
Proof. done. Defined.
#[local, refine] Instance demo_router_header : HeaderValue :=
  {| header_from_str s := if all visible s then Some s else None |}.
Proof.
  - intros s v. by destruct (all visible s); intros [= <-].
  - by intros s ->.
Defined.

Lemma router_serves_witness :
  rates_fit Config_default ∧
  ∃ r, router (R:=list Endpoint) Config_default = Some r ∧
    serves (layers_of Config_default) (enabled Config_default) (custom_domains_enabled Config_default) (endpoints r).
Proof.
  assert (rates_fit Config_default) as Hfit by (split; intros _; vm_compute; discriminate).
  split; [done|]. exact (proj1 (router_serves (R:=list Endpoint) Config_default) Hfit).
Defined.

(** ** Responses *)

(** An error keeps its status, is always an object with an [error] text, and an internal
    error says nothing about its cause. *)
Theorem error_response_sound e :
  rs_status (into_response e) = error_status e ∧
  (∃ m rest, rs_body (into_response e) = JObject ((lit "error", JString m) :: rest)) ∧
  ∀ e' e'', into_response (Internal e') = into_response (Internal e'').
Proof. split_and!; [by destruct e| |done]. destruct e; cbn; eauto. Qed.
