(* ===== verification/Pages.v ===== *)
(** * Pages: the documentation and the legal pages ([src/api/docs.rs], [src/api/legal.rs])

    What the five static routes answer. The files embedded at compile time are the class
    [Embedded]; the page that loads the API reference is written in the source. *)

From S2P Require Import Prelude Str.

(** [include_str!] of [openapi.json] and of the files of [legal/]. *)
Class Embedded := {
  OPENAPI_JSON : str;
  TOS_HTML : str;
  PRIVACY_HTML : str;
  SUPPORT_HTML : str;
}.

(** The lines of the page, a backquote standing for the double quote. *)
Definition DOCS_HTML : str :=
  map (λ c, if c =? 96 then 34 else c) (concat (map (λ l, l ++ [10])
    [lit "<!doctype html>";
     lit "<html lang=`en`>";
     lit "  <head>";
     lit "    <title>anony-mail API</title>";
     lit "    <meta charset=`utf-8` />";
     lit "    <meta name=`viewport` content=`width=device-width, initial-scale=1` />";
     lit "  </head>";
     lit "  <body>";
     lit "    <div id=`app`></div>";
     lit "    <script src=`https://cdn.jsdelivr.net/npm/@scalar/api-reference`></script>";
     lit "    <script>";
     lit "      Scalar.createApiReference('#app', {";
     lit "        url: '/openapi.json',";
     lit "        servers: [{ url: window.location.origin, description: 'This instance' }],";
     lit "        agent: { disabled: true },";
     lit "      });";
     lit "    </script>";
     lit "  </body>";
     lit "</html>"])).

Record Page := mkPage { pg_content_type : str; pg_body : str }.

(** [axum::response::Html] *)
Definition Html (body : str) : Page := mkPage (lit "text/html; charset=utf-8") body.

Section pages.
Context `{Embedded}.

Definition docs : Page := Html DOCS_HTML.
Definition openapi : Page := mkPage (lit "application/json; charset=utf-8") OPENAPI_JSON.
Definition tos : Page := Html TOS_HTML.
Definition privacy : Page := Html PRIVACY_HTML.
Definition support : Page := Html SUPPORT_HTML.

(** The reference page reads the document this very server publishes. *)
Lemma docs_loads_openapi :
  is_Some (find_sub (lit "url: '/openapi.json'") (pg_body docs)) ∧
  pg_content_type openapi = lit "application/json; charset=utf-8".
Proof. split; [vm_compute; by eexists|done]. Qed.
End pages.
