(* ===== verification/Tls.v ===== *)
(** * Tls: loading the certificate ([src/smtp/tls.rs])

    [build_acceptor] with [load_certs] and [load_key]. Files, the PEM parser and rustls are
    third-party code or the system: the class [Rustls]. The stream of a session, plain or
    encrypted, forwards every operation to the connection it holds. *)

From S2P Require Import Prelude Str Config.

Inductive TlsError :=
| OpenFailed (path : str)
| PemFailed (path : str)
| NoCertificates (path : str)
| NoPrivateKey (path : str)
| ProtocolVersions
| InstallFailed.

Class Rustls := {
  CertificateDer : Type;
  PrivateKeyDer : Type;
  TlsAcceptor : Type;
  (** [File::open] and reading it *)
  open_file : str → option bytes;
  (** [rustls_pemfile::certs], each certificate or a malformed section *)
  pem_certs : bytes → list (option CertificateDer);
  (** [rustls_pemfile::private_key] *)
  pem_private_key : bytes → option (option PrivateKeyDer);
  (** [ServerConfig::builder_with_provider(ring).with_safe_default_protocol_versions] *)
  protocol_versions : bool;
  (** [with_no_client_auth().with_single_cert] *)
  with_single_cert : list CertificateDer → PrivateKeyDer → option TlsAcceptor;
}.

Section tls.
Context `{Rustls}.

Abbreviation TlsM A := (M unit TlsError A).
Definition need {A} (o : option A) (e : TlsError) : TlsM A := of_result (ok_or o e).

Definition load_certs (path : str) : TlsM (list CertificateDer) :=
  file ← need (open_file path) (OpenFailed path);
  certs ← of_result (collect (map (λ c, ok_or c (PemFailed path)) (pem_certs file)));
  if bool_decide (length certs = O) then throw (NoCertificates path) else mret certs.

Definition load_key (path : str) : TlsM PrivateKeyDer :=
  file ← need (open_file path) (OpenFailed path);
  key ← need (pem_private_key file) (PemFailed path);
  need key (NoPrivateKey path).

Definition build_acceptor (cfg : TlsConfig) : TlsM TlsAcceptor :=
  cert_chain ← load_certs (cert_path cfg);
  key ← load_key (key_path cfg);
  (if protocol_versions then mret tt else throw ProtocolVersions);;
  need (with_single_cert cert_chain key) InstallFailed.

Lemma need_inv {A} (o : option A) e a w w' : need o e w = (Ok a, w') → o = Some a.
Proof. by destruct o; intros [= <- _]. Qed.

Lemma collect_certs path l certs :
  collect (map (λ c : option CertificateDer, ok_or c (PemFailed path)) l) = Ok certs → l = map Some certs.
Proof.
  revert certs. induction l as [|[c|] l IH]; intros certs; cbn; [by intros [= <-]| |done].
  destruct (collect _) as [cs|] eqn:Hc; [|done]. intros [= <-]. cbn. by rewrite (IH cs).
Qed.

(** An acceptor presents the whole chain of the certificate file, which is well formed and
    not empty, with the key of the key file. *)
Theorem build_acceptor_sound cfg acceptor w w' :
  build_acceptor cfg w = (Ok acceptor, w') →
  ∃ certs key cert_file key_file,
    open_file (cert_path cfg) = Some cert_file ∧ pem_certs cert_file = map Some certs ∧ certs ≠ [] ∧
    open_file (key_path cfg) = Some key_file ∧ pem_private_key key_file = Some (Some key) ∧
    with_single_cert certs key = Some acceptor.
Proof.
  unfold build_acceptor, load_certs, load_key. intros Hr.
  apply bind_inv in Hr as (certs & w1 & Hc & Hr). apply bind_inv in Hr as (key & w2 & Hk & Hr).
  apply bind_inv in Hr as ([] & w3 & _ & Hr). apply need_inv in Hr.
  apply bind_inv in Hc as (cf & w4 & Ho%need_inv & Hc). apply bind_inv in Hc as (cs & w5 & Hcs & Hc).
  apply bind_inv in Hk as (kf & w6 & Hok%need_inv & Hk). apply bind_inv in Hk as (k & w7 & Hpk%need_inv & Hk).
  apply need_inv in Hk as ->. injection Hcs as Hcs%collect_certs _.
  case_bool_decide as Hn; [done|]. injection Hc as -> _. exists certs, key, cf, kf.
  split_and!; try done. by intros ->.
Qed.
End tls.

(** ** The stream *)

(** [AsyncRead] and [AsyncWrite]: what a poll answers, [None] for pending, and the stream
    afterwards. *)
Class AsyncStream (A : Type) := {
  poll_read : Z → A → option (option bytes) * A;
  poll_write : bytes → A → option (option Z) * A;
  poll_flush : A → option (option unit) * A;
  poll_shutdown : A → option (option unit) * A;
}.

Section stream.
Context {TcpStream TlsStream : Type} `{AsyncStream TcpStream} `{AsyncStream TlsStream}.

Inductive MaybeTlsStream := Plain (s : TcpStream) | Tls (s : TlsStream).

Definition forward {R} (plain : TcpStream → R * TcpStream) (tls : TlsStream → R * TlsStream)
    (m : MaybeTlsStream) : R * MaybeTlsStream :=
  match m with
  | Plain s => let '(r, s) := plain s in (r, Plain s)
  | Tls s => let '(r, s) := tls s in (r, Tls s)
  end.
#[export] Instance MaybeTlsStream_stream : AsyncStream MaybeTlsStream := {|
  poll_read n := forward (poll_read n) (poll_read n);
  poll_write buf := forward (poll_write buf) (poll_write buf);
  poll_flush := forward poll_flush poll_flush;
  poll_shutdown := forward poll_shutdown poll_shutdown;
|}.

Definition encrypted (m : MaybeTlsStream) : bool := match m with Tls _ => true | Plain _ => false end.

(** No operation downgrades a stream: once encrypted, everything goes through TLS. *)
Lemma forward_encrypted {R} plain tls m : encrypted (forward (R:=R) plain tls m).2 = encrypted m.
Proof. destruct m as [s|s]; cbn; [by destruct (plain s)|by destruct (tls s)]. Qed.
End stream.
