(* ===== verification/Boot.v ===== *)
(** * Boot: putting the service together ([src/lib.rs])

    [run] up to the point where every task is running: the configuration, the store, the
    TLS acceptor, the state of the handlers, the router and the tasks it spawns, in the
    order of the source; with [build_store] and [SqliteStore::connect_with]. The database
    drivers, the file system and sockets are the class [Platform]: each call gives what it
    opens or an error. *)

From S2P Require Import Prelude Str Model UuidHex Config ConfigEnv StoreSpec Sql SqliteStore PostgresStore.
From S2P Require Import RevenueCat Tls Otp Events Push Limits Attest Api ApiDownloads ApiRouter.

Inductive BootError :=
| BConfig (e : ConfigError)
| BContext (context : str) (e : anyhow)
| BTls (context : str) (e : TlsError)
| BPanic (message : str).

(** [Arc<dyn Store>]. *)
Inductive AnyStore := SqliteBackend (s : SqliteStore) | PostgresBackend (s : PostgresStore).

(** The tasks [run] spawns. *)
Inductive Task := ReverifyTask | SmtpTask | CleanupTask (interval : Z) | PushTask | ApiTask.
#[global] Instance Task_eq_dec : EqDecision Task.
Proof. solve_decision. Defined.

(** A pool is what the database holds and which of its coming round trips fail. *)
Abbreviation Pool d := (d * (nat → bool))%type (only parsing).

Class Platform := {
  Listener : Type;
  (** [create_dir_all] of the directory of the path, when it has one *)
  prepare_dir : str → result unit anyhow;
  sqlite_pool : str → Z → result (Pool (Db str)) anyhow;
  sqlite_migrate : Pool (Db str) → result (Pool (Db str)) anyhow;
  sqlite_auto_vacuum : Pool (Db str) → result Z anyhow;
  sqlite_vacuum : Pool (Db str) → result unit anyhow;
  postgres_pool : str → Z → result (Pool (Db Uuid)) anyhow;
  postgres_migrate : Pool (Db Uuid) → result (Pool (Db Uuid)) anyhow;
  bind : SocketAddr → result Listener anyhow;
}.

Record Service (R : Type) `{Platform} `{Reqwest} `{Rustls} := mkService {
  sv_config : Config;
  sv_store : AnyStore;
  sv_tls : option TlsAcceptor;
  sv_app : App AnyStore;
  sv_pro : option RevenueCatVerifier;
  sv_listener : Listener;
  sv_router : R;
  sv_senders : Senders;
}.
Arguments mkService {R _ _ _} _ _ _ _ _ _ _ _.
Arguments sv_config {R _ _ _} _.
Arguments sv_store {R _ _ _} _.
Arguments sv_tls {R _ _ _} _.
Arguments sv_app {R _ _ _} _.
Arguments sv_pro {R _ _ _} _.
Arguments sv_listener {R _ _ _} _.
Arguments sv_router {R _ _ _} _.
Arguments sv_senders {R _ _ _} _.

Section boot.
Context {R : Type} `{Axum R} `{Governor} `{HeaderValue} `{Platform} `{Reqwest} `{Rustls} `{WebPushCrate} `{ApnsCrate} `{UuidText}.

(** The state is the tasks spawned so far. *)
Abbreviation BootM A := (M (list Task) BootError A).
Definition spawn (t : Task) : BootM unit := modify (λ l, l ++ [t]).
Definition context {A} (c : str) (r : result A anyhow) : BootM A := of_result (map_err (BContext c) r).

Definition DEFAULT_MAX_CONNECTIONS : Z := 5.

Definition connect_with (path : str) (max_connections : Z) : BootM SqliteStore :=
  context (lit "creating SQLite data directory") (prepare_dir path);;
  let max_connections := if bool_decide (max_connections = 0) then DEFAULT_MAX_CONNECTIONS
                         else max_connections in
  pool ← context (lit "opening SQLite database") (sqlite_pool path max_connections);
  pool ← context (lit "running SQLite migrations") (sqlite_migrate pool);
  mode ← context (lit "querying auto_vacuum mode") (sqlite_auto_vacuum pool);
  (if negb (bool_decide (mode = 2))
   then context (lit "one-time VACUUM to enable incremental auto_vacuum") (sqlite_vacuum pool)
   else mret tt);;
  mret (mkSqlStore UNLIMITED pool.1 pool.2).

Definition build_store (config : Config) : BootM AnyStore :=
  let quotas := mailbox_quotas config in
  match db_backend config with
  | Postgres =>
      let max_connections := if bool_decide (db_max_connections config = 0) then 10
                             else db_max_connections config in
      pool ← context (lit "connecting to PostgreSQL") (postgres_pool (database_url config) max_connections);
      pool ← context (lit "running PostgreSQL migrations") (postgres_migrate pool);
      mret (PostgresBackend (pg_with_quotas quotas (mkSqlStore UNLIMITED pool.1 pool.2)))
  | Sqlite =>
      path ← of_result (ok_or (sqlite_path config) (BPanic (lit "sqlite backend implies a sqlite path")));
      store ← connect_with path (db_max_connections config);
      mret (SqliteBackend (lite_with_quotas quotas store))
  end.

(** The senders of the configured channels whose credentials are usable. *)
Definition boot_senders (config : Config) : Senders :=
  mkSenders
    (if push_configured config then WebPushSender_send <$> WebPushSender_from_config config else None)
    (if apns_configured config then ApnsSender_send <$> ApnsSender_from_config config else None).

Definition run (loaded : result Config ConfigError) (env : Env) : BootM (Service R) :=
  config ← of_result (map_err BConfig loaded);
  store ← build_store config;
  tls_acceptor ← (match tls config with
                  | Some t => a ← of_result (map_err (BTls (lit "building TLS acceptor")) (build_acceptor t tt).1);
                              mret (Some a)
                  | None => mret None
                  end);
  let app_state := AppState_new (store, env) config RevenueCatVerifier_new in
  (if custom_domains_enabled config then spawn ReverifyTask else mret tt);;
  listener ← context (lit "binding HTTP API listener") (bind (api_bind_addr config));
  app ← of_result (ok_or (router (R:=R) config)
          (BPanic (lit "governor config: period and burst are validated non-zero")));
  spawn SmtpTask;;
  spawn (CleanupTask (cleanup_interval config));;
  let senders := boot_senders config in
  (if negb (senders_is_empty senders) then spawn PushTask else mret tt);;
  spawn ApiTask;;
  mret (mkService config store tls_acceptor app_state.1 app_state.2 listener app senders).
End boot.

(** ** Lemmas *)

(** The backend of the URL, with the configured quotas. *)
Definition store_matches (config : Config) (s : AnyStore) : Prop :=
  match s with
  | SqliteBackend s => db_backend config = Sqlite ∧ sql_quotas s = mailbox_quotas config
  | PostgresBackend s => db_backend config = Postgres ∧ sql_quotas s = mailbox_quotas config
  end.

(** The tasks of a configuration, in the order they start. *)
Definition expected_tasks (config : Config) (senders : Senders) : list Task :=
  (if custom_domains_enabled config then [ReverifyTask] else []) ++
  [SmtpTask; CleanupTask (cleanup_interval config)] ++
  (if senders_is_empty senders then [] else [PushTask]) ++ [ApiTask].

Section laws.
Context {R : Type} `{Axum R} `{Governor} `{HeaderValue} `{Platform} `{Reqwest} `{Rustls} `{WebPushCrate} `{ApnsCrate} `{UuidText}.

Definition not_panic {A} (r : result A BootError) : Prop :=
  match r with Err (BPanic _) => False | _ => True end.

Lemma context_run {A} c (r : result A anyhow) w :
  not_panic (context c r w).1 ∧ (context c r w).2 = w.
Proof. by destruct r. Qed.

(** The store opens without panic and without starting a task, whichever step fails. *)
Lemma bind_quiet {A B} (m : M (list Task) BootError A) (f : A → M (list Task) BootError B) w (P : B → Prop) :
  not_panic (m w).1 ∧ (m w).2 = w →
  (∀ a, m w = (Ok a, w) → not_panic (f a w).1 ∧ (f a w).2 = w ∧ ∀ b w', f a w = (Ok b, w') → P b) →
  not_panic ((m ≫= f) w).1 ∧ ((m ≫= f) w).2 = w ∧ ∀ b w', (m ≫= f) w = (Ok b, w') → P b.
Proof.
  unfold mbind, M_bind. destruct (m w) as [[a|e] w'] eqn:Hm; cbn; intros [Hp ->] Hf; [by apply Hf|done].
Qed.

Lemma build_store_run config w :
  not_panic (build_store config w).1 ∧ (build_store config w).2 = w ∧
  ∀ s w', build_store config w = (Ok s, w') → store_matches config s.
Proof.
  unfold build_store. destruct (db_backend config) eqn:Hb.
  - unfold sqlite_path. rewrite Hb. cbn [ok_or]. apply bind_quiet; [done|]. intros path _.
    apply bind_quiet; [|intros store _; split_and!; [done..|]; by intros s w' [= <- <-]].
    enough (not_panic (connect_with path (db_max_connections config) w).1 ∧
      (connect_with path (db_max_connections config) w).2 = w ∧
      ∀ s w', connect_with path (db_max_connections config) w = (Ok s, w') → True) by naive_solver.
    unfold connect_with. do 4 (apply bind_quiet; [apply context_run|]; intros ? _).
    apply bind_quiet; [|done]. case_bool_decide; [done|apply context_run].
  - do 2 (apply bind_quiet; [apply context_run|]; intros ? _). split_and!; [done..|]. by intros s w' [= <- <-].
Qed.

Lemma run_ok loaded env sv tasks :
  run (R:=R) loaded env [] = (Ok sv, tasks) →
  loaded = Ok (sv_config sv) ∧ store_matches (sv_config sv) (sv_store sv) ∧
  (is_Some (sv_tls sv) ↔ is_Some (tls (sv_config sv))) ∧ router (sv_config sv) = Some (sv_router sv) ∧
  sv_senders sv = boot_senders (sv_config sv) ∧ tasks = expected_tasks (sv_config sv) (sv_senders sv).
Proof.
  unfold run. intros Hr. apply bind_inv in Hr as (config & w & Hl & Hr).
  destruct loaded as [c|]; [|done]. injection Hl as -> <-.
  apply bind_inv in Hr as (store & w & Hs & Hr).
  destruct (build_store_run config []) as (_ & Hw & Hm). rewrite Hs in Hw. cbn in Hw. subst w.
  apply Hm in Hs. apply bind_inv in Hr as (acc & w & Ha & Hr). cbn zeta in Hr.
  assert (w = [] ∧ (is_Some acc ↔ is_Some (tls config))) as [-> Htls].
  { destruct (tls config) as [t|]; [|by injection Ha as <- <-].
    apply bind_inv in Ha as (a & w1 & Hc & Ha). injection Ha as <- <-.
    destruct (build_acceptor t tt).1; [|done]. by injection Hc as -> <-. }
  apply bind_inv in Hr as ([] & w & Hd & Hr).
  assert (w = if custom_domains_enabled config then [ReverifyTask] else []) as ->
    by (destruct (custom_domains_enabled config); by injection Hd as <-).
  apply bind_inv in Hr as (listener & w & Hb & Hr). destruct (bind (api_bind_addr config)); [|done].
  injection Hb as -> <-. apply bind_inv in Hr as (app & w & Happ & Hr).
  destruct (router config) as [r|] eqn:Hrt; [|done]. injection Happ as -> <-.
  unfold expected_tasks. unfold mbind, M_bind, spawn, modify in Hr.
  destruct (senders_is_empty (boot_senders config)) eqn:He; cbn in Hr; injection Hr as <- <-; cbn; rewrite He;
    rewrite <-?app_assoc; by split_and!.
Qed.

Lemma run_panics loaded env m tasks :
  run (R:=R) loaded env [] = (Err (BPanic m), tasks) → ∃ config, loaded = Ok config ∧ router (R:=R) config = None.
Proof.
  unfold run. destruct loaded as [config|]; [|done]. intros Hr. exists config. split; [done|].
  destruct (router config) as [r|] eqn:Hrt; [|done]. exfalso. revert Hr.
  unfold mbind, M_bind, of_result at 1. cbn [map_err].
  destruct (build_store_run config []) as (Hp & _ & _).
  destruct (build_store config []) as [[st|e] w]; [|intros [= -> _]; exact Hp].
  destruct (tls config) as [t|]; [destruct (build_acceptor t tt).1|]; cbn; [|done|];
    (destruct (custom_domains_enabled config), (bind (api_bind_addr config)),
       (senders_is_empty (boot_senders config)); cbn; rewrite ?Hrt; done).
Qed.

Lemma boot_senders_configured config kind f :
  for_kind (boot_senders config) kind = Some f →
  match kind with WebPush => push_configured config | Apns => apns_configured config end = true.
Proof. destruct kind; cbn; by case_match. Qed.
End laws.

(** C30: what a started service consists of. When the start succeeds, the configuration is
    the one loaded, the store is the backend its URL names with its quotas, STARTTLS is
    offered exactly when a certificate is configured, the router serves what the
    configuration says behind its layers, and exactly the tasks of the configuration run,
    once each: mail, cleanup and the API always, domain re-verification when enabled, the
    push worker when a channel is usable, and only configured channels are used. The only
    panic on the way is a rate limit whose period rounds to zero. *)
Theorem boot_sound {R} `{Axum R} `{Governor} `{HeaderValue} `{Platform} `{Reqwest} `{Rustls} `{WebPushCrate} `{ApnsCrate} `{UuidText}
    loaded env :
  (∀ sv tasks, run (R:=R) loaded env [] = (Ok sv, tasks) →
     let config := sv_config sv in
     loaded = Ok config ∧ store_matches config (sv_store sv) ∧ (is_Some (sv_tls sv) ↔ is_Some (tls config)) ∧
     serves (layers_of config) (enabled config) (custom_domains_enabled config) (endpoints (sv_router sv)) ∧
     tasks = expected_tasks config (sv_senders sv) ∧
     ∀ kind f, for_kind (sv_senders sv) kind = Some f →
       match kind with WebPush => push_configured config | Apns => apns_configured config end = true) ∧
  (∀ m tasks, run (R:=R) loaded env [] = (Err (BPanic m), tasks) →
     ∃ config, loaded = Ok config ∧ ¬ rates_fit config).
Proof.
  split.
  - intros sv tasks (Hl & Hs & Ht & Hr & Hse & Htasks)%run_ok. cbn zeta.
    assert (rates_fit (sv_config sv)) as Hfit.
    { destruct (decide (rates_fit (sv_config sv))) as [|Hn]; [done|].
      apply (proj2 (router_total (R:=R) (sv_config sv))) in Hn. congruence. }
    apply (proj1 (router_total (R:=R) _)) in Hfit as (r & Hr' & Hserves). rewrite Hr in Hr'. injection Hr' as <-.
    split_and!; try done. rewrite Hse. apply boot_senders_configured.
  - intros m tasks (config & -> & Hn)%run_panics. exists config. split; [done|]. intros Hfit.
    apply (proj1 (router_total (R:=R) config)) in Hfit as (r & Hr & _). congruence.
Qed.

(** ** The end *)

(** The first of the awaited things to happen: a task that ends, with its result or the
    panic that ended it, or the interrupt. *)
Inductive Stopped :=
| SmtpStopped (res : result (result unit anyhow) str)
| ApiStopped (res : result (result unit anyhow) str)
| CleanupStopped (res : result unit str)
| ShutdownSignal.
Inductive LogLine :=
| LogInfo (message : str)
| LogError (message : str) (cause : anyhow + str).

Definition log_task (stopped joined : str) (res : result (result unit anyhow) str) : list LogLine :=
  match res with
  | Ok (Ok _) => []
  | Ok (Err e) => [LogError stopped (inl e)]
  | Err e => [LogError joined (inr e)]
  end.
Definition select (s : Stopped) : list LogLine :=
  match s with
  | SmtpStopped res => log_task (lit "SMTP server stopped with error") (lit "SMTP task join error") res
  | ApiStopped res => log_task (lit "HTTP API stopped with error") (lit "API task join error") res
  | CleanupStopped (Err e) => [LogError (lit "cleanup task join error") (inr e)]
  | CleanupStopped (Ok _) => []
  | ShutdownSignal => [LogInfo (lit "shutdown signal received, exiting")]
  end.

(** [run] to its end, and [main]: the status of the process. *)
Definition run_to_end {R} `{Axum R} `{Governor} `{HeaderValue} `{Platform} `{Reqwest} `{Rustls} `{WebPushCrate} `{ApnsCrate} `{UuidText}
    (loaded : result Config ConfigError) (env : Env) (stopped : Stopped) : M (list Task) BootError (list LogLine) :=
  run (R:=R) loaded env;; mret (select stopped).
Definition main {A} (r : result A BootError) : Z :=
  match r with Ok _ => 0 | Err (BPanic _) => 101 | Err _ => 1 end.

(** The status tells a failed start from a service that ran: once every task was running
    the process ends with success, also when the mail server or the API failed, which is
    only logged. *)
Lemma exit_status {R} `{Axum R} `{Governor} `{HeaderValue} `{Platform} `{Reqwest} `{Rustls} `{WebPushCrate} `{ApnsCrate} `{UuidText}
    loaded env stopped :
  main (run_to_end (R:=R) loaded env stopped []).1 = 0 ↔ ∃ sv, (run (R:=R) loaded env []).1 = Ok sv.
Proof.
  unfold run_to_end, mbind, M_bind. destruct (run loaded env []) as [[sv|e] w]; cbn.
  - split; [by exists sv|done].
  - split; [by destruct e|by intros [? ?]].
Qed.

(** ** A start *)

#[local] Instance demo_platform : Platform := {|
  Listener := unit;
  prepare_dir _ := Ok tt;
  sqlite_pool _ _ := Ok (mkDb ∅ ∅ ∅ ∅ ∅ ∅, λ _, false);
  sqlite_migrate p := Ok p;
  sqlite_auto_vacuum _ := Ok 0;
  sqlite_vacuum _ := Ok tt;
  postgres_pool _ _ := Err (Sqlx false);
  postgres_migrate p := Ok p;
  bind _ := Ok tt;
|}.
#[local] Instance demo_reqwest : Reqwest := {|
  HttpClient := unit; Url := str; client_build _ := Ok tt; url_parse s := Some s; url_extend _ _ := None;
  http_get _ _ _ := Err (Anyhow []);
|}.
#[local] Instance demo_rustls : Rustls := {|
  CertificateDer := unit; PrivateKeyDer := unit; TlsAcceptor := unit; open_file _ := None;
  pem_certs _ := []; pem_private_key _ := None; protocol_versions := true; with_single_cert _ _ := None;
|}.
#[local] Instance demo_webpush : WebPushCrate := {|
  wp_key := unit; wp_signature := unit; wp_message := unit; to_vec _ := None;
  from_base64_no_sub _ := None; wp_sign _ _ _ := None; wp_build _ _ _ := None; wp_send _ := Ok tt;
|}.
#[local] Instance demo_apns : ApnsCrate := {|
  CollapseId_new _ := None; apns_client := unit; apns_token_client _ _ _ _ := None;
  add_custom_data _ _ := true; apns_send _ _ _ _ _ := Ok tt;
|}.
#[local] Existing Instances demo_governor demo_router_header hex_UuidText.

Definition boot_env : Env := mkEnv (λ n, Z.of_nat n) (λ n, Z.of_nat n) (λ n, Z.of_nat n).
Definition demo_boot : result (Service (list Endpoint)) BootError * list Task :=
  run (Ok Config_default) boot_env [].
Lemma demo_boot_ok :
  match demo_boot with
  | (Ok sv, tasks) => bool_decide (tasks = [ReverifyTask; SmtpTask; CleanupTask (cleanup_interval Config_default); ApiTask])
  | _ => false
  end = true.
Proof. vm_compute. reflexivity. Qed.

Lemma boot_sound_witness :
  ∃ sv tasks, demo_boot = (Ok sv, tasks) ∧
    tasks = [ReverifyTask; SmtpTask; CleanupTask (cleanup_interval Config_default); ApiTask] ∧
    store_matches (sv_config sv) (sv_store sv) ∧ tasks = expected_tasks (sv_config sv) (sv_senders sv).
Proof.
  pose proof (proj1 (boot_sound (R:=list Endpoint) (Ok Config_default) boot_env)) as Hb.
  fold demo_boot in Hb. pose proof demo_boot_ok as Hok.
  destruct demo_boot as [[sv|e] tasks]; [|discriminate]. apply bool_decide_eq_true in Hok.
  exists sv, tasks. split; [done|]. split; [done|]. destruct (Hb sv tasks eq_refl) as (_ & Hs & _ & _ & Ht & _). done.
Defined.

(** ** Two settings a start does not survive *)

Definition one_setting (key value : str) (k : str) : option str :=
  if bool_decide (k = lit "DOMAINS") then Some (lit "x.io")
  else if bool_decide (k = key) then Some value else None.
Definition load_with (key value : str) : result Config ConfigError :=
  (from_env (one_setting key value) (λ _, None) (λ _, None) (λ _, None) (λ _, None) tt).1.

(** A rate of 1001 requests per second passes the loading and makes the router panic. *)
Lemma fast_rate_panics :
  match load_with (lit "API_RATE_LIMIT_PER_SECOND") (lit "1001") with
  | Ok c => api_rate_limit_per_second c = 1001 ∧ router (R:=list Endpoint) c = None
  | Err _ => False
  end.
Proof. vm_compute. done. Qed.

(** An interval of zero, with which the timer of the cleanup task cannot be made, passes
    the loading and is handed to the task. *)
Lemma zero_cleanup_interval_loads :
  match load_with (lit "CLEANUP_INTERVAL_SECONDS") (lit "0") with
  | Ok c => CleanupTask 0 ∈ (run (R:=list Endpoint) (Ok c) boot_env []).2
  | Err _ => False
  end.
Proof. vm_compute. right. right. left. Qed.
