(* ===== verification/UnitTests.v ===== *)
(** * UnitTests: the unit tests of the repository, on the models

    The [#[cfg(test)]] modules of [src/], test by test and under their names, evaluated on
    the definitions the theorems are about. The tests of [src/otp.rs] stand in [Otp], those
    of [src/api/auth.rs] and of the cryptographic crates need code that is a parameter
    here. *)

From S2P Require Import Prelude Str Model Config StoreSpec SmtpCommands SmtpIo SmtpSession RateLimiter Limits.
From S2P Require Import CustomDomains Attest RevenueCat Push Api ApiAddresses ApiDownloads.

(** What a sequence of calls on a state answers. *)
Fixpoint replies {R A} (calls : list (R → A * R)) (r : R) : list A :=
  match calls with [] => [] | c :: calls => (c r).1 :: replies calls (c r).2 end.

Definition ip (last : Z) : list Z := [10; 0; 0; last].

(** ** [src/smtp] *)

Example parses_verbs_case_insensitively :
  map parse [lit "ehlo mail.example.com"; lit "QUIT"; lit "data"; lit "NoOp"; lit "StartTLS"]
  = [Ehlo (lit "mail.example.com"); Quit; Data; Noop; StartTls].
Proof. vm_compute. reflexivity. Qed.
Example parses_mail_from_variants :
  map parse [lit "MAIL FROM:<a@b.com>"; lit "MAIL FROM: <a@b.com>"; lit "MAIL FROM:<a@b.com> SIZE=1000";
             lit "MAIL FROM:a@b.com"; lit "MAIL FROM:<>"]
  = List.repeat (MailFrom (lit "a@b.com")) 4 ++ [MailFrom []].
Proof. vm_compute. reflexivity. Qed.
Example parses_rcpt_to :
  map parse [lit "RCPT TO:<user@domain.com>"; lit "rcpt to:<USER@Domain.com>"]
  = [RcptTo (lit "user@domain.com"); RcptTo (lit "USER@Domain.com")].
Proof. vm_compute. reflexivity. Qed.
Example unknown_commands_are_captured : parse (lit "FOOBAR x y") = Unknown (lit "FOOBAR x y").
Proof. vm_compute. reflexivity. Qed.

Example rate_limiter_enforces_per_ip_sliding_window :
  replies [check_at (ip 1) 0; check_at (ip 1) 0; check_at (ip 1) 0; check_at (ip 2) 0; check_at (ip 1) (seconds 61)]
    (RateLimiter_new (seconds 60) 2) = [true; true; false; true; true].
Proof. vm_compute. reflexivity. Qed.
Example rejection_logging_is_throttled_to_once_per_ip_per_window :
  replies ([note_rejection_at (ip 1) 0] ++ List.repeat (note_rejection_at (ip 1) (seconds 1)) 81
           ++ [note_rejection_at (ip 1) (seconds 61); note_rejection_at (ip 2) 0])
    (RateLimiter_new (seconds 60) 1)
  = [Some 1] ++ List.repeat None 81 ++ [Some 82; Some 1].
Proof. vm_compute. reflexivity. Qed.

Example strip_eol_handles_crlf_and_lf :
  map strip_eol [lit "hello" ++ [13; 10]; lit "hello" ++ [10]; lit "hello"] = List.repeat (lit "hello") 3.
Proof. vm_compute. reflexivity. Qed.
Example detects_terminator :
  map is_terminator [lit "." ++ [13; 10]; lit "." ++ [10]; lit "."; lit ".." ++ [13; 10]; lit ". " ++ [13; 10]]
  = [true; true; true; false; false].
Proof. vm_compute. reflexivity. Qed.
Example plus_tags_are_stripped :
  map strip_plus_tag [lit "user+shop@d.test"; lit "user+a+b@d.test"; lit "user@d.test"; lit "+odd@d.test"; lit "no-at-sign"]
  = List.repeat (lit "user@d.test") 3 ++ [lit "+odd@d.test"; lit "no-at-sign"].
Proof. vm_compute. reflexivity. Qed.

(** ** [src/api] *)

Example active_types_are_forced_to_octet_stream :
  map forced_octet_stream
    [lit "text/html"; lit "TEXT/HTML; charset=utf-8"; lit "image/svg+xml"; lit "application/xml"; lit "text/xml";
     lit "application/xhtml+xml"; lit "application/pdf"; lit "image/png"; lit "text/plain"]
  = List.repeat true 6 ++ List.repeat false 3.
Proof. vm_compute. reflexivity. Qed.
Example ascii_names_get_plain_disposition :
  content_disposition (Some (lit "invoice.pdf")) = lit "attachment; filename=" ++ [34] ++ lit "invoice.pdf" ++ [34] ∧
  content_disposition None = lit "attachment; filename=" ++ [34] ++ lit "attachment" ++ [34].
Proof. split; vm_compute; reflexivity. Qed.
(** The name has U+00EF and twice U+00E9. *)
Example non_ascii_names_add_rfc5987_form :
  content_disposition (Some (lit "na" ++ [239] ++ lit "ve r" ++ [233] ++ lit "sum" ++ [233] ++ lit ".pdf"))
  = lit "attachment; filename=" ++ [34] ++ lit "nave rsum.pdf" ++ [34]
    ++ lit "; filename*=UTF-8''na%C3%AFve%20r%C3%A9sum%C3%A9.pdf".
Proof. vm_compute. reflexivity. Qed.
Example rfc5987_encoding_is_injection_safe :
  rfc5987_encode (lit "a" ++ [13; 10] ++ lit "b: c") = lit "a%0D%0Ab%3A%20c".
Proof. vm_compute. reflexivity. Qed.

(** [RuntimeLimits::from_config] with these caps. *)
Definition limits (global per_ip daily : Z) : RuntimeLimits :=
  mkLimits (if bool_decide (0 < global) then Some global else None) per_ip ∅ daily ∅ 0 ∅ 0 ∅.
Definition acquires (a : list Z) (r : RuntimeLimits) : bool * RuntimeLimits :=
  let '(g, r) := try_acquire_sse a r in (bool_decide (is_Some g), r).
Definition releases (a : list Z) (r : RuntimeLimits) : bool * RuntimeLimits :=
  (true, drop_guard (mkSseGuard true (Some a)) r).
Example sse_per_ip_cap_enforced_and_released :
  replies [acquires (ip 1); acquires (ip 1); acquires (ip 1); acquires (ip 2); releases (ip 1); acquires (ip 1)] (limits 10 2 0)
  = [true; true; false; true; true; true].
Proof. vm_compute. reflexivity. Qed.
Example sse_global_cap_enforced : replies [acquires (ip 1); acquires (ip 2); acquires (ip 3)] (limits 2 0 0) = [true; true; false].
Proof. vm_compute. reflexivity. Qed.
Example zero_caps_disable_sse_limits : replies (List.repeat (acquires (ip 1)) 100) (limits 0 0 0) = List.repeat true 100.
Proof. vm_compute. reflexivity. Qed.
Example daily_create_quota_enforced_per_ip_and_day :
  replies [note_address_created (ip 1) 7; note_address_created (ip 1) 7; note_address_created (ip 1) 7; note_address_created (ip 2) 7;
           note_address_created (ip 1) 8] (limits 0 0 2) = [true; true; false; true; true].
Proof. vm_compute. reflexivity. Qed.
(** The parser of addresses knows the two of the test. *)
Example client_ip_honors_trust_flag :
  let parse s := if bool_decide (s = lit "203.0.113.7") then Some [203; 0; 113; 7] else
                 if bool_decide (s = lit "10.0.0.1") then Some (ip 1) else None in
  let headers k := if bool_decide (k = lit "x-forwarded-for") then Some (lit "203.0.113.7, 10.0.0.1") else None in
  @client_ip parse headers (ip 9) false = ip 9 ∧ @client_ip parse headers (ip 9) true = [203; 0; 113; 7] ∧
  @client_ip parse (λ _, None) (ip 9) true = ip 9.
Proof. cbn zeta. split_and!; vm_compute; reflexivity. Qed.

Example random_local_parts_are_well_formed :
  let e n := mkEnv (λ _, 0) (λ _, 0) (λ i, Z.of_nat (n + 5 * i)) in
  all (λ n, bool_decide (length (random_local_part (e n)).1 = RANDOM_LOCAL_PART_LEN)
            && is_valid_local_part (random_local_part (e n)).1) (seq 0 100) = true.
Proof. vm_compute. reflexivity. Qed.
Example validates_local_parts :
  map is_valid_local_part
    [lit "john"; lit "john.doe"; lit "a1_b-c"; []; lit ".john"; lit "john."; lit "John"; lit "a b"; lit "a@b";
     List.repeat 120 65] = List.repeat true 3 ++ List.repeat false 7.
Proof. vm_compute. reflexivity. Qed.

(** ** [src/config.rs], [src/custom_domains.rs] *)

Example builtin_reserved_names_are_flagged :
  map (is_reserved_local_part Config_default)
    [lit "admin"; lit "postmaster"; lit "ssladmin"; lit "root"; lit "mailer-daemon"; lit "john"; lit "adminx"]
  = List.repeat true 5 ++ [false; false] ∧ api_docs_enabled Config_default = true.
Proof. split; vm_compute; reflexivity. Qed.

(** The test's server serves [anonymail.example] where this one serves [example.com]. *)
Example validates_and_normalizes_domains :
  let config := Config_with_hostname (lit "mx.example.com") Config_default in
  let accepted r := match validate_claimable config r with Ok _ => true | Err _ => false end in
  validate_claimable config (lit " Mail.Corp.Example. ") = Ok (lit "mail.corp.example") ∧
  map accepted [[]; lit "nodots"; lit "-bad.example"; lit "bad-.example"; lit "under_score.example"; lit "spaces in.example";
                lit "1.2.3.4"; lit "single-char-tld.e"; lit "example.com"; lit "sub.example.com"; lit "mx.example.com"]
  = List.repeat false 11 ∧ accepted (lit "notexample.com") = true.
Proof. cbn zeta. split_and!; vm_compute; reflexivity. Qed.

Definition claim (status : CustomDomainStatus) (verified_at : option Time) : CustomDomain :=
  mkCustomDomain (lit "mail.corp.example") status (lit "hash") (lit "tok") (- hours (24 * 30)) verified_at None.
Example success_always_verifies_and_refreshes_anchor :
  map (λ status, next_status (claim status None) true 0) [Pending; Verified; Failed]
  = List.repeat (Verified, Some 0) 3.
Proof. vm_compute. reflexivity. Qed.
Example failure_respects_grace_window :
  map (λ c, (next_status c false 0).1)
    [claim Pending None; claim Failed None; claim Verified (Some (- hours (GRACE_HOURS - 1)));
     claim Verified (Some (- hours (GRACE_HOURS + 1)))] = [Pending; Failed; Verified; Failed] ∧
  (next_status (claim Verified (Some (- hours (GRACE_HOURS - 1)))) false 0).2 = Some (- hours (GRACE_HOURS - 1)).
Proof. split; vm_compute; reflexivity. Qed.
Example txt_helpers_compose_the_published_record :
  txt_host (lit "corp.example") = lit "_anonymail.corp.example" ∧ txt_value (lit "abc") = lit "anonymail-verify=abc" ∧
  let token := (generate_txt_token (mkEnv (λ _, 0) (λ _, 0) (λ i, Z.of_nat (37 * i)))).1 in
  length token = 32%nat ∧ all (λ c, is_ascii_digit c || in_range 97 102 c) token = true.
Proof. cbn zeta. split_and!; vm_compute; reflexivity. Qed.

(** ** [src/push.rs], [src/attest.rs], [src/entitlements.rs] *)

Definition payload (subject code : option str) (from : str) : PushPayload :=
  mkPushPayload (lit "inbox@example.com") 0 from subject code.
Example alert_leads_with_the_code_when_present :
  alert (payload (Some (lit "Verify your account")) (Some (lit "483920")) (lit "noreply@a.com"))
  = (lit "Verify your account", lit "Code 483920 " ++ [8212] ++ lit " noreply@a.com").
Proof. vm_compute. reflexivity. Qed.
Example alert_falls_back_to_sender_without_code :
  alert (payload (Some (lit "Hello")) None (lit "friend@b.com")) = (lit "Hello", lit "From friend@b.com").
Proof. vm_compute. reflexivity. Qed.
Example alert_handles_missing_or_blank_subject :
  map (λ s, (alert (payload s None (lit "x@y.z"))).1) [None; Some (lit "   ")] = List.repeat (lit "New mail") 2.
Proof. vm_compute. reflexivity. Qed.

Example challenges_are_single_use :
  replies [λ s, (true, issue_at (lit "c1") 0 s); λ s, (true, issue_at (lit "c2") 1 s); consume_at (lit "c1") 2;
           consume_at (lit "c1") 3; consume_at (lit "never-issued") 4] ChallengeStore_default
  = [true; true; true; false; false].
Proof. vm_compute. reflexivity. Qed.
Example expired_challenges_do_not_redeem :
  (consume_at (lit "c") 0 (issue_at (lit "c") 0 (ChallengeStore_new 0))).1 = false.
Proof. vm_compute. reflexivity. Qed.

(** 1 January 2001, 1 January 2999 and an instant between them, in seconds. *)
Example revenuecat_payload_activity_rules :
  let active l := entitlement_active (mkSubscriberResponse (list_to_map l)) (lit "Anony Mail Pro") (seconds 1700000000) in
  map active [[(lit "Anony Mail Pro", Some (seconds 32472144000))]; [(lit "Anony Mail Pro", None)];
              [(lit "Anony Mail Pro", Some (seconds 978307200))]; [(lit "Other", None)]; []]
  = [true; true; false; false; false].
Proof. vm_compute. reflexivity. Qed.
