(* ===== verification/StoreConformance.v ===== *)
(** * StoreConformance: the conformance suite of the repository, on the models

    [tests/store_conformance.rs] runs one suite of contracts against every backend a test
    machine has: the in-memory store and SQLite. Here the same suite, test by test, runs
    on the models of all three, PostgreSQL included: what the tests check of the code
    holds of what the theorems are about. A test is a computation over any [Store] that
    fails at the first assertion that does not hold. *)

From S2P Require Import Prelude Str Model UuidHex Config StoreSpec MemoryStore Sql SqliteStore PostgresStore.

Section suite.
Context {S : Type} `{Store S}.
Abbreviation TestM := (SM S unit).

Definition check (b : bool) : TestM := if b then mret tt else throw (Anyhow (lit "assertion failed")).
Definition unwrap {A} (o : option A) : SM S A :=
  match o with Some x => mret x | None => throw (Anyhow (lit "unwrap on None")) end.
Definition is_none {A} (o : option A) : bool := match o with None => true | Some _ => false end.
(** The error a call must fail with. *)
Definition expect_err {A} (m : SM S A) (p : anyhow → bool) : TestM :=
  r ← try m; check (match r with Err e => p e | Ok _ => false end).
Definition is_limit (e : anyhow) : bool := match e with SubscriptionLimit _ => true | _ => false end.

Definition sample_message (subject : str) : NewMessage :=
  mkNewMessage (lit "sender@somewhere.test") (Some subject) (Some (seconds 7))
    (Some (lit "body of " ++ subject)) None 42 None [].
Definition with_attachment (content : bytes) (m : NewMessage) : NewMessage :=
  mkNewMessage (nm_mail_from m) (nm_subject m) (nm_message_date m) (nm_text_body m) (nm_html_body m)
    (nm_raw_size m) (nm_raw_content m) [mkNewAttachment (Some (lit "a.txt")) (lit "text/plain") content].
Definition sized (subject : str) (raw_size : Z) : NewMessage :=
  let m := sample_message subject in
  mkNewMessage (nm_mail_from m) (nm_subject m) (nm_message_date m) (nm_text_body m) (nm_html_body m)
    raw_size None [].
Definition with_raw (raw : bytes) (m : NewMessage) : NewMessage :=
  mkNewMessage (nm_mail_from m) (nm_subject m) (nm_message_date m) (nm_text_body m) (nm_html_body m)
    (nm_raw_size m) (Some raw) [].

Definition addr : str := lit "inbox@example.com".
Definition other : str := lit "other@example.com".
Definition ghost : str := lit "ghost@example.com".
Definition subjects (l : list MessageSummary) : list str := omap ms_subject l.

(** A mailbox on [example.com] that expires [h] hours from now. *)
Definition open (address : str) (h : Z) : TestM :=
  t ← utc_now; create_mailbox address (lit "example.com") (t + hours h) None None;; mret tt.
Definition save (address : str) (m : NewMessage) : SM S StoredMessage := save_message address m.

Definition mailbox_lifecycle_create_get_extend_delete : TestM :=
  t ← utc_now;
  created ← create_mailbox addr (lit "example.com") (t + hours 1) None None;
  check (bool_decide (mb_address created = addr));;
  t ← utc_now; active ← mailbox_is_active addr t; check active;;
  fetched ← get_mailbox addr; check (negb (is_none fetched));;
  t ← utc_now;
  let later := t + hours 2 in
  extended ← extend_mailbox addr later;
  mb ← unwrap extended;
  check (bool_decide (mb_expires_at mb = later));;
  missing ← extend_mailbox ghost later; check (is_none missing);;
  gone ← delete_mailbox addr; check gone;;
  again ← delete_mailbox addr; check (negb again);;
  after ← get_mailbox addr; check (is_none after).

Definition duplicate_mailbox_is_a_unique_violation : TestM :=
  open addr 1;; expect_err (open addr 1) is_unique_violation.

Definition message_round_trip_and_cascade_on_mailbox_delete : TestM :=
  open addr 1;;
  stored ← save addr (with_attachment (lit "file-bytes") (sample_message (lit "hello")));
  check (bool_decide (length (sm_attachments stored) = 1%nat));;
  l ← list_messages addr 0 None;
  check (bool_decide (map ms_id l = [sm_id stored]) && all ms_has_attachments l);;
  o ← get_message addr (sm_id stored); fetched ← unwrap o;
  check (bool_decide (sm_subject fetched = Some (lit "hello")));;
  check (bool_decide (length (sm_attachments fetched) = 1%nat));;
  meta ← unwrap (head (sm_attachments fetched));
  o ← get_attachment addr (sm_id stored) (am_id meta); att ← unwrap o;
  check (bool_decide (at_content att = lit "file-bytes") && bool_decide (at_content_type att = lit "text/plain"));;
  open other 1;;
  scoped ← get_message other (sm_id stored); check (is_none scoped);;
  gone ← delete_mailbox addr; check gone;;
  o ← get_message addr (sm_id stored); check (is_none o);;
  l ← list_messages addr 0 None; check (bool_decide (l = [])).

Definition delete_single_message : TestM :=
  open addr 1;;
  stored ← save addr (sample_message (lit "bye"));
  b ← delete_message other (sm_id stored); check (negb b);;
  b ← delete_message addr (sm_id stored); check b;;
  b ← delete_message addr (sm_id stored); check (negb b).

Definition purge_removes_only_expired_mailboxes : TestM :=
  open addr (-1);; open other 1;;
  save addr (sample_message (lit "stale"));;
  t ← utc_now; n ← purge_expired t; check (bool_decide (n = 1));;
  o ← get_mailbox addr; check (is_none o);;
  o ← get_mailbox other; check (negb (is_none o));;
  l ← list_messages addr 0 None; check (bool_decide (l = [])).

Definition owner_token_hash_roundtrip_and_rotate : TestM :=
  t ← utc_now;
  let hash_is v (m : Mailbox) := check (bool_decide (mb_owner_token_hash m = Some v)) in
  created ← create_mailbox addr (lit "example.com") (t + hours 1) (Some (lit "hash-v1")) None;
  hash_is (lit "hash-v1") created;;
  o ← get_mailbox addr; m ← unwrap o; hash_is (lit "hash-v1") m;;
  o ← extend_mailbox addr (t + hours 2); m ← unwrap o; hash_is (lit "hash-v1") m;;
  b ← rotate_owner_token addr (lit "hash-v2"); check b;;
  o ← get_mailbox addr; m ← unwrap o; hash_is (lit "hash-v2") m;;
  b ← rotate_owner_token ghost (lit "x"); check (negb b).

Definition push_subscription_crud_cap_and_cascade : TestM :=
  let add n k a := add_subscription addr WebPush (lit "https://push.example/ep" ++ n) k a 2 in
  open addr 1;;
  s1 ← add (lit "1") (lit "key1") (lit "auth1");
  add (lit "2") (lit "key2") (lit "auth2");;
  s1b ← add (lit "1") (lit "key1-new") (lit "auth1-new");
  check (bool_decide (ps_id s1 = ps_id s1b) && bool_decide (ps_p256dh s1b = lit "key1-new"));;
  expect_err (add (lit "3") (lit "key3") (lit "auth3")) is_limit;;
  l ← list_subscriptions addr; check (bool_decide (length l = 2%nat));;
  b ← delete_subscription addr (lit "https://push.example/ep2"); check b;;
  b ← delete_subscription addr (lit "https://push.example/ep2"); check (negb b);;
  delete_mailbox addr;;
  l ← list_subscriptions addr; check (bool_decide (l = [])).

Definition subscription_kinds_roundtrip_and_share_the_cap : TestM :=
  let token := lit "cafebabe1234" in
  open addr 1;;
  apns ← add_subscription addr Apns token [] [] 2;
  check (bool_decide (ps_kind apns = Apns) && bool_decide (ps_endpoint apns = token)
         && bool_decide (ps_p256dh apns = []) && bool_decide (ps_auth apns = []));;
  l ← list_subscriptions addr; check (bool_decide (map ps_kind l = [Apns]));;
  add_subscription addr WebPush (lit "https://push.example/ep") (lit "k") (lit "a") 2;;
  expect_err (add_subscription addr Apns (lit "feedface5678") [] [] 2) is_limit;;
  switched ← add_subscription addr WebPush token (lit "k2") (lit "a2") 2;
  check (bool_decide (ps_id switched = ps_id apns) && bool_decide (ps_kind switched = WebPush));;
  b ← delete_subscription addr token; check b.

Definition purge_removes_push_subscriptions : TestM :=
  open addr (-1);;
  add_subscription addr WebPush (lit "https://push.example/ep") (lit "k") (lit "a") 0;;
  t ← utc_now; purge_expired t;;
  l ← list_subscriptions addr; check (bool_decide (l = [])).

(** Under a cap of two messages. *)
Definition message_count_quota_drops_oldest : TestM :=
  open addr 1;;
  save addr (sample_message (lit "msg-0"));; save addr (sample_message (lit "msg-1"));;
  save addr (sample_message (lit "msg-2"));; save addr (sample_message (lit "msg-3"));;
  l ← list_messages addr 0 None; check (bool_decide (subjects l = [lit "msg-3"; lit "msg-2"])).

(** Under a cap of a hundred bytes. *)
Definition mailbox_byte_quota_drops_oldest_but_keeps_newest : TestM :=
  open addr 1;;
  save addr (sized (lit "a") 40);; save addr (sized (lit "b") 40);; save addr (sized (lit "c") 40);;
  l ← list_messages addr 0 None; check (bool_decide (subjects l = [lit "c"; lit "b"]));;
  save addr (sized (lit "huge") 500);;
  l ← list_messages addr 0 None; check (bool_decide (subjects l = [lit "huge"])).

Definition list_messages_newest_first : TestM :=
  open addr 1;;
  save addr (sample_message (lit "msg-0"));; save addr (sample_message (lit "msg-1"));;
  save addr (sample_message (lit "msg-2"));;
  l ← list_messages addr 0 None;
  check (bool_decide (subjects l = [lit "msg-2"; lit "msg-1"; lit "msg-0"]));;
  check (all (λ w, bool_decide (ms_received_at w.2 ≤ ms_received_at w.1)) (zip l (tail l))).

Definition raw_message_roundtrip : TestM :=
  let original := lit "Subject: kept" ++ [13; 10; 13; 10] ++ lit "original bytes" in
  open addr 1;;
  kept ← save addr (with_raw original (sample_message (lit "kept")));
  without_raw ← save addr (sample_message (lit "dropped"));
  o ← get_raw_message addr (sm_id kept); check (bool_decide (o = Some original));;
  o ← get_raw_message addr (sm_id without_raw); check (is_none o);;
  id ← new_v4; o ← get_raw_message addr id; check (is_none o).

Definition ping_succeeds_on_healthy_store : TestM := ping.

Definition mark_seen_roundtrip : TestM :=
  open addr 1;;
  saved ← save addr (sample_message (lit "unread")); check (negb (sm_seen saved));;
  l ← list_messages addr 0 None; check (bool_decide (map ms_seen l = [false]));;
  b ← mark_seen addr (sm_id saved); check b;;
  b ← mark_seen addr (sm_id saved); check b;;
  l ← list_messages addr 0 None; check (bool_decide (map ms_seen l = [true]));;
  o ← get_message addr (sm_id saved); full ← unwrap o; check (sm_seen full);;
  id ← new_v4; b ← mark_seen addr id; check (negb b);;
  b ← mark_seen ghost (sm_id saved); check (negb b).

Definition delete_all_messages_clears_inbox_keeps_mailbox : TestM :=
  open addr 1;;
  saved ← save addr (with_attachment (lit "hello") (sample_message (lit "with-attachment")));
  meta ← unwrap (head (sm_attachments saved));
  save addr (sample_message (lit "plain"));;
  n ← delete_all_messages addr; check (bool_decide (n = 2));;
  l ← list_messages addr 0 None; check (bool_decide (l = []));;
  o ← get_attachment addr (sm_id saved) (am_id meta); check (is_none o);;
  o ← get_mailbox addr; check (negb (is_none o));;
  n ← delete_all_messages addr; check (bool_decide (n = 0)).

Definition pagination_limit_and_since_cursor : TestM :=
  let ids (l : list MessageSummary) := map ms_id l in
  open addr 1;;
  save addr (sample_message (lit "msg-0"));; save addr (sample_message (lit "msg-1"));;
  save addr (sample_message (lit "msg-2"));; save addr (sample_message (lit "msg-3"));;
  save addr (sample_message (lit "msg-4"));;
  full ← list_messages addr 0 None;
  check (bool_decide (length full = 5%nat));;
  page ← list_messages addr 2 None; check (bool_decide (ids page = take 2 (ids full)));;
  newer ← list_messages addr 0 (ids full !! 2%nat); check (bool_decide (ids newer = take 2 (ids full)));;
  none ← list_messages addr 0 (ids full !! 0%nat); check (bool_decide (ids none = []));;
  one ← list_messages addr 1 (ids full !! 3%nat); check (bool_decide (ids one = take 1 (ids full)));;
  id ← new_v4; all_of_them ← list_messages addr 0 (Some id); check (bool_decide (ids all_of_them = ids full)).

Definition custom_domain_lifecycle_and_recheck_listing : TestM :=
  let domain := lit "corp.example" in
  let due t := l ← list_custom_domains_to_recheck t; mret (length l) in
  created ← create_custom_domain domain (lit "hash-1") (lit "tok-1");
  check (bool_decide (cd_domain created = domain) && bool_decide (cd_status created = Pending));;
  expect_err (create_custom_domain domain (lit "hash-2") (lit "tok-2")) is_unique_violation;;
  o ← get_custom_domain domain; got ← unwrap o;
  check (bool_decide (cd_claim_token_hash got = lit "hash-1") && bool_decide (cd_txt_token got = lit "tok-1")
         && is_none (cd_verified_at got) && is_none (cd_last_checked_at got));;
  b ← custom_domain_is_verified domain; check (negb b);;
  t ← utc_now; n ← due t; check (bool_decide (n = 0%nat));;
  t ← utc_now;
  b ← record_custom_domain_check domain Verified (Some t) t; check b;;
  b ← custom_domain_is_verified domain; check b;;
  o ← get_custom_domain domain; got ← unwrap o;
  check (bool_decide (cd_status got = Verified) && bool_decide (cd_verified_at got = Some t)
         && bool_decide (cd_last_checked_at got = Some t));;
  n ← due (t + seconds 2); check (bool_decide (n = 1%nat));;
  n ← due (t - seconds 60); check (bool_decide (n = 0%nat));;
  b ← record_custom_domain_check domain Failed (Some t) t; check b;;
  b ← custom_domain_is_verified domain; check (negb b);;
  n ← due (t + seconds 2); check (bool_decide (n = 1%nat));;
  b ← delete_custom_domain domain; check b;;
  b ← delete_custom_domain domain; check (negb b);;
  o ← get_custom_domain domain; check (is_none o);;
  b ← record_custom_domain_check domain Verified (Some t) t; check (negb b).

(** Each test with the quotas its stores are opened with. *)
Definition suite : list (MailboxQuotas * TestM) :=
  map (pair UNLIMITED)
    [mailbox_lifecycle_create_get_extend_delete; duplicate_mailbox_is_a_unique_violation;
     message_round_trip_and_cascade_on_mailbox_delete; delete_single_message;
     purge_removes_only_expired_mailboxes; owner_token_hash_roundtrip_and_rotate;
     push_subscription_crud_cap_and_cascade; subscription_kinds_roundtrip_and_share_the_cap;
     purge_removes_push_subscriptions; list_messages_newest_first; raw_message_roundtrip;
     ping_succeeds_on_healthy_store; mark_seen_roundtrip; delete_all_messages_clears_inbox_keeps_mailbox;
     pagination_limit_and_since_cursor; custom_domain_lifecycle_and_recheck_listing]
  ++ [(mkMailboxQuotas 2 0, message_count_quota_drops_oldest);
      (mkMailboxQuotas 0 100, mailbox_byte_quota_drops_oldest_but_keeps_newest)].

(** Every test passes, each on a fresh store. *)
Definition passes (fresh : MailboxQuotas → S) (e : Env) : bool :=
  all (λ t : MailboxQuotas * TestM, match (t.2 (fresh t.1, e)).1 with Ok _ => true | Err _ => false end) suite.
End suite.

(** A clock that advances by a second per reading, and identifiers all different. *)
Definition test_env : Env :=
  mkEnv (λ n, seconds (1000000 + Z.of_nat n)) (λ n, 1000 + Z.of_nat n) (λ n, Z.of_nat n).

#[local] Existing Instance hex_UuidText.

Example memory_conforms : passes (λ q, with_quotas q new) test_env = true.
Proof. vm_compute. reflexivity. Qed.
Example sqlite_conforms : passes (λ q, lite_with_quotas q (lite_new (λ _, false))) test_env = true.
Proof. vm_compute. reflexivity. Qed.
Example postgres_conforms : passes (λ q, pg_with_quotas q (pg_new (λ _, false))) test_env = true.
Proof. vm_compute. reflexivity. Qed.
