(* ===== verification/SmtpDelivery.v ===== *)
(** * SmtpDelivery: the SMTP integration tests of the repository, on the models

    [tests/smtp_delivery.rs] drives a session over a socket and then asks the store what
    arrived. Here the same conversations, test by test and under their names, run on
    [handle] over the in-memory store. The tests use a mail parser that is a parameter of
    the model; [line_parser] stands for it on the plain messages they send. *)

From S2P Require Import Prelude Str Model Config StoreSpec MemoryStore SmtpIo Mime Events Regex Otp SmtpSession.

(** The test configuration: the defaults on [test.local] with the limits of the tests, and
    the four settings a test changes. *)
Definition test_config (max : Z) (catch_all custom raw : bool) : Config :=
  let c := Config_default in {|
  smtp_bind_addr := smtp_bind_addr c; api_bind_addr := api_bind_addr c;
  domains := [lit "test.local"]; database_url := []; db_max_connections := db_max_connections c;
  default_ttl := default_ttl c; max_message_size := max; max_recipients := 100;
  max_connections := 64; smtp_session_timeout := seconds 10; per_ip_connections_per_min := 1000;
  cleanup_interval := cleanup_interval c; cors_allowed_origins := cors_allowed_origins c;
  smtp_hostname := lit "mx.test.local"; tls := tls c;
  reserved_local_parts := reserved_local_parts c;
  api_rate_limit_per_second := api_rate_limit_per_second c;
  api_rate_limit_burst := api_rate_limit_burst c;
  create_rate_limit_per_minute := create_rate_limit_per_minute c;
  create_rate_limit_burst := create_rate_limit_burst c;
  api_request_timeout := api_request_timeout c;
  api_trust_proxy_headers := api_trust_proxy_headers c; api_docs_enabled := api_docs_enabled c;
  legal_pages_enabled := legal_pages_enabled c; sse_max_concurrent := sse_max_concurrent c;
  sse_max_per_ip := sse_max_per_ip c;
  max_addresses_per_ip_per_day := max_addresses_per_ip_per_day c;
  max_messages_per_mailbox := max_messages_per_mailbox c;
  max_mailbox_bytes := max_mailbox_bytes c; min_free_disk_bytes := min_free_disk_bytes c;
  vapid_public_key := vapid_public_key c; vapid_private_key := vapid_private_key c;
  vapid_subject := vapid_subject c;
  max_subscriptions_per_mailbox := max_subscriptions_per_mailbox c;
  apns_team_id := apns_team_id c; apns_key_id := apns_key_id c;
  apns_private_key := apns_private_key c; apns_topic := apns_topic c;
  apns_sandbox := apns_sandbox c; catch_all_enabled := catch_all;
  custom_domains_enabled := custom;
  max_custom_domains_per_ip_per_day := max_custom_domains_per_ip_per_day c;
  custom_domain_verify_throttle := custom_domain_verify_throttle c;
  store_raw_message := raw; entitlements_enforced := entitlements_enforced c;
  token_signing_key := token_signing_key c; revenuecat_secret_key := revenuecat_secret_key c;
  revenuecat_entitlement_id := revenuecat_entitlement_id c;
  client_attestation_required := client_attestation_required c;
  app_attest_team_id := app_attest_team_id c; app_attest_bundle_id := app_attest_bundle_id c;
  app_attest_root_pem := app_attest_root_pem c; free_tier := free_tier c; pro_tier := pro_tier c;
|}.
Definition plain : Config := test_config 1048576 false true false.

(** The lines of a text, as far as the first empty one and after it. *)
Fixpoint lines_of (s cur : str) : list str :=
  match s with
  | 13 :: 10 :: s => rev cur :: lines_of s []
  | c :: s => lines_of s (c :: cur)
  | [] => match cur with [] => [] | _ => [rev cur] end
  end.
Fixpoint head_body (ls : list str) : list str * list str :=
  match ls with
  | [] => ([], [])
  | [] :: ls => ([], ls)
  | l :: ls => (l :: (head_body ls).1, (head_body ls).2)
  end.
Definition header (name : str) (ls : list str) : option str :=
  head (omap (strip_prefix (name ++ lit ": ")) ls).
Definition line_parser : MailParser :=
  Build_MailParser (λ raw,
    let (h, b) := head_body (lines_of raw []) in
    Some (mkParsedMail ((λ a, mkAddr None (Some a)) <$> header (lit "From") h)
            (header (lit "Subject") h) None (Some (mjoin (map (.++ crlf) b))) None []))
    (λ _, None).
#[local] Existing Instance line_parser.
#[local] Existing Instance reference_engine.

(** A clock that advances by a second per reading, and identifiers all different. *)
Definition session_env : Env :=
  mkEnv (λ n, seconds (1000000 + Z.of_nat n)) (λ n, 1000 + Z.of_nat n) (λ n, Z.of_nat n).

(** The last line of each reply, cut to its code: what [read_reply] lets a test see. *)
Definition codes (out : bytes) : list str :=
  map (take 3) (retain (λ l, bool_decide (l !! 3%nat = Some 32)) (lines_of out [])).

(** A test: what the store holds first, the lines sent, the codes that must answer them
    (the greeting first), and what is asked of the store and the bus afterwards. *)
Definition prepared (setup : SM MemoryStore unit) : MemoryStore * Env := (setup (new, session_env)).2.
Definition conversation (config : Config) (setup : SM MemoryStore unit) (sent : list str) :
    result unit io_error * World MemoryStore :=
  handle config None (λ _, None) 40 (map (λ l, Recv (l ++ crlf)) sent) None (prepared setup) [].
Definition answered (config : Config) (setup : SM MemoryStore unit) (sent : list str)
    (expected : list String.string) : bool :=
  let (r, w) := conversation config setup sent in
  bool_decide (codes (c_out (w_conn w)) = map lit expected)
  && match r with Ok _ => true | Err _ => false end.
Definition afterwards {A} (config : Config) (setup : SM MemoryStore unit) (sent : list str)
    (q : SM MemoryStore A) : result A anyhow :=
  (q (w_st (conversation config setup sent).2)).1.

Definition ask : list str :=
  [lit "EHLO client.test"; lit "MAIL FROM:<sender@elsewhere.test>"].
Definition user : str := lit "user@test.local".
Definition rcpt_line (a : str) : str := lit "RCPT TO:<" ++ a ++ lit ">".
Definition with_user : SM MemoryStore unit :=
  t ← utc_now; create_mailbox user (lit "test.local") (t + hours 1) None None;; mret tt.

(** What the tests read back. *)
Definition received (a : str) : SM MemoryStore (list (option str)) :=
  l ← list_messages a 0 None; mret (map ms_subject l).
Definition first_message (a : str) : SM MemoryStore (option StoredMessage) :=
  l ← list_messages a 0 None;
  match l with s :: _ => get_message a (ms_id s) | [] => mret None end.
Definition first_raw (a : str) : SM MemoryStore (option bytes) :=
  l ← list_messages a 0 None;
  match l with s :: _ => get_raw_message a (ms_id s) | [] => mret None end.
Definition first_body (a : str) : SM MemoryStore (option str) :=
  m ← first_message a; mret (m ≫= sm_text_body).
Definition mailbox_exists (a : str) : SM MemoryStore bool :=
  m ← get_mailbox a; mret (bool_decide (is_Some m)).

(** ** The tests *)

Definition first_mail : list str :=
  ask ++ map rcpt_line [lit "nobody@test.local"; lit "user@notours.example"; user] ++ map lit
    ["DATA"; "From: Sender Person <sender@elsewhere.test>"; "Subject: Integration test";
     "Content-Type: text/plain"; ""; "Hello inbound world!"; "."; "QUIT"]%string.
Example delivers_message_to_valid_recipient :
  answered plain with_user first_mail
    ["220"; "250"; "250"; "550"; "550"; "250"; "354"; "250"; "221"] = true ∧
  afterwards plain with_user first_mail (received user) = Ok [Some (lit "Integration test")] ∧
  afterwards plain with_user first_mail (m ← first_message user; mret (sm_mail_from <$> m, m ≫= sm_text_body))
  = Ok (Some (lit "Sender Person <sender@elsewhere.test>"), Some (lit "Hello inbound world!" ++ crlf)) ∧
  map ev_address (w_bus (conversation plain with_user first_mail).2) = [user] ∧
  afterwards plain with_user first_mail (l ← list_messages user 0 None; mret (map ms_id l))
  = Ok (map ev_id (w_bus (conversation plain with_user first_mail).2)).
Proof. vm_compute. repeat split. Qed.

(** Oversize DATA is refused, nothing is stored, and the session stays usable. *)
Definition big_mail : list str :=
  ask ++ [rcpt_line user] ++ map lit ["DATA"; "Subject: big"; ""]%string
  ++ List.repeat (List.repeat 120 100) 10 ++ map lit ["."; "NOOP"; "QUIT"]%string.
Example oversize_data_rejected_with_552_and_not_stored :
  answered (test_config 512 false true false) with_user big_mail
    ["220"; "250"; "250"; "250"; "354"; "552"; "250"; "221"] = true ∧
  afterwards (test_config 512 false true false) with_user big_mail (received user) = Ok [].
Proof. vm_compute. split; reflexivity. Qed.

Definition dotted_mail : list str :=
  ask ++ [rcpt_line user] ++ map lit ["DATA"; "Subject: dots"; "Content-Type: text/plain"; "";
    "..leading dot line"; ".."; "normal line"; "."; "QUIT"]%string.
Example dot_stuffed_lines_are_unstuffed_in_stored_body :
  answered plain with_user dotted_mail ["220"; "250"; "250"; "250"; "354"; "250"; "221"] = true ∧
  afterwards plain with_user dotted_mail (first_body user)
  = Ok (Some (mjoin (map (λ l, lit l ++ crlf) [".leading dot line"; "."; "normal line"]%string))).
Proof. vm_compute. split; reflexivity. Qed.

Definition raw_mail : list str :=
  ask ++ [rcpt_line user] ++ map lit ["DATA"; "Subject: raw check"; ""; "body line"; "."; "QUIT"]%string.
Example raw_bytes_retained_only_when_enabled :
  afterwards (test_config 1048576 false true true) with_user raw_mail (first_raw user)
  = Ok (Some (mjoin (map (λ l, lit l ++ crlf) ["Subject: raw check"; ""; "body line"]%string))) ∧
  afterwards plain with_user raw_mail (first_raw user) = Ok None ∧
  afterwards plain with_user raw_mail (received user) = Ok [Some (lit "raw check")].
Proof. vm_compute. repeat split. Qed.

Definition tagged_mail : list str :=
  ask ++ [rcpt_line (lit "user+newsletter@test.local")]
  ++ map lit ["DATA"; "Subject: tagged"; ""; "hi"; "."; "QUIT"]%string.
Example plus_addressed_mail_lands_in_base_mailbox :
  answered plain with_user tagged_mail ["220"; "250"; "250"; "250"; "354"; "250"; "221"] = true ∧
  afterwards plain with_user tagged_mail (received user) = Ok [Some (lit "tagged")].
Proof. vm_compute. split; reflexivity. Qed.

Definition caught_mail : list str :=
  ask ++ map rcpt_line [lit "brand-new@test.local"; lit "admin@test.local"]
  ++ map lit ["DATA"; "Subject: caught"; ""; "hello"; "."; "QUIT"]%string.
Definition catching : Config := test_config 1048576 true true false.
Example catch_all_creates_mailboxes_but_refuses_reserved :
  answered catching (mret tt) caught_mail ["220"; "250"; "250"; "250"; "550"; "354"; "250"; "221"] = true ∧
  afterwards catching (mret tt) caught_mail
    (m ← get_mailbox (lit "brand-new@test.local"); t ← utc_now;
     mret (match m with Some m => t <? mb_expires_at m | None => false end))
  = Ok true ∧
  afterwards catching (mret tt) caught_mail (received (lit "brand-new@test.local")) = Ok [Some (lit "caught")] ∧
  afterwards catching (mret tt) caught_mail (mailbox_exists (lit "admin@test.local")) = Ok false.
Proof. vm_compute. repeat split. Qed.

Definition hopeless_mail : list str := ask ++ [rcpt_line (lit "ghost@test.local"); lit "DATA"; lit "QUIT"].
Example rejects_message_with_no_valid_recipients :
  answered plain (mret tt) hopeless_mail ["220"; "250"; "250"; "550"; "554"; "221"] = true.
Proof. vm_compute. reflexivity. Qed.

(** A verified claim with one mailbox, and a claim never verified. *)
Definition with_claims : SM MemoryStore unit :=
  let corp := lit "corp.example" in
  t ← utc_now;
  create_custom_domain corp (lit "hash") (lit "tok");;
  record_custom_domain_check corp Verified (Some t) t;;
  create_mailbox (lit "jane@corp.example") corp (t + hours 1) None None;;
  create_custom_domain (lit "pending.example") (lit "hash2") (lit "tok2");; mret tt.
Definition jane : str := lit "jane@corp.example".
Definition custom_mail : list str :=
  ask ++ map rcpt_line [jane; lit "stranger@corp.example"; lit "jane@pending.example"]
  ++ map lit ["DATA"; "From: Sender <sender@elsewhere.test>"; "Subject: To a custom domain"; "";
              "Hello custom domain!"; "."; "QUIT"]%string.
Example custom_domain_recipients_gated_on_verification :
  answered catching with_claims custom_mail
    ["220"; "250"; "250"; "250"; "550"; "550"; "354"; "250"; "221"] = true ∧
  afterwards catching with_claims custom_mail (received jane) = Ok [Some (lit "To a custom domain")] ∧
  afterwards catching with_claims custom_mail (mailbox_exists (lit "stranger@corp.example")) = Ok false.
Proof. vm_compute. repeat split. Qed.

Definition refused_mail : list str := ask ++ [rcpt_line jane; lit "QUIT"].
Example custom_domains_disabled_rejects_verified_claims :
  answered (test_config 1048576 false false false) with_claims refused_mail
    ["220"; "250"; "250"; "550"; "221"] = true.
Proof. vm_compute. reflexivity. Qed.
